(* ===== verification/_CoqProject ===== *)
-Q . S2P
Prelude.v
GoStrings.v
Goroutines.v
LimitGroup.v
NetHttp.v
Retry.v
Terminal.v
CustomHttp.v
HttpClient.v
Exchange.v
DnsCache.v
AgentTypes.v
Converter.v
DeepCopy.v
DeepCopyExamples.v
Reconciler.v
ReconcilerSpec.v
ReconcilerRuns.v
Settling.v
Operator.v
ControlLoop.v
ControlLoopExample.v
Conf.v
EnvConf.v
AgentWorld.v
Untar.v
CopyFromPod.v
Multipart.v
Callback.v
Services.v
Jobs.v
JobsEvolve.v
JobsOrder.v
System.v
Finished.v
Dumps.v
Merges.v
DumpRuns.v
DumpGroup.v
Reports.v
Scheduling.v
Executions.v
Progress.v
LockLeak.v
Rbac.v
OperatorRbac.v
JobExamples.v
