(* ===== verification/Prelude.v ===== *)
(** * A verification development for erda-sourcecov

    erda-sourcecov measures the test coverage of Java services on Kubernetes. It has two
    programs. The _operator_ (src/main.go, src/controllers) turns each Agent resource of the
    cluster into a service account, a role, a role binding and a stateful set that runs the
    agent. The _agent_ (src/agent) watches the deployments of a namespace and keeps the
    registry [Services] of those whose containers carry the JaCoCo agent, copies the jar
    files out of their pods, asks the center every few seconds for the coverage plan that is
    wanted, and runs a _job_ for it: dump the counters of every pod every few minutes, merge
    the dump files per service, and at the end merge them into one, build an XML and an HTML
    report, and send both to the center. The HTTP client of the agent is a library in the
    same repository.

    ** The files

    Shared foundations:
    - [Prelude]: the outcome of a Go call ([Done], [Panic], [Blocked]), the state monad of
      sequential code with its laws, generic lemmas on lists and maps;
    - [GoStrings], [NetHttp]: what the program uses of the packages strings and net/http;
    - [Goroutines]: goroutines as trees of atomic pieces ([prog]), their sequential and
      their interleaved meaning ([alone], [exec]), and the predicates on them ([preserves],
      [keeps], [returns], [ready]) with the tactics [preserve] and [keep] and their hint
      databases.

    The operator:
    - [AgentTypes]: api/v1alpha1, and the class [K8sTypes] of the Kubernetes types that are
      only passed on;
    - [Converter]: controllers/converter.go, from an agent to the objects it owns;
      [DeepCopy]: zz_generated.deepcopy.go, and [FillDefaultValue] once more, on a memory of
      structs, slices, maps and pointers ([DeepCopyExamples]: a concrete one);
    - [Reconciler]: controllers/agent_controller.go against the interface [ApiServer] whose
      laws [ApiServerLaws] are the documented behaviour of create and update, and of reads
      from a cache;
    - [ReconcilerSpec]: the abstract operator [operator_step] that [Reconcile] refines when it
      runs alone; [ReconcilerRuns]: what a run guarantees while others change the cluster and
      the cache; [Settling]: how runs, also those on old data, settle an agent;
    - [Operator]: main.go and the scheme; [ControlLoop]: the running process as the step
      relation [op_step]: edits of others and of the cache, the calls of the run in progress,
      timers, crashes and restarts ([ControlLoopExample]: an execution of it);
    - [OperatorRbac]: the cluster role of the operator.

    The agent:
    - [Conf]: agent/conf/conf.go, agent/core/addr.go, agent/core/status.go; [EnvConf]:
      agent/conf/envconf.go, the loading of the configuration;
    - [AgentWorld]: the state of the process ([world]: two registries of pointers, heaps of
      jobs, of services and of wait groups, the goroutines started, the history of calls),
      the calls to the outside and the [oracle] that answers them;
    - [Callback]: agent/core/callback.go; [Services]: agent/core/watcher.go without the
      copying and unpacking; [Untar]: the unpacking, each path followed through the symbolic
      links made so far; [CopyFromPod]: the copy out of a pod, its two goroutines as a step
      relation; [Jobs]: agent/core/job.go and file.go;
    - [JobsEvolve], [JobsOrder]: what every operation of [Jobs] does to the registries;
    - [System]: agent/cmd/main.go and the informer, as the step relation [step] on the whole
      process; [Executions]: runs of one goroutine as executions of the process; [Progress]:
      executions without end, and what they come to;
    - [Finished], [DumpRuns], [DumpGroup], [Dumps], [Merges], [Reports], [Scheduling]: the
      theorems on jobs, by subject; [LockLeak]: who holds the dump lock of a job, over all
      interleavings; [JobExamples]: concrete runs of them;
    - [Rbac]: the agent and the operator together.

    The packages of the agent:
    - [LimitGroup]: pkg/limit_wait_group, the operations of the group interleaved;
    - [CustomHttp]: pkg/httpclient/customhttp; [Retry]: retry.go and the end of request.go;
      [HttpClient]: client.go, response.go and the building of requests in request.go;
      [Exchange]: the sending of a request and the reading of the answer in request.go;
      [Multipart]: the upload stream of request.go; [Terminal]: color_str, loading.go and
      trace.go; [DnsCache]: dnscache.go and the dialer of client.go, lookups and refreshes
      interleaved.

    ** How the code is represented

    A Go function that touches global state is a computation: from a state to an outcome
    and a state. A nil dereference, an index out of range and an explicit panic are
    [Panic]; what cannot go on now (a mutex that is held, a full channel) is [Blocked].
    The conversion of an agent and the HTTP client are sequential and live in the monad [M W].
    [Reconcile] and the functions of the agent are programs [prog W A]: a statement on memory
    is [Local], a call to the outside, a lock or a channel operation is [Await], a go statement
    inside a dump is [Fork]. The coercion [alone] runs a program without interruption, a
    forked goroutine before what follows it; functional theorems speak of [alone]. The
    processes [System] and [ControlLoop] run programs with [exec], from one suspension to the
    next, and let all goroutines, or all who write to the cluster, interleave there; invariants
    and safety theorems speak of every state reachable in this way. [Executions] connects the two: a sequential run is one of the
    interleavings.

    A pointer is a location of a heap, so two holders of one job or service see each other's
    assignments. A closure passed to [sync.Map.Range] is a definition of its own, run over
    the entries in an order that the oracle chooses, as Go's documentation leaves it open.
    A goroutine of the agent is a constructor of [goroutine], put in [spawned] by the go
    statement and started by a step of [System] ([goroutine_code] gives its program). A
    job's context is the flag [ctx_done]. A Go string is a string of bytes, a uint64 an [N]
    whose bound the parser enforces, nil maps and slices are [None].

    Parameters, which stand for code outside the repository: the oracle (commands, files,
    sockets, HTTP transport, the Kubernetes API and the clock, each answer depending on all
    calls before it, so that nothing at all is assumed of the answers); the parser of
    net/url; encoding/json; [RetryOnConflict] of client-go with the law [RetryLaw] (the
    function is run, and run again only after an error, and the result is that of the last
    run); the API server with [ApiServerLaws]; [SetControllerReference]; the deep copies of the
    Kubernetes types ([K8sCopies]); flag parsing and the answers of controller-runtime at the
    start; [LookupIP]; the executor of a command in a pod; the cookie jar; [Printf]. Theorems on concrete runs
    instantiate all of them.

    ** What is proved

    - Registries ([System], [Finished]): over all interleavings at most one registered job
      runs, every entry is under its own plan, a cancelled job never runs or visits a service
      again, a deleted service never comes back to life, an error message is never cleared,
      and a plan that the center reports finished is never cleaned up.
    - Dumps among goroutines ([DumpGroup], [DumpRuns], [LimitGroup]): the roles of a
      goroutine towards a wait group are types of programs, all code of the agent is well
      typed, and so no dump ever has more than five tasks; the dump lock is given back
      except where [report] fails early; the group alone is safe, free of deadlock and
      terminates.
    - The dump lock ([LockLeak]): the code of every goroutine is typed by whether it owns the
      lock; after a report that fails early nobody does, and it stays held for ever.
    - Executions ([Executions], [Progress]): sequential runs happen; in every execution in
      which [WatchJob] keeps moving, a plan the center wants is registered again and again.
    - Jobs ([Dumps], [Merges], [Reports], [Scheduling]): what a dump, a merge, a report that
      succeeds or fails, the message to the center, a new plan and a failure do, on all
      branches; for a dump and a merge of a service, the exact calls.
    - Services ([Services], [Untar], [CopyFromPod]): which deployments become services, how a known one is
      changed, what a reload of jars writes, when the informer ends the process; unpacking
      stays in its directory if no name has a .. in it and no link leads out of it, and can
      leave it otherwise; whether the error of a copy without output is seen is up to the
      schedule, and with output it never is.
    - Conversation ([Callback]): an end callback that returns nil was answered with 200.
    - Operator ([Converter], [Reconciler], [ReconcilerSpec]): the objects fit together;
      a run of [Reconcile] alone is a step of the abstract operator, and after a success later
      runs change nothing; after a failed last write no run repairs it.
    - Operator process ([Operator], [ReconcilerRuns], [Settling], [ControlLoop],
      [OperatorRbac]): it starts the manager last and stops at the first failure; however
      others interfere and the cache lags, a run touches only what belongs to its agent; no agent
      is forgotten unless a stateful set with its name vanishes that it does not control
      ([not_orphaned]), and one can be forgotten so; under fairness every run ends and every
      agent gets settled; what the operator writes and grants is covered by its own role.
    - Memory ([DeepCopy]): deep copies share nothing, so the value-level definitions of
      [Converter] are what the code computes on its copy.
    - Both programs ([Rbac]): every Kubernetes call in every history of the agent is allowed
      by the role the operator generates, if the agent is configured for its own namespace.
    - Libraries: freshness of the DNS cache; bounds on retries and the requests they
      send, which share a header map and so differ by the cookies of a jar;
      the request built by the client; a spinner and a lawful tracer change nothing of an
      exchange; the spinner ends with its function under every schedule; the stream of an
      upload, and that it hangs when a field cannot be read; the splitting of portal URLs
      inverted; the start of the agent from its environment.

    ** Recursion

    Loops over lists and counters are structural. Three functions have fuel, the length of
    the string they shorten, which [trim_left_enough] and [strip_loop_no_dots] prove enough:
    [trim_left], [trim_right] and [strip_loop]. The infinite loops of the agent (WatchJob,
    the 30 second wait of a job, the informer) are steps of [System], one round a step. The
    loop of a dump counts its rounds, as the code does. [until] of [System] only plays
    schedules in witnesses, and its result is computed there.

    ** Simplifications

    Statements between two suspensions are atomic, so a data race on plain memory within
    such a stretch is not seen; the one race that decides a result, on the error of a copy,
    is in [CopyFromPod]. A slice of pods is a value: a mark that another goroutine sets
    on a pod while a loop over the slice runs is seen from the next loop on. In [System] the
    copying of a directory out of a pod is one call of the oracle, and the retries of
    client-go start no goroutine.
    A write of [Reconcile] is accepted or refused by the server as it likes; that a server
    refuses an update of an old version of an object is not used. A goroutine put in [spawned] starts only after the stretch of
    the one that started it; a go statement of a dump ends the stretch.

    ** Not modelled

    Logging and metrics; what net/http, crypto/tls, archive/tar, flag and controller-runtime
    do themselves: following redirects, parsing certificates, the text of a cookie, the format
    of an archive, the flags of the logger, leader election; the shell scripts that extract
    classes (commands of the oracle).

    ** Further work, by importance

    The versions of objects, and with them the settling of an agent that others edit; the
    upload stream of [Multipart] read back by a parser of parts; a scheduling point between any
    two accesses to shared memory; fairness for all goroutines of the agent at once, and with it
    that a registered plan is dumped. *)

From stdpp Require Import base tactics option list gmap strings pretty.

(** ** Go values *)

(** A Go [error] that is only ever printed or compared with [nil]: its message.
    [nil] is [None] wherever an [option error] is returned. *)
Definition error : Type := string.

(** What one Go function call can do: return, panic (an out-of-range index, a nil
    dereference, an explicit [panic]), or block forever on a mutex nobody releases. *)
Inductive outcome (A : Type) : Type :=
| Done (a : A)
| Panic (msg : string)
| Blocked.
Arguments Done {A} a.
Arguments Panic {A} msg.
Arguments Blocked {A}.

#[global] Instance outcome_eq_dec {A} `{EqDecision A} : EqDecision (outcome A).
Proof. solve_decision. Defined.

Definition is_done {A} (o : outcome A) : bool :=
  match o with Done _ => true | _ => false end.

(** ** The state monad of the Go code

    A computation reads and writes the state [W] of its component and ends in an
    [outcome]; a panic or a blocked call keeps the state reached so far. *)
Definition M (W A : Type) : Type := W -> outcome A * W.

#[global] Instance M_ret W : MRet (M W) := fun A a w => (Done a, w).
#[global] Instance M_bind W : MBind (M W) := fun A B k m w =>
  match m w with
  | (Done a, w') => k a w'
  | (Panic e, w') => (Panic e, w')
  | (Blocked, w') => (Blocked, w')
  end.

Definition gets {W A} (f : W -> A) : M W A := fun w => (Done (f w), w).
Definition modify {W} (f : W -> W) : M W unit := fun w => (Done tt, f w).
Definition panic {W A} (msg : string) : M W A := fun w => (Panic msg, w).
Definition block {W A} : M W A := fun w => (Blocked, w).

(** [for _, x := range l { body }] where the body never leaves the loop early. *)
Fixpoint for_each {F : Type -> Type} `{MRet F, MBind F} {A} (l : list A) (body : A -> F unit) : F unit :=
  match l with
  | [] => mret tt
  | x :: l' => _ ← body x; for_each l' body
  end.

(** ** Laws and rewriting of the monad *)

Section MonadLaws.
Context {W A B : Type}.

Lemma M_bind_run (m : M W A) (k : A -> M W B) (w : W) :
  (m ≫= k) w = match m w with
               | (Done a, w') => k a w'
               | (Panic e, w') => (Panic e, w')
               | (Blocked, w') => (Blocked, w')
               end.
Proof. reflexivity. Qed.

Lemma M_bind_done (m : M W A) (k : A -> M W B) (w w' : W) (a : A) :
  m w = (Done a, w') -> (m ≫= k) w = k a w'.
Proof. intros H. by rewrite M_bind_run, H. Qed.

Lemma M_bind_inv_done (m : M W A) (k : A -> M W B) (w w2 : W) (b : B) :
  (m ≫= k) w = (Done b, w2) ->
  exists a w1, m w = (Done a, w1) /\ k a w1 = (Done b, w2).
Proof. rewrite M_bind_run. destruct (m w) as [[a| |] w1]; naive_solver. Qed.
End MonadLaws.

(** [go_inv] splits every hypothesis that says a sequence of Go statements returned. *)
Ltac go_inv :=
  repeat match goal with
  | H : (_ ≫= _) _ = (Done _, _) |- _ =>
      let a := fresh "r" in let w := fresh "w" in let E := fresh "E" in
      apply M_bind_inv_done in H as (a & w & E & H)
  | H : mret _ _ = (Done _, _) |- _ => unfold mret, M_ret in H; simplify_eq
  | H : gets _ _ = (Done _, _) |- _ => unfold gets in H; simplify_eq
  | H : modify _ _ = (Done _, _) |- _ => unfold modify in H; simplify_eq
  | H : panic _ _ = (Done _, _) |- _ => discriminate H
  | H : block _ = (Done _, _) |- _ => discriminate H
  end.

(** [go_run] runs the statements whose result is known. *)
Ltac go_run :=
  repeat first
    [ rewrite M_bind_run
    | progress unfold mret, M_ret, gets, modify, panic, block
    | progress cbn beta iota ].

(** A run, from its outcome. *)
Lemma M_run_of_outcome {W A} (m : M W A) w o : (m w).1 = o -> m w = (o, (m w).2).
Proof. intros <-. apply surjective_pairing. Qed.

(** The goal is the outcome [o] of a closed run [E : m w = (o, w')]: evaluate it. *)
Ltac run_outcome E :=
  match type of E with
  | _ = (?o, ?w) => change o with (fst (o, w)); rewrite <- E; vm_compute; reflexivity
  end.

(** ** What a computation may do to the state

    [preserves R m]: every run of [m], whatever its outcome, takes a state to a related one.
    For a preorder [R] this is closed under the constructions of the monad, so the relation
    of a whole handler follows from the relations of its primitive operations. *)
Definition preserves {W A} (R : W -> W -> Prop) (m : M W A) : Prop :=
  forall w, R w (snd (m w)).

Create HintDb preserves.

Section Preserves.
Context {W : Type} (R : W -> W -> Prop) `{!PreOrder R}.

Lemma M_preserves_ret {A} (a : A) : preserves R (mret a).
Proof. intros w. cbn. reflexivity. Qed.

Lemma M_preserves_gets {A} (f : W -> A) : preserves R (gets f).
Proof. intros w. cbn. reflexivity. Qed.

Lemma M_preserves_panic {A} msg : preserves R (panic (A := A) msg).
Proof. intros w. cbn. reflexivity. Qed.

Lemma preserves_block {A} : preserves R (block (A := A)).
Proof. intros w. cbn. reflexivity. Qed.

Lemma M_preserves_bind {A B} (m : M W A) (k : A -> M W B) :
  preserves R m -> (forall a, preserves R (k a)) -> preserves R (m ≫= k).
Proof.
  intros Hm Hk w. rewrite M_bind_run. specialize (Hm w).
  destruct (m w) as [[a| |] w1]; cbn in *; [|done..]. etrans; [exact Hm|apply Hk].
Qed.

End Preserves.

(** [preserve] proves that a handler preserves a preorder, down to its primitives, which the
    database [preserves] knows. *)
Ltac preserve :=
  repeat first
    [ solve [auto with preserves]
    | apply M_preserves_ret; [typeclasses eauto]
    | apply M_preserves_gets; [typeclasses eauto]
    | apply M_preserves_panic; [typeclasses eauto]
    | apply preserves_block; [typeclasses eauto]
    | apply M_preserves_bind; [typeclasses eauto | | intros ?]
    | case_match ].

(** ** Decimal numbers ([fmt] verb %v on an unsigned integer) *)

Definition fmt_uint (n : N) : string := pretty n.

Lemma fmt_uint_inj n m : fmt_uint n = fmt_uint m -> n = m.
Proof. apply (inj pretty). Qed.

(** ** Searching *)

(** The first number from [i] on with a property that some number from [i] on has. *)
Lemma least_from (f : nat -> bool) i j :
  i <= j -> f j = true -> exists m, i <= m /\ f m = true /\ forall k, i <= k < m -> f k = false.
Proof.
  intros Hij. revert i Hij. induction j as [j IH] using (well_founded_induction lt_wf). intros i Hij Hj.
  destruct (existsb f (seq i (j - i))) eqn:E.
  - apply existsb_exists in E as (k & Hk%in_seq & Hfk). apply (IH k); [lia..|done].
  - exists j. split_and!; [done..|]. intros k Hk. destruct (f k) eqn:Ef; [|done].
    rewrite <- E. symmetry. apply existsb_exists. exists k. split; [apply in_seq; lia|done].
Qed.
