(* ===== verification/GoStrings.v ===== *)
(** * The part of Go's [strings] package the program uses

    Go strings are byte sequences, so a Go string is a [string] of 8-bit characters and
    every function below works byte by byte, as the Go functions do. *)

From stdpp Require Import base tactics option list strings numbers.
From S2P Require Import Prelude.

(** ** Functions *)

(** [s[n:]] and [s[:n]] for [n <= len(s)]. *)
Fixpoint drop_str (n : nat) (s : string) : string :=
  match n, s with
  | 0, _ => s
  | S n', String _ s' => drop_str n' s'
  | S _, EmptyString => EmptyString
  end.

Fixpoint take_str (n : nat) (s : string) : string :=
  match n, s with
  | S n', String c s' => String c (take_str n' s')
  | _, _ => EmptyString
  end.

(** [strings.HasPrefix(s, p)] *)
Fixpoint HasPrefix (s p : string) : bool :=
  match p, s with
  | EmptyString, _ => true
  | String a p', String b s' => bool_decide (a = b) && HasPrefix s' p'
  | String _ _, EmptyString => false
  end.

(** [strings.TrimPrefix(s, p)] *)
Definition TrimPrefix (s p : string) : string :=
  if HasPrefix s p then drop_str (String.length p) s else s.

(** [strings.HasSuffix(s, p)] *)
Definition HasSuffix (s p : string) : bool :=
  bool_decide (String.length p <= String.length s) &&
  bool_decide (drop_str (String.length s - String.length p) s = p).

(** [strings.Index(s, sep)], [None] for -1. *)
Fixpoint Index (s sep : string) : option nat :=
  if HasPrefix s sep then Some 0
  else match s with
       | EmptyString => None
       | String _ s' => S <$> Index s' sep
       end.

(** [strings.Contains(s, sub)] *)
Definition Contains (s sub : string) : bool :=
  match Index s sub with Some _ => true | None => false end.

(** [strings.Replace(s, old, new, -1)] for a non-empty [old]: the matches are found from
    the left and do not overlap. [skip] counts the characters of the current match that
    are still to be dropped. *)
Fixpoint replace_from (old new : string) (skip : nat) (s : string) : string :=
  match s with
  | EmptyString => EmptyString
  | String c s' =>
      match skip with
      | S k => replace_from old new k s'
      | 0 => if HasPrefix s old
             then new +:+ replace_from old new (String.length old - 1) s'
             else String c (replace_from old new 0 s')
      end
  end.
Definition ReplaceAll (s old new : string) : string := replace_from old new 0 s.

(** [strings.SplitN(s, sep, n)] for [n > 0] and a non-empty [sep]. *)
Fixpoint SplitN (s sep : string) (n : nat) : list string :=
  match n with
  | 0 => []
  | 1 => [s]
  | S n' => match Index s sep with
            | None => [s]
            | Some m => take_str m s :: SplitN (drop_str (m + String.length sep) s) sep n'
            end
  end.

(** [strings.Split(s, sep)]: at most [len(s) + 1] pieces. *)
Definition Split (s sep : string) : list string := SplitN s sep (S (String.length s)).

(** [strings.Join(elems, sep)] *)
Fixpoint Join (elems : list string) (sep : string) : string :=
  match elems with
  | [] => EmptyString
  | [x] => x
  | x :: l => x +:+ sep +:+ Join l sep
  end.

(** [strings.TrimLeft(s, cutset)] for a cutset of one character. *)
Fixpoint TrimLeft1 (s : string) (c : Ascii.ascii) : string :=
  match s with
  | String a s' => if bool_decide (a = c) then TrimLeft1 s' c else s
  | EmptyString => EmptyString
  end.

(** No character of [s] is [c]. *)
Fixpoint no_char (c : Ascii.ascii) (s : string) : bool :=
  match s with
  | EmptyString => true
  | String a s' => negb (bool_decide (a = c)) && no_char c s'
  end.

(** ** Lemmas *)

Lemma str_app_cons c s t : String c s +:+ t = String c (s +:+ t).
Proof. reflexivity. Qed.

Lemma str_app_nil_r s : s +:+ EmptyString = s.
Proof. induction s as [|c s IH]; [done|]. by rewrite str_app_cons, IH. Qed.

Lemma str_app_assoc (s t u : string) : (s +:+ t) +:+ u = s +:+ t +:+ u.
Proof. induction s as [|c s IH]; [done|]. by rewrite !str_app_cons, IH. Qed.

Lemma str_length_app s t :
  String.length (s +:+ t) = String.length s + String.length t.
Proof. induction s as [|c s IH]; [done|]. rewrite str_app_cons. cbn. by rewrite IH. Qed.

Lemma drop_str_app s t : drop_str (String.length s) (s +:+ t) = t.
Proof. by induction s. Qed.

Lemma take_str_app s t : take_str (String.length s) (s +:+ t) = s.
Proof. induction s as [|c s IH]; [by destruct t|]. rewrite str_app_cons. cbn. by rewrite IH. Qed.

Lemma take_drop_str n s : take_str n s +:+ drop_str n s = s.
Proof.
  revert s. induction n as [|n IH]; intros [|c s]; try done.
  cbn. rewrite str_app_cons. by rewrite IH.
Qed.

Lemma length_take_str n s : n <= String.length s -> String.length (take_str n s) = n.
Proof. revert s. induction n as [|n IH]; intros [|c s] H; cbn in *; auto with lia. Qed.

Lemma take_str_length_le n s : String.length (take_str n s) <= n.
Proof. revert s. induction n as [|n IH]; intros [|c s]; cbn; auto with lia. specialize (IH s). lia. Qed.

Lemma HasPrefix_spec s p : HasPrefix s p = true <-> exists t, s = p +:+ t.
Proof.
  revert s. induction p as [|a p IH]; intros s; cbn.
  - split; [by exists s | by destruct s].
  - destruct s as [|b s]; [split; [done | intros [? ?]; done]|].
    cbn. rewrite andb_true_iff, bool_decide_eq_true, IH. split.
    + intros [-> [t ->]]. by exists t.
    + intros [t Ht]. rewrite str_app_cons in Ht. simplify_eq. eauto.
Qed.

Lemma HasPrefix_app p t : HasPrefix (p +:+ t) p = true.
Proof. apply HasPrefix_spec. eauto. Qed.

Lemma TrimPrefix_app p t : TrimPrefix (p +:+ t) p = t.
Proof. unfold TrimPrefix. rewrite HasPrefix_app. apply drop_str_app. Qed.

Lemma TrimPrefix_cases s p :
  (exists t, s = p +:+ t /\ TrimPrefix s p = t) \/
  (HasPrefix s p = false /\ TrimPrefix s p = s).
Proof.
  unfold TrimPrefix. destruct (HasPrefix s p) eqn:E; [left|right; done].
  apply HasPrefix_spec in E as [t ->]. exists t. by rewrite drop_str_app.
Qed.

Lemma no_char_app c s t : no_char c (s +:+ t) = no_char c s && no_char c t.
Proof. induction s as [|a s IH]; [done|]. rewrite str_app_cons. cbn. rewrite IH. by rewrite andb_assoc. Qed.

(** One-character separators. *)
Lemma HasPrefix_char a s c :
  HasPrefix (String a s) (String c EmptyString) = bool_decide (c = a).
Proof. cbn. destruct s; by rewrite andb_true_r. Qed.

Lemma Index_char_cons a s c :
  Index (String a s) (String c EmptyString) =
  if bool_decide (c = a) then Some 0 else S <$> Index s (String c EmptyString).
Proof. rewrite <- (HasPrefix_char a s c). reflexivity. Qed.

Lemma no_char_cons c a s :
  no_char c (String a s) = true <-> a <> c /\ no_char c s = true.
Proof. cbn. by rewrite andb_true_iff, negb_true_iff, bool_decide_eq_false. Qed.

(** The index of a one-character separator is the length of what precedes it. *)
Lemma Index_char_app s c t :
  no_char c s = true -> Index (s +:+ String c t) (String c EmptyString) = Some (String.length s).
Proof.
  induction s as [|a s IH].
  - intros _. change (EmptyString +:+ ?x) with x. by rewrite Index_char_cons, bool_decide_true.
  - rewrite no_char_cons. intros [Hne Hs].
    by rewrite str_app_cons, Index_char_cons, bool_decide_false, IH by congruence.
Qed.

Lemma Index_char_None s c : Index s (String c EmptyString) = None <-> no_char c s = true.
Proof.
  induction s as [|a s IH]; [done|]. rewrite no_char_cons, Index_char_cons, <- IH.
  case_bool_decide as Hca; [split; [done | by intros [Hn _]; subst]|].
  rewrite fmap_None. split; [intros H; split; congruence | by intros [_ H]].
Qed.

Lemma Index_char_Some s c m :
  Index s (String c EmptyString) = Some m ->
  exists t u, s = t +:+ String c u /\ no_char c t = true /\ String.length t = m.
Proof.
  revert m. induction s as [|a s IH]; intros m; [done|]. rewrite Index_char_cons.
  case_bool_decide as Hca; [intros [= <-]; subst a; by exists EmptyString, s|].
  intros (k & Hk & ->)%fmap_Some. destruct (IH k Hk) as (t & u & -> & Ht & <-).
  exists (String a t), u. rewrite str_app_cons, no_char_cons. by split_and!; try congruence.
Qed.

Lemma SplitN_char_app s c t n :
  no_char c s = true ->
  SplitN (s +:+ String c t) (String c EmptyString) (S (S n)) =
  s :: SplitN t (String c EmptyString) (S n).
Proof.
  intros Hs. remember (S n) as k eqn:Hk. cbn [SplitN]. rewrite Hk.
  rewrite (Index_char_app s c t Hs), take_str_app. f_equal. f_equal.
  rewrite Nat.add_comm. cbn [String.length Nat.add].
  replace (s +:+ String c t) with ((s +:+ String c EmptyString) +:+ t)
    by (by rewrite str_app_assoc).
  replace (S (String.length s)) with (String.length (s +:+ String c EmptyString))
    by (rewrite str_length_app; cbn; lia).
  apply drop_str_app.
Qed.

Lemma SplitN_char_none s c n :
  no_char c s = true -> SplitN s (String c EmptyString) (S n) = [s].
Proof.
  intros Hs. apply Index_char_None in Hs. destruct n; [done|]. cbn [SplitN]. by rewrite Hs.
Qed.

Lemma SplitN_one s sep : SplitN s sep 1 = [s].
Proof. reflexivity. Qed.

(** Splitting a joined list gives the list back. *)
Lemma SplitN_Join c l n :
  l <> [] -> Forall (fun x => no_char c x = true) l -> length l <= n ->
  SplitN (Join l (String c EmptyString)) (String c EmptyString) n = l.
Proof.
  intros Hne Hl. revert n Hne. induction Hl as [|x l Hx Hl IH]; intros n Hne Hn; [done|].
  destruct l as [|y l].
  - cbn [Join]. destruct n; [cbn in Hn; lia|]. by apply SplitN_char_none.
  - cbn [Join] in *. rewrite str_app_cons. change (EmptyString +:+ ?a) with a.
    destruct n as [|[|n]]; try (cbn in Hn; lia).
    rewrite SplitN_char_app by done. f_equal. apply IH; [done|]. cbn in *. lia.
Qed.

Lemma length_Join_ge c l :
  l <> [] -> length l <= S (String.length (Join l (String c EmptyString))).
Proof.
  induction l as [|x [|y l] IH]; intros Hne; [done|cbn; lia|].
  cbn [Join]. rewrite !str_length_app. specialize (IH ltac:(done)). cbn in *. lia.
Qed.

Lemma Split_Join c l :
  l <> [] -> Forall (fun x => no_char c x = true) l ->
  Split (Join l (String c EmptyString)) (String c EmptyString) = l.
Proof. intros Hne Hl. apply SplitN_Join; [done..|]. by apply length_Join_ge. Qed.

(** With nothing to replace, [ReplaceAll] is the identity. *)
Lemma ReplaceAll_none s old new : Contains s old = false -> ReplaceAll s old new = s.
Proof.
  unfold Contains, ReplaceAll. induction s as [|c s IH]; [done|].
  cbn [Index replace_from]. destruct (HasPrefix (String c s) old); [done|].
  destruct (Index s old); [done|]. intros _. by rewrite IH.
Qed.

(** Pieces of a split hold no separator, except the last piece of a bounded split. *)
Lemma Split3_cases s c :
  (no_char c s = true /\ SplitN s (String c EmptyString) 3 = [s]) \/
  (exists t u, s = t +:+ String c u /\ no_char c t = true /\ no_char c u = true /\
     SplitN s (String c EmptyString) 3 = [t; u]) \/
  (exists t u v, s = t +:+ String c (u +:+ String c v) /\ no_char c t = true /\
     no_char c u = true /\ SplitN s (String c EmptyString) 3 = [t; u; v]).
Proof.
  destruct (Index s (String c EmptyString)) as [m|] eqn:E.
  - apply Index_char_Some in E as (t & u & -> & Ht & _). right.
    rewrite SplitN_char_app by done.
    destruct (Index u (String c EmptyString)) as [k|] eqn:E2.
    + apply Index_char_Some in E2 as (u' & v & -> & Hu & _). right.
      exists t, u', v. by rewrite SplitN_char_app.
    + apply Index_char_None in E2. left. exists t, u. by rewrite SplitN_char_none.
  - apply Index_char_None in E. left. by rewrite SplitN_char_none.
Qed.

(** Collapsing doubled separators neither adds nor removes the last separator. *)
Lemma no_char_ReplaceAll_double c s :
  no_char c (ReplaceAll s (String c (String c EmptyString)) (String c EmptyString)) = no_char c s.
Proof.
  unfold ReplaceAll.
  enough (no_char c (replace_from (String c (String c EmptyString)) (String c EmptyString) 0 s)
            = no_char c s /\
          no_char c (replace_from (String c (String c EmptyString)) (String c EmptyString) 1 s)
            = no_char c (drop_str 1 s)) as [? _] by done.
  induction s as [|a s [IH0 IH1]]; [done|].
  assert (forall x, drop_str 1 (String a x) = x) as Hdrop by (by intros []).
  split.
  - cbn [replace_from].
    destruct (HasPrefix (String a s) (String c (String c EmptyString))) eqn:E.
    + cbn in E. apply andb_true_iff in E as [E _]. apply bool_decide_eq_true in E as ->.
      rewrite str_app_cons. cbn. by rewrite bool_decide_true.
    + cbn [no_char]. by rewrite IH0.
  - cbn [replace_from]. rewrite Hdrop. apply IH0.
Qed.

Lemma str_app_inj_l s t u : s +:+ t = s +:+ u -> t = u.
Proof. induction s as [|c s IH]; [done|]. rewrite !str_app_cons. intros [= H]. auto. Qed.

Lemma str_app_inj_r s s' t : s +:+ t = s' +:+ t -> s = s'.
Proof.
  revert s'. induction s as [|c s IH]; intros [|c' s'] Heq; [done|..];
    try (apply (f_equal String.length) in Heq; rewrite !str_length_app in Heq; cbn in Heq; lia).
  rewrite !str_app_cons in Heq. injection Heq as -> Heq. by rewrite (IH _ Heq).
Qed.

Lemma no_char_Join c l sep : no_char c sep = true -> Forall (fun s => no_char c s = true) l -> no_char c (Join l sep) = true.
Proof.
  intros Hsep. induction 1 as [|s l Hs _ IH]; [done|]. cbn. destruct l as [|t l]; [done|].
  by rewrite !no_char_app, Hs, Hsep, IH.
Qed.
