(* ===== verification/Goroutines.v ===== *)
(** * Goroutines: programs that can be suspended

    A goroutine is a tree of atomic pieces. [Local] is a statement on memory, [Await] one at
    which the goroutine may wait while others run (a call to the outside, a lock, a channel),
    [Fork] is [go f()]. One tree has two meanings: [alone] runs it without interruption, a
    forked goroutine before what follows it; [exec] runs it up to its next suspension, and
    [pool_step] interleaves the goroutines of a pool in this way. *)

From stdpp Require Import base tactics option list strings relations.
From S2P Require Import Prelude.

Inductive prog (W A : Type) : Type :=
| Ret (a : A)
| Local {B : Type} (m : M W B) (k : B -> prog W A)
| Await {B : Type} (m : M W B) (k : B -> prog W A)
| Fork (g : prog W unit) (k : prog W A).
Arguments Ret {W A} a.
Arguments Local {W A B} m k.
Arguments Await {W A B} m k.
Arguments Fork {W A} g k.

Fixpoint prog_bind {W A B : Type} (k : A -> prog W B) (p : prog W A) : prog W B :=
  match p with
  | Ret a => k a
  | Local m f => Local m (fun b => prog_bind k (f b))
  | Await m f => Await m (fun b => prog_bind k (f b))
  | Fork g f => Fork g (prog_bind k f)
  end.

#[global] Instance prog_ret W : MRet (prog W) := fun A a => Ret a.
#[global] Instance prog_mbind W : MBind (prog W) := fun A B k p => prog_bind k p.

(** One statement, one call, one [go] statement. *)
Definition local {W A} (m : M W A) : prog W A := Local m Ret.
Definition await {W A} (m : M W A) : prog W A := Await m Ret.
Definition fork {W} (g : prog W unit) : prog W unit := Fork g (Ret tt).

Definition gets {W A} (f : W -> A) : prog W A := local (Prelude.gets f).
Definition modify {W} (f : W -> W) : prog W unit := local (Prelude.modify f).
Definition panic {W A} (msg : string) : prog W A := local (Prelude.panic msg).

(** ** Without interruption

    A run that needs another goroutine to go on is [Blocked]. *)
Fixpoint alone {W A : Type} (p : prog W A) (w : W) {struct p} : outcome A * W :=
  match p with
  | Ret a => (Done a, w)
  | Local m k | Await m k =>
      match m w with
      | (Done b, w') => alone (k b) w'
      | (Panic e, w') => (Panic e, w')
      | (Blocked, w') => (Blocked, w')
      end
  | Fork g k =>
      match alone g w with
      | (Done _, w') => alone k w'
      | (Panic e, w') => (Panic e, w')
      | (Blocked, w') => (Blocked, w')
      end
  end.
Coercion alone : prog >-> Funclass.

Section Laws.
Context {W : Type}.

Lemma bind_run {A B} (p : prog W A) (k : A -> prog W B) (w : W) :
  (p ≫= k) w = match p w with
               | (Done a, w') => k a w'
               | (Panic e, w') => (Panic e, w')
               | (Blocked, w') => (Blocked, w')
               end.
Proof.
  unfold mbind, prog_mbind. revert k w.
  induction p as [A a|A C m f IH|A C m f IH|A g _ f IH]; intros k w; cbn; [done|..].
  1,2: destruct (m w) as [[b| |] w1]; [apply IH|done..].
  destruct (alone g w) as [[[]| |] w1]; [apply IH|done..].
Qed.

Lemma bind_done {A B} (p : prog W A) (k : A -> prog W B) (w w' : W) (a : A) :
  p w = (Done a, w') -> (p ≫= k) w = k a w'.
Proof. intros H. by rewrite bind_run, H. Qed.

Lemma bind_inv_done {A B} (p : prog W A) (k : A -> prog W B) (w w2 : W) (b : B) :
  (p ≫= k) w = (Done b, w2) ->
  exists a w1, p w = (Done a, w1) /\ k a w1 = (Done b, w2).
Proof. rewrite bind_run. destruct (p w) as [[a| |] w1]; naive_solver. Qed.

Lemma local_run {A} (m : M W A) w : local m w = m w.
Proof. cbn. by destruct (m w) as [[]]. Qed.
Lemma await_run {A} (m : M W A) w : await m w = m w.
Proof. cbn. by destruct (m w) as [[]]. Qed.
Lemma ret_run {A} (a : A) (w : W) : alone (mret a) w = (Done a, w).
Proof. reflexivity. Qed.
Lemma gets_run {A} (f : W -> A) w : gets f w = (Done (f w), w).
Proof. reflexivity. Qed.
Lemma modify_run (f : W -> W) w : modify f w = (Done tt, f w).
Proof. reflexivity. Qed.
End Laws.

(** A run, from its outcome. *)
Lemma run_of_outcome {W A} (p : prog W A) w o : (p w).1 = o -> p w = (o, (p w).2).
Proof. intros <-. apply surjective_pairing. Qed.

(** [go_inv] splits every hypothesis that says a sequence of Go statements returned. *)
Ltac go_inv :=
  repeat match goal with
  | H : alone (_ ≫= _) _ = (Done _, _) |- _ =>
      let a := fresh "r" in let w := fresh "w" in let E := fresh "E" in
      apply bind_inv_done in H as (a & w & E & H)
  | H : alone (mret _) _ = (Done _, _) |- _ => cbn in H; simplify_eq
  | H : alone (gets _) _ = (Done _, _) |- _ => rewrite gets_run in H; simplify_eq
  | H : alone (modify _) _ = (Done _, _) |- _ => rewrite modify_run in H; simplify_eq
  | H : alone (panic _) _ = (Done _, _) |- _ => discriminate H
  | H : (_, _) = (Done _, _) |- _ => progress simplify_eq
  end.

(** [go_run] runs the statements whose result is known. *)
Ltac go_run := repeat first [rewrite bind_run | rewrite gets_run | rewrite modify_run | rewrite ret_run | progress cbn beta iota].

(** ** What a goroutine may do to the state

    [preserves R p]: every atomic piece of [p] takes a state to a related one, whatever the
    others do in between. *)
Fixpoint preserves {W A : Type} (R : W -> W -> Prop) (p : prog W A) : Prop :=
  match p with
  | Ret _ => True
  | Local m k | Await m k => Prelude.preserves R m /\ forall b, preserves R (k b)
  | Fork g k => preserves R g /\ preserves R k
  end.

Section Preserves.
Context {W : Type} (R : W -> W -> Prop).

Lemma preserves_ret {A} (a : A) : preserves R (mret a : prog W A).
Proof. done. Qed.
Lemma preserves_local {A} (m : M W A) : Prelude.preserves R m -> preserves R (local m).
Proof. done. Qed.
Lemma preserves_await {A} (m : M W A) : Prelude.preserves R m -> preserves R (await m).
Proof. done. Qed.
Lemma preserves_fork g : preserves R g -> preserves R (fork g : prog W unit).
Proof. done. Qed.
Lemma preserves_gets `{!Reflexive R} {A} (f : W -> A) : preserves R (gets f).
Proof. split; [intros w; apply reflexivity|done]. Qed.
Lemma preserves_modify (f : W -> W) : (forall w, R w (f w)) -> preserves R (modify f).
Proof. done. Qed.
Lemma preserves_panic `{!Reflexive R} {A} msg : preserves R (panic (A := A) msg).
Proof. split; [intros w; apply reflexivity|done]. Qed.

Lemma preserves_bind {A B} (p : prog W A) (k : A -> prog W B) :
  preserves R p -> (forall a, preserves R (k a)) -> preserves R (p ≫= k).
Proof.
  unfold mbind, prog_mbind. revert k.
  induction p as [A a|A C m f IH|A C m f IH|A g _ f IH]; cbn; intros k Hp Hk; destruct_and?; eauto.
Qed.

Lemma preserves_for_each {A} (l : list A) (body : A -> prog W unit) :
  (forall x, preserves R (body x)) -> preserves R (for_each l body).
Proof.
  intros Hbody. induction l as [|x l IH]; cbn; [done|]. apply preserves_bind; [done|]. by intros _.
Qed.

Lemma preserves_sub (R' : W -> W -> Prop) {A} (p : prog W A) :
  (forall w w', R w w' -> R' w w') -> preserves R p -> preserves R' p.
Proof.
  intros HR. induction p as [A a|A C m f IH|A C m f IH|A g IHg f IH]; cbn; [done|..].
  1,2: intros [Hm Hf]; split; [intros w; apply HR, Hm|by intros b; apply IH].
  intros [Hg Hf]. split; [by apply IHg|by apply IH].
Qed.

(** A goroutine that runs alone does no more than its pieces. *)
Lemma preserves_alone `{!PreOrder R} {A} (p : prog W A) w o w' :
  preserves R p -> p w = (o, w') -> R w w'.
Proof.
  revert w o w'. induction p as [A a|A C m f IH|A C m f IH|A g IHg f IH]; intros w o w'; cbn.
  - by intros _ [= _ <-].
  - intros [Hm Hf]. specialize (Hm w). destruct (m w) as [[b| |] w1]; [|by intros [= _ <-]..].
    intros H. etrans; [exact Hm|]. by eapply IH.
  - intros [Hm Hf]. specialize (Hm w). destruct (m w) as [[b| |] w1]; [|by intros [= _ <-]..].
    intros H. etrans; [exact Hm|]. by eapply IH.
  - intros [Hg Hf]. destruct (alone g w) as [[[]| |] w1] eqn:Eg.
    + intros H. etrans; [by eapply IHg|by eapply IH].
    + intros [= _ <-]. by eapply IHg.
    + intros [= _ <-]. by eapply IHg.
Qed.
Lemma preserves_state `{!PreOrder R} {A} (p : prog W A) w : preserves R p -> R w (p w).2.
Proof. intros Hp. eapply preserves_alone; [exact Hp|apply surjective_pairing]. Qed.
End Preserves.

(** [preserve] proves that a goroutine preserves a relation, down to its primitives, which the
    database [preserves] knows; later files add constructions to [preserve_more]. *)
Ltac preserve_more := fail.
Ltac preserve :=
  repeat first
    [ lazymatch goal with |- preserves _ (_ ≫= _) => apply preserves_bind; [ | intros ?] end
    | solve [auto with preserves]
    | preserve_more
    | apply preserves_ret
    | apply preserves_gets; [typeclasses eauto]
    | apply preserves_panic; [typeclasses eauto]
    | lazymatch goal with |- preserves _ (fork _) => apply preserves_fork end
    | apply preserves_for_each; intros ?
    | apply preserves_bind; [ | intros ?]
    | case_match ].

(** No piece of [p] waits for ever, and [p] starts no other goroutine. *)
Fixpoint unblocked {W A : Type} (p : prog W A) : Prop :=
  match p with
  | Ret _ => True
  | Local m k | Await m k => (forall w, (m w).1 <> Blocked) /\ forall b, unblocked (k b)
  | Fork _ _ => False
  end.
Lemma unblocked_bind {W A B} (p : prog W A) (k : A -> prog W B) :
  unblocked p -> (forall a, unblocked (k a)) -> unblocked (p ≫= k).
Proof. unfold mbind, prog_mbind. revert k. induction p; cbn; naive_solver. Qed.

(** [returns p]: running alone, [p] returns from every state. *)
Definition returns {W A} (p : prog W A) : Prop := forall w, is_done (p w).1 = true.

Lemma returns_ret {W A} (a : A) : returns (mret a : prog W A).
Proof. by intros w. Qed.
Lemma returns_bind {W A B} (p : prog W A) (k : A -> prog W B) :
  returns p -> (forall a, returns (k a)) -> returns (p ≫= k).
Proof.
  intros Hp Hk w. rewrite bind_run. specialize (Hp w). destruct (p w) as [[a| |] w1]; [|done..]. apply Hk.
Qed.
Lemma returns_unit {W} (p : prog W unit) w : returns p -> p w = (Done tt, (p w).2).
Proof. intros Hp. specialize (Hp w). destruct (p w) as [[[]| |] w1]; done. Qed.

(** ** Reasoning about interleaved goroutines

    A goroutine guarantees [G] of every piece of its own and relies on [R] of all the others
    while it is suspended. [wp p Q w]: from [w] every piece of [p] satisfies [G] as long as
    the others satisfy [R], and [Q] holds if [p] returns. *)
Class Stable {W} (R : W -> W -> Prop) (P : W -> Prop) : Prop :=
  stable : forall w w', P w -> R w w' -> P w'.

#[global] Instance and_stable {W} (R : W -> W -> Prop) P Q :
  Stable R P -> Stable R Q -> Stable R (fun w => P w /\ Q w).
Proof. intros HP HQ w w' [Hp Hq] HR. split; by eapply stable. Qed.
#[global] Instance true_stable {W} (R : W -> W -> Prop) : Stable R (fun _ => True).
Proof. done. Qed.

(** No suspension inside. *)
Fixpoint straight {W A : Type} (p : prog W A) : Prop :=
  match p with
  | Ret _ => True
  | Local _ k => forall b, straight (k b)
  | Await _ _ | Fork _ _ => False
  end.
Lemma straight_bind {W A B} (p : prog W A) (k : A -> prog W B) :
  straight p -> (forall a, straight (k a)) -> straight (p ≫= k).
Proof. unfold mbind, prog_mbind. revert k. induction p; cbn; naive_solver. Qed.
Lemma straight_for_each {W A} (l : list A) (body : A -> prog W unit) :
  (forall x, straight (body x)) -> straight (for_each l body).
Proof. intros Hb. induction l as [|x l IH]; cbn; [done|]. by apply straight_bind. Qed.

Section Logic.
Context {W : Type} (G R : W -> W -> Prop) `{!PreOrder R}.

Fixpoint wp {A : Type} (p : prog W A) (Q : A -> W -> Prop) (w : W) {struct p} : Prop :=
  match p with
  | Ret a => Q a w
  | Local m k => G w (m w).2 /\ forall b, (m w).1 = Done b -> wp (k b) Q (m w).2
  | Await m k =>
      forall w', R w w' -> G w' (m w').2 /\ forall b, (m w').1 = Done b -> wp (k b) Q (m w').2
  | Fork g k =>
      (forall w', R w w' -> wp g (fun _ _ => True) w') /\ (forall w', R w w' -> wp k Q w')
  end.

(** [p] keeps to its guarantee from every state where [P] holds. *)
Definition keeps {A} (P : W -> Prop) (p : prog W A) : Prop :=
  forall w, P w -> wp p (fun _ _ => True) w.

Lemma wp_mono {A} (p : prog W A) (Q Q' : A -> W -> Prop) w :
  (forall a w', Q a w' -> Q' a w') -> wp p Q w -> wp p Q' w.
Proof.
  revert Q Q' w. induction p as [A a|A C m f IH|A C m f IH|A g _ f IH]; intros Q Q' w HQ; cbn; [apply HQ|..].
  - intros [Hg H]. split; [done|]. intros b Hb. eapply IH; [exact HQ|by apply H].
  - intros H w' Hw'. destruct (H w' Hw') as [Hg Hk]. split; [done|]. intros b Hb. eapply IH; [exact HQ|by apply Hk].
  - intros [Hg H]. split; [done|]. intros w' Hw'. eapply IH; [exact HQ|by apply H].
Qed.

Lemma wp_bind {A B} (p : prog W A) (k : A -> prog W B) Q w :
  wp p (fun a => wp (k a) Q) w -> wp (p ≫= k) Q w.
Proof.
  unfold mbind, prog_mbind. revert k w.
  induction p as [A a|A C m f IH|A C m f IH|A g _ f IH]; intros k w; cbn; [done|..].
  - intros [Hg H]. split; [done|]. intros b Hb. by apply IH, H.
  - intros H w' Hw'. destruct (H w' Hw') as [Hg Hk]. split; [done|]. intros b Hb. by apply IH, Hk.
  - intros [Hg H]. split; [done|]. intros w' Hw'. by apply IH, H.
Qed.

(** A statement, and a call before which the others may have run. *)
Lemma wp_local {A} (m : M W A) Q w :
  G w (m w).2 -> (forall b, (m w).1 = Done b -> Q b (m w).2) -> wp (local m) Q w.
Proof. by split. Qed.
Lemma wp_gets `{!Reflexive G} {A B} (f : W -> A) (k : A -> prog W B) Q w :
  wp (k (f w)) Q w -> wp (gets f ≫= k) Q w.
Proof. intros H. apply wp_bind. split; [apply reflexivity|]. by intros b [= <-]. Qed.

(** What all pieces guarantee holds from every state, and what they all keep is kept. *)
Lemma wp_preserves {A} (p : prog W A) (P : W -> Prop) w :
  Stable R P -> Stable G P -> preserves G p -> P w -> wp p (fun _ => P) w.
Proof.
  intros HR HG. revert w. induction p as [A a|A C m f IH|A C m f IH|A g IHg f IH]; intros w; cbn; [done|..].
  - intros [Hm Hf] HP. split; [apply Hm|]. intros b _. apply IH; [done|]. eapply HG; [exact HP|apply Hm].
  - intros [Hm Hf] HP w' Hw'. split; [apply Hm|]. intros b _. apply IH; [done|].
    eapply HG; [|apply Hm]. by eapply HR.
  - intros [Hg Hf] HP. split; intros w' Hw'; [eapply wp_mono; [|apply IHg]|apply IH]; try done; by eapply HR.
Qed.

Lemma keeps_preserves {A} (P : W -> Prop) (p : prog W A) : preserves G p -> keeps P p.
Proof. intros Hp w _. eapply wp_mono; [|by apply (wp_preserves p (fun _ => True))]. done. Qed.

Lemma keeps_wp {A} P (p : prog W A) : keeps P p -> forall w, P w -> wp p (fun _ _ => True) w.
Proof. done. Qed.
Lemma wp_keeps {A} (P : W -> Prop) (p : prog W A) : (forall w, P w -> wp p (fun _ _ => True) w) -> keeps P p.
Proof. done. Qed.
Lemma keeps_ret {A} P (a : A) : keeps P (mret a).
Proof. by intros w _. Qed.

Lemma keeps_weaken {A} (P Q : W -> Prop) (p : prog W A) :
  keeps Q p -> (forall w, P w -> Q w) -> keeps P p.
Proof. intros Hp HPQ w HP. by apply Hp, HPQ. Qed.

(** Sequencing, with what is known in between. *)
Lemma keeps_bind_post {A B} (P : W -> Prop) (Q : A -> W -> Prop) (p : prog W A) (k : A -> prog W B) :
  (forall w, P w -> wp p Q w) -> (forall a, keeps (Q a) (k a)) -> keeps P (p ≫= k).
Proof. intros Hp Hk w HP. apply wp_bind. eapply wp_mono; [|by apply Hp]. intros a w'. apply Hk. Qed.

(** A statement on memory keeps what is known at that moment, stable or not. *)
Lemma keeps_local {A B} (P : W -> Prop) (Q : A -> W -> Prop) (m : M W A) (k : A -> prog W B) :
  (forall w, P w -> G w (m w).2) -> (forall w a, P w -> (m w).1 = Done a -> Q a (m w).2) ->
  (forall a, keeps (Q a) (k a)) -> keeps P (local m ≫= k).
Proof. intros HG HQ. apply keeps_bind_post. intros w HP. apply wp_local; auto. Qed.

Lemma keeps_bind {A B} (P : W -> Prop) (p : prog W A) (k : A -> prog W B) :
  Stable R P -> Stable G P -> preserves G p -> (forall a, keeps P (k a)) -> keeps P (p ≫= k).
Proof. intros HR HG Hp. apply keeps_bind_post. intros w HP. by apply wp_preserves. Qed.

(** What all pieces, one's own and the others', leave true stays true. *)
Lemma wp_stable {A} (p : prog W A) (P : W -> Prop) Q w :
  Stable R P -> Stable G P -> wp p Q w -> P w -> wp p (fun a w' => Q a w' /\ P w') w.
Proof.
  intros HR HG. revert Q w. induction p as [A a|A C m f IH|A C m f IH|A g _ f IH]; intros Q w; cbn; [done|..].
  - intros [Hm Hf] HP. split; [done|]. intros b Hb. apply IH; [by apply Hf|]. by eapply HG.
  - intros Hm HP w' Hw'. destruct (Hm w' Hw') as [Hg Hf]. split; [done|]. intros b Hb.
    apply IH; [by apply Hf|]. eapply HG; [|exact Hg]. by eapply HR.
  - intros [Hg Hf] HP. split; [done|]. intros w' Hw'. apply IH; [by apply Hf|]. by eapply HR.
Qed.

Lemma keeps_seq {A B} (P : W -> Prop) (p : prog W A) (k : A -> prog W B) :
  Stable R P -> Stable G P -> keeps P p -> (forall a, keeps P (k a)) -> keeps P (p ≫= k).
Proof.
  intros HR HG Hp Hk. apply keeps_bind_post with (Q := fun _ => P); [|exact Hk]. intros w HP.
  eapply wp_mono; [|by apply (wp_stable p P); [..|apply Hp|]]. by intros a w' [_ H].
Qed.

Lemma keeps_fork (P : W -> Prop) (g : prog W unit) : Stable R P -> keeps P g -> keeps P (fork g).
Proof. intros HR Hg w HP. split; intros w' Hw'; [|done]. apply Hg. by eapply HR. Qed.

Lemma keeps_for_each {A} (P : W -> Prop) (l : list A) (body : A -> prog W unit) :
  Stable R P -> Stable G P -> (forall x, keeps P (body x)) -> keeps P (for_each l body).
Proof.
  intros HR HG Hbody. induction l as [|x l IH]; cbn; [apply keeps_ret|]. apply keeps_seq; [done..|]. by intros _.
Qed.

(** A goroutine that runs alone is one whose others do nothing. *)
Lemma wp_alone `{!PreOrder G} (HGR : forall w w', G w w' -> R w w') {A} (p : prog W A) Q w o w' :
  wp p Q w -> alone p w = (o, w') -> G w w' /\ forall a, o = Done a -> Q a w'.
Proof.
  revert Q w o w'. induction p as [A a|A C m f IH|A C m f IH|A g IHg f IH]; intros Q w o w'; cbn.
  - intros HQ [= <- <-]. split; [reflexivity|]. by intros a' [= <-].
  - intros [Hm Hf]. destruct (m w) as [[b| |] w1]; cbn in *; [|by intros [= <- <-]..].
    intros H. destruct (IH b _ _ _ _ (Hf b eq_refl) H) as [HG HQ]. split; [by etrans|done].
  - intros Hm. destruct (Hm w (reflexivity w)) as [Hg Hf].
    destruct (m w) as [[b| |] w1]; cbn in *; [|by intros [= <- <-]..].
    intros H. destruct (IH b _ _ _ _ (Hf b eq_refl) H) as [HG HQ]. split; [by etrans|done].
  - intros [Hg Hf]. destruct (alone g w) as [og w1] eqn:Eg.
    destruct (IHg _ _ _ _ (Hg w (reflexivity w)) Eg) as [HG1 _].
    destruct og as [[]| |]; [|by intros [= <- <-]..]. intros H.
    destruct (IH _ _ _ _ (Hf w1 (HGR _ _ HG1)) H) as [HG HQ]. split; [by etrans|done].
Qed.

(** Statements on memory one after the other, by the run alone. *)
Lemma wp_straight {A} (p : prog W A) Q w :
  straight p -> preserves G p -> (forall a w', alone p w = (Done a, w') -> Q a w') -> wp p Q w.
Proof.
  revert Q w. induction p as [A a|A C m f IH|A C m f IH|A g _ f IH]; intros Q w; cbn; [|..|done].
  - intros _ _ HQ. by apply HQ.
  - intros Hs [Hm Hf] HQ. split; [apply Hm|]. intros b Hb. apply IH; [done..|]. intros a w' H. apply HQ.
    destruct (m w) as [o w1]. cbn in *. by subst o.
  - done.
Qed.
Lemma keeps_straight {A B} (P : W -> Prop) (Q : A -> W -> Prop) (p : prog W A) (k : A -> prog W B) :
  straight p -> preserves G p -> (forall w a w', P w -> alone p w = (Done a, w') -> Q a w') ->
  (forall a, keeps (Q a) (k a)) -> keeps P (p ≫= k).
Proof. intros Hs Hp HQ. apply keeps_bind_post. intros w HP. apply wp_straight; [done..|]. intros a w'. by apply HQ. Qed.

Lemma keeps_gets `{!Reflexive G} {A B} (P : W -> Prop) (f : W -> A) (k : A -> prog W B) :
  (forall a, keeps (fun w => P w /\ f w = a) (k a)) -> keeps P (gets f ≫= k).
Proof. intros Hk w HP. apply wp_gets. by apply Hk. Qed.

Lemma keeps_last {A} (P : W -> Prop) (m : M W A) : (forall w, P w -> G w (m w).2) -> keeps P (local m).
Proof. intros HG w HP. by apply wp_local; [apply HG|]. Qed.
End Logic.

(** A first step that guarantees more needs [P] stable under that only. *)
Lemma wp_sub {W} (G0 G R : W -> W -> Prop) {A} (p : prog W A) Q w :
  (forall w w', G0 w w' -> G w w') -> wp G0 R p Q w -> wp G R p Q w.
Proof.
  intros HG. revert Q w. induction p as [A a|A C m f IH|A C m f IH|A g IHg f IH]; intros Q w; cbn; [done|..].
  - intros [Hm Hf]. split; [by apply HG|]. intros b Hb. by apply IH, Hf.
  - intros Hm w' Hw'. destruct (Hm w' Hw') as [Hg Hf]. split; [by apply HG|]. intros b Hb. by apply IH, Hf.
  - intros [Hg Hf]. split; intros w' Hw'; [by apply IHg, Hg|by apply IH, Hf].
Qed.
Lemma keeps_bind_sub {W} (G0 G R : W -> W -> Prop) `{!PreOrder R} {A B} (P : W -> Prop)
    (p : prog W A) (k : A -> prog W B) :
  (forall w w', G0 w w' -> G w w') -> Stable G0 P -> Stable R P -> preserves G0 p ->
  (forall a, keeps G R P (k a)) -> keeps G R P (p ≫= k).
Proof.
  intros HG HG0 HR Hp. apply keeps_bind_post. intros w HP. eapply wp_sub; [exact HG|]. by apply wp_preserves.
Qed.

#[global] Opaque keeps.

(** [keep] proves [keeps G R P p] for a [P] that [G] and [R] leave true, down to the parts
    that the database [keeps] knows or that preserve [G] anyway. *)
Create HintDb keeps.
Ltac keep_more := fail.
Ltac keep :=
  repeat first
    [ solve [auto with keeps]
    | lazymatch goal with
      | |- keeps _ _ _ (_ ≫= _) => apply keeps_seq; [typeclasses eauto | typeclasses eauto | | intros ?]
      end
    | apply keeps_ret
    | keep_more
    | apply keeps_for_each; [typeclasses eauto | typeclasses eauto | intros ?]
    | case_match
    | apply keeps_preserves; first [typeclasses eauto | solve [preserve]]
    | apply keeps_seq; [typeclasses eauto | typeclasses eauto | | intros ?] ].

(** ** A pool of goroutines *)

(** [p] from its suspension to the next: what is left of it, and the goroutines it started. *)
Fixpoint stretch {W A : Type} (p : prog W A) (w : W) {struct p} : outcome (prog W A * list (prog W unit)) * W :=
  match p with
  | Ret a => (Done (Ret a, []), w)
  | Local m k =>
      match m w with
      | (Done b, w') => stretch (k b) w'
      | (Panic e, w') => (Panic e, w')
      | (Blocked, w') => (Blocked, w')
      end
  | Await m k => (Done (Await m k, []), w)
  | Fork g k => (Done (k, [g]), w)
  end.

Definition is_ret {W A} (p : prog W A) : bool := match p with Ret _ => true | _ => false end.
Definition resume {W A} (p : prog W A) : prog W A :=
  match p with Await m k => Local m k | p => p end.
Definition exec {W A} (p : prog W A) (w : W) : outcome (prog W A * list (prog W unit)) * W :=
  stretch (resume p) w.

Section Exec.
Context {W : Type} (G R : W -> W -> Prop) `{!PreOrder G, !PreOrder R}.

(** A suspended goroutine, whatever the others did since, and what holds if it returns. *)
Definition ready_for {A} (p : prog W A) (Q : A -> W -> Prop) (w : W) : Prop := forall w', R w w' -> wp G R p Q w'.
Abbreviation ready p := (ready_for p (fun _ _ => True)).

Lemma ready_for_later {A} (p : prog W A) Q w w' : ready_for p Q w -> R w w' -> ready_for p Q w'.
Proof. intros H HR w2 H2. apply H. by etrans. Qed.

Lemma ready_later {A} (p : prog W A) w w' : ready p w -> R w w' -> ready p w'.
Proof. apply ready_for_later. Qed.

Lemma keeps_ready {A} P (p : prog W A) w : Stable R P -> keeps G R P p -> P w -> ready p w.
Proof. intros HP Hp H w' HR. apply (keeps_wp _ _ _ _ Hp). by eapply HP. Qed.

Lemma stretch_wp {A} (p : prog W A) Q w o w' :
  (forall a, Stable R (Q a)) -> wp G R p Q w -> stretch p w = (o, w') ->
  G w w' /\ forall p' gs, o = Done (p', gs) -> ready_for p' Q w' /\ Forall (fun g => ready g w') gs.
Proof.
  intros HQ. revert w. induction p as [A a|A C m f IH|A C m f IH|A g _ f IH]; intros w; cbn.
  - intros Ha [= <- <-]. split; [done|]. intros p' gs [= <- <-]. split; [|constructor]. intros w2 H2. by eapply HQ.
  - intros [Hm Hf]. destruct (m w) as [[b| |] w1] eqn:Em; cbn in *.
    + intros H. destruct (IH b Q _ HQ w1 (Hf b eq_refl) H) as [HG Hgs]. split; [by etrans|exact Hgs].
    + intros [= <- <-]. by split.
    + intros [= <- <-]. by split.
  - intros Hm [= <- <-]. split; [done|]. intros p' gs [= <- <-]. split; [|constructor].
    intros w1 H1 w2 H2. apply Hm. by etrans.
  - intros [Hg Hf] [= <- <-]. split; [done|]. intros p' gs [= <- <-]. split; [exact Hf|].
    constructor; [exact Hg|constructor].
Qed.

Lemma exec_ready_for {A} (p : prog W A) Q w o w' :
  (forall a, Stable R (Q a)) -> ready_for p Q w -> exec p w = (o, w') ->
  G w w' /\ forall p' gs, o = Done (p', gs) -> ready_for p' Q w' /\ Forall (fun g => ready g w') gs.
Proof.
  intros HQ Hp. apply stretch_wp; [done|]. specialize (Hp w (reflexivity w)). destruct p; try done.
  exact (Hp w (reflexivity w)).
Qed.
Lemma exec_ready {A} (p : prog W A) w o w' :
  ready p w -> exec p w = (o, w') ->
  G w w' /\ forall p' gs, o = Done (p', gs) -> ready p' w' /\ Forall (fun g => ready g w') gs.
Proof. apply exec_ready_for. intros _. apply true_stable. Qed.
End Exec.

Abbreviation ready G R p := (ready_for G R p (fun _ _ => True)).

(** *** What a goroutine brings about, whatever the others do

    [leads S p w]: from [w] the run of [p], unless it panics, comes to a state in [S] where it
    is suspended or has ended. *)
Fixpoint leads {W A : Type} (S : W -> Prop) (p : prog W A) (w : W) {struct p} : Prop :=
  match p with
  | Ret _ => S w
  | Local m k => forall b, (m w).1 = Done b -> leads S (k b) (m w).2
  | Await m k => S w \/ forall w' b, (m w').1 = Done b -> leads S (k b) (m w').2
  | Fork _ k => forall w', leads S k w'
  end.
(** The same of a suspended goroutine. *)
Definition pends {W A} (S : W -> Prop) (p : prog W A) : Prop := forall w, S w \/ leads S (resume p) w.

Abbreviation any_step := (fun _ _ => True).

Lemma leads_bind {W A B} S (p : prog W A) (k : A -> prog W B) w :
  wp any_step any_step p (fun a => leads S (k a)) w -> leads S (p ≫= k) w.
Proof.
  unfold mbind, prog_mbind. revert k w. induction p as [A a|A C m f IH|A C m f IH|A g _ f IH]; intros k w; cbn; [done|..].
  - intros [_ H] b Hb. by apply IH, H.
  - intros H. right. intros w' b Hb. destruct (H w' I) as [_ Hk]. by apply IH, Hk.
  - intros [_ H] w'. by apply IH, H.
Qed.
Lemma leads_resume {W A} S (p : prog W A) w : leads S p w -> S w \/ leads S (resume p) w.
Proof. destruct p; cbn; [auto..| |auto]. intros [Hs|Hk]; [by left|]. right. intros b. apply Hk. Qed.
Lemma leads_pends {W A} S (p : prog W A) : (forall w, leads S p w) -> pends S p.
Proof. intros Hp w. by apply leads_resume. Qed.

Lemma stretch_leads {W A} S (p : prog W A) w p' gs w' :
  leads S p w -> stretch p w = (Done (p', gs), w') -> S w' \/ pends S p'.
Proof.
  revert w. induction p as [A a|A C m f IH|A C m f IH|A g _ f IH]; intros w; cbn.
  - intros Hs [= <- <- <-]. by left.
  - intros Hk. destruct (m w) as [[b| |] w1] eqn:Em; [|done..]. apply IH. by apply (Hk b).
  - intros [Hs|Hk] [= <- <- <-]; [by left|]. right. intros w2. right. intros b. apply Hk.
  - intros Hk [= <- <- <-]. right. by apply leads_pends.
Qed.
Lemma exec_leads {W A} S (p : prog W A) w p' gs w' :
  pends S p -> exec p w = (Done (p', gs), w') -> S w \/ S w' \/ pends S p'.
Proof. intros Hp He. destruct (Hp w) as [Hs|Hl]; [by left|]. right. by eapply stretch_leads. Qed.

Lemma exec_unblocked {W A} (p : prog W A) w :
  unblocked p ->
  match exec p w with
  | (Done (p', gs), _) => unblocked p' /\ gs = []
  | (Panic _, _) => True
  | (Blocked, _) => False
  end.
Proof.
  intros Hp. unfold exec. assert (unblocked (resume p)) as Hr by (by destruct p). revert Hr. generalize (resume p).
  clear Hp p. intros p. revert w. induction p as [A a|A C m f IH|A C m f IH|A g _ f _]; intros w; cbn; [done|..|done].
  - intros [Hm Hf]. specialize (Hm w). destruct (m w) as [[b| |] w1]; cbn in *; [by apply IH|done..].
  - by intros Hp.
Qed.

(** Going from suspension to suspension, a goroutine comes to its end. *)
Lemma exec_induction {W A : Type} (X : prog W A -> Prop) :
  (forall p, (forall w p' gs w', is_ret p = false -> exec p w = (Done (p', gs), w') -> X p') -> X p) -> forall p, X p.
Proof.
  intros Hstep p. enough (X p /\ forall w p' gs w', stretch p w = (Done (p', gs), w') -> X p') as [HX _] by exact HX.
  revert X Hstep. induction p as [A a|A C m f IH|A C m f IH|A g _ f IH]; intros X Hstep.
  - assert (X (Ret a)) as Ha by (by apply Hstep). split; [done|]. by intros w p' gs w' [= <- <- <-].
  - assert (forall w p' gs w', stretch (Local m f) w = (Done (p', gs), w') -> X p') as Hs.
    { intros w p' gs w'. cbn. destruct (m w) as [[b| |] w1]; [|done..]. by apply (IH b X). }
    split; [|done]. apply Hstep. intros w p' gs w' _. apply Hs.
  - assert (X (Await m f)) as Ha.
    { apply Hstep. intros w p' gs w' _. cbn. destruct (m w) as [[b| |] w1]; [|done..]. by apply (IH b X). }
    split; [done|]. by intros w p' gs w' [= <- <- <-].
  - destruct (IH X Hstep) as [Hf _]. split; [|by intros w p' gs w' [= <- <- <-]].
    apply Hstep. by intros w p' gs w' _ [= <- <- <-].
Qed.

(** What only depends on the pieces is seen of every stretch. *)
Lemma stretch_preserves {W A} R `{!PreOrder R} (p : prog W A) (w : W) o w' :
  preserves R p -> stretch p w = (o, w') ->
  R w w' /\ forall p' gs, o = Done (p', gs) -> preserves R p' /\ Forall (preserves R) gs.
Proof.
  revert w. induction p as [A a|A C m f IH|A C m f IH|A g _ f IH]; intros w; cbn.
  - intros _ [= <- <-]. split; [reflexivity|]. by intros p' gs [= <- <-].
  - intros [Hm Hf]. specialize (Hm w). destruct (m w) as [[b| |] w1]; cbn in *.
    + intros H. destruct (IH b _ w1 (Hf b) H) as [HR Hgs]. split; [by etrans|exact Hgs].
    + by intros [= <- <-].
    + by intros [= <- <-].
  - intros Hm [= <- <-]. split; [reflexivity|]. by intros p' gs [= <- <-].
  - intros [Hg Hf] [= <- <-]. split; [reflexivity|]. intros p' gs [= <- <-]. by repeat constructor.
Qed.

Lemma exec_preserves {W A} R `{!PreOrder R} (p : prog W A) (w : W) o w' :
  preserves R p -> exec p w = (o, w') ->
  R w w' /\ forall p' gs, o = Done (p', gs) -> preserves R p' /\ Forall (preserves R) gs.
Proof. intros Hp. apply stretch_preserves; [done|]. by destruct p. Qed.

(** One goroutine of a pool runs to its next suspension. A goroutine whose call blocks has no
    step in that state; a panic ends the process. *)
Inductive pool_step {W} : W * list (prog W unit) -> W * list (prog W unit) -> Prop :=
| pool_exec w ts1 p ts2 p' gs w' :
    is_ret p = false -> exec p w = (Done (p', gs), w') ->
    pool_step (w, ts1 ++ p :: ts2)%list (w', ts1 ++ p' :: ts2 ++ gs)%list.

(** *** A run alone is one of the interleavings *)

Lemma pool_one {W} (ts1 : list (prog W unit)) p ts2 w p' gs w' x :
  is_ret p = false -> exec p w = (Done (p', gs), w') ->
  rtc pool_step (w', ts1 ++ p' :: ts2 ++ gs)%list x -> rtc pool_step (w, ts1 ++ p :: ts2)%list x.
Proof. intros Hf He. apply rtc_l. by apply pool_exec. Qed.

(** Goroutines that have ended. *)
Abbreviation all_ended := (Forall (fun p => p = Ret tt)).

(** The stretch [stretch p w] and what follows it. *)
Definition reaches {W} (p : prog W unit) : Prop :=
  forall ts1 ts2 w a w', alone p w = (Done a, w') ->
  exists p1 gs w1 ts, stretch p w = (Done (p1, gs), w1) /\ all_ended ts /\
    rtc pool_step (w1, ts1 ++ p1 :: ts2 ++ gs)%list (w', ts1 ++ Ret a :: ts2 ++ ts)%list.

Lemma reaches_pool {W} (p : prog W unit) ts1 ts2 w a w' :
  reaches p -> alone p w = (Done a, w') ->
  exists ts, all_ended ts /\ rtc pool_step (w, ts1 ++ p :: ts2)%list (w', ts1 ++ Ret a :: ts2 ++ ts)%list.
Proof.
  intros Hp H. destruct (Hp ts1 ts2 w a w' H) as (p1 & gs & w1 & ts & He & Hts & Hs). destruct p as [a0|B m f|B m f|g f].
  - cbn in H. injection H as <- <-. exists []. by rewrite app_nil_r.
  - exists ts. split; [done|]. eapply pool_one; [done|exact He|exact Hs].
  - cbn in He. injection He as <- <- <-. exists ts. by rewrite app_nil_r in Hs.
  - exists ts. split; [done|]. eapply pool_one; [done|exact He|exact Hs].
Qed.

Lemma alone_reaches {W} : forall p : prog W unit, reaches p.
Proof.
  fix IH 1. intros [a|B m f|B m f|g f] ts1 ts2 w a' w' H; cbn in H |- *.
  - injection H as <- <-. exists (Ret a), [], w, []. split_and!; [done|done|apply rtc_refl].
  - destruct (m w) as [[b| |] w1]; [|done..]. by apply IH.
  - destruct (m w) as [[b| |] w1] eqn:Em; [|done..].
    destruct (IH (f b) ts1 ts2 w1 a' w' H) as (p1 & gs & w2 & ts & He & Hts & Hs).
    exists (Await m f), [], w, ts. split; [done|]. split; [done|]. rewrite app_nil_r.
    eapply pool_one; [done|unfold exec; cbn; rewrite Em; exact He|exact Hs].
  - destruct (alone g w) as [[[]| |] w1] eqn:Eg; [|done..].
    exists f, [g], w. destruct (reaches_pool g (ts1 ++ f :: ts2) [] w tt w1 (IH g) Eg) as (tsg & Htsg & Hg).
    destruct (reaches_pool f ts1 (ts2 ++ Ret tt :: tsg) w1 a' w' (IH f) H) as (tsf & Htsf & Hf).
    exists (Ret tt :: tsg ++ tsf)%list. split; [done|]. split; [constructor; [done|by apply Forall_app]|]. rewrite <- !app_assoc in Hg. cbn in Hg.
    etrans; [exact Hg|]. rewrite <- !app_assoc in Hf. cbn in Hf. exact Hf.
Qed.

Theorem alone_is_a_schedule {W} (p : prog W unit) (w w' : W) :
  alone p w = (Done tt, w') -> exists ts, all_ended ts /\ rtc pool_step (w, [p]) (w', Ret tt :: ts).
Proof. intros H. exact (reaches_pool p [] [] w tt w' (alone_reaches p) H). Qed.
