(* ===== verification/LimitGroup.v ===== *)
(** * [agent/pkg/limit_wait_group]: a wait group of limited size

    The channel [c] is a counter with the capacity [maxSize], the wait group a counter. The
    operations are split at the points where a goroutine can be suspended, and interleaved
    as [dumpExec] uses them: one goroutine calls [Add(1)] and starts a task for each of [n]
    items, then calls [Wait]; every task ends with [Done]. *)

From stdpp Require Import base tactics option list relations.
From Stdlib Require Import Lia.
From S2P Require Import Prelude.

(** ** The operations *)

Record limitSyncGroup := Group { maxSize : nat; c : nat; wg : nat }.

Definition NewSemaphore (maxSize : nat) : limitSyncGroup := Group maxSize 0 0.

(** [s.wg.Add(delta)] *)
Definition wg_Add (delta : nat) (s : limitSyncGroup) : limitSyncGroup := Group (maxSize s) (c s) (wg s + delta).
(** [s.c <- struct{}{}]: [None] while the channel is full. *)
Definition send (s : limitSyncGroup) : option limitSyncGroup :=
  if Nat.ltb (c s) (maxSize s) then Some (Group (maxSize s) (S (c s)) (wg s)) else None.
(** [<-s.c]: [None] while the channel is empty. *)
Definition receive (s : limitSyncGroup) : option limitSyncGroup :=
  match c s with 0 => None | S n => Some (Group (maxSize s) n (wg s)) end.
(** [s.wg.Done()]: a wait group whose counter would become negative panics. *)
Definition wg_Done (s : limitSyncGroup) : option limitSyncGroup :=
  match wg s with 0 => None | S n => Some (Group (maxSize s) (c s) n) end.
(** [s.wg.Wait()] returns when the counter is zero. *)
Definition wg_Wait (s : limitSyncGroup) : bool := Nat.eqb (wg s) 0.

(** ** The goroutines *)

(** Where the adding goroutine is: before the [Add] for the next of [todo] items, between
    the two statements of [Add(1)], in [Wait], or after it. *)
Inductive adder := Adding (todo : nat) | Sending (todo : nat) | Waiting | Returned.

(** The tasks that run, those that are between the two statements of [Done], and those that
    have ended. *)
Record run := Run { group : limitSyncGroup; main : adder; running : nat; releasing : nat; ended : nat }.

Definition start (max n : nat) : run := Run (NewSemaphore max) (Adding n) 0 0 0.

Inductive group_step : run -> run -> Prop :=
| step_wg_add s todo r e d :
    group_step (Run s (Adding (S todo)) r e d) (Run (wg_Add 1 s) (Sending todo) r e d)
| step_send s s' todo r e d :
    send s = Some s' -> group_step (Run s (Sending todo) r e d) (Run s' (Adding todo) (S r) e d)
| step_no_more s r e d : group_step (Run s (Adding 0) r e d) (Run s Waiting r e d)
| step_wait s r e d : wg_Wait s = true -> group_step (Run s Waiting r e d) (Run s Returned r e d)
| step_receive s s' m r e d :
    receive s = Some s' -> group_step (Run s m (S r) e d) (Run s' m r (S e) d)
| step_done s s' m r e d :
    wg_Done s = Some s' -> group_step (Run s m r (S e) d) (Run s' m r e (S d)).

(** ** The invariant *)

Definition pending (m : adder) : nat := match m with Sending _ => 1 | _ => 0 end.
Definition left (m : adder) : nat := match m with Adding n => n | Sending n => S n | _ => 0 end.

Record group_ok (max n : nat) (x : run) : Prop := {
  ok_max : maxSize (group x) = max;
  ok_chan : c (group x) = running x;
  ok_wg : wg (group x) = running x + releasing x + pending (main x);
  ok_bound : running x <= max;
  ok_total : left (main x) + running x + releasing x + ended x = n;
  ok_returned : main x = Returned -> running x = 0 /\ releasing x = 0;
}.

Lemma start_ok max n : group_ok max n (start max n).
Proof. split; cbn; lia || done. Qed.

Lemma group_step_ok max n x y : group_ok max n x -> group_step x y -> group_ok max n y.
Proof.
  intros [Hm Hc Hw Hb Ht Hr] Hs. destruct Hs; cbn in *.
  - split; cbn; try lia. done.
  - unfold send in *. destruct (Nat.ltb_spec (c s) (maxSize s)); simplify_eq. split; cbn in *; try lia. done.
  - split; cbn; try lia. done.
  - apply Nat.eqb_eq in H. split; cbn; try lia.
  - unfold receive in *. destruct (c s) eqn:Ec; simplify_eq. split; cbn in *; try lia. intros Hmr.
    specialize (Hr Hmr). lia.
  - unfold wg_Done in *. destruct (wg s) eqn:Ew; simplify_eq. split; cbn in *; try lia. intros Hmr.
    specialize (Hr Hmr). lia.
Qed.

Lemma group_steps_ok max n x : rtc group_step (start max n) x -> group_ok max n x.
Proof.
  intros H. remember (start max n) as x0 eqn:E. assert (H0 : group_ok max n x0) by (subst; apply start_ok).
  clear E. induction H; [done|]. apply IHrtc. by eapply group_step_ok.
Qed.

(** Every group_step brings the end closer. *)
Definition measure (x : run) : nat :=
  (match main x with Adding t => 5 * t + 2 | Sending t => 5 * t + 5 | Waiting => 1 | Returned => 0 end)
  + 2 * running x + releasing x.

Lemma step_measure x y : group_step x y -> measure y < measure x.
Proof. destruct 1; unfold measure; cbn; lia. Qed.

(** However the goroutines interleave, at most [max] tasks run at once, the counters
    never go below zero, and [Wait] returns only when all [n] tasks have ended. *)
Theorem limit_group_safe max n x :
  rtc group_step (start max n) x ->
  running x <= max /\
  (main x = Returned -> ended x = n /\ running x = 0 /\ releasing x = 0) /\
  (0 < running x -> is_Some (receive (group x))) /\ (0 < releasing x -> is_Some (wg_Done (group x))).
Proof.
  intros [Hm Hc Hw Hb Ht Hr]%group_steps_ok. split; [done|]. split; [|split].
  - intros Hret. destruct (Hr Hret) as [Hr0 He0]. rewrite Hret in Ht. cbn in Ht. lia.
  - intros Hpos. unfold receive. destruct (c (group x)); [lia|]. by eexists.
  - intros Hpos. unfold wg_Done. destruct (wg (group x)); [lia|]. by eexists.
Qed.

Lemma progress max n x : 0 < max -> group_ok max n x -> main x = Returned \/ exists y, group_step x y.
Proof.
  intros Hmax [Hm Hc Hw Hb Ht Hr]. destruct x as [s m r e d]. cbn in *.
  destruct e as [|e].
  2: { right. unfold wg in Hw. destruct s as [mx ch w]. cbn in *. subst w.
       eexists. apply step_done. unfold wg_Done. cbn. rewrite Nat.add_succ_r. reflexivity. }
  destruct r as [|r].
  2: { right. destruct s as [mx ch w]. cbn in *. subst ch. eexists. apply step_receive. reflexivity. }
  destruct m as [[|t]|t| |].
  - right. eexists. apply step_no_more.
  - right. eexists. apply step_wg_add.
  - right. eexists. apply step_send. unfold send. rewrite Hc, Hm. destruct (Nat.ltb_spec 0 max); [done|lia].
  - right. eexists. apply step_wait. unfold wg_Wait. rewrite Hw. done.
  - by left.
Qed.

(** C36: with a positive size the group never deadlocks and every schedule is finite: a run
    takes at most [5 n + 2] steps, and one that cannot go on has returned from [Wait] with
    all tasks ended. *)
Theorem limit_group_terminates max n :
  0 < max ->
  (forall k x, nsteps group_step k (start max n) x -> k <= 5 * n + 2) /\
  (forall x, rtc group_step (start max n) x -> (forall y, ~ group_step x y) -> main x = Returned /\ ended x = n).
Proof.
  intros Hmax. split.
  - intros k x H. assert (Hk : k + measure x <= measure (start max n)).
    { induction H as [x|k x y z Hxy _ IH]; [lia|]. apply step_measure in Hxy. lia. }
    unfold measure at 2 in Hk. cbn in Hk. lia.
  - intros x Hx Hstuck. pose proof (group_steps_ok _ _ _ Hx) as Hok.
    destruct (progress max n x Hmax Hok) as [Hret|[y Hy]]; [|by destruct (Hstuck y)].
    split; [done|]. destruct Hok as [_ _ _ _ Ht Hr]. destruct (Hr Hret) as [Hr0 He0].
    rewrite Hret, Hr0, He0 in Ht. cbn in Ht. lia.
Qed.

(** ** A size of zero blocks the first [Add] for ever. *)
Lemma limit_group_zero n x : rtc group_step (start 0 (S n)) x -> main x <> Returned.
Proof.
  intros H. assert (Hinv : ended x = 0 /\ running x = 0 /\ releasing x = 0 /\ maxSize (group x) = 0 /\
    (main x = Adding (S n) \/ main x = Sending n)).
  { remember (start 0 (S n)) as x0 eqn:E. assert (H0 : ended x0 = 0 /\ running x0 = 0 /\ releasing x0 = 0 /\
      maxSize (group x0) = 0 /\ (main x0 = Adding (S n) \/ main x0 = Sending n)) by (subst; cbn; auto 10).
    clear E. induction H as [|x y z Hs _ IH]; [done|]. apply IH. destruct H0 as (He & Hr & Hl & Hm & Hc).
    destruct Hs as [| s s' t r e d Hs | | | |]; cbn in *; try (destruct Hc; simplify_eq; cbn; by auto 10).
    exfalso. unfold send in Hs. by rewrite Hm in Hs. }
  destruct Hinv as (_ & _ & _ & _ & [-> | ->]); done.
Qed.

(** ** Witnesses *)

(** Two tasks, one at a time. *)
Lemma limit_group_safe_witness : exists x, rtc group_step (start 1 1) x /\ running x = 1 /\ running x <= 1.
Proof.
  assert (H : rtc group_step (start 1 1) (Run (Group 1 1 1) (Adding 0) 1 0 0)).
  { eapply rtc_l; [apply step_wg_add|]. eapply rtc_l; [apply step_send; reflexivity|]. apply rtc_refl. }
  exists (Run (Group 1 1 1) (Adding 0) 1 0 0). split; [exact H|]. split; [reflexivity|].
  apply (limit_group_safe 1 1 _ H).
Defined.

Lemma limit_group_terminates_witness :
  0 < 5 /\ (forall k x, nsteps group_step k (start 5 3) x -> k <= 17).
Proof. split; [lia|]. apply (limit_group_terminates 5 3). lia. Defined.
