(* ===== verification/NetHttp.v ===== *)
(** * The part of Go's [net/http] package the program uses

    Headers with their canonical keys, request values and their constructor, response
    values, and readers. Parsing a URL is [net/url]'s business: the type of parsed URLs
    and the parser are parameters ([URL], [url_Parse]). *)

From stdpp Require Import base tactics option list gmap strings numbers.
From S2P Require Import Prelude GoStrings.

(** ** Headers *)

(** [http.Header] *)
Abbreviation header := (gmap string (list string)).

Definition ascii_code (c : Ascii.ascii) : N := Ascii.N_of_ascii c.
Definition in_range (lo hi : N) (c : Ascii.ascii) : bool :=
  (lo <=? ascii_code c)%N && (ascii_code c <=? hi)%N.
Definition is_lower (c : Ascii.ascii) : bool := in_range 97 122 c.
Definition is_upper (c : Ascii.ascii) : bool := in_range 65 90 c.
Definition is_digit (c : Ascii.ascii) : bool := in_range 48 57 c.
Definition to_upper (c : Ascii.ascii) : Ascii.ascii :=
  if is_lower c then Ascii.ascii_of_N (ascii_code c - 32) else c.
Definition to_lower (c : Ascii.ascii) : Ascii.ascii :=
  if is_upper c then Ascii.ascii_of_N (ascii_code c + 32) else c.

(** RFC 7230 token characters: letters, digits and fifteen signs. *)
Definition token_signs : list N := [33; 35; 36; 37; 38; 39; 42; 43; 45; 46; 94; 95; 96; 124; 126]%N.
Definition is_token_char (c : Ascii.ascii) : bool :=
  is_lower c || is_upper c || is_digit c || bool_decide (ascii_code c ∈ token_signs).

Fixpoint all_chars (p : Ascii.ascii -> bool) (s : string) : bool :=
  match s with EmptyString => true | String c s' => p c && all_chars p s' end.

(** Upper case at the start and after a dash, lower case elsewhere. *)
Fixpoint canonical_from (upper : bool) (s : string) : string :=
  match s with
  | EmptyString => EmptyString
  | String c s' => String (if upper then to_upper c else to_lower c)
                          (canonical_from (bool_decide (ascii_code c = 45%N)) s')
  end.

(** [textproto.CanonicalMIMEHeaderKey] *)
Definition CanonicalKey (k : string) : string :=
  if all_chars is_token_char k then canonical_from true k else k.

(** [http.Header.Set] and [http.Header.Get] *)
Definition Header_Set (h : header) (k v : string) : header := <[CanonicalKey k := [v]]> h.
Definition Header_Get (h : header) (k : string) : string :=
  match h !! CanonicalKey k with Some (v :: _) => v | _ => EmptyString end.

Lemma Header_Get_Set h k v : Header_Get (Header_Set h k v) k = v.
Proof. unfold Header_Get, Header_Set. by rewrite lookup_insert_eq. Qed.

Lemma Header_Get_Set_ne h k k' v :
  CanonicalKey k <> CanonicalKey k' -> Header_Get (Header_Set h k v) k' = Header_Get h k'.
Proof. intros Hne. unfold Header_Get, Header_Set. by rewrite lookup_insert_ne. Qed.

(** ** Readers *)

(** An [io.Reader]: the bytes it still yields, and the error reading them to the end
    meets, if any. *)
Record reader := Reader { rd_data : string; rd_err : option error }.

Definition string_reader (s : string) : reader := Reader s None.

(** [ioutil.ReadAll]: all the bytes or the error; the reader is drained either way. *)
Definition ReadAll (r : reader) : string + error :=
  match rd_err r with None => inl (rd_data r) | Some e => inr e end.

Definition drained (r : reader) : reader := Reader EmptyString (rd_err r).

(** ** Requests and responses *)

Section Requests.
Context {URL : Type} (url_Parse : string -> URL + error).

Record http_request := HttpRequest {
  req_Method : string;
  req_URL : URL;
  req_Header : header;
  req_Body : option reader;
}.

Definition validMethod (method : string) : bool :=
  bool_decide (method <> EmptyString) && all_chars is_token_char method.

(** [http.NewRequest] *)
Definition http_NewRequest (method url : string) (body : option reader)
  : http_request + error :=
  let method := if bool_decide (method = EmptyString) then "GET"%string else method in
  if negb (validMethod method) then inr ("net/http: invalid method " +:+ method)
  else match url_Parse url with
       | inr e => inr e
       | inl u => inl (HttpRequest method u ∅ body)
       end.

Definition set_header (r : http_request) (k v : string) : http_request :=
  HttpRequest (req_Method r) (req_URL r) (Header_Set (req_Header r) k v) (req_Body r).

(** [http.Request.AddCookie], given the text it makes of the cookie's name and value: all
    cookies are in one header. *)
Definition AddCookie (r : http_request) (text : string) : http_request :=
  let c := Header_Get (req_Header r) "Cookie" in
  set_header r "Cookie" (if bool_decide (c = EmptyString) then text else c +:+ "; " +:+ text).

Lemma AddCookie_get r texts k :
  CanonicalKey k <> "Cookie"%string ->
  Header_Get (req_Header (foldl AddCookie r texts)) k = Header_Get (req_Header r) k.
Proof.
  intros Hk. revert r. induction texts as [|t texts IH]; intros r; [done|]. cbn [foldl]. rewrite IH.
  unfold AddCookie, set_header. cbn [req_Header]. apply Header_Get_Set_ne. by apply not_eq_sym.
Qed.
Lemma AddCookie_same r texts :
  req_Method (foldl AddCookie r texts) = req_Method r /\ req_URL (foldl AddCookie r texts) = req_URL r /\
  req_Body (foldl AddCookie r texts) = req_Body r.
Proof. revert r. induction texts as [|t texts IH]; intros r; [done|]. exact (IH (AddCookie r t)). Qed.
End Requests.
Arguments http_request : clear implicits.

Record http_response := HttpResponse {
  resp_StatusCode : Z;
  resp_Header : header;
  resp_Body : reader;
}.
