(* ===== verification/Retry.v ===== *)
(** * [agent/pkg/httpclient]: retries ([retry.go] and the end of [request.go])

    A request is sent until no retry function asks for another attempt, a fixed number of
    times, and each of these attempts again up to three times after timeouts. Every attempt
    sends a copy of the request, since its body can be read only once; the copies have one
    header map, to which [net/http] adds the cookies of a cookie jar at each attempt. *)

From stdpp Require Import base tactics option list gmap strings.
From Stdlib Require Import Lia.
From S2P Require Import Prelude GoStrings NetHttp.

Local Open Scope string_scope.

(** An error of the transport: its message, and whether it is a [net.Error] whose [Timeout()]
    holds. *)
Record http_error := HttpError { err_text : string; err_Timeout : bool }.

(** The two results of [http.Client.Do]. *)
Definition answer : Type := option http_response * option http_error.

Definition nil_response : string := "invalid memory address or nil pointer dereference".

(** [RetryFunc]: the request itself is not looked at by the functions of the package. *)
Definition RetryFunc : Type := option http_response -> option http_error -> outcome bool.

Record RetryOption := MkRetryOption { MaxTime : Z; Interval : Z; Fns : list RetryFunc }.

(** [resp.StatusCode/100 == 5] dereferences [resp]. *)
Definition is_5xx : RetryFunc := fun resp _ =>
  match resp with
  | None => Panic nil_response
  | Some r => Done (bool_decide (Z.quot (resp_StatusCode r) 100 = 5%Z))
  end.
Definition is_err : RetryFunc := fun _ respErr =>
  Done (match respErr with Some _ => true | None => false end).

Definition Retry5XX : RetryOption := MkRetryOption 3 2 [is_5xx].
Definition RetryErrResp : RetryOption := MkRetryOption 3 2 [is_err].
Definition NoRetry : RetryOption := MkRetryOption 0 0 [].

(** The test of [mergeRetryOptions] for [NoRetry]. *)
Definition is_no_retry (op : RetryOption) : bool :=
  bool_decide (MaxTime op = 0%Z) && bool_decide (Interval op = 0%Z) && Nat.eqb (length (Fns op)) 0.

Fixpoint merge_from (r : RetryOption) (rs : list RetryOption) : RetryOption :=
  match rs with
  | [] => r
  | op :: rs' =>
      if is_no_retry op then MkRetryOption 1 (Interval NoRetry) (Fns NoRetry)
      else merge_from (MkRetryOption (if bool_decide (MaxTime op > MaxTime r)%Z then MaxTime op else MaxTime r)
                                     (if bool_decide (Interval op > Interval r)%Z then Interval op else Interval r)
                                     (Fns r ++ Fns op)%list) rs'
  end.
Definition mergeRetryOptions (rs : list RetryOption) : RetryOption := merge_from (MkRetryOption 3 2 []) rs.

Definition MAX_RETRY_TIMES_FOR_TIMEOUT : nat := 2.

Section Client.
Context {URL : Type} (url_Parse : string -> URL + error) (url_String : URL -> string).
(** [r.cli.Do]: the answer of the network, from the requests sent before. *)
Variable transport : list (http_request URL) -> http_request URL -> answer.
(** [Cookies] of the client's cookie jar, as the texts of the cookies, from the requests sent
    before; without a jar there are none. *)
Variable jar : list (http_request URL) -> URL -> list string.

(** A request in memory: its header is a map that requests can share. *)
Record request_ref := RequestRef {
  rf_Method : string;
  rf_URL : URL;
  rf_Header : positive;
  rf_Body : option reader;
}.

(** [r.internal], the header maps, the requests sent as they were on the wire, the seconds
    slept. *)
Record client_state := ClientState {
  internal : request_ref;
  headers : gmap positive header;
  sent : list (http_request URL);
  slept : list Z;
}.

(** The request as it reads now. *)
Definition contents (s : client_state) (r : request_ref) : http_request URL :=
  HttpRequest (rf_Method r) (rf_URL r) (default ∅ (headers s !! rf_Header r)) (rf_Body r).
Definition internal_request (s : client_state) : http_request URL := contents s (internal s).
(** A client that is about to send [req]. *)
Definition client_of (req : http_request URL) : client_state :=
  ClientState (RequestRef (req_Method req) (req_URL req) 1 (req_Body req)) {[1%positive := req_Header req]} [] [].

Definition set_internal (r : request_ref) : M client_state unit :=
  modify (fun s => ClientState r (headers s) (sent s) (slept s)).
Definition sleep (seconds : Z) : M client_state unit :=
  modify (fun s => ClientState (internal s) (headers s) (sent s) (slept s ++ [seconds])).

(** [http.Client.Do] first adds the jar's cookies to the header of the request it is given. *)
Definition cli_Do (req : request_ref) : M client_state answer := fun s =>
  let wire := foldl AddCookie (contents s req) (jar (sent s) (rf_URL req)) in
  (Done (transport (sent s) wire),
   ClientState (internal s) (<[rf_Header req := req_Header wire]> (headers s)) (sent s ++ [wire]) (slept s)).

Definition with_ref_header (r : request_ref) (h : positive) : request_ref :=
  RequestRef (rf_Method r) (rf_URL r) h (rf_Body r).
Definition with_ref_body (r : request_ref) (b : option reader) : request_ref :=
  RequestRef (rf_Method r) (rf_URL r) (rf_Header r) b.

(** [http.NewRequest] makes a header map of its own. *)
Definition new_request (method url : string) (body : option reader) : M client_state (request_ref + error) := fun s =>
  match http_NewRequest url_Parse method url body with
  | inr err => (Done (inr err), s)
  | inl r =>
      let h := fresh (dom (headers s)) in
      (Done (inl (RequestRef (req_Method r) (req_URL r) h (req_Body r))),
       ClientState (internal s) (<[h := req_Header r]> (headers s)) (sent s) (slept s))
  end.

(** [dupRequest]: two requests with readers of their own over the whole body, whose header is
    the header map of the original. The body of the original is drained. *)
Definition dupRequest (req : request_ref) : M client_state ((request_ref * request_ref) + error) :=
  match (match rf_Body req with None => inl "" | Some b => ReadAll b end) with
  | inr err => mret (inr err)
  | inl bodybuf =>
      r1 ← new_request (rf_Method req) (url_String (rf_URL req)) (Some (string_reader bodybuf));
      match r1 with
      | inr err => mret (inr err)
      | inl req1 =>
          r2 ← new_request (rf_Method req) (url_String (rf_URL req)) (Some (string_reader bodybuf));
          match r2 with
          | inr err => mret (inr err)
          | inl req2 => mret (inl (with_ref_header req1 (rf_Header req), with_ref_header req2 (rf_Header req)))
          end
      end
  end.

(** The function literal [fn] of [doRequest]. *)
Definition attempt : M client_state answer :=
  s ← gets id;
  dup ← dupRequest (internal s);
  match dup with
  | inr err =>
      _ ← set_internal (with_ref_body (internal s) (drained <$> rf_Body (internal s)));
      mret (None, Some (HttpError err false))
  | inl (req1, req2) =>
      _ ← set_internal req1;
      cli_Do req2
  end.

Definition is_timeout (a : answer) : bool :=
  match a.2 with Some e => err_Timeout e | None => false end.

(** The loop of [retryIfTimeout], with [n] rounds left. *)
Fixpoint timeout_loop (fn : M client_state answer) (n : nat) (a : answer) : M client_state answer :=
  match n with
  | 0 => mret a
  | S n' => if is_timeout a then a' ← fn; timeout_loop fn n' a' else mret a
  end.
Definition retryIfTimeout (fn : M client_state answer) : M client_state answer :=
  a ← fn; timeout_loop fn MAX_RETRY_TIMES_FOR_TIMEOUT a.

(** The inner loop of [retry]: the first function that asks for a retry makes it sleep. *)
Fixpoint wants_retry (fns : list RetryFunc) (interval : Z) (a : answer) : M client_state bool :=
  match fns with
  | [] => mret false
  | fn :: fns' =>
      again ← (fun s => (fn a.1 a.2, s));
      if (again : bool) then _ ← sleep interval; mret true else wants_retry fns' interval a
  end.

(** The outer loop of [retry], with [n] rounds left and the last answer. *)
Fixpoint retry_loop (fns : list RetryFunc) (interval : Z) (n : nat) (last : answer) : M client_state answer :=
  match n with
  | 0 => mret last
  | S n' =>
      a ← retryIfTimeout attempt;
      again ← wants_retry fns interval a;
      if (again : bool) then retry_loop fns interval n' a else mret a
  end.
Definition retry (op : RetryOption) : M client_state answer :=
  retry_loop (Fns op) (Interval op) (Z.to_nat (MaxTime op)) (None, None).

(** ** What is sent *)

(** The copy of [req] that an attempt makes, before cookies are added. *)
Definition copy_of (req : http_request URL) (data : string) : http_request URL :=
  HttpRequest (if bool_decide (req_Method req = "") then "GET" else req_Method req) (req_URL req) (req_Header req)
    (Some (string_reader data)).

(** What [n] attempts in a row send of the copy [req]: each adds the cookies that the jar has
    by then to what the one before sent. *)
Fixpoint copies (req : http_request URL) (past : list (http_request URL)) (n : nat) : list (http_request URL) :=
  match n with
  | 0 => []
  | S n' =>
      let wire := foldl AddCookie req (jar past (req_URL req)) in
      wire :: copies wire (past ++ [wire])%list n'
  end.

(** A request whose body can be read, to [data], and whose URL survives being printed and
    parsed again. *)
Record sendable (req : http_request URL) (data : string) : Prop := {
  sendable_body : match req_Body req with None => data = "" | Some b => ReadAll b = inl data end;
  sendable_url : url_Parse (url_String (req_URL req)) = inl (req_URL req);
  sendable_method : req_Method req = "" \/ validMethod (req_Method req) = true;
}.

Lemma new_request_run method url body s r :
  http_NewRequest url_Parse method url body = inl r -> req_Header r = ∅ ->
  exists h s', new_request method url body s = (Done (inl (RequestRef (req_Method r) (req_URL r) h (req_Body r))), s') /\
    internal s' = internal s /\ sent s' = sent s /\ slept s' = slept s /\
    forall l, default ∅ (headers s' !! l) = default ∅ (headers s !! l).
Proof.
  intros Hr Hh. unfold new_request. rewrite Hr. do 2 eexists. split; [reflexivity|]. split_and!; [done..|].
  intros l. cbn. set (h := fresh _). destruct (decide (h = l)) as [<-|]; [|by rewrite lookup_insert_ne].
  assert (headers s !! h = None) as -> by (apply not_elem_of_dom, is_fresh). rewrite lookup_insert_eq. by rewrite Hh.
Qed.

(** Both copies read as [copy_of], in the header map of the original. *)
Lemma dupRequest_copy s data :
  sendable (internal_request s) data ->
  let c := copy_of (internal_request s) data in
  let r := RequestRef (req_Method c) (req_URL c) (rf_Header (internal s)) (req_Body c) in
  exists s', dupRequest (internal s) s = (Done (inl (r, r)), s') /\
    internal s' = internal s /\ sent s' = sent s /\ slept s' = slept s /\
    forall l, default ∅ (headers s' !! l) = default ∅ (headers s !! l).
Proof.
  intros [Hb Hu Hm] c r. cbn in Hb, Hu, Hm. unfold dupRequest.
  assert ((match rf_Body (internal s) with None => inl "" | Some b => ReadAll b end) = @inl string error data) as ->.
  { destruct (rf_Body (internal s)); [done|by subst]. }
  assert (http_NewRequest url_Parse (rf_Method (internal s)) (url_String (rf_URL (internal s))) (Some (string_reader data)) =
    inl (HttpRequest (req_Method c) (req_URL c) ∅ (req_Body c))) as Hnew.
  { unfold http_NewRequest, c, copy_of. rewrite Hu. cbn. destruct Hm as [Hm|Hm]; [by rewrite Hm|].
    rewrite bool_decide_false by (intros He; by rewrite He in Hm). by rewrite Hm. }
  destruct (new_request_run _ _ _ s _ Hnew eq_refl) as (h1 & s1 & H1 & Hi1 & Hs1 & Hl1 & Hh1).
  destruct (new_request_run _ _ _ s1 _ Hnew eq_refl) as (h2 & s2 & H2 & Hi2 & Hs2 & Hl2 & Hh2).
  exists s2. rewrite (M_bind_done _ _ _ _ _ H1), (M_bind_done _ _ _ _ _ H2). split; [reflexivity|].
  split_and!; [congruence..|]. intros l. by rewrite Hh2, Hh1.
Qed.

Lemma cookies_same (req : http_request URL) cs :
  req_Method (foldl AddCookie req cs) = req_Method req /\ req_URL (foldl AddCookie req cs) = req_URL req /\
  req_Body (foldl AddCookie req cs) = req_Body req.
Proof. apply AddCookie_same. Qed.
(** What was sent is its own copy, and can be sent again. *)
Lemma wire_copy req data cs :
  let wire := foldl AddCookie (copy_of req data) cs in copy_of wire data = wire.
Proof.
  intros wire. destruct (cookies_same (copy_of req data) cs) as (Hm & Hu & Hb). fold wire in Hm, Hu, Hb.
  destruct wire as [m u h b]. cbn in *. subst. unfold copy_of. cbn. f_equal. by do 2 (case_bool_decide; try done).
Qed.
Lemma wire_sendable req data cs : sendable req data -> sendable (foldl AddCookie (copy_of req data) cs) data.
Proof.
  intros [Hb Hu Hm]. destruct (cookies_same (copy_of req data) cs) as (Em & Eu & Eb). split; rewrite ?Em, ?Eu, ?Eb; [done|done|].
  cbn. case_bool_decide; [by right|]. destruct Hm; [done|by right].
Qed.

(** One attempt sends the next copy. *)
Lemma attempt_run s data :
  sendable (internal_request s) data ->
  let wire := foldl AddCookie (copy_of (internal_request s) data) (jar (sent s) (req_URL (internal_request s))) in
  exists s', attempt s = (Done (transport (sent s) wire), s') /\ internal_request s' = wire /\ sent s' = (sent s ++ [wire])%list.
Proof.
  intros Hs wire. unfold attempt. rewrite M_bind_run. unfold gets, id. cbn beta iota.
  destruct (dupRequest_copy s data Hs) as (s1 & Hdup & Hi & Hsent & _ & Hh). rewrite (M_bind_done _ _ _ _ _ Hdup).
  rewrite M_bind_run. unfold set_internal, modify, cli_Do. cbn beta iota.
  set (r := RequestRef _ _ _ _). set (s2 := ClientState r _ _ _).
  assert (contents s2 r = copy_of (internal_request s) data) as Hr.
  { unfold contents, s2, r. cbn. by rewrite Hh. }
  rewrite Hr. cbn [sent s2]. rewrite Hsent. change (rf_URL r) with (req_URL (internal_request s)). fold wire.
  eexists. split; [reflexivity|]. split; [|done]. unfold internal_request, contents. cbn. rewrite lookup_insert_eq. cbn.
  destruct (cookies_same (copy_of (internal_request s) data) (jar (sent s) (req_URL (internal_request s)))) as (Em & Eu & Eb).
  fold wire in Em, Eu, Eb. destruct wire. cbn in *. by subst.
Qed.

(** From [s] to [s'] the next [n] copies were sent. *)
Definition copies_from (s : client_state) (data : string) : nat -> list (http_request URL) :=
  copies (copy_of (internal_request s) data) (sent s).
Record progress (data : string) (s : client_state) (n : nat) (s' : client_state) : Prop := {
  progress_sendable : sendable (internal_request s') data;
  progress_next : copy_of (internal_request s') data = default (copy_of (internal_request s) data) (last (copies_from s data n));
  progress_sent : sent s' = (sent s ++ copies_from s data n)%list;
}.
(** [a] is the answer to the last of them. *)
Definition answers (data : string) (s : client_state) (n : nat) (a : answer) : Prop :=
  exists before wire, copies_from s data n = (before ++ [wire])%list /\ a = transport (sent s ++ before)%list wire.

Lemma copies_add req past n m :
  copies req past (n + m) =
    (copies req past n ++ copies (default req (last (copies req past n))) (past ++ copies req past n) m)%list.
Proof.
  revert req past. induction n as [|n IH]; intros req past; cbn [copies Nat.add]; [by rewrite app_nil_r|].
  rewrite IH. set (wire := foldl _ _ _). set (more := copies wire _ n).
  assert (Hlast : default req (last (wire :: more)) = default wire (last more)).
  { destruct more as [|r more]; [done|]. rewrite last_cons. by destruct (last (r :: more)) eqn:E; [|rewrite last_None in E]. }
  rewrite Hlast. by rewrite <- (assoc_L (++)%list past).
Qed.
Lemma progress_copies data s n s1 m :
  progress data s n s1 -> copies_from s data (n + m) = (copies_from s data n ++ copies_from s1 data m)%list.
Proof. intros [_ Hn Hs]. unfold copies_from. rewrite copies_add. fold (copies_from s data n). by rewrite <- Hn, <- Hs. Qed.
Lemma progress_none data s : sendable (internal_request s) data -> progress data s 0 s.
Proof. intros Hs. split; [done|done|]. by rewrite app_nil_r. Qed.
Lemma progress_trans data s n s1 m s' : progress data s n s1 -> progress data s1 m s' -> progress data s (n + m) s'.
Proof.
  intros H1 [Hs2 Hn2 Hs]. pose proof (progress_copies data s n s1 m H1) as Hc. split; [done| |].
  - rewrite Hc, Hn2, last_app. destruct H1 as [_ Hn1 _]. by destruct (last (copies_from s1 data m)).
  - rewrite Hc, Hs. destruct H1 as [_ _ ->]. by rewrite (assoc_L (++)%list).
Qed.
Lemma answers_later data s n s1 m a : progress data s n s1 -> answers data s1 m a -> answers data s (n + m) a.
Proof.
  intros H1 (before & wire & Hc & ->). exists (copies_from s data n ++ before)%list, wire.
  rewrite (progress_copies data s n s1 m H1), Hc. destruct H1 as [_ _ ->]. by rewrite !(assoc_L (++)%list).
Qed.

(** A run that sends between [lo] and [hi] copies and returns the answer to the last one. *)
Definition sends (data : string) (lo hi : nat) (m : M client_state answer) : Prop :=
  forall s, sendable (internal_request s) data ->
  exists n, lo <= n <= hi /\ progress data s n (m s).2 /\
    forall a, (m s).1 = Done a -> 0 < n -> answers data s n a.

Lemma attempt_sends data : sends data 1 1 attempt.
Proof.
  intros s Hs. destruct (attempt_run s data Hs) as (s' & -> & Hi & Hsent). exists 1. split; [done|]. cbn. split.
  - split; [rewrite Hi; by apply wire_sendable|rewrite Hi; by rewrite wire_copy|by rewrite Hsent].
  - intros a [= <-] _. exists []. eexists. split; [done|]. by rewrite app_nil_r.
Qed.

(** After a run that returned [a], a second that returns [a] unchanged or sends more. *)
Lemma sends_bind data lo hi hi' (m : M client_state answer) (k : answer -> M client_state answer) :
  1 <= lo -> sends data lo hi m ->
  (forall a, sends data 1 hi' (k a) \/ k a = mret a) -> sends data lo (hi + hi') (m ≫= k).
Proof.
  intros Hlo Hm Hk s Hs. rewrite M_bind_run. destruct (Hm s Hs) as (n & Hn & Hp & Ha).
  destruct (m s) as [[a| |] s1]; cbn in *.
  2-3: exists n; split; [lia|]; by split.
  destruct (Hk a) as [Hka| ->].
  - destruct (Hka s1 (progress_sendable _ _ _ _ Hp)) as (n' & Hn' & Hp' & Ha'). exists (n + n'). split; [lia|].
    split; [by eapply progress_trans|]. intros a' Hd _. eapply answers_later; [exact Hp|]. apply Ha'; [done|lia].
  - exists n. split; [lia|]. by split.
Qed.

Lemma timeout_loop_sends data n : forall a,
  sends data 1 n (timeout_loop attempt n a) \/ timeout_loop attempt n a = mret a.
Proof.
  induction n as [|n IH]; intros a; cbn; [by right|]. destruct (is_timeout a); [|by right]. left.
  change (S n) with (1 + n). apply sends_bind; [done|apply attempt_sends|done].
Qed.

Lemma retryIfTimeout_sends data : sends data 1 3 (retryIfTimeout attempt).
Proof.
  unfold retryIfTimeout. change 3 with (1 + 2). apply sends_bind; [done|apply attempt_sends|].
  intros a. apply timeout_loop_sends.
Qed.

(** The retry functions send nothing. *)
Lemma wants_retry_state fns interval a s :
  let s' := (wants_retry fns interval a s).2 in
  internal_request s' = internal_request s /\ sent s' = sent s.
Proof.
  revert s. induction fns as [|fn fns IH]; intros s; [done|]. cbn. rewrite M_bind_run.
  destruct (fn a.1 a.2) as [[]| |]; [done|apply IH|done|done].
Qed.
Lemma wants_retry_progress data fns interval a s n s1 :
  progress data s n s1 -> progress data s n (wants_retry fns interval a s1).2.
Proof.
  intros [H1 H2 H3]. destruct (wants_retry_state fns interval a s1) as [Hi Hs]. by split; rewrite ?Hi, ?Hs.
Qed.

Lemma retry_loop_sends data fns interval n : forall last,
  0 < n -> sends data 1 (3 * n) (retry_loop fns interval n last).
Proof.
  induction n as [|n IH]; intros last Hpos; [lia|]. clear Hpos. cbn [retry_loop].
  intros s Hs. rewrite M_bind_run. destruct (retryIfTimeout_sends data s Hs) as (k & Hk & Hp & Ha).
  destruct (retryIfTimeout attempt s) as [[a| |] s1]; cbn in *.
  2-3: exists k; split; [lia|]; by split.
  rewrite M_bind_run. pose proof (wants_retry_progress data fns interval a s k s1 Hp) as Hp2.
  destruct (wants_retry fns interval a s1) as [[[]| |] s2]; cbn in *.
  3-4: exists k; split; [lia|]; split; [exact Hp2|]; by intros ? [=].
  2: { exists k. split; [lia|]. split; [exact Hp2|]. intros a' [= <-] Hpos. by apply Ha. }
  destruct n as [|n].
  - exists k. split; [lia|]. split; [exact Hp2|]. intros a' [= <-] Hpos. by apply Ha.
  - destruct (IH a ltac:(lia) s2 (progress_sendable _ _ _ _ Hp2)) as (n' & Hn' & Hp' & Ha').
    exists (k + n'). split; [lia|]. split; [by eapply progress_trans|]. intros a' Hd _.
    eapply answers_later; [exact Hp2|]. apply Ha'; [done|lia].
Qed.

Lemma merge_MaxTime_pos rs : forall r, (1 <= MaxTime r)%Z -> (1 <= MaxTime (merge_from r rs))%Z.
Proof.
  induction rs as [|op rs IH]; intros r Hr; cbn; [done|]. destruct (is_no_retry op); [done|].
  apply IH. cbn. case_bool_decide; lia.
Qed.

(** Every copy is the request with its whole body; only the cookies differ. *)
Lemma copies_alike req n : forall past wire, wire ∈ copies req past n ->
  req_Method wire = req_Method req /\ req_URL wire = req_URL req /\ req_Body wire = req_Body req /\
  forall k, CanonicalKey k <> "Cookie" -> Header_Get (req_Header wire) k = Header_Get (req_Header req) k.
Proof.
  revert req. induction n as [|n IH]; intros req past wire; cbn; [by intros ?%elem_of_nil|].
  set (first := foldl _ _ _). destruct (cookies_same req (jar past (req_URL req))) as (Hm & Hu & Hb). fold first in Hm, Hu, Hb.
  assert (Hh : forall k, CanonicalKey k <> "Cookie" -> Header_Get (req_Header first) k = Header_Get (req_Header req) k)
    by (intros k; apply AddCookie_get).
  intros [->|Hin]%elem_of_cons; [by split_and!|]. destruct (IH first _ wire Hin) as (Em & Eu & Eb & Eh).
  split_and!; [congruence..|]. intros k Hk. rewrite Eh by done. by apply Hh.
Qed.
Lemma copies_without_jar req past n : (forall h u, jar h u = []) -> copies req past n = replicate n req.
Proof.
  intros Hj. revert past. induction n as [|n IH]; intros past; [done|]. cbn. rewrite Hj. cbn. by rewrite IH.
Qed.


(** ** Which options are safe *)

(** Every answer has a response or an error. *)
Definition some_answer (a : answer) : Prop := is_Some a.1 \/ is_Some a.2.

(** An attempt is answered by the network, or fails to copy the request. *)
Lemma attempt_cases s :
  exists a s', attempt s = (Done a, s') /\
    ((exists h r, a = transport h r) \/ exists e, a = (None, Some (HttpError e false))).
Proof.
  unfold attempt. rewrite M_bind_run. unfold gets, id. cbn beta iota. rewrite M_bind_run.
  assert (exists r s1, dupRequest (internal s) s = (Done r, s1)) as (r & s1 & ->).
  { unfold dupRequest. destruct (match rf_Body _ with None => inl "" | Some b => ReadAll b end); [|by do 2 eexists].
    rewrite M_bind_run. unfold new_request. destruct (http_NewRequest _ _ _ _); by do 2 eexists. }
  destruct r as [[r1 r2]|e]; rewrite M_bind_run; do 2 eexists; (split; [reflexivity|]); [left|right]; by repeat eexists.
Qed.
Lemma attempt_done s :
  (forall h r, some_answer (transport h r)) -> exists a s', attempt s = (Done a, s') /\ some_answer a.
Proof.
  intros Ht. destruct (attempt_cases s) as (a & s' & Hrun & [(h & r & ->)|[e ->]]); do 2 eexists; (split; [exact Hrun|]).
  - apply Ht.
  - right. by eexists.
Qed.

Lemma timeout_loop_done n : forall a s,
  (forall h r, some_answer (transport h r)) -> some_answer a ->
  exists a' s', timeout_loop attempt n a s = (Done a', s') /\ some_answer a'.
Proof.
  induction n as [|n IH]; intros a s Ht Ha; cbn; [by do 2 eexists|]. destruct (is_timeout a); [|by do 2 eexists].
  destruct (attempt_done s Ht) as (a1 & s1 & Hrun & Ha1). rewrite (M_bind_done _ _ _ _ _ Hrun). by apply IH.
Qed.

Lemma retryIfTimeout_done s :
  (forall h r, some_answer (transport h r)) ->
  exists a s', retryIfTimeout attempt s = (Done a, s') /\ some_answer a.
Proof.
  intros Ht. unfold retryIfTimeout. destruct (attempt_done s Ht) as (a1 & s1 & Hrun & Ha1).
  rewrite (M_bind_done _ _ _ _ _ Hrun). by apply timeout_loop_done.
Qed.

Lemma retry_loop_done fns interval n : forall last s,
  (forall h r, some_answer (transport h r)) ->
  (forall a v, some_answer a -> is_done (wants_retry fns interval a v).1 = true) ->
  is_done (retry_loop fns interval n last s).1 = true.
Proof.
  induction n as [|n IH]; intros last s Ht Hw; [done|]. cbn [retry_loop].
  destruct (retryIfTimeout_done s Ht) as (a & s1 & Hrun & Ha). rewrite (M_bind_done _ _ _ _ _ Hrun).
  specialize (Hw a s1 Ha) as Hws. rewrite M_bind_run.
  destruct (wants_retry fns interval a s1) as [[[]| |] s2]; try done. by apply IH.
Qed.

Lemma retry_5xx_panics n interval last s e :
  (forall h r, transport h r = (None, Some (HttpError e false))) ->
  (retry_loop [is_5xx] interval (S n) last s).1 = Panic nil_response.
Proof.
  intros Ht. cbn [retry_loop]. rewrite M_bind_run.
  assert (Hatt : exists e' s', attempt s = (Done (None, Some (HttpError e' false)), s')).
  { destruct (attempt_cases s) as (a & s' & Hrun & [(h & r & ->)|[e' ->]]); [rewrite Ht in Hrun|]; by do 2 eexists. }
  destruct Hatt as (e' & s' & Hatt). unfold retryIfTimeout. rewrite (M_bind_done _ _ _ _ _ Hatt). reflexivity.
Qed.

(** The options of [Get] with automatic retries are safe in their order: an error is
    caught before the status is read, and the call always returns. [Retry5XX] alone panics
    on the first connection error. *)
Theorem Retry5XX_needs_RetryErrResp s :
  ((forall h r, some_answer (transport h r)) ->
     is_done (retry (mergeRetryOptions [RetryErrResp; Retry5XX]) s).1 = true) /\
  (forall e, (forall h r, transport h r = (None, Some (HttpError e false))) ->
     (retry (mergeRetryOptions [Retry5XX]) s).1 = Panic nil_response).
Proof.
  split.
  - intros Ht. apply retry_loop_done; [done|]. intros [resp err] v Ha.
    change (Fns (mergeRetryOptions [RetryErrResp; Retry5XX])) with [is_err; is_5xx].
    generalize (Interval (mergeRetryOptions [RetryErrResp; Retry5XX])). intros i. cbn.
    destruct err as [e|]; [done|]. destruct resp as [r|]; [|by destruct Ha as [[]|[]]].
    cbn. by destruct (bool_decide _).
  - intros e Ht. by apply (retry_5xx_panics 2 2 (None, None) s e).
Qed.
End Client.

(** ** Witnesses *)

(** URLs are strings, and the network fails twice before it answers. *)
Definition plain_url (s : string) : string + error := inl s.
Definition flaky (h : list (http_request string)) (r : http_request string) : answer :=
  match h with
  | [] => (None, Some (HttpError "i/o timeout" true))
  | [_] => (None, Some (HttpError "connection refused" false))
  | _ => (Some (HttpResponse 200 ∅ (string_reader "ok")), None)
  end.
Definition demo_http : http_request string := HttpRequest "POST" "http://center" ∅ (Some (string_reader "data")).
Definition demo_request : client_state (URL := string) := client_of demo_http.
Definition no_jar (h : list (http_request string)) (u : string) : list string := [].

Lemma demo_sendable : sendable plain_url id (internal_request demo_request) "data".
Proof. split; [reflexivity|reflexivity|]. right. reflexivity. Qed.


(** With a cookie jar every retry repeats the cookies of the attempts before it. *)
Lemma retry_repeats_cookies :
  map (fun r => Header_Get (req_Header r) "Cookie")
    (sent (retry plain_url id flaky (fun _ _ => ["session=1"]) (mergeRetryOptions [RetryErrResp]) demo_request).2) =
  ["session=1"; "session=1; session=1"; "session=1; session=1; session=1"].
Proof. vm_compute. reflexivity. Qed.

Lemma Retry5XX_needs_RetryErrResp_witness :
  (retry plain_url id (fun _ _ => (None, Some (HttpError "refused" false))) no_jar
     (mergeRetryOptions [Retry5XX]) demo_request).1 = Panic nil_response.
Proof. by apply (Retry5XX_needs_RetryErrResp plain_url id _ no_jar demo_request) with (e := "refused"). Defined.
