(* ===== verification/Terminal.v ===== *)
(** * [agent/pkg/httpclient/color_str], [loading.go] and [trace.go]: what is shown to people

    Coloured text; the spinner that [Loading] prints while a function runs in a goroutine of
    its own; and the tracer that writes requests and responses down. *)

From Stdlib Require Import Ascii.
From stdpp Require Import base tactics option list gmap strings relations.
From Stdlib Require Import Lia.
From S2P Require Import Prelude GoStrings NetHttp.

Local Open Scope string_scope.

(** ** [color_str.go] *)

Module color_str.

(** [Option] *)
Abbreviation Option := string.

Definition join (op : list Option) (i : string) : string := Join op i.

Definition BlackBg : Option := "40".
Definition RedBg : Option := "41".
Definition GreenBg : Option := "42".
Definition YellowBg : Option := "43".
Definition BlueBg : Option := "44".
Definition MagentaBg : Option := "45".
Definition CyanBg : Option := "46".
Definition WhiteBg : Option := "47".
Definition Reset_ : Option := "0".
Definition Bold : Option := "1".
Definition Underline : Option := "4".
Definition Inverse : Option := "7".

(** The character [\033]. *)
Definition esc : Ascii.ascii := Ascii.ascii_of_N 27.
Definition csi : string := String esc "[".

Definition Black (s : string) (op : list Option) : string :=
  csi +:+ join (op ++ ["30"]) ";" +:+ "m" +:+ s +:+ csi +:+ "0m".
Definition Red (s : string) (op : list Option) : string :=
  csi +:+ join (op ++ ["31"]) ";" +:+ "m" +:+ s +:+ csi +:+ "0m".
Definition Green (s : string) (op : list Option) : string :=
  csi +:+ join (op ++ ["32"]) ";" +:+ "m" +:+ s +:+ csi +:+ "0m".
Definition Yellow (s : string) (op : list Option) : string :=
  csi +:+ join (op ++ ["33"]) ";" +:+ "m" +:+ s +:+ csi +:+ "0m".
Definition Blue (s : string) (op : list Option) : string :=
  csi +:+ join (op ++ ["34"]) ";" +:+ "m" +:+ s +:+ csi +:+ "0m".
Definition Magenta (s : string) (op : list Option) : string :=
  csi +:+ join (op ++ ["35"]) ";" +:+ "m" +:+ s +:+ csi +:+ "0m".
Definition Cyan (s : string) (op : list Option) : string :=
  csi +:+ join (op ++ ["36"]) ";" +:+ "m" +:+ s +:+ csi +:+ "0m".
Definition White (s : string) (op : list Option) : string :=
  csi +:+ join (op ++ ["37"]) ";" +:+ "m" +:+ s +:+ csi +:+ "0m".
End color_str.

(** ** [trace.go] *)

(** The text written to the tracer's writer, oldest first. *)
Abbreviation written := (list string).

Section Tracer.
Context {URL : Type} (url_String : URL -> string).

Definition WriteString (s : string) : M written unit := modify (fun out => (out ++ [s])%list).

Definition TraceRequest (req : http_request URL) : M written unit :=
  WriteString ("RequestURL: " +:+ url_String (req_URL req) +:+ String "010"%char "").

(** The body is read and put back; after an error it stays read. *)
Definition TraceResponse (r : http_response) : M written http_response :=
  match ReadAll (resp_Body r) with
  | inr err =>
      _ ← WriteString ("TraceResponse: read response body fail: " +:+ err);
      mret (HttpResponse (resp_StatusCode r) (resp_Header r) (drained (resp_Body r)))
  | inl body =>
      _ ← WriteString ("ResponseBody: " +:+ body +:+ String "010"%char "");
      mret (HttpResponse (resp_StatusCode r) (resp_Header r) (string_reader body))
  end.
End Tracer.

(** ** [loading.go] *)

Definition loadingChars : list string := ["⠧"; "⠶"; "⠼"; "⠹"; "⠛"; "⠏"].

(** What is done to the terminal: text printed, a call of the command [tput]. *)
Inductive term_event := Printed (s : string) | Tput (arg : string).

(** The goroutine of [Loading]: it runs [f], then offers a message on the channel [c], which
    has no buffer, then it is gone. *)
Inductive worker := Working | Offering | Gone.
(** The caller: before the first frame, in the loop, after [Loading] has returned. *)
Inductive caller := Starting | Looping | Returned.

Section Loading.
Context {W : Type}.
(** [fmt.Printf] with no arguments after the format. *)
Variable Printf : string -> string.
Variables (desc : string) (f : M W unit) (disappearAfterDone eraseCursor : bool).

(** The global [idx] is [lo_idx]; [lo_crash] is the panic of [f], which ends the process. *)
Record loading := MkLoading {
  lo_world : W;
  lo_idx : nat;
  lo_screen : list term_event;
  lo_worker : worker;
  lo_caller : caller;
  lo_crash : option string;
}.

Definition newline_out (s : string) : string := ReplaceAll s (String "010"%char "") " ".
Definition carriage_return : string := String "013"%char "".

(** [color_str.Green(loadingChars[idx%len(loadingChars)]) + " " + onelineDesc] *)
Definition printStr (idx : nat) : string :=
  color_str.Green (nth (idx `mod` length loadingChars) loadingChars "") [] +:+ " " +:+ newline_out desc.
Definition frame (idx : nat) : term_event := Printed (Printf (carriage_return +:+ printStr idx)).

Fixpoint blanks (n : nat) : string := match n with 0 => "" | S n' => String " " (blanks n') end.
Definition blank_line : string :=
  carriage_return +:+ blanks (String.length (newline_out desc) + 2) +:+ carriage_return.

(** What the caller does before the goroutine runs, and after its message. *)
Definition before : list term_event := if eraseCursor then [Tput "civis"] else [].
Definition after_done : list term_event :=
  ((if disappearAfterDone then [Printed (Printf blank_line)] else []) ++
   (if eraseCursor then [Tput "cvvis"] else []))%list.

(** The start of [Loading]: the goroutine may run before the first frame. *)
Definition loading_start (w : W) (idx : nat) (out : list term_event) : loading :=
  MkLoading w idx (out ++ before) Working Starting None.

Inductive loading_step : loading -> loading -> Prop :=
| ls_work w i out c w' :
    f w = (Done tt, w') ->
    loading_step (MkLoading w i out Working c None) (MkLoading w' i out Offering c None)
| ls_panic w i out c e w' :
    f w = (Panic e, w') ->
    loading_step (MkLoading w i out Working c None) (MkLoading w' i out Gone c (Some e))
| ls_first w i out k :
    loading_step (MkLoading w i out k Starting None) (MkLoading w (S i) (out ++ [frame i]) k Looping None)
| ls_tick w i out k :
    loading_step (MkLoading w i out k Looping None) (MkLoading w (S i) (out ++ [frame i]) k Looping None)
| ls_receive w i out :
    loading_step (MkLoading w i out Offering Looping None)
                 (MkLoading w i (out ++ after_done) Gone Returned None).

(** [Loading] when [ticks] times a tenth of a second goes by before the message. *)
Definition Loading (ticks : nat) : M (W * (nat * list term_event)) unit := fun s =>
  let '(w, (i, out)) := s in
  match f w with
  | (Done tt, w') =>
      (Done tt, (w', (i + S ticks, (out ++ before ++ map frame (seq i (S ticks)) ++ after_done)%list)))
  | (o, w') => (o, (w', (i, out)))
  end.

(** *** Every schedule of [Loading] is the function *)

Definition loading_inv (w : W) (i : nat) (out : list term_event) (s : loading) : Prop :=
  match lo_caller s with
  | Starting => lo_idx s = i /\ lo_screen s = (out ++ before)%list
  | Looping => exists t, lo_idx s = i + S t /\ lo_screen s = (out ++ before ++ map frame (seq i (S t)))%list
  | Returned => exists t, lo_idx s = i + S t /\
      lo_screen s = (out ++ before ++ map frame (seq i (S t)) ++ after_done)%list
  end /\
  match lo_worker s with
  | Working => lo_world s = w /\ lo_crash s = None /\ lo_caller s <> Returned
  | Offering => f w = (Done tt, lo_world s) /\ lo_crash s = None /\ lo_caller s <> Returned
  | Gone => match lo_crash s with
            | None => f w = (Done tt, lo_world s) /\ lo_caller s = Returned
            | Some e => f w = (Panic e, lo_world s) /\ lo_caller s <> Returned
            end
  end.

Lemma loading_inv_step w i out s s' : loading_inv w i out s -> loading_step s s' -> loading_inv w i out s'.
Proof.
  intros [Hc Hw] Hs. destruct Hs as [w0 i0 out0 c w1 Hf|w0 i0 out0 c e w1 Hf|w0 i0 out0 k|w0 i0 out0 k|w0 i0 out0];
    unfold loading_inv in *; cbn [lo_world lo_idx lo_screen lo_worker lo_caller lo_crash] in *.
  - destruct Hw as (-> & _ & Hr). by split.
  - destruct Hw as (-> & _ & Hr). by split.
  - destruct Hc as [-> ->]. split; [|by destruct k; intuition]. exists 0. split; [lia|]. by rewrite <- app_assoc.
  - destruct Hc as (t & -> & ->). split; [|by destruct k; intuition]. exists (S t). split; [lia|].
    rewrite (seq_S (S t) i), map_app, <- !app_assoc. done.
  - destruct Hc as (t & -> & ->), Hw as (Hf & _ & _). split; [|done]. exists t. by rewrite <- !app_assoc.
Qed.

Lemma loading_reach w i out s : rtc loading_step (loading_start w i out) s -> loading_inv w i out s.
Proof.
  assert (H0 : loading_inv w i out (loading_start w i out)) by done.
  revert H0. generalize (loading_start w i out). intros s0 H0 Hr. revert H0.
  induction Hr as [|s1 s2 s3 Hs _ IH]; [done|]. intros H1. by eapply IH, loading_inv_step.
Qed.

Lemma loading_ticks w i out k t :
  rtc loading_step (MkLoading w i out k Looping None)
    (MkLoading w (i + t) (out ++ map frame (seq i t)) k Looping None).
Proof.
  revert i out. induction t as [|t IH]; intros i out.
  - cbn. rewrite app_nil_r, Nat.add_0_r. apply rtc_refl.
  - eapply rtc_l; [apply ls_tick|]. specialize (IH (S i) (out ++ [frame i])%list).
    by rewrite <- app_assoc, Nat.add_succ_comm in IH.
Qed.

(** [Loading] returns only after its function has, and never leaves its goroutine
    behind: however the goroutine and the spinner interleave, a call that has returned did
    what the function does and printed a frame at the start and one for every tenth of a
    second, in order, before it erased the line; any number of ticks is possible; a call
    has crashed exactly when the function panicked; and if the function returns, the call
    can return from every state it can be in. *)
Theorem Loading_schedules w i out s :
  rtc loading_step (loading_start w i out) s ->
  (lo_caller s = Returned -> lo_crash s = None /\ lo_worker s = Gone /\
     exists ticks, Loading ticks (w, (i, out)) = (Done tt, (lo_world s, (lo_idx s, lo_screen s)))) /\
  (forall e, lo_crash s = Some e -> f w = (Panic e, lo_world s)) /\
  (forall w', f w = (Done tt, w') -> exists s', rtc loading_step s s' /\ lo_caller s' = Returned) /\
  (forall ticks w' i' out', Loading ticks (w, (i, out)) = (Done tt, (w', (i', out'))) ->
     rtc loading_step (loading_start w i out) (MkLoading w' i' out' Gone Returned None)).
Proof.
  intros Hr. pose proof (loading_reach w i out s Hr) as [Hc Hw]. split_and!.
  - intros Hret. rewrite Hret in *. destruct (lo_worker s); [by destruct Hw as (_ & _ & [])..|].
    destruct (lo_crash s); [by destruct Hw as [_ []]|]. split_and!; [done|done|].
    destruct Hc as (t & -> & ->), Hw as [Hf _]. exists t. unfold Loading. by rewrite Hf.
  - intros e He. rewrite He in Hw. destruct (lo_worker s); [by destruct Hw as (_ & [=] & _)..|]. by destruct Hw.
  - intros w' Hf. clear Hr. destruct s as [w0 i0 out0 k c cr]. cbn [lo_world lo_idx lo_screen lo_worker lo_caller lo_crash] in *.
    assert (Hloop : forall k i0 out0, cr = None -> (k = Working /\ w0 = w \/ k = Offering) ->
      exists s', rtc loading_step (MkLoading w0 i0 out0 k Looping None) s' /\ lo_caller s' = Returned).
    { intros k' i1 out1 -> [[-> ->]| ->].
      - exists (MkLoading w' i1 (out1 ++ after_done)%list Gone Returned None). split; [|done].
        eapply rtc_l; [by apply ls_work|]. apply rtc_once, ls_receive.
      - exists (MkLoading w0 i1 (out1 ++ after_done)%list Gone Returned None). split; [|done].
        apply rtc_once, ls_receive. }
    destruct k.
    + destruct Hw as (-> & -> & Hnr). destruct c; [|by apply Hloop; auto|done].
      destruct (Hloop Working (S i0) (out0 ++ [frame i0])%list) as (s' & Hs & Hd); auto.
      exists s'. split; [|done]. eapply rtc_l; [apply ls_first|exact Hs].
    + destruct Hw as (_ & -> & Hnr). destruct c; [|by apply Hloop; auto|done].
      destruct (Hloop Offering (S i0) (out0 ++ [frame i0])%list) as (s' & Hs & Hd); auto.
      exists s'. split; [|done]. eapply rtc_l; [apply ls_first|exact Hs].
    + destruct cr; [destruct Hw; congruence|]. destruct Hw as [_ ->]. eexists. by split; [apply rtc_refl|].
  - intros t w' i' out' Hl. unfold Loading in Hl. destruct (f w) as [[[]| |] w1] eqn:Hf; simplify_eq.
    eapply rtc_l; [by apply ls_work|]. eapply rtc_l; [apply ls_first|].
    etrans; [apply (loading_ticks _ _ _ _ t)|]. rewrite Nat.add_succ_comm.
    replace (out ++ before ++ map frame (seq i (S t)) ++ after_done)%list
      with ((((out ++ before) ++ [frame i]) ++ map frame (seq (S i) t)) ++ after_done)%list
      by (cbn; by rewrite <- !app_assoc).
    apply rtc_once, ls_receive.
Qed.
End Loading.
Arguments loading : clear implicits.

(** ** The colours and the text *)

Section Colours.
Import color_str.

(** What a terminal shows of a text: control sequences, which end with [m], are not shown. *)
Fixpoint shown (inside : bool) (s : string) : string :=
  match s with
  | EmptyString => EmptyString
  | String c s' =>
      if inside then shown (negb (bool_decide (c = "m"%char))) s'
      else if bool_decide (c = esc) then shown true s' else String c (shown false s')
  end.

Lemma shown_app s t : no_char esc s = true -> shown false (s +:+ t) = s +:+ shown false t.
Proof.
  induction s as [|c s IH]; [done|]. cbn [no_char]. rewrite andb_true_iff, negb_true_iff.
  intros [Hc Hs]. rewrite !str_app_cons. cbn [shown]. rewrite Hc. by rewrite IH.
Qed.
Lemma shown_inside s t : no_char "m"%char s = true -> shown true (s +:+ "m" +:+ t) = shown false t.
Proof.
  induction s as [|c s IH]; [done|]. cbn [no_char]. rewrite andb_true_iff, negb_true_iff. intros [Hc Hs].
  rewrite !str_app_cons. cbn [shown]. rewrite Hc. by apply IH.
Qed.

Definition colours : list (string -> list Option -> string) :=
  [Black; Red; Green; Yellow; Blue; Magenta; Cyan; White].
Definition options : list Option :=
  [BlackBg; RedBg; GreenBg; YellowBg; BlueBg; MagentaBg; CyanBg; WhiteBg; Reset_; Bold; Underline; Inverse].

Lemma shown_csi t : shown false (csi +:+ t) = shown true ("[" +:+ t).
Proof. unfold csi. by rewrite str_app_cons. Qed.

Lemma shown_sequence codes s t :
  no_char "m"%char (join codes ";") = true -> no_char esc s = true ->
  shown false (csi +:+ join codes ";" +:+ "m" +:+ s +:+ csi +:+ "0m" +:+ t) = s +:+ shown false t.
Proof.
  intros Hj Hs. rewrite shown_csi, <- str_app_assoc, shown_inside by (by rewrite no_char_app, Hj).
  rewrite shown_app, shown_csi by done. done.
Qed.

(** The colours are decoration only: a text in any of the eight colours, with any of the
    package's options, is shown as the text, and what follows it is shown as it is. *)
Theorem colours_shown s op t :
  Forall (fun o => o ∈ options) op -> no_char esc s = true ->
  Forall (fun colour => shown false (colour s op +:+ t) = s +:+ shown false t) colours.
Proof.
  intros Hop Hs.
  assert (Hj : forall code, no_char "m"%char code = true -> no_char "m"%char (join (op ++ [code]) ";") = true).
  { intros code Hc. apply no_char_Join; [done|]. apply Forall_app. split; [|by constructor].
    eapply Forall_impl; [exact Hop|]. intros o Ho. unfold options in Ho.
    repeat (apply elem_of_cons in Ho as [->|Ho]; [reflexivity|]). by apply elem_of_nil in Ho. }
  unfold colours. repeat (constructor; [unfold Black, Red, Green, Yellow, Blue, Magenta, Cyan, White;
    rewrite !str_app_assoc; apply shown_sequence; [by apply Hj|done]|]). constructor.
Qed.
End Colours.

(** ** The width of the spinner *)

(** The characters of a text in UTF-8: the bytes that do not continue one. *)
Fixpoint runes (s : string) : nat :=
  match s with
  | EmptyString => 0
  | String c s' => (if in_range 128 191 c then 0 else 1) + runes s'
  end.

Lemma runes_app s t : runes (s +:+ t) = runes s + runes t.
Proof. induction s as [|c s IH]; [done|]. rewrite str_app_cons. cbn. rewrite IH. lia. Qed.
Lemma runes_shown s b : runes (shown b s) <= String.length s.
Proof.
  revert b. induction s as [|c s IH]; intros b; [done|]. cbn.
  destruct b; [pose proof (IH (negb (bool_decide (c = "m"%char)))); lia|].
  case_bool_decide; [pose proof (IH true); lia|]. cbn. pose proof (IH false). destruct (in_range _ _ c); lia.
Qed.
Lemma length_blanks n : String.length (blanks n) = n.
Proof. induction n; cbn; congruence. Qed.

(** The frame is no wider than the blanks that erase it. *)
Lemma frame_erased desc idx :
  runes (shown false (printStr desc idx)) <= String.length (blanks (String.length (newline_out desc) + 2)).
Proof.
  rewrite length_blanks. unfold printStr, color_str.Green.
  assert (Hc : exists c, nth (idx `mod` length loadingChars) loadingChars "" = c /\
    no_char color_str.esc c = true /\ runes c = 1).
  { eexists. split; [reflexivity|]. pose proof (Nat.mod_upper_bound idx (length loadingChars) ltac:(done)) as Hlt.
    destruct (idx `mod` length loadingChars) as [|[|[|[|[|[|n]]]]]]; try done. cbn in Hlt. lia. }
  destruct Hc as (c & -> & Hesc & Hr). rewrite !str_app_assoc, (shown_sequence _ c) by done.
  rewrite (shown_app " "), !runes_app, Hr by done. change (runes " ") with 1. pose proof (runes_shown (newline_out desc) false). lia.
Qed.

(** ** Tracers *)

(** A tracer writes down what it sees. As the interface says, it sets a body that it reads
    back: reading the response again gives what it gave before. *)
Class Tracer (URL : Type) := {
  trace_request : http_request URL -> M written unit;
  trace_response : http_response -> M written http_response;
}.
Class TracerLaw (URL : Type) `{Tracer URL} := {
  trace_request_ok req out : exists out', trace_request req out = (Done tt, out');
  trace_response_ok r out : exists r' out', trace_response r out = (Done r', out') /\
    resp_StatusCode r' = resp_StatusCode r /\ resp_Header r' = resp_Header r /\
    ReadAll (resp_Body r') = ReadAll (resp_Body r);
}.

(** [NewDefaultTracer] *)
#[global] Instance DefaultTracer {URL} (url_String : URL -> string) : Tracer URL := {|
  trace_request := TraceRequest url_String;
  trace_response := TraceResponse;
|}.
#[global] Instance DefaultTracer_law {URL} (url_String : URL -> string) :
  @TracerLaw URL (DefaultTracer url_String).
Proof.
  split; cbn.
  - intros req out. by eexists.
  - intros r out. unfold TraceResponse, ReadAll. destruct (rd_err (resp_Body r)) eqn:E; do 2 eexists; (split; [reflexivity|]);
      cbn; by rewrite ?E.
Qed.

(** ** Witnesses *)

(** A count goes up under a spinner that ticks twice. *)
Definition counting : M nat unit := modify S.

Lemma Loading_schedules_witness :
  exists s, rtc (loading_step id "status" counting true false) (loading_start false 0 0 []) s /\
    lo_caller s = Returned /\ lo_world s = 1 /\ lo_idx s = 3.
Proof.
  destruct (Loading_schedules id "status" counting true false 0 0 [] (loading_start false 0 0 []) (rtc_refl _ _))
    as (_ & _ & _ & Hrun).
  destruct (Loading id "status" counting true false 2 (0, (0, []))) as [o [w' [i' out']]] eqn:E.
  assert (o = Done tt) as -> by (apply (f_equal fst) in E; symmetry; exact E).
  assert (Hi : w' = 1 /\ i' = 3) by (injection E as <- <- _; done). destruct Hi as [-> ->].
  exists (MkLoading 1 3 out' Gone Returned None). split; [exact (Hrun 2 1 3 out' E)|done].
Defined.

Lemma colours_shown_witness :
  color_str.Red "failed" [color_str.Bold; color_str.WhiteBg] =
    String color_str.esc "[1;47;31mfailed" +:+ String color_str.esc "[0m" /\
  shown false (color_str.Red "failed" [color_str.Bold; color_str.WhiteBg] +:+ "") = "failed".
Proof.
  split; [reflexivity|].
  assert (Ho : Forall (fun o => o ∈ options) [color_str.Bold; color_str.WhiteBg])
    by (repeat constructor).
  pose proof (colours_shown "failed" [color_str.Bold; color_str.WhiteBg] "" Ho eq_refl) as Hall.
  apply Forall_cons in Hall as [_ Hall]. apply Forall_cons in Hall as [Hred _]. exact Hred.
Defined.
