(* ===== verification/CustomHttp.v ===== *)
(** * Package [agent/pkg/httpclient/customhttp]

    [inet://] URLs name a host behind a portal: [inet://host?args/dest/path]. The package
    splits such a URL and turns it into a plain HTTP request to the portal, whose address
    is the package variable [inetAddr]. *)

From Stdlib Require Import Ascii.
From stdpp Require Import base tactics option list gmap strings.
From S2P Require Import Prelude GoStrings NetHttp.

Local Open Scope string_scope.

Definition inet_scheme : string := "inet://".
Definition portalHostHeader : string := "X-Portal-Host".
Definition portalDestHeader : string := "X-Portal-Dest".

(** [ErrInvalidAddr.Error()] *)
Definition ErrInvalidAddr : error := "customhttp: invalid inetaddr".

(** The named results of [parseInetUrl]. *)
Record inet_url := InetUrl {
  portalHost : string;
  portalDest : string;
  portalUrl : string;
  portalArgs : gmap string string;
}.

#[global] Instance inet_url_eq_dec : EqDecision inet_url.
Proof. solve_decision. Defined.

(** The loop over the [&]-separated pairs: a pair with other than one [=] is ignored. *)
Definition add_pair (args : gmap string string) (pair : string) : gmap string string :=
  match Split pair "=" with
  | [k; v] => <[k := v]> args
  | _ => args
  end.

Definition parseInetUrl (url : string) : inet_url + error :=
  let url := TrimPrefix url inet_scheme in
  let url := ReplaceAll url "//" "/" in
  match SplitN url "/" 3 with
  | host :: dest :: rest =>
      let purl := match rest with u :: _ => u | [] => "" end in
      match Index host "?" with
      | None => inl (InetUrl host dest purl ∅)
      | Some pos =>
          let argStr := drop_str (pos + 1) host in
          let host := take_str pos host in
          inl (InetUrl host dest purl (foldl add_pair ∅ (Split argStr "&")))
      end
  | _ => inr ("addr:" +:+ url +:+ ": " +:+ ErrInvalidAddr)
  end.

(** ** The portal address and [NewRequest] *)

(** [SetInetAddr], on the package variable [inetAddr]. *)
Definition SetInetAddr (addr : string) : M string unit := modify (fun _ => addr).

Section NewRequest.
Context {URL : Type} (url_Parse : string -> URL + error).

(** The state is [inetAddr], which [NewRequest] rewrites without taking the lock. *)
Definition NewRequest (method url : string) (body : option reader)
  : M string (http_request URL + error) :=
  if negb (HasPrefix url inet_scheme) then mret (http_NewRequest url_Parse method url body)
  else
    _ ← modify (fun inetAddr => TrimPrefix inetAddr "http://");
    match parseInetUrl url with
    | inr err => mret (inr err)
    | inl p =>
        inetAddr ← gets id;
        let url := "http://" +:+ inetAddr +:+ "/" +:+ portalUrl p in
        match http_NewRequest url_Parse method url body with
        | inr err => mret (inr err)
        | inl request =>
            let request := set_header request portalHostHeader (portalHost p) in
            mret (inl (set_header request portalDestHeader (portalDest p)))
        end
    end.
End NewRequest.

(** ** The repository's own test cases *)

Definition test_args : gmap string string := <["direct" := "on"]> {["ssl" := "on"]}.

Example parseInetUrl_tests :
  parseInetUrl "inet://abc/123" = inl (InetUrl "abc" "123" "" ∅) /\
  parseInetUrl "inet://abc" = inr "addr:abc: customhttp: invalid inetaddr" /\
  parseInetUrl "inet://abc/123/qq?a=b" = inl (InetUrl "abc" "123" "qq?a=b" ∅) /\
  parseInetUrl "inet://abc?ssl=on&direct=on/123/qq?a=b" =
    inl (InetUrl "abc" "123" "qq?a=b" test_args) /\
  parseInetUrl "inet://abc?ssl=on&direct=on//123//qq?a=b" =
    inl (InetUrl "abc" "123" "qq?a=b" test_args) /\
  parseInetUrl "inet://abc?ssl=on&direct=on/123" = inl (InetUrl "abc" "123" "" test_args).
Proof. vm_compute. auto 6. Qed.

(** ** Rendering, the inverse of parsing *)

Definition render_pair (kv : string * string) : string := fst kv +:+ "=" +:+ snd kv.

Definition render (host : string) (args : list (string * string)) (dest path : string) : string :=
  host +:+ "?" +:+ Join (map render_pair args) "&" +:+ "/" +:+ dest +:+ "/" +:+ path.

(** A name that may stand in the argument list of a portal. *)
Definition arg_ok (s : string) : bool := no_char "/"%char s && no_char "&"%char s && no_char "="%char s.

Section RenderLemmas.
Lemma render_pair_ok c k v :
  c <> "="%char -> no_char c k = true -> no_char c v = true ->
  no_char c (render_pair (k, v)) = true.
Proof.
  intros Hc Hk Hv. unfold render_pair. cbn [fst snd]. rewrite !no_char_app, Hk, Hv.
  cbn. by rewrite bool_decide_false.
Qed.

Lemma add_pair_render m kv :
  arg_ok (fst kv) && arg_ok (snd kv) = true ->
  add_pair m (render_pair kv) = <[fst kv := snd kv]> m.
Proof.
  destruct kv as [k v]. unfold arg_ok. cbn [fst snd]. rewrite !andb_true_iff.
  intros [[[_ _] Hk] [[_ _] Hv]]. unfold add_pair, render_pair. cbn [fst snd].
  change (k +:+ "=" +:+ v) with (Join [k; v] "="). by rewrite Split_Join by auto.
Qed.

Lemma foldl_add_pair m args :
  Forall (fun kv => arg_ok (fst kv) && arg_ok (snd kv) = true) args ->
  NoDup args.*1 ->
  foldl add_pair m (map render_pair args) = list_to_map args ∪ m.
Proof.
  intros Hok. revert m. induction Hok as [|[k v] args Hkv Hok IH]; intros m Hnd.
  { by rewrite list_to_map_nil, (left_id_L ∅ (∪)). }
  cbn [map foldl]. rewrite add_pair_render by done. cbn [fst snd].
  apply NoDup_cons in Hnd as [Hnotin Hnd]. rewrite IH by done.
  rewrite list_to_map_cons, <- insert_union_l, <- insert_union_r; [done|].
  by apply not_elem_of_list_to_map.
Qed.
End RenderLemmas.

(** C27: a portal URL written from its parts parses to the same parts. *)
Theorem parseInetUrl_render host args dest path :
  no_char "/"%char host && no_char "?"%char host && no_char "/"%char dest = true ->
  args <> [] ->
  Forall (fun kv => arg_ok (fst kv) && arg_ok (snd kv) = true) args ->
  NoDup args.*1 ->
  Contains (render host args dest path) "//" = false ->
  parseInetUrl (inet_scheme +:+ render host args dest path) =
    inl (InetUrl host dest path (list_to_map args)).
Proof.
  rewrite !andb_true_iff. intros [[Hhs Hhq] Hd] Hne Hok Hnd Hdup.
  unfold parseInetUrl. rewrite TrimPrefix_app, ReplaceAll_none by done.
  set (A := Join (map render_pair args) "&").
  assert (Forall (fun x => no_char "/"%char x = true) (map render_pair args) /\
          Forall (fun x => no_char "&"%char x = true) (map render_pair args)) as [HA1 HA2].
  { rewrite !Forall_map. split; (eapply Forall_impl; [exact Hok|]); intros [k v];
      unfold arg_ok; cbn [fst snd]; rewrite !andb_true_iff; intros; apply render_pair_ok; naive_solver. }
  assert (no_char "/"%char (host +:+ "?" +:+ A) = true) as HhA.
  { rewrite !no_char_app, Hhs. cbn. by apply no_char_Join. }
  assert (render host args dest path =
            (host +:+ "?" +:+ A) +:+ String "/" (dest +:+ String "/" path)) as ->.
  { unfold render. fold A. by rewrite !str_app_assoc. }
  rewrite SplitN_char_app, SplitN_char_app, SplitN_one by done.
  change (host +:+ "?" +:+ A) with (host +:+ String "?" A).
  rewrite (Index_char_app host "?" A Hhq), take_str_app.
  replace (drop_str (String.length host + 1) (host +:+ String "?" A)) with A.
  2: { rewrite <- (drop_str_app (host +:+ "?") A) at 1.
       by rewrite str_length_app, str_app_assoc. }
  unfold A. rewrite Split_Join, foldl_add_pair, (right_id_L ∅ (∪)); try done.
  by destruct args.
Qed.

Lemma parseInetUrl_render_witness :
  parseInetUrl "inet://abc?ssl=on&direct=on/123/qq?a=b" =
    inl (InetUrl "abc" "123" "qq?a=b" (list_to_map [("ssl", "on"); ("direct", "on")])).
Proof.
  apply (parseInetUrl_render "abc" [("ssl", "on"); ("direct", "on")] "123" "qq?a=b").
  - reflexivity.
  - discriminate.
  - repeat constructor.
  - apply (bool_decide_unpack _). vm_compute. exact I.
  - vm_compute. reflexivity.
Defined.

(** ** What every successful parse satisfies, and when parsing fails *)

Definition scheme_less (url : string) : string := TrimPrefix url inet_scheme.

(** Parsing fails exactly on the URLs with no slash after the scheme, and a successful
    parse yields a host without slash or question mark and a destination without slash, so
    neither the portal's argument list nor the path leaks into the portal headers. *)
Theorem parseInetUrl_spec url :
  match parseInetUrl url with
  | inl p => no_char "/" (scheme_less url) = false /\
             no_char "/" (portalHost p) = true /\ no_char "?" (portalHost p) = true /\
             no_char "/" (portalDest p) = true
  | inr _ => no_char "/" (scheme_less url) = true
  end.
Proof.
  unfold parseInetUrl, scheme_less.
  rewrite <- (no_char_ReplaceAll_double "/" (TrimPrefix url inet_scheme)).
  set (s := ReplaceAll _ _ _). change "//" with (String "/" "/") in s.
  assert (forall host dest purl, no_char "/" host = true -> no_char "/" dest = true ->
    let r := match Index host "?" with
             | None => inl (InetUrl host dest purl ∅)
             | Some pos => inl (InetUrl (take_str pos host) dest purl
                 (foldl add_pair ∅ (Split (drop_str (pos + 1) host) "&")))
             end : inet_url + error in
    match r with
    | inl p => no_char "/" (portalHost p) = true /\ no_char "?" (portalHost p) = true /\
               no_char "/" (portalDest p) = true
    | inr _ => False
    end) as Hhost.
  { intros host dest purl Hh Hd. cbv zeta. destruct (Index host "?") as [pos|] eqn:E.
    - apply Index_char_Some in E as (t & u & -> & Ht & <-). rewrite take_str_app.
      cbn. rewrite no_char_app, andb_true_iff in Hh. naive_solver.
    - apply Index_char_None in E. by cbn. }
  destruct (Split3_cases s "/") as [[Hs ->]|[(t & u & Hs & Ht & Hu & ->)|
    (t & u & v & Hs & Ht & Hu & ->)]]; [done|..];
    [specialize (Hhost t u "" Ht Hu)|specialize (Hhost t u v Ht Hu)];
    assert (no_char "/" s = false) as ->
      by (rewrite Hs, no_char_app; cbn; apply andb_false_r);
    destruct (Index t "?"); cbn in *; auto.
Qed.

(** ** [NewRequest] *)

Section NewRequestTheorems.
Context {URL : Type} (url_Parse : string -> URL + error).

(** A URL of another scheme is passed to [http.NewRequest] as it is, and the portal
    address is not touched. *)
Lemma NewRequest_plain method url body inetAddr :
  HasPrefix url inet_scheme = false ->
  NewRequest url_Parse method url body inetAddr =
    (Done (http_NewRequest url_Parse method url body), inetAddr).
Proof. intros H. unfold NewRequest. by rewrite H. Qed.

(** A request for a portal URL goes to the portal address by plain http with the
    path of the URL, and carries the target host and destination in the portal headers;
    the stored portal address loses one leading [http://]. *)
Theorem NewRequest_inet method rest p body inetAddr u :
  parseInetUrl (inet_scheme +:+ rest) = inl p ->
  validMethod method = true ->
  let addr := TrimPrefix inetAddr "http://" in
  url_Parse ("http://" +:+ addr +:+ "/" +:+ portalUrl p) = inl u ->
  exists r, NewRequest url_Parse method (inet_scheme +:+ rest) body inetAddr
              = (Done (inl r), addr) /\
    req_Method r = method /\ req_URL r = u /\ req_Body r = body /\
    Header_Get (req_Header r) portalHostHeader = portalHost p /\
    Header_Get (req_Header r) portalDestHeader = portalDest p.
Proof.
  intros Hp Hm addr Hu. unfold NewRequest. rewrite HasPrefix_app, Hp. cbn [negb]. go_run.
  unfold http_NewRequest. cbn [id]. fold addr.
  assert (bool_decide (method = "") = false) as ->.
  { unfold validMethod in Hm. apply andb_true_iff in Hm as [Hm _].
    apply bool_decide_eq_true in Hm. by apply bool_decide_eq_false. }
  rewrite Hm, Hu. cbn [negb]. eexists. split; [reflexivity|]. cbn [set_header req_Method
    req_URL req_Body req_Header]. split_and!; reflexivity.
Qed.
End NewRequestTheorems.

Lemma NewRequest_inet_witness :
  exists r, NewRequest inl "GET" "inet://abc?ssl=on/123/v1/x" None "http://portal:80"
              = (Done (inl r), "portal:80") /\
    req_Method r = "GET" /\ req_URL r = "http://portal:80/v1/x" /\ req_Body r = None /\
    Header_Get (req_Header r) portalHostHeader = "abc" /\
    Header_Get (req_Header r) portalDestHeader = "123".
Proof.
  apply (NewRequest_inet inl "GET" "abc?ssl=on/123/v1/x"
           (InetUrl "abc" "123" "v1/x" {["ssl" := "on"]}) None "http://portal:80"
           "http://portal:80/v1/x"); reflexivity.
Defined.
