(* ===== verification/HttpClient.v ===== *)
(** * [agent/pkg/httpclient]: clients and the requests they build
    ([client.go], [response.go] and the beginning of [request.go]) *)

From stdpp Require Import base tactics option list gmap strings sorting.
From S2P Require Import Prelude GoStrings NetHttp CustomHttp Retry.

Local Open Scope string_scope.

(** ** The standard library's encodings *)

(** [base64.StdEncoding] *)
Definition base64_char (n : N) : Ascii.ascii :=
  Ascii.ascii_of_N (if n <? 26 then n + 65 else if n <? 52 then n + 71 else if n <? 62 then n - 4
                    else if n =? 62 then 43 else 47)%N.
Definition base64_group (a b c : N) : list Ascii.ascii :=
  let n := (a * 65536 + b * 256 + c)%N in
  [base64_char (n / 262144); base64_char (n / 4096 mod 64); base64_char (n / 64 mod 64); base64_char (n mod 64)]%N.
Definition pad : Ascii.ascii := Ascii.ascii_of_N 61.
Fixpoint base64_list (s : list N) : list Ascii.ascii :=
  match s with
  | [] => []
  | [a] => take 2 (base64_group a 0 0) ++ [pad; pad]
  | [a; b] => take 3 (base64_group a b 0) ++ [pad]
  | a :: b :: c :: s' => base64_group a b c ++ base64_list s'
  end%list.
Fixpoint bytes_of (s : string) : list N :=
  match s with EmptyString => [] | String c s' => ascii_code c :: bytes_of s' end.
Fixpoint string_of (l : list Ascii.ascii) : string :=
  match l with [] => EmptyString | c :: l' => String c (string_of l') end.
Definition base64 (s : string) : string := string_of (base64_list (bytes_of s)).

Example base64_test : base64 "Aladdin:open sesame" = "QWxhZGRpbjpvcGVuIHNlc2FtZQ==".
Proof. vm_compute. reflexivity. Qed.

(** [url.QueryEscape] *)
Definition unreserved (c : Ascii.ascii) : bool :=
  is_lower c || is_upper c || is_digit c || bool_decide (ascii_code c ∈ [45; 46; 95; 126]%N).
Definition hex_digit (n : N) : Ascii.ascii := Ascii.ascii_of_N (if n <? 10 then n + 48 else n + 55)%N.
Fixpoint QueryEscape (s : string) : string :=
  match s with
  | EmptyString => EmptyString
  | String c s' =>
      if unreserved c then String c (QueryEscape s')
      else if bool_decide (ascii_code c = 32%N) then String (Ascii.ascii_of_N 43) (QueryEscape s')
      else String (Ascii.ascii_of_N 37) (String (hex_digit (ascii_code c / 16)) (String (hex_digit (ascii_code c mod 16))
             (QueryEscape s')))
  end.

(** [url.Values], and [Encode], which visits the keys in order. *)
Abbreviation Values := (gmap string (list string)).

Definition encode_key (kv : string * list string) : list string :=
  map (fun v => QueryEscape kv.1 +:+ "=" +:+ QueryEscape v) kv.2.
Definition key_le (a b : string * list string) : Prop := String.leb a.1 b.1 = true.
#[global] Instance key_le_dec : RelDecision key_le.
Proof. intros a b. unfold key_le. apply _. Defined.
Definition Encode (v : Values) : string :=
  Join (concat (map encode_key (merge_sort key_le (map_to_list v)))) "&".

Example Encode_test :
  Encode {["expiredIn" := ["4320h"]; "fileFrom" := ["jacoco upload/1"]]} =
    "expiredIn=4320h&fileFrom=jacoco+upload%2F1".
Proof. vm_compute. reflexivity. Qed.

(** ** Clients *)

(** [Option]. Of a certificate pool and of a key pair the texts they come from are kept; of
    the writer, the tracer, the redirect check, the cookie jar and the DNS cache whether there
    is one. *)
Record Option_ := MkOption {
  isHTTPS : bool;
  ca : option string;
  keyPair : option (string * string);
  debugWriter : bool;
  tracer : bool;
  checkRedirect : bool;
  loadingPrint : bool;
  loadingDesc : string;
  proxy : string;
  clusterDialKey : string;
  cookieJar : bool;
  dnscache : bool;
  dialerKeepalive : Z;
  acceptEncoding : string;
  dialTimeout : Z;
  clientTimeout : Z;
  enableAutoRetry : bool;
}.

(** Seconds. *)
Definition DialTimeout : Z := 15.
Definition ClientDefaultTimeout : Z := 60.

Definition OpOption : Type := Option_ -> Option_.

(** [os.Getenv("DICE_CLUSTER_NAME")] is an argument. *)
Definition with_clusterDialKey (clusterKey : string) : OpOption := fun op =>
  MkOption (isHTTPS op) (ca op) (keyPair op) (debugWriter op) (tracer op) (checkRedirect op) (loadingPrint op)
    (loadingDesc op) (proxy op) clusterKey (cookieJar op) (dnscache op) (dialerKeepalive op) (acceptEncoding op)
    (dialTimeout op) (clientTimeout op) (enableAutoRetry op).
Definition WithClusterDialer (currentClusterKey clusterKey : string) : OpOption := fun op =>
  if bool_decide (clusterKey <> currentClusterKey) then with_clusterDialKey clusterKey op else op.
Definition WithHTTPS : OpOption := fun op =>
  MkOption true (ca op) (keyPair op) (debugWriter op) (tracer op) (checkRedirect op) (loadingPrint op)
    (loadingDesc op) (proxy op) (clusterDialKey op) (cookieJar op) (dnscache op) (dialerKeepalive op)
    (acceptEncoding op) (dialTimeout op) (clientTimeout op) (enableAutoRetry op).
Definition WithAcceptEncoding (ae : string) : OpOption := fun op =>
  MkOption (isHTTPS op) (ca op) (keyPair op) (debugWriter op) (tracer op) (checkRedirect op) (loadingPrint op)
    (loadingDesc op) (proxy op) (clusterDialKey op) (cookieJar op) (dnscache op) (dialerKeepalive op) ae
    (dialTimeout op) (clientTimeout op) (enableAutoRetry op).
Definition WithProxy (p : string) : OpOption := fun op =>
  MkOption (isHTTPS op) (ca op) (keyPair op) (debugWriter op) (tracer op) (checkRedirect op) (loadingPrint op)
    (loadingDesc op) p (clusterDialKey op) (cookieJar op) (dnscache op) (dialerKeepalive op) (acceptEncoding op)
    (dialTimeout op) (clientTimeout op) (enableAutoRetry op).
(** An error of [tls.X509KeyPair] is only logged, and the pair is then the zero one;
    [valid] says whether there is none. A pool takes whatever certificates there are. *)
Definition WithHttpsCertFromJSON (valid : string -> string -> bool) (certFile keyFile : string) (caCrt : option string)
  : OpOption :=
  let pair := if valid certFile keyFile then Some (certFile, keyFile) else None in
  match caCrt with
  | None => fun op =>
      MkOption true (ca op) pair (debugWriter op) (tracer op) (checkRedirect op) (loadingPrint op) (loadingDesc op)
        (proxy op) (clusterDialKey op) (cookieJar op) (dnscache op) (dialerKeepalive op) (acceptEncoding op)
        (dialTimeout op) (clientTimeout op) (enableAutoRetry op)
  | Some crt => fun op =>
      MkOption true (Some crt) pair (debugWriter op) (tracer op) (checkRedirect op) (loadingPrint op)
        (loadingDesc op) (proxy op) (clusterDialKey op) (cookieJar op) (dnscache op) (dialerKeepalive op)
        (acceptEncoding op) (dialTimeout op) (clientTimeout op) (enableAutoRetry op)
  end.
Definition WithDebug : OpOption := fun op =>
  MkOption (isHTTPS op) (ca op) (keyPair op) true (tracer op) (checkRedirect op) (loadingPrint op)
    (loadingDesc op) (proxy op) (clusterDialKey op) (cookieJar op) (dnscache op) (dialerKeepalive op)
    (acceptEncoding op) (dialTimeout op) (clientTimeout op) (enableAutoRetry op).
Definition WithTracer : OpOption := fun op =>
  MkOption (isHTTPS op) (ca op) (keyPair op) true true (checkRedirect op) (loadingPrint op) (loadingDesc op)
    (proxy op) (clusterDialKey op) (cookieJar op) (dnscache op) (dialerKeepalive op) (acceptEncoding op)
    (dialTimeout op) (clientTimeout op) (enableAutoRetry op).
Definition WithDnsCache : OpOption := fun op =>
  MkOption (isHTTPS op) (ca op) (keyPair op) (debugWriter op) (tracer op) (checkRedirect op) (loadingPrint op)
    (loadingDesc op) (proxy op) (clusterDialKey op) (cookieJar op) true (dialerKeepalive op) (acceptEncoding op)
    (dialTimeout op) (clientTimeout op) (enableAutoRetry op).
Definition WithCompleteRedirect : OpOption := fun op =>
  MkOption (isHTTPS op) (ca op) (keyPair op) (debugWriter op) (tracer op) true (loadingPrint op)
    (loadingDesc op) (proxy op) (clusterDialKey op) (cookieJar op) (dnscache op) (dialerKeepalive op)
    (acceptEncoding op) (dialTimeout op) (clientTimeout op) (enableAutoRetry op).
Definition WithLoadingPrint (desc : string) : OpOption := fun op =>
  MkOption (isHTTPS op) (ca op) (keyPair op) (debugWriter op) (tracer op) (checkRedirect op) true desc
    (proxy op) (clusterDialKey op) (cookieJar op) (dnscache op) (dialerKeepalive op) (acceptEncoding op)
    (dialTimeout op) (clientTimeout op) (enableAutoRetry op).
Definition WithDialerKeepAlive (keepalive : Z) : OpOption := fun op =>
  MkOption (isHTTPS op) (ca op) (keyPair op) (debugWriter op) (tracer op) (checkRedirect op) (loadingPrint op)
    (loadingDesc op) (proxy op) (clusterDialKey op) (cookieJar op) (dnscache op) keepalive (acceptEncoding op)
    (dialTimeout op) (clientTimeout op) (enableAutoRetry op).
Definition WithTimeout (dial client : Z) : OpOption := fun op =>
  MkOption (isHTTPS op) (ca op) (keyPair op) (debugWriter op) (tracer op) (checkRedirect op) (loadingPrint op)
    (loadingDesc op) (proxy op) (clusterDialKey op) (cookieJar op) (dnscache op) (dialerKeepalive op)
    (acceptEncoding op) dial client (enableAutoRetry op).
Definition WithCookieJar : OpOption := fun op =>
  MkOption (isHTTPS op) (ca op) (keyPair op) (debugWriter op) (tracer op) (checkRedirect op) (loadingPrint op)
    (loadingDesc op) (proxy op) (clusterDialKey op) true (dnscache op) (dialerKeepalive op) (acceptEncoding op)
    (dialTimeout op) (clientTimeout op) (enableAutoRetry op).
Definition WithEnableAutoRetry (b : bool) : OpOption := fun op =>
  MkOption (isHTTPS op) (ca op) (keyPair op) (debugWriter op) (tracer op) (checkRedirect op) (loadingPrint op)
    (loadingDesc op) (proxy op) (clusterDialKey op) (cookieJar op) (dnscache op) (dialerKeepalive op)
    (acceptEncoding op) (dialTimeout op) (clientTimeout op) b.

(** The check of [WithCompleteRedirect]: the new request gets header, method and body of the
    oldest. [GetBody] is [None] when the request has no such function. *)
Definition complete_redirect {URL} (GetBody : option (option reader + error)) (req oldest : http_request URL)
  : http_request URL + error :=
  match GetBody with
  | None => inl (HttpRequest (req_Method oldest) (req_URL req) (req_Header oldest) (req_Body req))
  | Some (inl body) => inl (HttpRequest (req_Method oldest) (req_URL req) (req_Header oldest) body)
  | Some (inr err) => inr err
  end.

(** [http.Transport], as [New] fills it in. *)
Record tls_config := TlsConfig {
  RootCAs : option string;
  InsecureSkipVerify : bool;
  Certificates : list (option (string * string));
}.
Record http_transport := Transport {
  tr_Proxy : option string;
  MaxIdleConns : Z;
  IdleConnTimeout : option Z;
  ExpectContinueTimeout : Z;
  TLSClientConfig : option tls_config;
}.

Record HTTPClient := MkClient {
  option_ : Option_;
  cli_Transport : http_transport;
  client_proto : string;
  basicAuth : option (string * string);
  tokenAuth : string;
  bearerTokenAuth : string;
}.

Definition zero_option : Option_ :=
  MkOption false None None false false false false "" "" "" false false 0 "" 0 0 false.

Definition New (ops : list OpOption) : HTTPClient :=
  let option := foldl (fun op f => f op) (WithTimeout DialTimeout ClientDefaultTimeout zero_option) ops in
  let tls := if isHTTPS option then
               Some match ca option with
                    | Some pool => TlsConfig (Some pool) false [keyPair option]
                    | None => TlsConfig None true [keyPair option]
                    end
             else None in
  let tr := Transport (if bool_decide (proxy option <> "") then Some (proxy option) else None) 2
              (if bool_decide (dialerKeepalive option <> 0%Z) then Some (dialerKeepalive option) else None) 1 tls in
  MkClient option tr (if isHTTPS option then "https" else "http") None "" "".

Definition BasicAuth (user password : string) (c : HTTPClient) : HTTPClient :=
  MkClient (option_ c) (cli_Transport c) (client_proto c) (Some (user, password)) (tokenAuth c) (bearerTokenAuth c).
Definition TokenAuth (token : string) (c : HTTPClient) : HTTPClient :=
  MkClient (option_ c) (cli_Transport c) (client_proto c) (basicAuth c) token (bearerTokenAuth c).
Definition BearerTokenAuth (token : string) (c : HTTPClient) : HTTPClient :=
  MkClient (option_ c) (cli_Transport c) (client_proto c) (basicAuth c) (tokenAuth c) token.

Record Request := MkRequest {
  rq_path : string;
  rq_header : gmap string string;
  rq_cookie : list string;
  rq_params : Values;
  rq_body : option reader;
  rq_err : option error;
  rq_method : string;
  rq_host : string;
  rq_proto : string;
  retryOption : RetryOption;
}.

Definition constructBasicAuth (username password : string) : string := base64 (username +:+ ":" +:+ password).

Definition newRequest (c : HTTPClient) (retry : list RetryOption) : Request :=
  let header : gmap string string := ∅ in
  let header := match basicAuth c with
                | Some (name, password) => <["Authorization" := "Basic " +:+ constructBasicAuth name password]> header
                | None => header
                end in
  let header := if Nat.ltb 0 (String.length (tokenAuth c))
                then <["Authorization" := "token=" +:+ tokenAuth c]> header else header in
  let header := if Nat.ltb 0 (String.length (bearerTokenAuth c))
                then <["Authorization" := "Bearer " +:+ bearerTokenAuth c]> header else header in
  let header := if isHTTPS (option_ c) then <["X-Portal-Scheme" := "https"]> header else header in
  let header := if Nat.ltb 0 (String.length (acceptEncoding (option_ c)))
                then <["Accept-Encoding" := acceptEncoding (option_ c)]> header else header in
  MkRequest "" header [] ∅ None None "" "" (client_proto c) (mergeRetryOptions retry).

Definition with_target (method host : string) (r : Request) : Request :=
  MkRequest (rq_path r) (rq_header r) (rq_cookie r) (rq_params r) (rq_body r) (rq_err r) method host (rq_proto r) (retryOption r).

(** [Get] and [Head] choose retries of their own when the caller gives none. *)
Definition Get (c : HTTPClient) (host : string) (retry : list RetryOption) : Request :=
  let retry := match retry with
               | [] => if enableAutoRetry (option_ c) then [RetryErrResp; Retry5XX] else []
               | _ => retry
               end in
  with_target "GET" host (newRequest c retry).
Definition Post (c : HTTPClient) (host : string) (retry : list RetryOption) : Request :=
  with_target "POST" host (newRequest c retry).
Definition Delete (c : HTTPClient) (host : string) (retry : list RetryOption) : Request :=
  with_target "DELETE" host (newRequest c retry).
Definition Put (c : HTTPClient) (host : string) (retry : list RetryOption) : Request :=
  with_target "PUT" host (newRequest c retry).
Definition Patch (c : HTTPClient) (host : string) (retry : list RetryOption) : Request :=
  with_target "PATCH" host (newRequest c retry).
Definition Head (c : HTTPClient) (host : string) (retry : list RetryOption) : Request :=
  let retry := match retry with [] => [RetryErrResp] | _ => retry end in
  with_target "HEAD" host (newRequest c retry).

Definition Method (c : HTTPClient) (method host : string) (retry : list RetryOption) : outcome Request :=
  if bool_decide (method = "GET") then Done (Get c host retry)
  else if bool_decide (method = "POST") then Done (Post c host retry)
  else if bool_decide (method = "DELETE") then Done (Delete c host retry)
  else if bool_decide (method = "PUT") then Done (Put c host retry)
  else if bool_decide (method = "PATCH") then Done (Patch c host retry)
  else if bool_decide (method = "HEAD") then Done (Head c host retry)
  else Panic ("unsupported http method: " +:+ method).

(** ** Building a request *)

Definition Path (path : string) (r : Request) : Request :=
  MkRequest path (rq_header r) (rq_cookie r) (rq_params r) (rq_body r) (rq_err r) (rq_method r) (rq_host r) (rq_proto r) (retryOption r).
Definition with_params (p : Values) (r : Request) : Request :=
  MkRequest (rq_path r) (rq_header r) (rq_cookie r) p (rq_body r) (rq_err r) (rq_method r) (rq_host r) (rq_proto r) (retryOption r).
Definition with_body (b : option reader) (r : Request) : Request :=
  MkRequest (rq_path r) (rq_header r) (rq_cookie r) (rq_params r) b (rq_err r) (rq_method r) (rq_host r) (rq_proto r) (retryOption r).
Definition with_err (e : option error) (r : Request) : Request :=
  MkRequest (rq_path r) (rq_header r) (rq_cookie r) (rq_params r) (rq_body r) e (rq_method r) (rq_host r) (rq_proto r) (retryOption r).

(** [url.Values.Add] *)
Definition Param (k v : string) (r : Request) : Request :=
  with_params (<[k := (default [] (rq_params r !! k) ++ [v])%list]> (rq_params r)) r.
(** The keys of [kvs] are distinct, so the order of the loop does not matter. *)
Definition Params (kvs : Values) (r : Request) : Request :=
  with_params (union_with (fun a b => Some (a ++ b)%list) (rq_params r) kvs) r.
Definition Header (k v : string) (r : Request) : Request :=
  MkRequest (rq_path r) (<[k := v]> (rq_header r)) (rq_cookie r) (rq_params r) (rq_body r) (rq_err r) (rq_method r) (rq_host r)
    (rq_proto r) (retryOption r).
(** The first value of every key that has one. *)
Definition Headers (hs : header) (r : Request) : Request :=
  MkRequest (rq_path r) (omap head hs ∪ rq_header r) (rq_cookie r) (rq_params r) (rq_body r) (rq_err r) (rq_method r) (rq_host r)
    (rq_proto r) (retryOption r).
(** A cookie is the text that [net/http] makes of its name and value. *)
Definition Cookie (text : string) (r : Request) : Request :=
  MkRequest (rq_path r) (rq_header r) (rq_cookie r ++ [text])%list (rq_params r) (rq_body r) (rq_err r) (rq_method r)
    (rq_host r) (rq_proto r) (retryOption r).
Definition RawBody (b : option reader) (r : Request) : Request := with_body b r.
Definition FormBody (form : Values) (r : Request) : Request :=
  Header "Content-Type" "application/x-www-form-urlencoded" (with_body (Some (string_reader (Encode form))) r).

(** [JSONBody], given the result of [json.Marshal]: after an error the body is empty. *)
Definition JSONBody (marshalled : string + error) (r : Request) : Request :=
  Header "Content-Type" "application/json"
    match marshalled with
    | inl b => with_body (Some (string_reader b)) r
    | inr err => with_body (Some (string_reader "")) (with_err (Some err) r)
    end.

(** The scheme in the host wins over the client's. *)
Definition split_host (proto host : string) : string * string :=
  if HasPrefix host "https://" then ("https", TrimPrefix host "https://")
  else if HasPrefix host "http://" then ("http", TrimPrefix host "http://")
  else if HasPrefix host "inet://" then ("inet", TrimPrefix host "inet://")
  else (proto, host).

Definition request_url (r : Request) : string :=
  let '(proto, host) := split_host (rq_proto r) (rq_host r) in
  let url := proto +:+ "://" +:+ host +:+ rq_path r in
  if bool_decide (rq_params r = ∅) then url else url +:+ "?" +:+ Encode (rq_params r).

Definition GetUrl (r : Request) : string :=
  rq_proto r +:+ "://" +:+ rq_host r +:+ rq_path r +:+ "?" +:+ Encode (rq_params r).

Section Do.
Context {URL : Type} (url_Parse : string -> URL + error).

(** The loop over [r.header], in the order of [entries]. *)
Definition set_headers (entries : list (string * string)) (req : http_request URL) : http_request URL :=
  foldl (fun req kv => set_header req kv.1 kv.2) req entries.

Definition accept_default : string := "application/json, */*".

(** [Request.Do] in the state of [customhttp]: the request, or the error it stops with. *)
Definition Do (r : Request) (entries : list (string * string)) : M string (http_request URL + error) :=
  match rq_err r with
  | Some err => mret (inr err)
  | None =>
      if bool_decide (rq_host r = "") then mret (inr "not found host")
      else
        res ← NewRequest url_Parse (rq_method r) (request_url r) (rq_body r);
        match res with
        | inr err => mret (inr err)
        | inl req =>
            let req := foldl AddCookie (set_headers entries req) (rq_cookie r) in
            mret (inl (if Nat.eqb (String.length (Header_Get (req_Header req) "Accept")) 0
                       then set_header req "Accept" accept_default else req))
        end
  end.
End Do.

(** ** Responses *)

(** A [Response] by its status. *)
Definition IsOK (code : Z) : bool := bool_decide (Z.quot code 100 = 2%Z).
Definition IsNotfound (code : Z) : bool := bool_decide (code = 404%Z).
Definition IsConflict (code : Z) : bool := bool_decide (code = 409%Z).
Definition IsBadRequest (code : Z) : bool := bool_decide (code = 400%Z).

Definition contentTypeIsJson (contentType : string) : bool := Contains contentType "json".

Section JSON.
Context {T : Type} (json_Unmarshal : string -> T + error).

(** [AfterDo.JSON] after [doRequest]: the body, and what was decoded from it, if anything. *)
Definition JSON (resp : http_response) : (string * option T) + error :=
  let contentType := Header_Get (resp_Header resp) "Content-Type" in
  match ReadAll (resp_Body resp) with
  | inr err => inr err
  | inl body =>
      if Nat.ltb 0 (String.length contentType) && negb (contentTypeIsJson contentType) then inl (body, None)
      else match json_Unmarshal body with
           | inr err => inr ("failed to Unmarshal JSON, err:" +:+ err +:+ "，body :" +:+ body)
           | inl o => inl (body, Some o)
           end
  end.
End JSON.

(** ** What a request carries *)

(** The [Authorization] header of a new request is the bearer token if one is set, else
    the token, else the basic credentials, else absent; the scheme and the encoding headers
    depend on the options alone; a method other than the six known panics, and no request
    runs less than once. *)
Theorem Method_request c method host rs :
  let known := ["GET"; "POST"; "DELETE"; "PUT"; "PATCH"; "HEAD"] in
  if bool_decide (method ∈ known) then
    exists r, Method c method host rs = Done r /\ rq_method r = method /\ rq_host r = host /\
      rq_header r !! "Authorization" =
        (if bool_decide (bearerTokenAuth c <> "") then Some ("Bearer " +:+ bearerTokenAuth c)
         else if bool_decide (tokenAuth c <> "") then Some ("token=" +:+ tokenAuth c)
         else (fun up => "Basic " +:+ base64 (up.1 +:+ ":" +:+ up.2)) <$> basicAuth c) /\
      rq_header r !! "X-Portal-Scheme" = (if isHTTPS (option_ c) then Some "https" else None) /\
      rq_header r !! "Accept-Encoding" =
        (if bool_decide (acceptEncoding (option_ c) <> "") then Some (acceptEncoding (option_ c)) else None) /\
      (1 <= MaxTime (retryOption r))%Z
  else Method c method host rs = Panic ("unsupported http method: " +:+ method).
Proof.
  intros known. assert (Hlen : forall s, Nat.ltb 0 (String.length s) = bool_decide (s <> "")).
  { intros []; [done|]. by rewrite bool_decide_true. }
  assert (Hreq : forall rs m, let r := with_target m host (newRequest c rs) in
    rq_method r = m /\ rq_host r = host /\
      rq_header r !! "Authorization" =
        (if bool_decide (bearerTokenAuth c <> "") then Some ("Bearer " +:+ bearerTokenAuth c)
         else if bool_decide (tokenAuth c <> "") then Some ("token=" +:+ tokenAuth c)
         else (fun up => "Basic " +:+ base64 (up.1 +:+ ":" +:+ up.2)) <$> basicAuth c) /\
      rq_header r !! "X-Portal-Scheme" = (if isHTTPS (option_ c) then Some "https" else None) /\
      rq_header r !! "Accept-Encoding" =
        (if bool_decide (acceptEncoding (option_ c) <> "") then Some (acceptEncoding (option_ c)) else None) /\
      (1 <= MaxTime (retryOption r))%Z).
  { intros rs' m r. subst r. cbn [with_target newRequest rq_method rq_host rq_header retryOption]. rewrite !Hlen.
    split; [done|]. split; [done|].
    destruct (basicAuth c) as [[name password]|], (bool_decide (tokenAuth c <> "")),
      (bool_decide (bearerTokenAuth c <> "")), (isHTTPS (option_ c)), (bool_decide (acceptEncoding (option_ c) <> ""));
      (split_and!; [by simplify_map_eq..|apply merge_MaxTime_pos; cbn; lia]). }
  destruct (decide (method ∈ known)) as [Hm|Hm];
    [rewrite (bool_decide_true (method ∈ known)) by done|rewrite (bool_decide_false (method ∈ known)) by done].
  - unfold known in Hm.
    repeat (apply elem_of_cons in Hm as [->|Hm]; [eexists; split; [reflexivity|apply Hreq]|]).
    by apply not_elem_of_nil in Hm.
  - assert (Hne : forall m, m ∈ known -> method <> m) by (by intros m Hk ->). clear Hm Hreq.
    unfold Method. repeat (rewrite bool_decide_false by (apply Hne; unfold known; repeat constructor)). done.
Qed.

Section DoTheorems.
Context {URL : Type} (url_Parse : string -> URL + error).

Lemma set_headers_get entries : forall (req : http_request URL) k v,
  (k, v) ∈ entries -> NoDup entries.*1 ->
  (forall k', k' ∈ entries.*1 -> CanonicalKey k' = CanonicalKey k -> k' = k) ->
  Header_Get (req_Header (set_headers entries req)) k = v.
Proof.
  induction entries as [|[k0 v0] entries IH] using rev_ind; intros req k v Hin Hnd Huniq; [set_solver|].
  unfold set_headers. rewrite foldl_app. cbn [foldl]. unfold set_header. cbn [req_Header fst snd].
  rewrite fmap_app in Hnd, Huniq. apply NoDup_app in Hnd as (Hnd & Hdisj & _). cbn in Hdisj.
  apply elem_of_app in Hin as [Hin|Hin].
  - assert (k <> k0). { intros ->. apply (Hdisj k0); [by apply (list_elem_of_fmap_2 fst) in Hin|set_solver]. }
    rewrite Header_Get_Set_ne by (intros He; apply Huniq in He; [congruence|set_solver]).
    apply IH; [done|done|]. intros k' Hk'. apply Huniq. set_solver.
  - apply list_elem_of_singleton in Hin. injection Hin as -> ->. apply Header_Get_Set.
Qed.

Lemma set_headers_same entries : forall (req : http_request URL),
  req_Method (set_headers entries req) = req_Method req /\ req_URL (set_headers entries req) = req_URL req /\
  req_Body (set_headers entries req) = req_Body req.
Proof.
  induction entries as [|kv entries IH]; intros req; [done|]. exact (IH (set_header req kv.1 kv.2)).
Qed.

(** A request that [Do] accepts has the method, body and, unless it goes through the
    portal, the URL made of scheme, host, path and encoded parameters, with the scheme in the
    host before that of the client; it carries every header that was set, whatever the order
    of the loop, if no two keys have one canonical form (a [Cookie] header only without
    cookies), and it always has an [Accept]. *)
Theorem Do_request r entries addr req addr' :
  entries ≡ₚ map_to_list (rq_header r) ->
  Do url_Parse r entries addr = (Done (inl req), addr') ->
  Header_Get (req_Header req) "Accept" <> "" /\
  (forall k v, rq_header r !! k = Some v -> v <> "" -> CanonicalKey k <> "Cookie" \/ rq_cookie r = [] ->
     (forall k' v', rq_header r !! k' = Some v' -> CanonicalKey k' = CanonicalKey k -> k' = k) ->
     Header_Get (req_Header req) k = v) /\
  (HasPrefix (request_url r) inet_scheme = false ->
     req_Method req = (if bool_decide (rq_method r = "") then "GET" else rq_method r) /\
     url_Parse (request_url r) = inl (req_URL req) /\ req_Body req = rq_body r /\ addr' = addr).
Proof.
  intros Hperm H. unfold Do in H. destruct (rq_err r); [by go_inv|]. case_bool_decide; [by go_inv|].
  apply M_bind_inv_done in H as (res & a1 & E & H). destruct res as [req0|err]; [|by go_inv]. cbv zeta in H.
  set (req1 := foldl AddCookie (set_headers entries req0) (rq_cookie r)) in *.
  assert (Hsame : req_Method req1 = req_Method req0 /\ req_URL req1 = req_URL req0 /\ req_Body req1 = req_Body req0).
  { destruct (AddCookie_same (set_headers entries req0) (rq_cookie r)) as (K1 & K2 & K3).
    destruct (set_headers_same entries req0) as (J1 & J2 & J3). unfold req1. by rewrite K1, K2, K3. }
  assert (Hget : forall k v, rq_header r !! k = Some v -> CanonicalKey k <> "Cookie" \/ rq_cookie r = [] ->
    (forall k' v', rq_header r !! k' = Some v' -> CanonicalKey k' = CanonicalKey k -> k' = k) ->
    Header_Get (req_Header req1) k = v).
  { intros k v Hk Hck Huniq. unfold req1.
    assert (Header_Get (req_Header (foldl AddCookie (set_headers entries req0) (rq_cookie r))) k =
            Header_Get (req_Header (set_headers entries req0)) k) as ->
      by (destruct Hck as [Hck| ->]; [by apply AddCookie_get|done]).
    apply set_headers_get.
    - rewrite Hperm. by apply elem_of_map_to_list.
    - rewrite Hperm. apply NoDup_fst_map_to_list.
    - intros k' Hk'. rewrite Hperm in Hk'. apply list_elem_of_fmap in Hk' as ([k2 v2] & -> & Hk2).
      apply elem_of_map_to_list in Hk2. cbn. by apply Huniq with v2. }
  destruct (Nat.eqb_spec (String.length (Header_Get (req_Header req1) "Accept")) 0) as [Hz|Hz];
    unfold mret, M_ret in H; injection H as <- <-.
  - assert (Hempty : Header_Get (req_Header req1) "Accept" = "") by (by destruct (Header_Get _ "Accept")).
    split; [unfold set_header; cbn [req_Header]; by rewrite Header_Get_Set|]. split.
    + intros k v Hk Hv Hck Huniq. unfold set_header. cbn [req_Header]. rewrite Header_Get_Set_ne; [by apply Hget|].
      intros He. apply Hv. rewrite <- (Hget k v Hk Hck Huniq), <- Hempty. unfold Header_Get. by rewrite He.
    + intros Hin. unfold NewRequest in E. rewrite Hin in E. cbn in E. unfold mret, M_ret in E.
      injection E as E <-. destruct Hsame as (K1 & K2 & K3).
      unfold set_header. cbn [req_Method req_URL req_Body]. rewrite K1, K2, K3.
      unfold http_NewRequest in E. destruct (negb _); [done|]. destruct (url_Parse _); simplify_eq. done.
  - split; [by intros He; rewrite He in Hz|]. split; [by intros k v Hk _; apply Hget|].
    intros Hin. unfold NewRequest in E. rewrite Hin in E. cbn in E. unfold mret, M_ret in E.
    injection E as E <-. destruct Hsame as (K1 & K2 & K3).
    rewrite K1, K2, K3.
    unfold http_NewRequest in E. destruct (negb _); [done|]. destruct (url_Parse _); simplify_eq. done.
Qed.
End DoTheorems.

(** ** Witnesses *)

(** The upload of [uploadFile]. *)
Definition upload_demo : Request :=
  Header "Authorization" "token" (Param "expiredIn" "4320h" (Param "fileFrom" "jacoco-upload-1-7"
    (Path "/api/files" (Post (New [WithTimeout 180 180]) "https://center" [])))).

Lemma Do_request_witness :
  exists req, (Do plain_url upload_demo (map_to_list (rq_header upload_demo)) "").1 = Done (inl req) /\
    Header_Get (req_Header req) "Authorization" = "token" /\
    req_URL req = "https://center/api/files?expiredIn=4320h&fileFrom=jacoco-upload-1-7".
Proof.
  destruct (Do plain_url upload_demo (map_to_list (rq_header upload_demo)) "") as [[[req|e]| |] addr'] eqn:E;
    try (exfalso; vm_compute in E; discriminate E).
  exists req. split; [reflexivity|].
  destruct (Do_request plain_url upload_demo (map_to_list (rq_header upload_demo)) "" req addr' (reflexivity _) E)
    as (_ & Hh & Hu). split.
  - apply Hh; [reflexivity|discriminate|by right|]. intros k' v' Hk' _.
    assert (Heq : rq_header upload_demo = {["Authorization" := "token"]}) by (vm_compute; reflexivity).
    rewrite Heq in Hk'. by apply lookup_singleton_Some in Hk' as [<- _].
  - destruct (Hu eq_refl) as (_ & Hurl & _). injection Hurl as <-. vm_compute. reflexivity.
Defined.
