(* ===== verification/Exchange.v ===== *)
(** * [agent/pkg/httpclient/request.go]: sending a request and reading the answer
    ([doRequest] and the methods of [AfterDo])

    A request is sent by [Retry], under a spinner of [Terminal] if the client was made with
    [WithLoadingPrint], and between the two calls of a [Tracer] if the client has one. *)

From stdpp Require Import base tactics option list gmap strings.
From Stdlib Require Import Lia.
From S2P Require Import Prelude GoStrings NetHttp Retry Terminal CustomHttp HttpClient.

Local Open Scope string_scope.

(** [Response] *)
Record Response := MkResponse { rs_body : string; rs_internal : http_response }.
Definition StatusCode (r : Response) : Z := resp_StatusCode (rs_internal r).
Definition ResponseHeader (r : Response) (key : string) : string := Header_Get (resp_Header (rs_internal r)) key.
Definition Response_Headers (r : Response) : header := resp_Header (rs_internal r).
Definition Response_Body (r : Response) : string := rs_body r.

Section Exchange.
Context {URL : Type} (url_Parse : string -> URL + error) (url_String : URL -> string).
Variable transport : list (http_request URL) -> http_request URL -> answer.
Variable jar : list (http_request URL) -> URL -> list string.
Variable Printf : string -> string.
(** How many times a tenth of a second goes by while a spinner is shown. *)
Variable ticks : nat.

(** The state of the client and of the request, the spinner's index and the screen, what
    the tracer wrote, and the responses whose body was closed. *)
Record exchange := MkExchange {
  ex_client : client_state (URL := URL);
  ex_screen : nat * list term_event;
  ex_trace : written;
  ex_closed : list http_response;
}.

(** [AfterDo]: the request after [Do], with what it got from its client. *)
Record AfterDo := MkAfterDo {
  ad_request : Request;
  ad_option : option Option_;
  ad_tracer : option (Tracer URL);
}.

(** The function literal [fn] and its call in the function literal [f] of [doRequest]: an
    upload is sent once and not copied. *)
Definition send (r : AfterDo) : M (client_state (URL := URL)) answer :=
  s ← gets id;
  if HasPrefix (Header_Get (req_Header (internal_request s)) "Content-Type") "multipart/form-data;"
  then cli_Do transport jar (internal s)
  else retry url_Parse url_String transport jar (retryOption (ad_request r)).

(** [f]: [resp] and [err] are variables of [doRequest]. *)
Definition f_of (r : AfterDo) : M (client_state (URL := URL) * answer) unit := fun s =>
  match send r s.1 with
  | (Done a, c) => (Done tt, (c, a))
  | (Panic e, c) => (Panic e, (c, s.2))
  | (Blocked, c) => (Blocked, (c, s.2))
  end.

Definition on_screen (r : AfterDo) (shown : M ((client_state (URL := URL) * answer) * (nat * list term_event)) unit)
  : M exchange answer := fun x =>
  let '(o, (c, a, scr)) := shown (ex_client x, (None, None), ex_screen x) in
  let x' := MkExchange c scr (ex_trace x) (ex_closed x) in
  match o with
  | Done tt => (Done a, x')
  | Panic e => (Panic e, x')
  | Blocked => (Blocked, x')
  end.

Definition traced {A} (m : M written A) : M exchange A := fun x =>
  let (o, out) := m (ex_trace x) in (o, MkExchange (ex_client x) (ex_screen x) out (ex_closed x)).

(** The call of [f], under the spinner or not. *)
Definition run_f (r : AfterDo) : M exchange answer :=
  match ad_option r with
  | Some op =>
      if loadingPrint op then
        if bool_decide (loadingDesc op <> "")
        then on_screen r (Loading Printf (loadingDesc op) (f_of r) true false ticks)
        else on_screen r (Loading Printf (rq_path (ad_request r)) (f_of r) true false ticks)
      else on_screen r (fun s => let (o, s') := f_of r s.1 in (o, (s', s.2)))
  | None => on_screen r (fun s => let (o, s') := f_of r s.1 in (o, (s', s.2)))
  end.

Definition doRequest (r : AfterDo) : M exchange (option http_response + http_error) :=
  match rq_err (ad_request r) with
  | Some err => mret (inr (HttpError err false))
  | None =>
      x ← gets id;
      _ ← match ad_tracer r with
          | Some tr => traced (@trace_request _ tr (internal_request (ex_client x)))
          | None => mret tt
          end;
      a ← run_f r;
      match a.2 with
      | Some err => mret (inr err)
      | None =>
          match ad_tracer r with
          | None => mret (inl a.1)
          | Some tr =>
              match a.1 with
              | None => panic nil_response
              | Some resp => resp ← traced (@trace_response _ tr resp); mret (inl (Some resp))
              end
          end
      end
  end.

Definition RAW (r : AfterDo) : M exchange (option http_response + http_error) := doRequest r.

(** [resp.Body.Close()], deferred. *)
Definition Close (resp : http_response) : M exchange unit :=
  modify (fun x => MkExchange (ex_client x) (ex_screen x) (ex_trace x) (ex_closed x ++ [resp])).

(** [resp, err := doRequest(r); if err != nil { return err }]; what follows uses [resp]. *)
Definition with_response {A} (r : AfterDo) (fail : error -> A) (k : http_response -> M exchange A) : M exchange A :=
  res ← doRequest r;
  match res with
  | inr err => mret (fail (err_text err))
  | inl None => panic nil_response
  | inl (Some resp) => k resp
  end.

(** The Go object that [JSON] decodes into is the second result. *)
Definition JSON {T} (json_Unmarshal : string -> T + error) (r : AfterDo)
  : M exchange ((Response * option T) + error) :=
  with_response r inr (fun resp =>
    _ ← Close resp;
    mret match HttpClient.JSON json_Unmarshal resp with
         | inl (body, o) => inl (MkResponse body resp, o)
         | inr err => inr err
         end).

(** [Body]: the buffer, which takes what could be read, before an error too, and the results. *)
Definition Body (b : string) (r : AfterDo) : M exchange (string * (Response + error)) :=
  with_response r (fun err => (b, inr err)) (fun resp =>
    _ ← Close resp;
    mret (b +:+ rd_data (resp_Body resp),
          match rd_err (resp_Body resp) with Some err => inr err | None => inl (MkResponse "" resp) end)).

(** The caller closes the body. *)
Definition StreamBody (r : AfterDo) : M exchange ((reader * Response) + error) :=
  with_response r inr (fun resp => mret (inl (resp_Body resp, MkResponse "" resp))).

(** What [io.Copy] meets is dropped. *)
Definition DiscardBody (r : AfterDo) : M exchange (Response + error) :=
  with_response r inr (fun resp => _ ← Close resp; mret (inl (MkResponse "" resp))).

(** ** What happens to the bodies *)

Lemma run_f_send r x :
  exists scr, run_f r x =
    (fst (send r (ex_client x)), MkExchange (snd (send r (ex_client x))) scr (ex_trace x) (ex_closed x)).
Proof.
  assert (Hplain : exists scr, on_screen r (fun s => let (o, s') := f_of r s.1 in (o, (s', s.2))) x =
    (fst (send r (ex_client x)), MkExchange (snd (send r (ex_client x))) scr (ex_trace x) (ex_closed x))).
  { unfold on_screen, f_of. cbn. destruct (send r (ex_client x)) as [[a| |] c]; by eexists. }
  assert (Hload : forall desc, exists scr, on_screen r (Loading Printf desc (f_of r) true false ticks) x =
    (fst (send r (ex_client x)), MkExchange (snd (send r (ex_client x))) scr (ex_trace x) (ex_closed x))).
  { intros desc. unfold on_screen, Loading, f_of. cbn. destruct (ex_screen x).
    destruct (send r (ex_client x)) as [[a| |] c]; by eexists. }
  unfold run_f. destruct (ad_option r) as [op|]; [|done]. destruct (loadingPrint op); [|done].
  case_bool_decide; apply Hload.
Qed.

Definition same_closed (x x' : exchange) : Prop := ex_closed x' = ex_closed x.
#[local] Instance same_closed_preorder : PreOrder same_closed.
Proof. split; [done|]. intros x y z. unfold same_closed. congruence. Qed.

Lemma traced_closed {A} (m : M written A) : preserves same_closed (traced m).
Proof. intros x. unfold traced. by destruct (m (ex_trace x)). Qed.
Lemma run_f_closed r : preserves same_closed (run_f r).
Proof. intros x. destruct (run_f_send r x) as [scr ->]. done. Qed.
#[local] Hint Resolve traced_closed run_f_closed : preserves.
Lemma doRequest_closed r : preserves same_closed (doRequest r).
Proof. unfold doRequest. preserve. Qed.

Lemma with_response_run {A} r (fail : error -> A) (k : http_response -> M exchange A) x :
  with_response r fail k x =
    match doRequest r x with
    | (Done (inl (Some resp)), x1) => k resp x1
    | (Done (inl None), x1) => (Panic nil_response, x1)
    | (Done (inr err), x1) => (Done (fail (err_text err)), x1)
    | (Panic e, x1) => (Panic e, x1)
    | (Blocked, x1) => (Blocked, x1)
    end.
Proof. unfold with_response. rewrite M_bind_run. by destruct (doRequest r x) as [[[[resp|]|err]| |] x1]. Qed.

(** A body is closed exactly once by [JSON], [Body] and [DiscardBody] when there is an
    answer, on the paths too where reading or decoding it fails; [RAW] and [StreamBody] leave
    it open for the caller; without an answer nothing is closed, and no method ever closes
    the answers that [retry] gave up. *)
Theorem bodies_closed {T} (json_Unmarshal : string -> T + error) b r x :
  let closed := (ex_closed x ++ match (doRequest r x).1 with Done (inl (Some resp)) => [resp] | _ => [] end)%list in
  ex_closed (JSON json_Unmarshal r x).2 = closed /\ ex_closed (Body b r x).2 = closed /\
  ex_closed (DiscardBody r x).2 = closed /\
  ex_closed (RAW r x).2 = ex_closed x /\ ex_closed (StreamBody r x).2 = ex_closed x.
Proof.
  cbn zeta. pose proof (doRequest_closed r x) as Hc. unfold same_closed in Hc.
  unfold JSON, Body, DiscardBody, RAW, StreamBody. rewrite !with_response_run.
  destruct (doRequest r x) as [[[[resp|]|err]| |] x1]; cbn in Hc |- *;
    rewrite ?M_bind_run; cbn; rewrite ?app_nil_r, Hc; done.
Qed.

(** ** Showing and tracing change nothing *)

Definition same_response (a b : http_response) : Prop :=
  resp_StatusCode b = resp_StatusCode a /\ resp_Header b = resp_Header a /\
  ReadAll (resp_Body b) = ReadAll (resp_Body a).

Lemma same_response_JSON {T} (json_Unmarshal : string -> T + error) a b :
  same_response a b ->
  match HttpClient.JSON json_Unmarshal a with
  | inl (body, o) => HttpClient.JSON json_Unmarshal b = inl (body, o) /\ b = a
  | inr err => HttpClient.JSON json_Unmarshal b = inr err
  end.
Proof.
  destruct a as [c h [d e]], b as [c' h' [d' e']]. unfold same_response, HttpClient.JSON, ReadAll. cbn.
  intros (-> & -> & Hr). destruct e', e; simplify_eq; try done.
  by destruct (_ && _); [|destruct (json_Unmarshal d)].
Qed.

Lemma retry_loop_some fns interval n last s a s' :
  (forall h r, some_answer (transport h r)) -> some_answer last \/ 0 < n ->
  retry_loop url_Parse url_String transport jar fns interval n last s = (Done a, s') -> some_answer a.
Proof.
  intros Ht. revert last s. induction n as [|n IH]; intros last s Hor; cbn; [|clear Hor].
  - intros [= <- _]. destruct Hor; [done|lia].
  - destruct (retryIfTimeout_done url_Parse url_String transport jar s Ht) as (a1 & s1 & Hrun & Ha).
    rewrite (M_bind_done _ _ _ _ _ Hrun), M_bind_run.
    destruct (wants_retry fns interval a1 s1) as [[[]| |] s2]; [|by intros [= <- _]|done..].
    apply IH. by left.
Qed.

(** The request came from a client, so it is sent at least once. *)
Definition from_client (r : AfterDo) : Prop := (1 <= MaxTime (retryOption (ad_request r)))%Z.

Lemma send_some r c a c' :
  (forall h req, some_answer (transport h req)) -> from_client r -> send r c = (Done a, c') -> some_answer a.
Proof.
  intros Ht Hr. unfold send. rewrite M_bind_run. cbn [gets id].
  destruct (HasPrefix _ _); [intros [= <- _]; apply Ht|].
  apply retry_loop_some; [done|]. right. unfold from_client in Hr. lia.
Qed.

(** The same request without spinner and tracer. *)
Definition quiet (r : AfterDo) : AfterDo := MkAfterDo (ad_request r) None None.

Definition same_outcome (o o' : outcome (option http_response + http_error)) : Prop :=
  match o, o' with
  | Done (inl (Some a)), Done (inl (Some b)) => same_response a b
  | _, _ => o = o'
  end.
Lemma same_outcome_refl o : same_outcome o o.
Proof. by destruct o as [[[resp|]|err]| |]. Qed.

Lemma trace_request_run r x :
  (forall tr, ad_tracer r = Some tr -> @TracerLaw URL tr) ->
  exists out, (match ad_tracer r with
      | Some tr => traced (@trace_request _ tr (internal_request (ex_client x))) | None => mret tt end) x =
    (Done tt, MkExchange (ex_client x) (ex_screen x) out (ex_closed x)).
Proof.
  intros Htr. destruct (ad_tracer r) as [tr|].
  - destruct (Htr tr eq_refl) as [Hq _]. destruct (Hq (internal_request (ex_client x)) (ex_trace x)) as [out Hout].
    exists out. unfold traced. by rewrite Hout.
  - exists (ex_trace x). by destruct x.
Qed.

Lemma doRequest_quiet r x :
  (forall h req, some_answer (transport h req)) -> from_client r ->
  (forall tr, ad_tracer r = Some tr -> @TracerLaw URL tr) ->
  same_outcome (doRequest (quiet r) x).1 (doRequest r x).1 /\
  ex_client (doRequest r x).2 = ex_client (doRequest (quiet r) x).2.
Proof.
  intros Ht Hr Htr. unfold doRequest. cbn [quiet ad_request ad_tracer].
  destruct (rq_err (ad_request r)); [done|]. rewrite !M_bind_run. cbn [gets id]. rewrite !M_bind_run. cbn [mret M_ret].
  destruct (trace_request_run r x Htr) as [out ->]. rewrite !M_bind_run.
  destruct (run_f_send (quiet r) x) as [scr ->].
  destruct (run_f_send r (MkExchange (ex_client x) (ex_screen x) out (ex_closed x))) as [scr' ->].
  cbn [ex_client ex_trace ex_closed]. change (send (quiet r)) with (send r).
  pose proof (send_some r (ex_client x)) as Hsome.
  destruct (send r (ex_client x)) as [[a| |] c]; cbn [fst snd]; [|done..].
  specialize (Hsome a c Ht Hr eq_refl). destruct a.2 as [err|] eqn:Ea; [done|].
  destruct (ad_tracer r) as [tr|]; [|split; [apply same_outcome_refl|done]].
  destruct a.1 as [resp|] eqn:Eb; [|by destruct Hsome as [[? [=]]|[? [=]]]; congruence].
  destruct (Htr tr eq_refl) as [_ Hp]. destruct (Hp resp out) as (resp' & out' & Hrun & Hs).
  rewrite M_bind_run. unfold traced. cbn [ex_trace]. rewrite Hrun. by split.
Qed.

(** C31: a spinner and a tracer that keeps the promise of its interface change nothing of an
    exchange: with any options, for any number of ticks, [JSON] has the same outcome, the
    same requests were sent and the same time was slept as without both. *)
Theorem watching_changes_nothing {T} (json_Unmarshal : string -> T + error) r x :
  (forall h req, some_answer (transport h req)) -> from_client r ->
  (forall tr, ad_tracer r = Some tr -> @TracerLaw URL tr) ->
  (JSON json_Unmarshal r x).1 = (JSON json_Unmarshal (quiet r) x).1 /\
  ex_client (JSON json_Unmarshal r x).2 = ex_client (JSON json_Unmarshal (quiet r) x).2.
Proof.
  intros Ht Hr Htr. destruct (doRequest_quiet r x Ht Hr Htr) as [Ho Hc].
  unfold JSON. rewrite !with_response_run.
  destruct (doRequest r x) as [o1 x1], (doRequest (quiet r) x) as [o2 x2]. cbn [fst snd] in Ho, Hc.
  destruct o2 as [[[a|]|err]| |], o1 as [[[b|]|err']| |]; cbn in Ho; simplify_eq; try done; cbn.
  pose proof (same_response_JSON json_Unmarshal a b Ho) as Hj.
  destruct (HttpClient.JSON json_Unmarshal a) as [[body o]|err]; [destruct Hj as [-> ->]|rewrite Hj]; done.
Qed.

(** An upload is sent once, with the cookies of a jar but otherwise as it is, and whatever the
    answer it is not sent again. *)
Theorem upload_sent_once r x :
  rq_err (ad_request r) = None -> (forall tr, ad_tracer r = Some tr -> @TracerLaw URL tr) ->
  let req := internal_request (ex_client x) in
  HasPrefix (Header_Get (req_Header req) "Content-Type") "multipart/form-data;" = true ->
  sent (ex_client (RAW r x).2) =
    (sent (ex_client x) ++ [foldl AddCookie req (jar (sent (ex_client x)) (req_URL req))])%list /\
  slept (ex_client (RAW r x).2) = slept (ex_client x).
Proof.
  intros He Htr req Hct. unfold RAW, doRequest. rewrite He, M_bind_run. cbn [gets id]. rewrite M_bind_run.
  destruct (trace_request_run r x Htr) as [out ->]. rewrite M_bind_run.
  destruct (run_f_send r (MkExchange (ex_client x) (ex_screen x) out (ex_closed x))) as [scr ->].
  cbn [ex_client]. assert (Hsend : send r (ex_client x) = cli_Do transport jar (internal (ex_client x)) (ex_client x)).
  { unfold send. rewrite M_bind_run. cbn [gets id]. fold req. by rewrite Hct. }
  rewrite Hsend. cbn [cli_Do fst snd].
  destruct (transport _ _) as [resp [err|]]; [done|]. cbn. destruct (ad_tracer r) as [tr|]; [|done].
  destruct resp as [resp|]; [|done]. destruct (Htr tr eq_refl) as [_ Hp].
  destruct (Hp resp out) as (resp' & out' & Hrun & _). rewrite M_bind_run. unfold traced. cbn [ex_trace].
  by rewrite Hrun.
Qed.
End Exchange.
Arguments exchange : clear implicits.
Arguments AfterDo : clear implicits.

(** ** Witnesses *)

(** A client with automatic retries, a spinner and the default tracer asks for the status of
    a plan; the network of [flaky] fails twice. *)
Definition status_client : HTTPClient := New [WithLoadingPrint "status"; WithEnableAutoRetry true].
Definition status_request : Request := Path "/api/code-coverage/actions/status" (Get status_client "center" []).
Definition status_after_do : AfterDo string :=
  MkAfterDo status_request (Some (option_ status_client)) (Some (DefaultTracer (id : string -> string))).
Definition at_rest : exchange string := MkExchange demo_request (0, []) [] [].
Definition plain_JSON (s : string) : string + error := inl s.

Lemma flaky_answers : forall h req, some_answer (flaky h req).
Proof. intros [|? [|]] req; [right|right|left]; by eexists. Qed.

Lemma watching_changes_nothing_witness :
  (JSON plain_url id flaky no_jar (fun s => s) 3 plain_JSON status_after_do at_rest).1 =
    Done (inl (MkResponse "ok" (HttpResponse 200 ∅ (string_reader "ok")), Some "ok")) /\
  length (ex_trace (JSON plain_url id flaky no_jar (fun s => s) 3 plain_JSON status_after_do at_rest).2) = 2.
Proof.
  split; [|vm_compute; reflexivity].
  rewrite (proj1 (watching_changes_nothing plain_url id flaky no_jar (fun s => s) 3 plain_JSON status_after_do at_rest
    flaky_answers ltac:(unfold from_client; vm_compute; discriminate)
    ltac:(intros tr [= <-]; apply DefaultTracer_law))).
  vm_compute. reflexivity.
Defined.

(** The upload of a file, the content type set by [MultipartFormDataBody]. *)
Definition uploading : exchange string :=
  MkExchange (client_of (HttpRequest "POST" "http://center/api/files"
    {["Content-Type" := ["multipart/form-data; boundary=x"]]} (Some (string_reader "data")))) (0, []) [] [].

Lemma upload_sent_once_witness :
  length (sent (ex_client (RAW plain_url id flaky no_jar (fun s => s) 0 (quiet status_after_do) uploading).2)) = 1.
Proof.
  rewrite (proj1 (upload_sent_once plain_url id flaky no_jar (fun s => s) 0 (quiet status_after_do) uploading
    eq_refl ltac:(intros tr [=]) eq_refl)). reflexivity.
Defined.

(** Two answers of status 500 are given up without being closed. *)
Definition failing (h : list (http_request string)) (r : http_request string) : answer :=
  (Some (HttpResponse (if Nat.ltb (length h) 2 then 500 else 200) ∅ (string_reader "{}")), None).
Example abandoned_answers_stay_open :
  let x := (JSON plain_url id failing no_jar (fun s => s) 0 plain_JSON (quiet status_after_do) at_rest).2 in
  length (sent (ex_client x)) = 3 /\ length (ex_closed x) = 1.
Proof. vm_compute. auto. Qed.
