(* ===== verification/DnsCache.v ===== *)
(** * [agent/pkg/httpclient]: the DNS cache and the dialer that uses it
    ([dnscache.go] and [mkDialContext] of [client.go])

    The cache is a map that a goroutine replaces by an empty one at every interval. A lookup
    takes the current map under the lock and works on it without the lock, so a replacement
    can happen between any two of its statements. *)

From stdpp Require Import base tactics option list gmap strings relations.
From Stdlib Require Import Lia.
From S2P Require Import Prelude GoStrings.

Local Open Scope string_scope.

(** An address, as [net.IP.String()] prints it. *)
Abbreviation ip := string.

(** A [sync.Map] the cache has used, with the time it was created at. The cache has used
    the maps of a list, and [d.m] is its last item. *)
Record cache_map := CacheMap { born : nat; entries : gmap string (list ip) }.

(** A call of [lookup], at the point it has reached. *)
Inductive lookup_state :=
| Loaded                        (* holds the map in [m] *)
| Resolved (ips : list ip)      (* net.LookupIP has answered *)
| Answered (ips : list ip)
| Failed (err : error).

Record call := Call { call_host : string; call_start : nat; call_map : nat; call_state : lookup_state }.

Record DNSCache := Cache { maps : list cache_map; calls : list call; now : nat }.

Definition NewDNSCache : DNSCache := Cache [CacheMap 0 ∅] [] 0.

Section Steps.
(** [net.LookupIP] at a time. *)
Variable LookupIP : nat -> string -> list ip + error.

(** [d.m = new(sync.Map)] *)
Definition refresh (d : DNSCache) : DNSCache := Cache (maps d ++ [CacheMap (now d) ∅]) (calls d) (now d).

(** [d.Lock(); m := d.m; d.Unlock()] at the start of a lookup. *)
Definition begin_lookup (host : string) (d : DNSCache) : DNSCache :=
  Cache (maps d) (calls d ++ [Call host (now d) (length (maps d) - 1) Loaded]) (now d).

(** The next statement of a lookup: the maps, and the state it reaches. *)
Definition advance (ms : list cache_map) (time : nat) (cl : call) : list cache_map * call :=
  let to st := Call (call_host cl) (call_start cl) (call_map cl) st in
  match call_state cl with
  | Loaded =>
      match ms !! call_map cl ≫= fun m => entries m !! call_host cl with
      | Some v => (ms, to (Answered v))
      | None =>
          match LookupIP time (call_host cl) with
          | inr err => (ms, to (Failed err))
          | inl ips => (ms, to (Resolved ips))
          end
      end
  | Resolved ips =>
      (alter (fun m => CacheMap (born m) (<[call_host cl := ips]> (entries m))) (call_map cl) ms, to (Answered ips))
  | _ => (ms, cl)
  end.

Definition advance_call (i : nat) (d : DNSCache) : DNSCache :=
  match calls d !! i with
  | None => d
  | Some cl => let '(ms, cl') := advance (maps d) (now d) cl in Cache ms (<[i := cl']> (calls d)) (now d)
  end.

(** The clock, the goroutine of [startRefresh] and the lookups, interleaved. *)
Inductive dns_step : DNSCache -> DNSCache -> Prop :=
| dns_tick d : dns_step d (Cache (maps d) (calls d) (S (now d)))
| dns_refresh d : dns_step d (refresh d)
| dns_begin host d : dns_step d (begin_lookup host d)
| dns_advance i d : dns_step d (advance_call i d).

(** [ips] was the answer for [host] at some time between [lo] and [hi]. *)
Definition resolved_between (lo hi : nat) (host : string) (ips : list ip) : Prop :=
  exists t, lo <= t <= hi /\ LookupIP t host = inl ips.

(** The state of a call is backed by an answer not older than its map. *)
Definition call_ok (ms : list cache_map) (time : nat) (cl : call) : Prop :=
  exists m, ms !! call_map cl = Some m /\ born m <= call_start cl <= time /\
  (forall i m', ms !! i = Some m' -> call_map cl < i -> call_start cl <= born m') /\
  match call_state cl with
  | Resolved ips | Answered ips => resolved_between (born m) time (call_host cl) ips
  | _ => True
  end.

Record cache_ok (d : DNSCache) : Prop := {
  ok_some : maps d <> [];
  ok_born : forall i m, maps d !! i = Some m -> born m <= now d;
  ok_mono : forall i j m m', maps d !! i = Some m -> maps d !! j = Some m' -> i <= j -> born m <= born m';
  ok_entries : forall i m host ips, maps d !! i = Some m -> entries m !! host = Some ips ->
    resolved_between (born m) (now d) host ips;
  ok_calls : Forall (call_ok (maps d) (now d)) (calls d);
}.

Lemma resolved_mono lo hi hi' host ips : resolved_between lo hi host ips -> hi <= hi' -> resolved_between lo hi' host ips.
Proof. intros (t & Ht & H) Hle. exists t. split; [lia|done]. Qed.

Lemma call_ok_mono ms ms' time time' cl :
  call_ok ms time cl -> time <= time' ->
  (forall i m, ms !! i = Some m -> exists m', ms' !! i = Some m' /\ born m' = born m) ->
  (forall i m', ms' !! i = Some m' -> (exists m, ms !! i = Some m /\ born m' = born m) \/ time <= born m') ->
  call_ok ms' time' cl.
Proof.
  intros (m & Hm & Hb & Hlater & Hst) Hle Hfwd Hback. destruct (Hfwd _ _ Hm) as (m' & Hm' & Hborn).
  exists m'. split; [done|]. rewrite Hborn. split; [lia|]. split.
  - intros i m2 Hi Hlt. destruct (Hback i m2 Hi) as [(m3 & Hm3 & ->)|Ht]; [by eapply Hlater|lia].
  - destruct (call_state cl); try done; by eapply resolved_mono.
Qed.

Lemma advance_ok ms time cl :
  (forall i m, ms !! i = Some m -> born m <= time) ->
  (forall i m host ips, ms !! i = Some m -> entries m !! host = Some ips -> resolved_between (born m) time host ips) ->
  call_ok ms time cl ->
  let '(ms', cl') := advance ms time cl in
  call_ok ms' time cl' /\
  (forall i m, ms !! i = Some m -> exists m', ms' !! i = Some m' /\ born m' = born m) /\
  (forall i m', ms' !! i = Some m' -> exists m, ms !! i = Some m /\ born m' = born m) /\
  (forall i m host ips, ms' !! i = Some m -> entries m !! host = Some ips -> resolved_between (born m) time host ips).
Proof.
  intros Hborn Hent (m & Hm & Hb & Hlater & Hst). unfold advance.
  assert (Hsame : (forall i m, ms !! i = Some m -> exists m', ms !! i = Some m' /\ born m' = born m) /\
    (forall i m', ms !! i = Some m' -> exists m, ms !! i = Some m /\ born m' = born m)) by (split; eauto).
  destruct Hsame as [Hs1 Hs2].
  destruct (call_state cl) as [|ips|ips|err] eqn:Est.
  - rewrite Hm. cbn. destruct (entries m !! call_host cl) as [v|] eqn:Ev.
    + split_and!; [|done|done|done]. exists m. cbn. split_and!; [done|lia|lia|done|]. by eapply Hent.
    + destruct (LookupIP time (call_host cl)) as [ips|err] eqn:El; (split_and!; [|done|done|done]);
        exists m; cbn; (split_and!; [done|lia|lia|done|try done]). exists time. split; [|done].
      specialize (Hborn _ _ Hm). lia.
  - set (f := fun m => CacheMap (born m) (<[call_host cl := ips]> (entries m))).
    assert (Hf : alter f (call_map cl) ms !! call_map cl = Some (f m)) by (by rewrite list_lookup_alter_eq, Hm).
    assert (Hback : forall i m', alter f (call_map cl) ms !! i = Some m' ->
      exists m0, ms !! i = Some m0 /\ born m' = born m0 /\ (m' = m0 \/ (i = call_map cl /\ m' = f m0))).
    { intros i m' Hi. destruct (decide (i = call_map cl)) as [->|Hne].
      - rewrite Hf in Hi. injection Hi as <-. exists m. split_and!; [done|done|by right].
      - rewrite list_lookup_alter_ne in Hi by done. exists m'. split_and!; [done|done|by left]. }
    split_and!.
    + exists (f m). cbn [call_map call_state call_start call_host]. split; [done|]. cbn [born f]. split; [done|]. split; [|done].
      intros i m' Hi Hlt. destruct (Hback i m' Hi) as (m0 & Hm0 & -> & _). by eapply Hlater.
    + intros i m0 Hi. destruct (decide (i = call_map cl)) as [->|Hne].
      * exists (f m). split; [done|]. rewrite Hm in Hi. by injection Hi as <-.
      * exists m0. by rewrite list_lookup_alter_ne.
    + intros i m' Hi. destruct (Hback i m' Hi) as (m0 & Hm0 & Hb0 & _). by exists m0.
    + intros i m' host v Hi Hv. destruct (Hback i m' Hi) as (m0 & Hm0 & Hb0 & [-> |[-> ->]]).
      * by eapply Hent.
      * cbn in Hv. rewrite Hm in Hm0. injection Hm0 as <-. destruct (decide (host = call_host cl)) as [->|Hne].
        -- rewrite lookup_insert_eq in Hv. by injection Hv as <-.
        -- rewrite lookup_insert_ne in Hv by done. exact (Hent _ _ _ _ Hm Hv).
  - split_and!; [|done|done|done]. exists m. rewrite Est. split_and!; [done|lia|lia|done|done].
  - split_and!; [|done|done|done]. exists m. rewrite Est. split_and!; [done|lia|lia|done|done].
Qed.

Lemma step_cache_ok d d' : cache_ok d -> dns_step d d' -> cache_ok d'.
Proof.
  intros [Hs Hb Hmono He Hc] Hstep. destruct Hstep as [d|d|host d|i d]; cbn in *.
  - split; cbn; [done| |done| |].
    + intros i m Hi. specialize (Hb i m Hi). lia.
    + intros i m host ips Hi Hv. eapply resolved_mono; [by eapply He|lia].
    + eapply Forall_impl; [exact Hc|]. intros cl Hcl. eapply call_ok_mono; [done|lia|eauto|]. intros i m' Hi. left. eauto.
  - split; cbn.
    + by destruct (maps d).
    + intros i m Hi. apply lookup_app_Some in Hi as [Hi|[_ Hi]]; [by eapply Hb|].
      apply list_lookup_singleton_Some in Hi as [_ <-]. cbn. lia.
    + intros i j m m' Hi Hj Hij. apply lookup_app_Some in Hj as [Hj|[Hlen Hj]].
      * apply lookup_lt_Some in Hj as Hlt. rewrite lookup_app_l in Hi by lia. by eapply Hmono.
      * apply list_lookup_singleton_Some in Hj as [_ <-]. cbn.
        apply lookup_app_Some in Hi as [Hi|[_ Hi]]; [by eapply Hb|].
        apply list_lookup_singleton_Some in Hi as [_ <-]. cbn. lia.
    + intros i m host ips Hi Hv. apply lookup_app_Some in Hi as [Hi|[_ Hi]]; [by eapply He|].
      apply list_lookup_singleton_Some in Hi as [_ <-]. cbn in Hv. by apply lookup_empty_Some in Hv.
    + eapply Forall_impl; [exact Hc|]. intros cl Hcl. eapply call_ok_mono; [done|done| |].
      * intros i m Hi. exists m. split; [|done]. by apply lookup_app_l_Some.
      * intros i m' Hi. apply lookup_app_Some in Hi as [Hi|[_ Hi]]; [left; eauto|right].
        by apply list_lookup_singleton_Some in Hi as [_ <-].
  - split; cbn; [done|done|done|done|]. apply Forall_app. split; [done|]. constructor; [|done].
    destruct (last (maps d)) as [m|] eqn:El; [|by apply last_None in El].
    rewrite last_lookup in El. rewrite <- Nat.sub_1_r in El. exists m. cbn. split; [done|].
    specialize (Hb _ _ El). split; [lia|]. split; [|done]. intros i m' Hi Hlt. apply lookup_lt_Some in Hi. lia.
  - unfold advance_call. destruct (calls d !! i) as [cl|] eqn:Ei; [|by split].
    pose proof (proj1 (Forall_lookup _ _) Hc i cl Ei) as Hcl.
    pose proof (advance_ok (maps d) (now d) cl Hb He Hcl) as Ha.
    destruct (advance (maps d) (now d) cl) as [ms' cl']. destruct Ha as (Hcl' & Hfwd & Hback & Hent). split; cbn.
    + intros ->. destruct (maps d) as [|m ms] eqn:Em; [done|]. destruct (Hfwd 0 m eq_refl) as (m' & Hm' & _). done.
    + intros j m' Hj. destruct (Hback j m' Hj) as (m & Hm & ->). by eapply Hb.
    + intros j k m m' Hj Hk Hjk. destruct (Hback j m Hj) as (m1 & Hm1 & ->).
      destruct (Hback k m' Hk) as (m2 & Hm2 & ->). exact (Hmono _ _ _ _ Hm1 Hm2 Hjk).
    + done.
    + apply Forall_insert; [|done]. eapply Forall_impl; [exact Hc|]. intros c0 Hc0.
      eapply call_ok_mono; [done|done|done|]. intros j m' Hj. left. by apply Hback.
Qed.

Lemma dns_reachable_ok d : rtc dns_step NewDNSCache d -> cache_ok d.
Proof.
  intros H. remember NewDNSCache as d0 eqn:E. assert (H0 : cache_ok d0).
  { subst. split; cbn; [done| | | |done].
    - intros [|i] m Hi; [by injection Hi as <-|done].
    - intros [|i] [|j] m m' Hi Hj; try done. by injection Hi as <-; injection Hj as <-.
    - intros [|i] m host ips Hi Hv; [injection Hi as <-; cbn in Hv; by apply lookup_empty_Some in Hv|done]. }
  clear E. induction H as [|d1 d2 d3 Hs _ IH]; [done|]. apply IH. by eapply step_cache_ok.
Qed.

(** C38: however lookups, refreshes and the clock interleave, an answered lookup returns what
    [net.LookupIP] answered for its host at a time not before the refresh that precedes the
    lookup's start: a map that was replaced never answers a lookup begun afterwards. *)
Theorem dns_lookup_fresh d cl ips :
  rtc dns_step NewDNSCache d -> cl ∈ calls d -> call_state cl = Answered ips ->
  exists t, t <= now d /\ LookupIP t (call_host cl) = inl ips /\
    forall m, m ∈ maps d -> born m < call_start cl -> born m <= t.
Proof.
  intros Hr Hin Hst. pose proof (dns_reachable_ok d Hr) as [_ Hb Hmono _ Hc].
  pose proof (proj1 (Forall_forall _ _) Hc cl Hin) as (m & Hm & Hstart & Hlater & Hans). rewrite Hst in Hans.
  destruct Hans as (t & Ht & Hl). exists t. split; [lia|]. split; [done|].
  intros m' Hm' Hlt. apply list_elem_of_lookup in Hm' as [i Hi].
  destruct (decide (call_map cl < i)) as [Hgt|Hle]; [specialize (Hlater i m' Hi Hgt); lia|].
  specialize (Hmono i (call_map cl) m' m Hi Hm ltac:(lia)). lia.
Qed.
End Steps.

(** ** The dialer *)

(** [addr] split before its last colon, if it has one. *)
Fixpoint split_last_colon (addr : string) : option (string * string) :=
  match addr with
  | EmptyString => None
  | String c s =>
      match split_last_colon s with
      | Some (host, remain) => Some (String c host, remain)
      | None => if bool_decide (Ascii.N_of_ascii c = 58%N) then Some ("", addr) else None
      end
  end.

Section Dial.
(** [net.ParseIP(host) != nil], the dialer of [net], and the lookup of the cache. *)
Variable is_ip : string -> bool.
Variable raw : string -> string -> string + error.
Variable lookup : string -> list ip + error.

(** The loop over the addresses: the first connection that can be made. *)
Fixpoint first_conn (network remain : string) (ips : list ip) : option string :=
  match ips with
  | [] => None
  | i :: ips' => match raw network (i +:+ remain) with inl conn => Some conn | inr _ => first_conn network remain ips' end
  end.

(** The function [mkDialContext] returns, without and with a cache. *)
Definition dial (cached : bool) (network addr : string) : string + error :=
  if negb cached then raw network addr
  else
    let '(host, remain) := default (addr, "") (split_last_colon addr) in
    if is_ip host || (negb (HasPrefix network "tcp") && negb (HasPrefix network "udp")) then raw network addr
    else match lookup host with
         | inr _ => raw network addr
         | inl ips => match first_conn network remain ips with Some conn => inl conn | None => raw network addr end
         end.

(** The cache only adds ways to connect: where the plain dialer connects, so does this one. *)
Lemma dial_connects cached network addr conn :
  raw network addr = inl conn -> exists conn', dial cached network addr = inl conn'.
Proof.
  intros H. unfold dial. destruct cached; cbn; [|by exists conn].
  destruct (default _ _) as [host remain]. destruct (is_ip host || _); [by exists conn|].
  destruct (lookup host); [|by exists conn]. destruct (first_conn network remain _); [by eexists|by exists conn].
Qed.
End Dial.

(** ** Witness *)

(** A lookup that starts after a refresh, answered by the current map. *)
Lemma dns_lookup_fresh_witness :
  exists d cl t, cl ∈ calls d /\ call_state cl = Answered ["10.0.0.1"] /\ t <= now d.
Proof.
  set (resolve := fun (_ : nat) (_ : string) => @inl (list ip) error ["10.0.0.1"]).
  set (d := advance_call resolve 0 (advance_call resolve 0 (begin_lookup "center" (refresh NewDNSCache)))).
  assert (Hr : rtc (dns_step resolve) NewDNSCache d).
  { eapply rtc_l; [apply dns_refresh|]. eapply rtc_l; [apply (dns_begin resolve "center")|].
    eapply rtc_l; [apply (dns_advance resolve 0)|]. eapply rtc_l; [apply (dns_advance resolve 0)|]. apply rtc_refl. }
  assert (Hin : Call "center" 0 1 (Answered ["10.0.0.1"]) ∈ calls d) by apply list_elem_of_here.
  destruct (dns_lookup_fresh resolve d _ ["10.0.0.1"] Hr Hin eq_refl) as (t & Ht & _).
  exists d, (Call "center" 0 1 (Answered ["10.0.0.1"])), t. split; [exact Hin|]. split; [reflexivity|exact Ht].
Defined.
