(* ===== verification/AgentTypes.v ===== *)
(** * Package [api/v1alpha1]: the Agent resource, and the Kubernetes types it is built from

    The Kubernetes API types the operator only passes on (quantities, affinities, ...) are
    parameters, gathered in the class [K8sTypes]. A Go map or slice is an [option], because
    [nil] and empty are different values for [reflect.DeepEqual] and for the [!= nil] tests
    of the program. *)

From stdpp Require Import base tactics option list gmap strings.
From S2P Require Import Prelude.

Local Open Scope string_scope.

(** ** Types the program does not look into *)

Class K8sTypes := {
  Quantity : Type;
  Affinity : Type;
  Toleration : Type;
  EnvVarSource : Type;
  StatefulSetStatus : Type;
  OwnerReference : Type;
  Time : Type;
  (** the fields of [ObjectMeta] that the program neither reads nor writes *)
  MetaRest : Type;
  zero_status : StatefulSetStatus;
  zero_rest : MetaRest;
  (** [resource.MustParse] on the literals of the program, which are valid quantities *)
  MustParse : string -> Quantity;
  Quantity_eq_dec :: EqDecision Quantity;
  Affinity_eq_dec :: EqDecision Affinity;
  Toleration_eq_dec :: EqDecision Toleration;
  EnvVarSource_eq_dec :: EqDecision EnvVarSource;
  StatefulSetStatus_eq_dec :: EqDecision StatefulSetStatus;
}.

(** A Go [map[string]V] and a Go slice; [None] is [nil]. *)
Abbreviation gomap V := (option (gmap string V)).
Abbreviation slice A := (option (list A)).

(** [m[k]] with the zero value for a missing key, and [range] over a possibly nil map or slice. *)
Definition map_get (m : gomap string) (k : string) : string := default "" (default ∅ m !! k).
Definition entries {V} (m : gomap V) : gmap string V := default ∅ m.
Definition elems {A} (l : slice A) : list A := default [] l.

(** [append] of one element. *)
Definition append1 {A} (l : slice A) (x : A) : slice A := Some (elems l ++ [x])%list.

(** A loop that appends [f x] for each [x] of a list. *)
Lemma foldl_append1 {A B} (f : A -> B) (l : list A) (acc : slice B) :
  foldl (fun acc x => append1 acc (f x)) acc l =
  match l with [] => acc | _ => Some (elems acc ++ map f l)%list end.
Proof.
  revert acc. induction l as [|x l IH]; intros acc; [done|]. cbn [foldl]. rewrite IH.
  unfold append1. cbn. destruct l; [done|]. by rewrite <- (assoc_L (++)%list).
Qed.

Section Types.
Context `{K8sTypes}.

(** ** Kubernetes types, restricted to the fields the program reads or writes *)

Record ObjectMeta := MkMeta {
  Name : string;
  Namespace : string;
  Labels : gomap string;
  Annotations : gomap string;
  DeletionTimestamp : option Time;
  OwnerReferences : list OwnerReference;
  Rest : MetaRest;
}.

Definition zero_meta : ObjectMeta := MkMeta "" "" None None None [] zero_rest.

(** [corev1.EnvVar] *)
Record EnvVar := MkEnvVar {
  env_Name : string;
  env_Value : string;
  env_ValueFrom : option EnvVarSource;
}.

(** [corev1.ResourceRequirements] *)
Record ResourceRequirements := MkResources {
  Limits : gomap Quantity;
  Requests : gomap Quantity;
}.

(** ** [AgentSpec], [AgentStatus], [Agent] *)

Record AgentSpec := MkAgentSpec {
  Image : string;
  Env : slice EnvVar;
  StorageClassName : string;
  StorageSize : Quantity;
  spec_Labels : gomap string;
  VolumePath : string;
  Resources : option ResourceRequirements;
  spec_Affinity : option Affinity;
  spec_Annotations : gomap string;
  NodeSelector : gomap string;
  Tolerations : slice Toleration;
}.

Record AgentStatus := MkAgentStatus { agent_StatefulSetStatus : StatefulSetStatus }.

Record Agent := MkAgent {
  agent_meta : ObjectMeta;
  agent_Spec : AgentSpec;
  agent_Status : AgentStatus;
}.

#[global] Instance EnvVar_eq_dec : EqDecision EnvVar.
Proof. solve_decision. Defined.
#[global] Instance ResourceRequirements_eq_dec : EqDecision ResourceRequirements.
Proof. solve_decision. Defined.
(** [reflect.DeepEqual] on two specs. *)
#[global] Instance AgentSpec_eq_dec : EqDecision AgentSpec.
Proof. solve_decision. Defined.

(** [GroupVersion.Group] *)
Definition GroupVersion_Group : string := "sourcecov.erda.cloud".

(** Field assignments. *)
Definition set_spec (a : Agent) (s : AgentSpec) : Agent :=
  MkAgent (agent_meta a) s (agent_Status a).
Definition set_agent_annotations (a : Agent) (m : gomap string) : Agent :=
  MkAgent (MkMeta (Name (agent_meta a)) (Namespace (agent_meta a)) (Labels (agent_meta a)) m
             (DeletionTimestamp (agent_meta a)) (OwnerReferences (agent_meta a))
             (Rest (agent_meta a)))
          (agent_Spec a) (agent_Status a).
Definition set_agent_status (a : Agent) (s : StatefulSetStatus) : Agent :=
  MkAgent (agent_meta a) (agent_Spec a) (MkAgentStatus s).
Definition set_spec_annotations (s : AgentSpec) (m : gomap string) : AgentSpec :=
  MkAgentSpec (Image s) (Env s) (StorageClassName s) (StorageSize s) (spec_Labels s)
    (VolumePath s) (Resources s) (spec_Affinity s) m (NodeSelector s) (Tolerations s).
Definition set_volume_path (s : AgentSpec) (p : string) : AgentSpec :=
  MkAgentSpec (Image s) (Env s) (StorageClassName s) (StorageSize s) (spec_Labels s)
    p (Resources s) (spec_Affinity s) (spec_Annotations s) (NodeSelector s) (Tolerations s).
Definition set_resources (s : AgentSpec) (r : option ResourceRequirements) : AgentSpec :=
  MkAgentSpec (Image s) (Env s) (StorageClassName s) (StorageSize s) (spec_Labels s)
    (VolumePath s) r (spec_Affinity s) (spec_Annotations s) (NodeSelector s) (Tolerations s).
End Types.

(** ** A concrete instance, for evaluating the definitions *)

(** Quantities are their text; the other opaque types are numbers or texts too. *)
Definition text_k8s : K8sTypes := {|
  Quantity := string; Affinity := string; Toleration := string; EnvVarSource := string;
  StatefulSetStatus := N; OwnerReference := string; Time := N; MetaRest := N;
  zero_status := 0%N; zero_rest := 0%N; MustParse := fun s => s;
|}.

(** The agent of [config/samples/sourcecov_v1alpha1_agent.yaml], in namespace [demo], with a
    second variable taken from a secret and the snapshot annotation. *)
Definition sample_agent : @Agent text_k8s :=
  @MkAgent text_k8s
    (@MkMeta text_k8s "agent-sample" "demo" (Some {["team" := "qa"]})
       (Some {["pvc.erda.io/snapshot" := "2"]}) None [] 7%N)
    (@MkAgentSpec text_k8s "nginx:stable"
       (Some [@MkEnvVar text_k8s "KEY" "value" None;
              @MkEnvVar text_k8s "CENTER_TOKEN" "" (Some "secret/center")])
       "alicloud-disk-efficiency" "20Gi" None "" None None None None None)
    (@MkAgentStatus text_k8s 0%N).
