(* ===== verification/Converter.v ===== *)
(** * [controllers/converter.go]: from an Agent to the objects the operator owns *)

From stdpp Require Import base tactics option list gmap strings.
From S2P Require Import Prelude AgentTypes.

Local Open Scope string_scope.

Definition CSISnapshotMaxHistory : string := "pvc.erda.io/snapshot".
Definition volumeName : string := "data".

Section Objects.
Context `{K8sTypes}.

(** ** The Kubernetes objects, restricted to the fields the program sets *)

Record ServiceAccount := MkServiceAccount { sa_meta : ObjectMeta }.

Record PolicyRule := MkPolicyRule {
  APIGroups : list string;
  rule_Resources : list string;
  Verbs : list string;
}.
Record Role := MkRole { role_meta : ObjectMeta; Rules : list PolicyRule }.

Record RoleRef := MkRoleRef { ref_APIGroup : string; ref_Kind : string; ref_Name : string }.
Record Subject := MkSubject { subject_Kind : string; subject_Name : string }.
Record RoleBinding := MkRoleBinding {
  rb_meta : ObjectMeta;
  rb_RoleRef : RoleRef;
  Subjects : list Subject;
}.

Record VolumeMount := MkVolumeMount { mount_Name : string; MountPath : string; ReadOnly : bool }.
Record Container := MkContainer {
  container_Name : string;
  container_Image : string;
  container_Env : slice EnvVar;
  container_Resources : ResourceRequirements;
  ImagePullPolicy : string;
  VolumeMounts : slice VolumeMount;
}.
Record PodSpec := MkPodSpec {
  Containers : list Container;
  ServiceAccountName : string;
  pod_Affinity : option Affinity;
  pod_Tolerations : slice Toleration;
  pod_NodeSelector : gomap string;
}.
Record PodTemplate := MkPodTemplate { template_meta : ObjectMeta; template_Spec : PodSpec }.
Record VolumeClaim := MkVolumeClaim {
  claim_meta : ObjectMeta;
  claim_StorageClassName : string;
  AccessModes : list string;
  claim_Requests : gmap string Quantity;
}.
Record StatefulSetSpec := MkStsSpec {
  Replicas : Z;
  MatchLabels : gmap string string;
  Template : PodTemplate;
  VolumeClaimTemplates : slice VolumeClaim;
}.
Record StatefulSet := MkSts {
  sts_meta : ObjectMeta;
  sts_Spec : StatefulSetSpec;
  sts_Status : StatefulSetStatus;
}.

Record AgentResources := MkAgentResources {
  res_StatefulSet : StatefulSet;
  res_ServiceAccount : ServiceAccount;
  res_RoleBinding : RoleBinding;
  res_Role : Role;
}.

(** ** Names and labels *)

Definition getNamePrefix (app : Agent) : string := "source-cov-" +:+ Name (agent_meta app).
Definition getNamespace (app : Agent) : string := Namespace (agent_meta app).
Definition getServiceAccountName (app : Agent) : string := getNamePrefix app +:+ "-sa".
Definition getRoleName (app : Agent) : string := getNamePrefix app +:+ "-role".
Definition getLables (app : Agent) : gmap string string :=
  {["agents." +:+ GroupVersion_Group := Name (agent_meta app)]}.

(** An [ObjectMeta] literal. *)
Definition meta_literal (name ns : string) (labels annotations : gomap string) : ObjectMeta :=
  MkMeta name ns labels annotations None [] zero_rest.

Section Convert.
(** The [SetOwnerRefFunc] argument: what it leaves in the owner references of an object
    with the given metadata. It changes nothing else of the object. *)
Variable ownerRefs : Agent -> ObjectMeta -> list OwnerReference.

Definition setOwnerRef (app : Agent) (m : ObjectMeta) : ObjectMeta :=
  MkMeta (Name m) (Namespace m) (Labels m) (Annotations m) (DeletionTimestamp m)
    (ownerRefs app m) (Rest m).

(** ** Service account, role, role binding *)

Definition convertServiceAccount (app : Agent) : ServiceAccount :=
  MkServiceAccount (setOwnerRef app
    (meta_literal (getServiceAccountName app) (getNamespace app) None None)).

Definition agent_rules : list PolicyRule :=
  [ MkPolicyRule ["apps"] ["deployments"] ["get"; "watch"; "list"];
    MkPolicyRule ["apps"] ["statefulsets"] ["get"; "watch"; "list"];
    MkPolicyRule [""] ["pods"] ["get"; "watch"; "list"];
    MkPolicyRule [""] ["pods/exec"] ["create"] ].

Definition convertRole (app : Agent) : Role :=
  MkRole (setOwnerRef app
            (meta_literal (getRoleName app) (getNamespace app) (Some (getLables app)) None))
         agent_rules.

Definition convertRoleBinding (app : Agent) : RoleBinding :=
  MkRoleBinding
    (setOwnerRef app (meta_literal (getNamePrefix app +:+ "-rb") (getNamespace app)
                        (Some (getLables app)) None))
    (MkRoleRef "rbac.authorization.k8s.io" "Role" (getRoleName app))
    [MkSubject "ServiceAccount" (getServiceAccountName app)].

(** ** Containers and stateful set *)

(** The computation works on the agent object, which [convertSts] edits; a nil
    [Resources] is dereferenced without a test. *)
Definition literal_var (env : EnvVar) : EnvVar := MkEnvVar (env_Name env) (env_Value env) None.

Definition newContainers : M Agent (list Container) :=
  app ← gets id;
  let envs := foldl (fun acc env => append1 acc (literal_var env))
                    None (elems (Env (agent_Spec app))) in
  let volumeMounts := append1 None
    (MkVolumeMount volumeName (VolumePath (agent_Spec app)) false) in
  match Resources (agent_Spec app) with
  | None => panic "invalid memory address or nil pointer dereference"
  | Some resources =>
      mret [MkContainer "sourcecov-agent" (Image (agent_Spec app)) envs resources
              "IfNotPresent" volumeMounts]
  end.

(** [for lk, lv := range m { labels[lk] = lv }] *)
Definition copy_entries (m : gomap string) (labels : gmap string string) : gmap string string :=
  entries m ∪ labels.

(** One of the two loops that look for the snapshot annotation: it is copied to
    [pvcAnnotations] and deleted from the map it came from. *)
Definition move_snapshot (m : gomap string) (pvcAnnotations : gmap string string)
  : gomap string * gmap string string :=
  match entries m !! CSISnapshotMaxHistory with
  | Some av => (delete CSISnapshotMaxHistory <$> m, <[CSISnapshotMaxHistory := av]> pvcAnnotations)
  | None => (m, pvcAnnotations)
  end.

(** The selector, the stateful set and the pod template hold the same label map, so the
    selector has the labels that are added to the map after the selector is built. *)
Definition convertSts : M Agent StatefulSet :=
  app ← gets id;
  let labels := getLables app in
  let svcAccountName := getNamePrefix app +:+ "-sa" in
  let labels := copy_entries (Labels (agent_meta app)) labels in
  let labels := copy_entries (spec_Labels (agent_Spec app)) labels in
  let (annotations, pvcAnnotations) := move_snapshot (Annotations (agent_meta app)) ∅ in
  _ ← modify (fun app => set_agent_annotations app annotations);
  let (spec_annotations, pvcAnnotations) :=
    move_snapshot (spec_Annotations (agent_Spec app)) pvcAnnotations in
  _ ← modify (fun app => set_spec app (set_spec_annotations (agent_Spec app) spec_annotations));
  app ← gets id;
  let spec := agent_Spec app in
  let vct := append1 None
    (MkVolumeClaim (meta_literal volumeName "" None None) (StorageClassName spec)
       ["ReadWriteOnce"] {["storage" := StorageSize spec]}) in
  containers ← newContainers;
  let sts_Spec := MkStsSpec 1 labels
    (MkPodTemplate (meta_literal "" "" (Some labels) (spec_Annotations spec))
       (MkPodSpec containers svcAccountName (spec_Affinity spec) (Tolerations spec)
          (NodeSelector spec))) vct in
  mret (MkSts (setOwnerRef app (meta_literal (Name (agent_meta app)) (getNamespace app)
                                 (Some labels) None)) sts_Spec zero_status).

Definition ConvertAgent : M Agent AgentResources :=
  sts ← convertSts;
  app ← gets id;
  mret (MkAgentResources sts (convertServiceAccount app) (convertRoleBinding app)
          (convertRole app)).
End Convert.

(** ** Defaults *)

Definition default_resources : ResourceRequirements :=
  let quantities := <["cpu" := MustParse "2"]> {["memory" := MustParse "4Gi"]} in
  MkResources (Some quantities) (Some quantities).

(** The result is a deep copy of the argument. *)
Definition FillDefaultValue (origin : Agent) : Agent :=
  let app := origin in
  let app := if bool_decide (VolumePath (agent_Spec app) = "")
             then set_spec app (set_volume_path (agent_Spec app) "/jacoco/work") else app in
  match Resources (agent_Spec app) with
  | None => set_spec app (set_resources (agent_Spec app) (Some default_resources))
  | Some _ => app
  end.
End Objects.

(** ** Lemmas *)

Section ConverterLemmas.
Context `{K8sTypes}.
Implicit Types (a : Agent) (m : gomap string).

Lemma move_snapshot_gone m p :
  entries (move_snapshot m p).1 = delete CSISnapshotMaxHistory (entries m).
Proof.
  unfold move_snapshot. destruct (entries m !! _) eqn:E; cbn [fst].
  - destruct m as [m|]; [done|]. unfold entries in *. cbn in E. by rewrite lookup_empty in E.
  - by rewrite delete_id.
Qed.

(** The agent after [convertSts]: the snapshot annotation is gone from both maps. *)
Definition without_snapshot a : Agent :=
  let a1 := set_agent_annotations a (move_snapshot (Annotations (agent_meta a)) ∅).1 in
  set_spec a1 (set_spec_annotations (agent_Spec a)
    (move_snapshot (spec_Annotations (agent_Spec a))
       (move_snapshot (Annotations (agent_meta a)) ∅).2).1).

(** The labels of the stateful set: the operator's own label, overridden by the agent's
    labels, overridden by the labels of its spec. *)
Definition sts_labels a : gmap string string :=
  entries (spec_Labels (agent_Spec a)) ∪ (entries (Labels (agent_meta a)) ∪ getLables a).

(** ** Running the conversion *)

Definition agent_containers a (r : ResourceRequirements) : list Container :=
  [MkContainer "sourcecov-agent" (Image (agent_Spec a))
     (match elems (Env (agent_Spec a)) with
      | [] => None
      | env => Some (map literal_var env)
      end) r "IfNotPresent"
     (Some [MkVolumeMount volumeName (VolumePath (agent_Spec a)) false])].

(** The specification of the stateful set of an agent with resources [r]. *)
Definition agent_sts_spec a (r : ResourceRequirements) : StatefulSetSpec :=
  MkStsSpec 1 (sts_labels a)
    (MkPodTemplate (meta_literal "" "" (Some (sts_labels a))
                      (spec_Annotations (agent_Spec (without_snapshot a))))
       (MkPodSpec (agent_containers a r) (getServiceAccountName a) (spec_Affinity (agent_Spec a))
          (Tolerations (agent_Spec a)) (NodeSelector (agent_Spec a))))
    (Some [MkVolumeClaim (meta_literal volumeName "" None None)
             (StorageClassName (agent_Spec a)) ["ReadWriteOnce"]
             {["storage" := StorageSize (agent_Spec a)]}]).

Lemma newContainers_run a :
  newContainers a =
  match Resources (agent_Spec a) with
  | None => (Panic "invalid memory address or nil pointer dereference", a)
  | Some r => (Done (agent_containers a r), a)
  end.
Proof.
  unfold newContainers, agent_containers. go_run. rewrite foldl_append1. cbn [id].
  destruct (Resources _); [|done]. by destruct (elems _).
Qed.

Lemma convertSts_run ownerRefs a :
  convertSts ownerRefs a =
  match Resources (agent_Spec a) with
  | None => (Panic "invalid memory address or nil pointer dereference", without_snapshot a)
  | Some r =>
      (Done (MkSts (setOwnerRef ownerRefs (without_snapshot a)
                      (meta_literal (Name (agent_meta a)) (Namespace (agent_meta a))
                         (Some (sts_labels a)) None))
               (agent_sts_spec a r) zero_status), without_snapshot a)
  end.
Proof.
  pose proof (newContainers_run (without_snapshot a)) as Hcs.
  destruct a as [[nm ns lb an dt ow rs] [im en sc sz sl vp re af sa nd tl] st].
  revert Hcs. unfold convertSts, without_snapshot, agent_sts_spec, setOwnerRef. cbn.
  intros Hcs. go_run. cbn. unfold without_snapshot. cbn.
  destruct (move_snapshot an ∅) as [an' pv] eqn:E1.
  cbn in *. go_run. cbn.
  destruct (move_snapshot sa pv) as [sa' pv'] eqn:E2. go_run. cbn in *.
  rewrite Hcs. by destruct re.
Qed.

(** The objects of an agent with resources [r]. *)
Definition agent_resources ownerRefs a (r : ResourceRequirements) : AgentResources :=
  let a' := without_snapshot a in
  MkAgentResources
    (MkSts (setOwnerRef ownerRefs a'
              (meta_literal (Name (agent_meta a)) (Namespace (agent_meta a))
                 (Some (sts_labels a)) None))
       (agent_sts_spec a r) zero_status)
    (convertServiceAccount ownerRefs a') (convertRoleBinding ownerRefs a')
    (convertRole ownerRefs a').

Lemma ConvertAgent_run ownerRefs a :
  ConvertAgent ownerRefs a =
  match Resources (agent_Spec a) with
  | None => (Panic "invalid memory address or nil pointer dereference", without_snapshot a)
  | Some r => (Done (agent_resources ownerRefs a r), without_snapshot a)
  end.
Proof.
  unfold ConvertAgent. rewrite M_bind_run, convertSts_run. by destruct (Resources _).
Qed.

Lemma without_snapshot_meta a :
  Name (agent_meta (without_snapshot a)) = Name (agent_meta a) /\
  Namespace (agent_meta (without_snapshot a)) = Namespace (agent_meta a).
Proof. done. Qed.

(** ** Properties of the generated objects *)

(** The four objects generated for an agent fit together: they live in the agent's
    namespace, the role binding grants the generated role to the generated service
    account, the pods run under that account, and the claim template is the volume that
    the container mounts. *)
Theorem ConvertAgent_wiring ownerRefs a a' res :
  ConvertAgent ownerRefs a = (Done res, a') ->
  let role := res_Role res in let rb := res_RoleBinding res in
  let sa := res_ServiceAccount res in let sts := res_StatefulSet res in
  let pod := template_Spec (Template (sts_Spec sts)) in
  Forall (fun om => Namespace om = Namespace (agent_meta a))
    [role_meta role; rb_meta rb; sa_meta sa; sts_meta sts] /\
  rb_RoleRef rb = MkRoleRef "rbac.authorization.k8s.io" "Role" (Name (role_meta role)) /\
  Subjects rb = [MkSubject "ServiceAccount" (Name (sa_meta sa))] /\
  ServiceAccountName pod = Name (sa_meta sa) /\
  Name (sts_meta sts) = Name (agent_meta a) /\
  map (fun v => Name (claim_meta v)) (elems (VolumeClaimTemplates (sts_Spec sts))) =
    mjoin (map (fun c => map mount_Name (elems (VolumeMounts c))) (Containers pod)).
Proof.
  rewrite ConvertAgent_run. destruct (Resources _) as [r|]; [|done]. intros [= <- <-].
  cbn zeta. split_and!; try done. by repeat constructor.
Qed.

(** The selector of the stateful set equals the labels of its pod template, so the
    pods match; the label map is the operator's own label overridden by the agent's
    labels and then by the labels of its spec, so that changing a label of the agent
    changes the selector. *)
Theorem convertSts_labels ownerRefs a a' sts :
  convertSts ownerRefs a = (Done sts, a') ->
  Labels (template_meta (Template (sts_Spec sts))) = Some (MatchLabels (sts_Spec sts)) /\
  Labels (sts_meta sts) = Some (MatchLabels (sts_Spec sts)) /\
  forall k, MatchLabels (sts_Spec sts) !! k =
    match entries (spec_Labels (agent_Spec a)) !! k with
    | Some v => Some v
    | None => match entries (Labels (agent_meta a)) !! k with
              | Some v => Some v
              | None => if decide (k = "agents.sourcecov.erda.cloud")
                        then Some (Name (agent_meta a)) else None
              end
    end.
Proof.
  rewrite convertSts_run. destruct (Resources _) as [r|]; [|done]. intros [= <- <-].
  split_and!; [done..|]. intros k. cbn. unfold sts_labels, getLables.
  change ("agents." +:+ GroupVersion_Group) with "agents.sourcecov.erda.cloud".
  rewrite !lookup_union, lookup_singleton.
  destruct (entries (spec_Labels _) !! k), (entries (Labels _) !! k);
    repeat case_decide; subst; done.
Qed.

(** The snapshot annotation of an agent is lost by the conversion: it is deleted from
    the agent and from its spec, and neither the pod template nor the volume claim, whose
    metadata has no annotations at all, carries it. *)
Theorem convertSts_drops_snapshot ownerRefs a a' sts :
  convertSts ownerRefs a = (Done sts, a') ->
  entries (Annotations (agent_meta a')) !! CSISnapshotMaxHistory = None /\
  entries (spec_Annotations (agent_Spec a')) !! CSISnapshotMaxHistory = None /\
  entries (Annotations (template_meta (Template (sts_Spec sts)))) !! CSISnapshotMaxHistory = None /\
  Forall (fun v => Annotations (claim_meta v) = None)
    (elems (VolumeClaimTemplates (sts_Spec sts))).
Proof.
  rewrite convertSts_run. destruct (Resources _) as [r|]; [|done]. intros [= <- <-].
  unfold agent_sts_spec, without_snapshot. cbn [agent_Spec agent_meta Annotations set_spec
    set_agent_annotations spec_Annotations set_spec_annotations template_meta Template
    sts_Spec meta_literal VolumeClaimTemplates elems default].
  rewrite !move_snapshot_gone, !lookup_delete_eq. split_and!; [done..|]. by repeat constructor.
Qed.

(** Every container of the agent gets the names and the literal values of the agent's
    variables, in order, and no variable keeps its [valueFrom] source. *)
Theorem newContainers_env a a' cs :
  newContainers a = (Done cs, a') ->
  a' = a /\
  Forall (fun c =>
    map env_Name (elems (container_Env c)) = map env_Name (elems (Env (agent_Spec a))) /\
    map env_Value (elems (container_Env c)) = map env_Value (elems (Env (agent_Spec a))) /\
    Forall (fun e => env_ValueFrom e = None) (elems (container_Env c))) cs.
Proof.
  rewrite newContainers_run. destruct (Resources _) as [r|]; [|done]. intros [= <- <-].
  split; [done|]. repeat constructor; cbn; destruct (elems (Env (agent_Spec a))) as [|e l];
    try done; cbn; f_equal; try (rewrite map_map; reflexivity).
  constructor; [done|]. by rewrite Forall_map, Forall_forall.
Qed.

(** After the defaults are filled in, the conversion never panics, and filling them in
    again changes nothing. *)
Theorem FillDefaultValue_total ownerRefs a :
  is_done (ConvertAgent ownerRefs (FillDefaultValue a)).1 = true /\
  FillDefaultValue (FillDefaultValue a) = FillDefaultValue a /\
  VolumePath (agent_Spec (FillDefaultValue a)) <> "".
Proof.
  rewrite ConvertAgent_run.
  destruct a as [m [im en sc sz sl vp re af sa nd tl] st]. unfold FillDefaultValue. cbn.
  case_bool_decide as Hv; cbn; destruct re; cbn; rewrite ?(bool_decide_false (vp = "")) by done;
    split_and!; try done.
Qed.
End ConverterLemmas.

(** ** Witnesses *)

Definition no_refs : @Agent text_k8s -> @ObjectMeta text_k8s -> list (@OwnerReference text_k8s) :=
  fun a _ => [Name (agent_meta a)].

Definition sample : @Agent text_k8s := FillDefaultValue (H := text_k8s) sample_agent.

Lemma ConvertAgent_wiring_witness :
  exists res, ConvertAgent no_refs sample = (Done res, without_snapshot sample) /\
    Subjects (res_RoleBinding res) = [MkSubject "ServiceAccount" "source-cov-agent-sample-sa"] /\
    Namespace (sts_meta (res_StatefulSet res)) = "demo".
Proof.
  eexists. split; [reflexivity|].
  destruct (ConvertAgent_wiring (H := text_k8s) no_refs sample (without_snapshot sample) _ eq_refl)
    as (Hns & _ & Hsub & _). split; [exact Hsub|]. by inversion_clear Hns as [|? ? _ Hl].
Defined.

Lemma convertSts_labels_witness :
  exists sts, (convertSts no_refs sample).1 = Done sts /\
    MatchLabels (sts_Spec sts) !! "team" = Some "qa".
Proof.
  destruct (convertSts no_refs sample) as [[sts| |] a'] eqn:E;
    [|rewrite convertSts_run in E; discriminate E..].
  exists sts. split; [reflexivity|].
  destruct (convertSts_labels (H := text_k8s) no_refs sample a' sts E) as (_ & _ & Hk).
  rewrite (Hk "team"). reflexivity.
Defined.

Lemma convertSts_drops_snapshot_witness :
  entries (Annotations (agent_meta sample)) !! CSISnapshotMaxHistory = Some "2" /\
  exists sts a', convertSts no_refs sample = (Done sts, a') /\
    entries (Annotations (agent_meta a')) !! CSISnapshotMaxHistory = None.
Proof.
  split; [reflexivity|].
  destruct (convertSts no_refs sample) as [[sts| |] a'] eqn:E;
    [|rewrite convertSts_run in E; discriminate E..].
  exists sts, a'. split; [reflexivity|].
  exact (proj1 (convertSts_drops_snapshot (H := text_k8s) no_refs sample a' sts E)).
Defined.

Lemma newContainers_env_witness :
  exists c, (newContainers sample).1 = Done [c] /\
    Forall (fun e => env_ValueFrom e = None) (elems (container_Env c)).
Proof.
  eexists. split; [reflexivity|].
  destruct (newContainers_env (H := text_k8s) sample sample _ eq_refl) as [_ Hc].
  inversion_clear Hc as [|? ? Hc' _]. exact (proj2 (proj2 Hc')).
Defined.
