(* ===== verification/DeepCopy.v ===== *)
(** * [api/v1alpha1/zz_generated.deepcopy.go] and what the operator uses it for

    The other files treat an agent as a value. In the program it is a struct whose maps,
    slices and pointers lead into memory, and [FillDefaultValue] edits a deep copy of it.
    Here memory is explicit: copying an object reads the same value from memory that did not
    exist before, so the value of the original does not depend on what happens to the copy,
    nor the other way round. *)

From stdpp Require Import base tactics option list gmap strings.
From S2P Require Import Prelude AgentTypes Converter.

Local Open Scope string_scope.

(** ** Memory *)

Abbreviation loc := positive.

(** The Kubernetes types as structs that may hold pointers, and what their pointers lead to.
    A [range] loop visits the entries of a map in some order. *)
Class K8sMemory := {
  raw_Quantity : Type;
  raw_EnvVar : Type;
  raw_Affinity : Type;
  raw_Toleration : Type;
  raw_ObjectMeta : Type;
  raw_ListMeta : Type;
  raw_StatefulSetStatus : Type;
  raw_cell : Type;
  zero_EnvVar : raw_EnvVar;
  zero_Affinity : raw_Affinity;
  zero_Toleration : raw_Toleration;
  zero_Quantity : raw_Quantity;
  zero_ObjectMeta : raw_ObjectMeta;
  zero_ListMeta : raw_ListMeta;
  zero_StatefulSetStatus : raw_StatefulSetStatus;
  ListMeta : Type;
  map_range : gmap string string -> list (string * string);
  map_range_perm g : map_range g ≡ₚ map_to_list g;
}.

Section Memory.
Context `{K8sMemory}.

(** [metav1.TypeMeta] *)
Record TypeMeta := MkTypeMeta { Kind : string; APIVersion : string }.

(** [corev1.ResourceRequirements]; a map, slice or pointer is a location, or nil. *)
Record raw_resources := RawResources { raw_Limits : option loc; raw_Requests : option loc }.

Record raw_spec := RawSpec {
  raw_Image : string;
  raw_Env : option loc;
  raw_StorageClassName : string;
  raw_StorageSize : raw_Quantity;
  raw_Labels : option loc;
  raw_VolumePath : string;
  raw_Resources : option loc;
  raw_spec_Affinity : option loc;
  raw_Annotations : option loc;
  raw_NodeSelector : option loc;
  raw_Tolerations : option loc;
}.
Record raw_status := RawStatus { raw_Status : raw_StatefulSetStatus }.
Record raw_agent := RawAgent {
  raw_TypeMeta : TypeMeta;
  raw_meta : raw_ObjectMeta;
  raw_Spec : raw_spec;
  raw_agent_Status : raw_status;
}.
Record AgentList := MkAgentList {
  list_TypeMeta : TypeMeta;
  list_meta : raw_ListMeta;
  Items : option loc;
}.
(** [EnvVar] of the package, which [AgentSpec] does not use. *)
Record api_EnvVar := ApiEnvVar { api_Name : string; api_Value : string }.

Inductive cell :=
| CStrings (m : gmap string string)
| CQuantities (m : gmap string raw_Quantity)
| CEnv (l : list raw_EnvVar)
| CTolerations (l : list raw_Toleration)
| CResources (r : raw_resources)
| CAffinity (a : raw_Affinity)
| CAgents (l : list raw_agent)
| CAgent (a : raw_agent)
| CAgentList (l : AgentList)
| CSpec (s : raw_spec)
| CStatus (s : raw_status)
| CEnvVar (e : api_EnvVar)
| COther (c : raw_cell).

Abbreviation memory := (gmap loc cell).

(** The types that are stored behind a pointer. *)
Class Stored (T : Type) := {
  to_cell : T -> cell;
  of_cell : cell -> option T;
  of_to x : of_cell (to_cell x) = Some x;
}.

#[export] Instance stored_strings : Stored (gmap string string) :=
  {| to_cell := CStrings; of_cell c := match c with CStrings m => Some m | _ => None end; of_to _ := eq_refl |}.
#[export] Instance stored_quantities : Stored (gmap string raw_Quantity) :=
  {| to_cell := CQuantities; of_cell c := match c with CQuantities m => Some m | _ => None end; of_to _ := eq_refl |}.
#[export] Instance stored_env : Stored (list raw_EnvVar) :=
  {| to_cell := CEnv; of_cell c := match c with CEnv l => Some l | _ => None end; of_to _ := eq_refl |}.
#[export] Instance stored_tolerations : Stored (list raw_Toleration) :=
  {| to_cell := CTolerations; of_cell c := match c with CTolerations l => Some l | _ => None end; of_to _ := eq_refl |}.
#[export] Instance stored_resources : Stored raw_resources :=
  {| to_cell := CResources; of_cell c := match c with CResources r => Some r | _ => None end; of_to _ := eq_refl |}.
#[export] Instance stored_affinity : Stored raw_Affinity :=
  {| to_cell := CAffinity; of_cell c := match c with CAffinity a => Some a | _ => None end; of_to _ := eq_refl |}.
#[export] Instance stored_agents : Stored (list raw_agent) :=
  {| to_cell := CAgents; of_cell c := match c with CAgents l => Some l | _ => None end; of_to _ := eq_refl |}.
#[export] Instance stored_agent : Stored raw_agent :=
  {| to_cell := CAgent; of_cell c := match c with CAgent a => Some a | _ => None end; of_to _ := eq_refl |}.
#[export] Instance stored_agent_list : Stored AgentList :=
  {| to_cell := CAgentList; of_cell c := match c with CAgentList l => Some l | _ => None end; of_to _ := eq_refl |}.
#[export] Instance stored_spec : Stored raw_spec :=
  {| to_cell := CSpec; of_cell c := match c with CSpec s => Some s | _ => None end; of_to _ := eq_refl |}.
#[export] Instance stored_status : Stored raw_status :=
  {| to_cell := CStatus; of_cell c := match c with CStatus s => Some s | _ => None end; of_to _ := eq_refl |}.
#[export] Instance stored_env_var : Stored api_EnvVar :=
  {| to_cell := CEnvVar; of_cell c := match c with CEnvVar e => Some e | _ => None end; of_to _ := eq_refl |}.

(** [new], and reading and writing through a pointer. *)
Definition alloc {T} `{!Stored T} (x : T) : M memory loc := fun m =>
  let l := fresh (dom m) in (Done l, <[l := to_cell x]> m).
Definition load {T} `{!Stored T} (l : loc) : M memory T := fun m =>
  match m !! l ≫= of_cell with
  | Some x => (Done x, m)
  | None => (Panic "invalid memory address or nil pointer dereference", m)
  end.
Definition store {T} `{!Stored T} (l : loc) (x : T) : M memory unit := fun m =>
  match m !! l with
  | Some _ => (Done tt, <[l := to_cell x]> m)
  | None => (Panic "invalid memory address or nil pointer dereference", m)
  end.

(** ** Copying

    [DeepCopyInto] of a struct: from [*in] to what is written to [*out]. *)
Class CopyOp (T : Type) := DeepCopyInto : T -> M memory T.

(** [if in.F != nil], with the copy of what it leads to. *)
Definition when_set (p : option loc) (copy : loc -> M memory loc) : M memory (option loc) :=
  match p with None => mret None | Some l => out ← copy l; mret (Some out) end.

(** [*out = make(map[string]string, len(in))] and the loop over the entries of [in]. *)
Definition copy_map (l : loc) : M memory loc :=
  g ← load l;
  out ← alloc (∅ : gmap string string);
  _ ← for_each (map_range g) (fun kv => o ← load out; store out (<[kv.1 := kv.2]> (o : gmap string string)));
  mret out.

(** [*out = make([]T, len(in))] and the loop over the indices. *)
Definition copy_slice {T} `{!CopyOp T, !Stored (list T)} (zero : T) (l : loc) : M memory loc :=
  xs ← load l;
  out ← alloc (replicate (length xs) zero);
  _ ← for_each (seq 0 (length xs)) (fun i =>
        match xs !! i with
        | None => panic "index out of range"
        | Some x => y ← DeepCopyInto x; o ← load out; store out (<[i := y]> (o : list T))
        end);
  mret out.

(** [*out = new(T); ( *in).DeepCopyInto( *out)] *)
Definition copy_pointer {T} `{!CopyOp T, !Stored T} (zero : T) (l : loc) : M memory loc :=
  out ← alloc zero;
  x ← load l;
  y ← DeepCopyInto x;
  _ ← store out y;
  mret out.

(** The methods [DeepCopy]: a nil receiver gives nil. *)
Definition DeepCopy {T} `{!CopyOp T, !Stored T} (zero : T) (in_ : option loc) : M memory (option loc) :=
  when_set in_ (copy_pointer zero).

(** *** The generated methods *)

Context `{!CopyOp raw_Quantity, !CopyOp raw_EnvVar, !CopyOp raw_Affinity, !CopyOp raw_Toleration,
  !CopyOp raw_ObjectMeta, !CopyOp raw_ListMeta, !CopyOp raw_StatefulSetStatus, !CopyOp raw_resources}.

#[export] Instance api_EnvVar_DeepCopyInto : CopyOp api_EnvVar := fun in_ => mret in_.

(** [*out = *in], and then every field that refers to memory is replaced by a copy. *)
#[export] Instance AgentSpec_DeepCopyInto : CopyOp raw_spec := fun in_ =>
  env ← when_set (raw_Env in_) (copy_slice zero_EnvVar);
  size ← DeepCopyInto (raw_StorageSize in_);
  labels ← when_set (raw_Labels in_) copy_map;
  resources ← when_set (raw_Resources in_) (copy_pointer (RawResources None None));
  affinity ← when_set (raw_spec_Affinity in_) (copy_pointer zero_Affinity);
  annotations ← when_set (raw_Annotations in_) copy_map;
  selector ← when_set (raw_NodeSelector in_) copy_map;
  tolerations ← when_set (raw_Tolerations in_) (copy_slice zero_Toleration);
  mret (RawSpec (raw_Image in_) env (raw_StorageClassName in_) size labels (raw_VolumePath in_)
          resources affinity annotations selector tolerations).

#[export] Instance AgentStatus_DeepCopyInto : CopyOp raw_status := fun in_ =>
  status ← DeepCopyInto (raw_Status in_);
  mret (RawStatus status).

#[export] Instance Agent_DeepCopyInto : CopyOp raw_agent := fun in_ =>
  meta ← DeepCopyInto (raw_meta in_);
  spec ← DeepCopyInto (raw_Spec in_);
  status ← DeepCopyInto (raw_agent_Status in_);
  mret (RawAgent (raw_TypeMeta in_) meta spec status).

Definition zero_spec : raw_spec :=
  RawSpec "" None "" zero_Quantity None "" None None None None None.
Definition zero_raw_status : raw_status := RawStatus zero_StatefulSetStatus.
Definition zero_agent : raw_agent :=
  RawAgent (MkTypeMeta "" "") zero_ObjectMeta zero_spec zero_raw_status.
Definition zero_list : AgentList := MkAgentList (MkTypeMeta "" "") zero_ListMeta None.

#[export] Instance AgentList_DeepCopyInto : CopyOp AgentList := fun in_ =>
  meta ← DeepCopyInto (list_meta in_);
  items ← when_set (Items in_) (copy_slice zero_agent);
  mret (MkAgentList (list_TypeMeta in_) meta items).

Definition Agent_DeepCopy : option loc -> M memory (option loc) := DeepCopy zero_agent.
Definition AgentList_DeepCopy : option loc -> M memory (option loc) := DeepCopy zero_list.
Definition AgentSpec_DeepCopy : option loc -> M memory (option loc) := DeepCopy zero_spec.
Definition AgentStatus_DeepCopy : option loc -> M memory (option loc) := DeepCopy zero_raw_status.
Definition EnvVar_DeepCopy : option loc -> M memory (option loc) := DeepCopy (ApiEnvVar "" "").

(** A value of the interface [runtime.Object]; the nil interface is [None]. *)
Inductive runtime_object := AgentObject (p : loc) | AgentListObject (p : loc).
Definition Agent_DeepCopyObject (in_ : option loc) : M memory (option runtime_object) :=
  c ← Agent_DeepCopy in_; mret (AgentObject <$> c).
Definition AgentList_DeepCopyObject (in_ : option loc) : M memory (option runtime_object) :=
  c ← AgentList_DeepCopy in_; mret (AgentListObject <$> c).

(** ** [FillDefaultValue] on the copy *)

(** [resource.MustParse] makes a quantity. *)
Variable raw_MustParse : string -> M memory raw_Quantity.

Definition with_VolumePath (p : string) (a : raw_agent) : raw_agent :=
  let s := raw_Spec a in
  RawAgent (raw_TypeMeta a) (raw_meta a)
    (RawSpec (raw_Image s) (raw_Env s) (raw_StorageClassName s) (raw_StorageSize s) (raw_Labels s) p
       (raw_Resources s) (raw_spec_Affinity s) (raw_Annotations s) (raw_NodeSelector s) (raw_Tolerations s))
    (raw_agent_Status a).
Definition with_Resources (r : option loc) (a : raw_agent) : raw_agent :=
  let s := raw_Spec a in
  RawAgent (raw_TypeMeta a) (raw_meta a)
    (RawSpec (raw_Image s) (raw_Env s) (raw_StorageClassName s) (raw_StorageSize s) (raw_Labels s)
       (raw_VolumePath s) r (raw_spec_Affinity s) (raw_Annotations s) (raw_NodeSelector s) (raw_Tolerations s))
    (raw_agent_Status a).

(** [corev1.ResourceList{"cpu": ..., "memory": ...}] *)
Definition default_list : M memory loc :=
  cpu ← raw_MustParse "2";
  mem ← raw_MustParse "4Gi";
  alloc (<["cpu" := cpu]> {["memory" := mem]} : gmap string raw_Quantity).

Definition FillDefaultValue_at (origin : option loc) : M memory (option loc) :=
  app ← Agent_DeepCopy origin;
  match app with
  | None => panic "invalid memory address or nil pointer dereference"
  | Some p =>
      a ← load p;
      _ ← (if bool_decide (raw_VolumePath (raw_Spec a) = "")
           then store p (with_VolumePath "/jacoco/work" a) else mret tt);
      a ← load p;
      _ ← match raw_Resources (raw_Spec a) with
          | None =>
              limits ← default_list;
              requests ← default_list;
              r ← alloc (RawResources (Some limits) (Some requests));
              store p (with_Resources (Some r) a)
          | Some _ => mret tt
          end;
      mret (Some p)
  end.
End Memory.

(** ** What computations on memory build *)

Section Builds.
Context `{K8sMemory}.
Abbreviation memory := (gmap loc cell).
Implicit Types (m s : memory) (l : loc).

(** [p] returns, has changed nothing of [m], and what it has added is in [R]. *)
Definition makes {A} m (p : M memory A) (R : memory -> A -> Prop) : Prop :=
  exists a new, p m = (Done a, m ∪ new) /\ m ##ₘ new /\ R new a.

(** The same in the middle of a computation that has added [s] so far. *)
Definition builds {A} m s (p : M memory A) (Q : A -> memory -> Prop) : Prop :=
  exists a s', p (m ∪ s) = (Done a, m ∪ s') /\ m ##ₘ s' /\ Q a s'.

(** A relation on memory that stays true when memory grows. *)
Definition grows {A} (R : memory -> A -> Prop) : Prop := forall m m' a, m ⊆ m' -> R m a -> R m' a.

Lemma makes_builds {A} m (p : M memory A) R : builds m ∅ p (fun a s => R s a) -> makes m p R.
Proof. intros (a & s & Hp & Hd & HR). rewrite (right_id_L ∅ (∪)) in Hp. by exists a, s. Qed.

Lemma builds_ret {A} m s (a : A) Q : m ##ₘ s -> Q a s -> builds m s (mret a) Q.
Proof. by exists a, s. Qed.

Lemma builds_bind {A B} m s (p : M memory A) (k : A -> M memory B) Q :
  builds m s p (fun a s' => m ##ₘ s' -> builds m s' (k a) Q) -> builds m s (p ≫= k) Q.
Proof.
  intros (a & s1 & Hp & Hd & Hk). destruct (Hk Hd) as (b & s2 & Hb & Hd2 & HQ).
  exists b, s2. by rewrite (M_bind_done _ _ _ _ _ Hp).
Qed.

(** A computation of its own, run in the middle of another one. *)
Lemma builds_apart {A} m s (p : M memory A) R Q :
  m ##ₘ s -> makes (m ∪ s) p R -> (forall a new, m ##ₘ new -> s ##ₘ new -> R new a -> Q a (s ∪ new)) -> builds m s p Q.
Proof.
  intros Hd (a & new & Hp & Hn & Ha) HQ. apply map_disjoint_union_l in Hn as [Hn1 Hn2].
  exists a, (s ∪ new). rewrite (assoc_L (∪)). split_and!; [done|by apply map_disjoint_union_r|by apply HQ].
Qed.
Lemma builds_makes {A} m s (p : M memory A) R Q :
  m ##ₘ s -> grows R -> makes (m ∪ s) p R -> (forall a s', s ⊆ s' -> R s' a -> Q a s') -> builds m s p Q.
Proof.
  intros Hd HR Hp HQ. eapply builds_apart; [done..|]. intros a new _ Hn Ha.
  apply HQ; [apply map_union_subseteq_l|]. eapply HR; [|exact Ha]. by apply map_union_subseteq_r.
Qed.

Lemma builds_alloc {T} `{!Stored T} m s (x : T) Q :
  m ##ₘ s -> (forall l, m !! l = None -> s !! l = None -> Q l (<[l := to_cell x]> s)) -> builds m s (alloc x) Q.
Proof.
  intros Hd HQ. set (l := fresh (dom (m ∪ s))).
  assert (Hl : m !! l = None /\ s !! l = None).
  { apply lookup_union_None, not_elem_of_dom, is_fresh. }
  destruct Hl as [Hm Hs]. exists l, (<[l := to_cell x]> s). split_and!; [|by apply map_disjoint_insert_r|by apply HQ].
  unfold alloc. fold l. by rewrite insert_union_r.
Qed.

Lemma builds_load {T} `{!Stored T} m s l (x : T) Q :
  m ##ₘ s -> m !! l = Some (to_cell x) \/ s !! l = Some (to_cell x) -> Q x s -> builds m s (load l) Q.
Proof.
  intros Hd Hl HQ. exists x, s. split_and!; [|done..]. unfold load.
  assert ((m ∪ s) !! l = Some (to_cell x)) as ->.
  { destruct Hl; [by apply lookup_union_Some_l|by apply lookup_union_Some_r]. }
  cbn. by rewrite of_to.
Qed.

Lemma builds_store {T} `{!Stored T} m s l c (x : T) Q :
  m ##ₘ s -> s !! l = Some c -> Q tt (<[l := to_cell x]> s) -> builds m s (store l x) Q.
Proof.
  intros Hd Hl HQ. assert (Hm : m !! l = None) by (by eapply map_disjoint_Some_l).
  exists tt, (<[l := to_cell x]> s). split_and!; [|by apply map_disjoint_insert_r|done]. unfold store.
  rewrite (lookup_union_Some_r _ _ _ _ Hd Hl). by rewrite insert_union_r.
Qed.

(** A loop keeps an invariant of what has been added. *)
Lemma builds_for_each {A} m (I : list A -> memory -> Prop) (todo : list A) (body : A -> M memory unit) s Q :
  m ##ₘ s -> I todo s ->
  (forall x todo s, m ##ₘ s -> I (x :: todo) s -> builds m s (body x) (fun _ s' => I todo s')) ->
  (forall s', I [] s' -> Q tt s') -> builds m s (for_each todo body) Q.
Proof.
  intros Hd HI Hbody HQ. revert s Hd HI. induction todo as [|x todo IH]; intros s Hd HI.
  { apply builds_ret; [done|]. by apply HQ. }
  cbn [for_each]. apply builds_bind. destruct (Hbody x todo s Hd HI) as ([] & s1 & Hp & Hd1 & HI1).
  exists tt, s1. split_and!; [done..|]. intros _. by apply IH.
Qed.
End Builds.

(** ** Values in memory

    [reads m x v]: the struct [x], with what its pointers lead to in memory [m], is the value
    [v]. *)
Class Reads `{K8sMemory} (T V : Type) := reads : gmap loc cell -> T -> V -> Prop.

(** What a type promises: its values do not change when memory grows, and [DeepCopyInto] of a
    struct makes one with the same value out of memory that was not there before. *)
Class DeepCopier `{K8sMemory} (T V : Type) `{!Reads T V, !CopyOp T} : Prop := {
  reads_grows (m m' : gmap loc cell) (x : T) (v : V) : m ⊆ m' -> reads m x v -> reads m' x v;
  copy_makes (m : gmap loc cell) (x : T) (v : V) :
    reads m x v -> makes m (DeepCopyInto x) (fun new y => reads new y v);
}.

Section Values.
Context `{K8sMemory}.
Abbreviation memory := (gmap loc cell).
Implicit Types (m s : memory) (l : loc).

(** What a map, a slice of [T] and a pointer to [T] are in memory. *)
Definition reads_map m (p : option loc) (v : gomap string) : Prop :=
  match p, v with
  | None, None => True
  | Some l, Some g => m !! l = Some (to_cell g)
  | _, _ => False
  end.
Definition reads_slice {T V} `{!Stored (list T), !Reads T V} m (p : option loc) (v : slice V) : Prop :=
  match p, v with
  | None, None => True
  | Some l, Some vs => exists xs, m !! l = Some (to_cell xs) /\ Forall2 (reads m) xs vs
  | _, _ => False
  end.
Definition reads_pointer {T V} `{!Stored T, !Reads T V} m (p : option loc) (v : option V) : Prop :=
  match p, v with
  | None, None => True
  | Some l, Some v => exists x, m !! l = Some (to_cell x) /\ reads m x v
  | _, _ => False
  end.

Lemma reads_map_grows m m' p v : m ⊆ m' -> reads_map m p v -> reads_map m' p v.
Proof. intros Hs. destruct p, v; [|done..]. cbn. intros Hl. by eapply lookup_weaken. Qed.

Section OneType.
Context {T V : Type} `{!Reads T V, !CopyOp T, !DeepCopier T V}.

Lemma reads_slice_grows `{!Stored (list T)} m m' p (v : slice V) :
  m ⊆ m' -> reads_slice (T := T) m p v -> reads_slice (T := T) m' p v.
Proof.
  intros Hs. destruct p, v; [|done..]. cbn. intros (xs & Hl & Hxs). exists xs.
  split; [by eapply lookup_weaken|]. eapply Forall2_impl; [exact Hxs|]. intros x v. by apply reads_grows.
Qed.
Lemma reads_pointer_grows `{!Stored T} m m' p (v : option V) :
  m ⊆ m' -> reads_pointer (T := T) m p v -> reads_pointer (T := T) m' p v.
Proof.
  intros Hs. destruct p, v; [|done..]. cbn. intros (x & Hl & Hx). exists x.
  split; [by eapply lookup_weaken|]. by eapply reads_grows.
Qed.
End OneType.

(** *** Copying maps, slices and pointers *)

Lemma when_set_makes {V} m p (copy : loc -> M memory loc) (v : option V) (R : memory -> option loc -> option V -> Prop) :
  (forall m, R m None None) -> (p = None <-> v = None) ->
  (forall l, p = Some l -> makes m (copy l) (fun new o => R new (Some o) v)) ->
  makes m (when_set p copy) (fun new o => R new o v).
Proof.
  intros Hnil Hiff Hcopy. destruct p as [l|]; cbn.
  - destruct (Hcopy l eq_refl) as (o & new & Hp & Hd & Ho). exists (Some o), new.
    by rewrite (M_bind_done _ _ _ _ _ Hp).
  - exists None, ∅. rewrite (right_id_L ∅ (∪)). split_and!; [done|apply map_disjoint_empty_r|].
    rewrite (proj1 Hiff eq_refl). apply Hnil.
Qed.

Lemma range_NoDup g : NoDup (map_range g).*1.
Proof. rewrite map_range_perm. apply NoDup_fst_map_to_list. Qed.
Lemma range_all g : list_to_map (map_range g) = g.
Proof.
  rewrite <- (list_to_map_to_list g) at 2. apply list_to_map_proper; [apply range_NoDup|apply map_range_perm].
Qed.

Lemma copy_map_makes m p v :
  reads_map m p v -> makes m (when_set p copy_map) (fun new o => reads_map new o v).
Proof.
  intros Hr. apply when_set_makes; [done|by destruct p, v|]. intros l ->. destruct v as [g|]; [|done]. cbn in Hr.
  apply makes_builds. unfold copy_map. apply builds_bind.
  eapply builds_load; [apply map_disjoint_empty_r|by left|]. intros Hd.
  apply builds_bind, builds_alloc; [done|]. intros o Ho _ Hd1. apply builds_bind.
  apply (builds_for_each m (fun todo s => exists done : gmap string string,
    s = {[o := to_cell done]} /\ done ##ₘ list_to_map todo /\ done ∪ list_to_map todo = g /\ NoDup todo.*1)).
  - done.
  - exists ∅. rewrite (left_id_L ∅ (∪)), range_all. split_and!; [done|apply map_disjoint_empty_l|done|apply range_NoDup].
  - intros [k x] todo s Hds (d & -> & Hdd & Hg & Hnd). cbn in Hnd, Hdd, Hg. apply NoDup_cons in Hnd as [Hk Hnd].
    apply builds_bind. eapply builds_load; [done|right; apply lookup_singleton_eq|]. intros _.
    eapply builds_store; [done|apply lookup_singleton_eq|]. cbn. exists (<[k := x]> d).
    rewrite insert_singleton_eq. apply map_disjoint_insert_r in Hdd as [Hdk Hdd].
    apply not_elem_of_list_to_map_1 in Hk. split_and!; [done| | |done].
    + by apply map_disjoint_insert_l.
    + rewrite <- insert_union_l, insert_union_r; [done|]. done.
  - intros s' (d & -> & _ & Hg & _). cbn in Hg. rewrite (right_id_L ∅ (∪)) in Hg. subst d.
    intros Hd2. apply builds_ret; [done|]. cbn. apply lookup_singleton_eq.
Qed.

Section CopyOne.
Context {T V : Type} `{!Reads T V, !CopyOp T, !DeepCopier T V}.

(** A new struct at [o] with the value [v], which nothing it refers to leads back to. *)
Definition owns `{!Stored T} s o (v : V) : Prop :=
  exists y rest, s = <[o := to_cell y]> rest /\ rest !! o = None /\ reads rest y v.

Lemma owns_reads `{!Stored T} s o (v : V) : owns s o v -> reads_pointer (T := T) s (Some o) (Some v).
Proof.
  intros (y & rest & -> & Ho & Hr). exists y. split; [apply lookup_insert_eq|].
  eapply reads_grows; [|exact Hr]. by apply insert_subseteq.
Qed.

Lemma copy_pointer_owns `{!Stored T} zero m l x (v : V) :
  m !! l = Some (to_cell x) -> reads m x v -> makes m (copy_pointer zero l) (fun new o => owns new o v).
Proof.
  intros Hl Hx. apply makes_builds. unfold copy_pointer. apply builds_bind, builds_alloc; [apply map_disjoint_empty_r|].
  intros o Ho _ Hd. rewrite insert_empty in *. apply builds_bind.
  eapply builds_load; [done|by left|]. intros _. apply builds_bind.
  eapply (builds_apart m {[o := to_cell zero]}); [done|eapply copy_makes, reads_grows; [|exact Hx]; apply map_union_subseteq_l|].
  cbv beta. intros y new Hmn Hon Hr Hd2.
  apply builds_bind. eapply builds_store; [done|apply lookup_union_Some_l, lookup_singleton_eq|]. intros Hd3.
  apply builds_ret; [done|]. exists y, new. rewrite insert_union_l, insert_singleton_eq, insert_union_singleton_l.
  apply map_disjoint_singleton_l in Hon. by split_and!.
Qed.

Lemma copy_pointer_makes `{!Stored T} zero m p (v : option V) :
  reads_pointer (T := T) m p v ->
  makes m (when_set p (copy_pointer zero)) (fun new o => reads_pointer (T := T) new o v).
Proof.
  intros Hr. apply when_set_makes; [done|by destruct p, v|]. intros l ->. destruct v as [v|]; [|done].
  destruct Hr as (x & Hl & Hx). destruct (copy_pointer_owns zero m l x v Hl Hx) as (o & new & Hp & Hd & Ho).
  exists o, new. split_and!; [done..|by apply owns_reads].
Qed.

(** The copy of the first elements, and the rest of the new slice. *)
Definition copied `{!Stored (list T)} (zero : T) n o (vs : list V) (todo : list nat) s : Prop :=
  exists ys t, s = <[o := to_cell (ys ++ replicate (n - length ys) zero)%list]> t /\ t !! o = None /\
    length ys <= n /\ todo = seq (length ys) (n - length ys) /\ Forall2 (reads t) ys (take (length ys) vs).

Lemma copied_step `{!Stored (list T)} zero m l o xs (vs : list V) i todo s :
  m !! l = Some (to_cell xs) -> Forall2 (reads m) xs vs -> m !! o = None -> m ##ₘ s ->
  copied zero (length xs) o vs (i :: todo) s ->
  builds m s (match xs !! i with
              | None => panic "index out of range"
              | Some x => y ← DeepCopyInto x; o' ← load o; store o (<[i := y]> (o' : list T))
              end) (fun _ s' => copied zero (length xs) o vs todo s').
Proof.
  intros Hl Hxs Ho Hd (ys & t & -> & Ht & Hlen & Htodo & Hys).
  destruct (length xs - length ys) as [|k] eqn:Hk; [done|]. injection Htodo as -> ->.
  destruct (lookup_lt_is_Some_2 xs (length ys)) as [x Hx]; [lia|]. rewrite Hx.
  destruct (Forall2_lookup_l _ _ _ _ _ Hxs Hx) as (v & Hv & Hxv).
  set (cur := (ys ++ replicate (S k) zero)%list). apply builds_bind.
  eapply (builds_apart m (<[o := to_cell cur]> t)); [done|eapply copy_makes, reads_grows; [|exact Hxv]; apply map_union_subseteq_l|].
  cbv beta. intros y new Hmn [Hno Htn]%map_disjoint_insert_l Hr. rewrite <- insert_union_l. intros Hd2.
  apply builds_bind. eapply builds_load; [done|right; apply lookup_insert_eq|]. intros _.
  eapply builds_store; [done|apply lookup_insert_eq|]. rewrite insert_insert_eq.
  exists (ys ++ [y])%list, (t ∪ new). rewrite length_app. cbn [length].
  assert (length vs = length xs) by (symmetry; by eapply Forall2_length).
  split_and!; [| |lia| |].
  - f_equal. f_equal. unfold cur. replace (length xs - (length ys + 1)) with k by lia.
    rewrite insert_app_r_alt, Nat.sub_diag by lia. cbn. by rewrite <- (assoc_L (++)%list).
  - by apply lookup_union_None.
  - f_equal; lia.
  - rewrite <- take_take_drop. apply Forall2_app.
    + eapply Forall2_impl; [exact Hys|]. intros z u. apply reads_grows, map_union_subseteq_l.
    + rewrite (drop_S _ _ _ Hv). cbn. rewrite take_0. constructor; [|constructor]. eapply reads_grows; [|exact Hr].
      by apply map_union_subseteq_r.
Qed.

Lemma copy_slice_makes `{!Stored (list T)} zero m p (v : slice V) :
  reads_slice (T := T) m p v ->
  makes m (when_set p (copy_slice zero)) (fun new o => reads_slice (T := T) new o v).
Proof.
  intros Hr. apply when_set_makes; [done|by destruct p, v|]. intros l ->. destruct v as [vs|]; [|done].
  destruct Hr as (xs & Hl & Hxs). assert (Hlen : length vs = length xs) by (symmetry; by eapply Forall2_length).
  apply makes_builds. unfold copy_slice. apply builds_bind.
  eapply builds_load; [apply map_disjoint_empty_r|by left|]. intros Hd.
  apply builds_bind, builds_alloc; [done|]. intros o Ho _ Hd1. apply builds_bind.
  apply (builds_for_each m (copied zero (length xs) o vs)).
  - done.
  - exists [], ∅. cbn. rewrite Nat.sub_0_r. split_and!; [done..|lia|done|constructor].
  - intros i todo s. by apply (copied_step zero m l).
  - intros s (ys & t & -> & Ht & Hn & Htodo & Hys) Hd2. apply builds_ret; [done|].
    assert (length ys = length xs) as Hsame.
    { apply (f_equal length) in Htodo. rewrite length_seq in Htodo. cbn in Htodo. lia. }
    exists ys. rewrite lookup_insert_eq, Hsame, Nat.sub_diag. cbn. rewrite app_nil_r. split; [done|].
    rewrite Hsame, take_ge in Hys by lia. eapply Forall2_impl; [exact Hys|]. intros y u. apply reads_grows.
    by apply insert_subseteq.
Qed.
End CopyOne.
End Values.

(** ** The copies of the package *)

(** A map of quantities, and [ResourceRequirements], in memory. *)
Definition reads_quantities `{K8sMemory, K8sTypes} `{!Reads raw_Quantity Quantity} (m : gmap loc cell) (p : option loc)
    (v : gomap Quantity) : Prop :=
  match p, v with
  | None, None => True
  | Some l, Some g => exists q : gmap string raw_Quantity, m !! l = Some (to_cell q) /\ map_Forall2 (fun _ => reads m) q g
  | _, _ => False
  end.
#[export] Instance reads_resources `{K8sMemory, K8sTypes} `{!Reads raw_Quantity Quantity}
  : Reads raw_resources ResourceRequirements := fun m x v =>
  reads_quantities m (raw_Limits x) (Limits v) /\ reads_quantities m (raw_Requests x) (Requests v).

(** What the Kubernetes packages promise of their own types. *)
Class K8sCopies `{K8sMemory, K8sTypes} := {
  Quantity_reads :: Reads raw_Quantity Quantity;
  Quantity_copy :: CopyOp raw_Quantity;
  Quantity_copier :: DeepCopier raw_Quantity Quantity;
  EnvVar_reads :: Reads raw_EnvVar EnvVar;
  EnvVar_copy :: CopyOp raw_EnvVar;
  EnvVar_copier :: DeepCopier raw_EnvVar EnvVar;
  Affinity_reads :: Reads raw_Affinity Affinity;
  Affinity_copy :: CopyOp raw_Affinity;
  Affinity_copier :: DeepCopier raw_Affinity Affinity;
  Toleration_reads :: Reads raw_Toleration Toleration;
  Toleration_copy :: CopyOp raw_Toleration;
  Toleration_copier :: DeepCopier raw_Toleration Toleration;
  ObjectMeta_reads :: Reads raw_ObjectMeta ObjectMeta;
  ObjectMeta_copy :: CopyOp raw_ObjectMeta;
  ObjectMeta_copier :: DeepCopier raw_ObjectMeta ObjectMeta;
  ListMeta_reads :: Reads raw_ListMeta ListMeta;
  ListMeta_copy :: CopyOp raw_ListMeta;
  ListMeta_copier :: DeepCopier raw_ListMeta ListMeta;
  StatefulSetStatus_reads :: Reads raw_StatefulSetStatus StatefulSetStatus;
  StatefulSetStatus_copy :: CopyOp raw_StatefulSetStatus;
  StatefulSetStatus_copier :: DeepCopier raw_StatefulSetStatus StatefulSetStatus;
  resources_copy :: CopyOp raw_resources;
  resources_copier :: DeepCopier raw_resources ResourceRequirements;
}.

Section Package.
Context `{K8sCopies}.
Abbreviation memory := (gmap loc cell).
Implicit Types (m s : memory) (l : loc).

#[export] Instance reads_api_EnvVar : Reads api_EnvVar api_EnvVar := fun _ x v => x = v.

Record spec_reads m (x : raw_spec) (v : AgentSpec) : Prop := {
  reads_Image : raw_Image x = Image v;
  reads_Env : reads_slice (T := raw_EnvVar) m (raw_Env x) (Env v);
  reads_StorageClassName : raw_StorageClassName x = StorageClassName v;
  reads_StorageSize : reads m (raw_StorageSize x) (StorageSize v);
  reads_Labels : reads_map m (raw_Labels x) (spec_Labels v);
  reads_VolumePath : raw_VolumePath x = VolumePath v;
  reads_Resources : reads_pointer (T := raw_resources) m (raw_Resources x) (Resources v);
  reads_Affinity : reads_pointer (T := raw_Affinity) m (raw_spec_Affinity x) (spec_Affinity v);
  reads_Annotations : reads_map m (raw_Annotations x) (spec_Annotations v);
  reads_NodeSelector : reads_map m (raw_NodeSelector x) (NodeSelector v);
  reads_Tolerations : reads_slice (T := raw_Toleration) m (raw_Tolerations x) (Tolerations v);
}.
#[export] Instance reads_spec : Reads raw_spec AgentSpec := spec_reads.
#[export] Instance reads_status : Reads raw_status AgentStatus := fun m x v =>
  reads m (raw_Status x) (agent_StatefulSetStatus v).
#[export] Instance reads_agent : Reads raw_agent (TypeMeta * Agent) := fun m x v =>
  raw_TypeMeta x = v.1 /\ reads m (raw_meta x) (agent_meta v.2) /\ reads m (raw_Spec x) (agent_Spec v.2) /\
  reads m (raw_agent_Status x) (agent_Status v.2).
#[export] Instance reads_list : Reads AgentList (TypeMeta * ListMeta * slice (TypeMeta * Agent)) := fun m x v =>
  list_TypeMeta x = v.1.1 /\ reads m (list_meta x) v.1.2 /\ reads_slice (T := raw_agent) m (Items x) v.2.

(** A part of a struct is copied, and what was read before can still be read. *)
Lemma builds_copy {A} m s (p : M memory A) R Q :
  m ##ₘ s -> grows R -> (m ⊆ m ∪ s -> makes (m ∪ s) p R) -> (forall a s', s ⊆ s' -> R s' a -> Q a s') -> builds m s p Q.
Proof. intros Hd HR Hp. apply builds_makes; [done..|]. apply Hp, map_union_subseteq_l. Qed.

(** The laws of the parts of a struct: how they are copied, and that they stay readable. *)
Lemma map_law m m' p v : m ⊆ m' -> reads_map m p v -> makes m' (when_set p copy_map) (fun new o => reads_map new o v).
Proof. intros Hs Hr. apply copy_map_makes. by eapply reads_map_grows. Qed.
Lemma slice_law {T V} `{!Reads T V, !CopyOp T, !DeepCopier T V, !Stored (list T)} zero m m' p (v : slice V) :
  m ⊆ m' -> reads_slice (T := T) m p v ->
  makes m' (when_set p (copy_slice zero)) (fun new o => reads_slice (T := T) new o v).
Proof. intros Hs Hr. apply copy_slice_makes. by eapply reads_slice_grows. Qed.
Lemma pointer_law {T V} `{!Reads T V, !CopyOp T, !DeepCopier T V, !Stored T} zero m m' p (v : option V) :
  m ⊆ m' -> reads_pointer (T := T) m p v ->
  makes m' (when_set p (copy_pointer zero)) (fun new o => reads_pointer (T := T) new o v).
Proof. intros Hs Hr. apply copy_pointer_makes. by eapply reads_pointer_grows. Qed.
Lemma struct_law {T V} `{!Reads T V, !CopyOp T, !DeepCopier T V} m m' (x : T) (v : V) :
  m ⊆ m' -> reads m x v -> makes m' (DeepCopyInto x) (fun new y => reads new y v).
Proof. intros Hs Hr. apply copy_makes. by eapply reads_grows. Qed.

Ltac still_reads :=
  intros; first [eapply reads_map_grows; eassumption | eapply reads_slice_grows; eassumption |
    eapply reads_pointer_grows; eassumption | eapply reads_grows; eassumption].
(** The next field is copied. *)
Ltac copy_field :=
  apply builds_bind;
  eapply builds_copy; [assumption | | intros ?; first [eapply map_law | eapply slice_law | eapply pointer_law | eapply struct_law]; eassumption |];
  [unfold grows; still_reads | cbv beta; intros ? ? ? ? ?].
(** A field copied earlier can still be read. *)
Ltac copied_field :=
  first
    [ eassumption
    | first [eapply reads_map_grows | eapply reads_slice_grows | eapply reads_pointer_grows | eapply reads_grows];
      [|eassumption]; repeat (etrans; [eassumption|]); reflexivity ].

#[export] Instance api_EnvVar_copier : DeepCopier api_EnvVar api_EnvVar.
Proof.
  split; [done|]. intros m x v Hx. exists x, ∅. rewrite (right_id_L ∅ (∪)).
  split_and!; [done|apply map_disjoint_empty_r|done].
Qed.

#[export] Instance spec_copier : DeepCopier raw_spec AgentSpec.
Proof.
  split.
  - intros m m' x v Hs []. split; try done; first [by eapply reads_slice_grows | by eapply reads_map_grows |
      by eapply reads_pointer_grows | by eapply reads_grows].
  - intros m x v []. apply makes_builds. unfold DeepCopyInto, AgentSpec_DeepCopyInto.
    assert (m ##ₘ (∅ : memory)) by apply map_disjoint_empty_r.
    do 8 copy_field. apply builds_ret; [assumption|]. split; cbn; try assumption; copied_field.
Qed.

#[export] Instance status_copier : DeepCopier raw_status AgentStatus.
Proof.
  split; [intros m m' x v Hs; apply (reads_grows m m' (raw_Status x) (agent_StatefulSetStatus v) Hs)|].
  intros m x v Hx. change (reads m (raw_Status x) (agent_StatefulSetStatus v)) in Hx.
  apply makes_builds. unfold DeepCopyInto, AgentStatus_DeepCopyInto.
  assert (m ##ₘ (∅ : memory)) by apply map_disjoint_empty_r.
  copy_field. by apply builds_ret.
Qed.

#[export] Instance agent_copier : DeepCopier raw_agent (TypeMeta * Agent).
Proof.
  split.
  - intros m m' x v Hs (? & ? & ? & ?). split_and!; [done|by eapply reads_grows..].
  - intros m x v (? & ? & ? & ?). apply makes_builds. unfold DeepCopyInto, Agent_DeepCopyInto.
    assert (m ##ₘ (∅ : memory)) by apply map_disjoint_empty_r.
    do 3 copy_field. apply builds_ret; [assumption|]. hnf. split_and!; [assumption|copied_field..].
Qed.

#[export] Instance list_copier : DeepCopier AgentList (TypeMeta * ListMeta * slice (TypeMeta * Agent)).
Proof.
  split.
  - intros m m' x v Hs (? & ? & ?). split_and!; [done|by eapply reads_grows|by eapply reads_slice_grows].
  - intros m x v (? & ? & ?). apply makes_builds. unfold DeepCopyInto, AgentList_DeepCopyInto.
    assert (m ##ₘ (∅ : memory)) by apply map_disjoint_empty_r.
    do 2 copy_field. apply builds_ret; [assumption|]. hnf. split_and!; [assumption|copied_field..].
Qed.

(** *** Copies stand alone *)

(** The method returns a pointer to a struct with the value of the receiver's, and this is so
    in every memory that still holds what it has made; the receiver keeps its value in every
    memory that still holds what was there before. A nil receiver gives nil. *)
Definition copies_apart {T V} `{!Stored T, !Reads T V} (copy : option loc -> M memory (option loc)) : Prop :=
  (forall m, copy None m = (Done None, m)) /\
  forall m p (v : V), reads_pointer (T := T) m (Some p) (Some v) ->
  exists q new, copy (Some p) m = (Done (Some q), m ∪ new) /\ m ##ₘ new /\
    (forall m', new ⊆ m' -> reads_pointer (T := T) m' (Some q) (Some v)) /\
    (forall m', m ⊆ m' -> reads_pointer (T := T) m' (Some p) (Some v)).

Lemma DeepCopy_apart {T V} `{!Stored T, !Reads T V, !CopyOp T, !DeepCopier T V} (zero : T) :
  copies_apart (T := T) (DeepCopy zero).
Proof.
  split; [done|]. intros m p v Hr.
  destruct (copy_pointer_makes zero m (Some p) (Some v) Hr) as (q & new & Hp & Hd & Hq).
  assert (exists q', q = Some q') as [q' ->] by (destruct q; [eauto|done]).
  exists q', new. split_and!; [done..| |]; intros m' Hs; by eapply reads_pointer_grows.
Qed.

(** C18: each of the five generated methods [DeepCopy] makes, out of memory that was not there
    before, an object with the value of its receiver. So whatever is later done to the memory
    of one, the other keeps its value; and copying changes nothing of what was there. *)
Theorem DeepCopy_independent :
  copies_apart (T := raw_agent) Agent_DeepCopy /\ copies_apart (T := AgentList) AgentList_DeepCopy /\
  copies_apart (T := raw_spec) AgentSpec_DeepCopy /\ copies_apart (T := raw_status) AgentStatus_DeepCopy /\
  copies_apart (T := api_EnvVar) EnvVar_DeepCopy.
Proof. split_and!; apply DeepCopy_apart; typeclasses eauto. Qed.

(** *** The operator's defaults *)

Context (raw_MustParse : string -> M memory raw_Quantity).
Hypothesis MustParse_makes :
  forall m text, makes m (raw_MustParse text) (fun new q => reads new q (MustParse text)).

Lemma default_list_makes m :
  makes m (default_list raw_MustParse) (fun new l =>
    reads_quantities new (Some l) (Some (<["cpu" := MustParse "2"]> {["memory" := MustParse "4Gi"]}))).
Proof.
  apply makes_builds. unfold default_list. assert (m ##ₘ (∅ : memory)) by apply map_disjoint_empty_r.
  do 2 (apply builds_bind; eapply builds_copy; [assumption| |intros ?; apply MustParse_makes|]; [unfold grows; still_reads|];
    cbv beta; intros ? ? ? ? ?).
  apply builds_alloc; [done|]. intros l _ Hl. eexists. split; [apply lookup_insert_eq|].
  assert (forall s (q : raw_Quantity) (v : Quantity), s ⊆ s'0 -> reads s q v -> reads (<[l := to_cell (<["cpu" := a]> {["memory" := a0]} : gmap string raw_Quantity)]> s'0) q v).
  { intros s q v Hs. apply reads_grows. etrans; [exact Hs|]. by apply insert_subseteq. }
  apply map_Forall2_insert_2; [eauto|]. apply map_Forall2_singleton. eauto.
Qed.

Lemma reads_quantities_grows m m' p (v : gomap Quantity) :
  m ⊆ m' -> reads_quantities m p v -> reads_quantities m' p v.
Proof.
  intros Hs. destruct p, v; [|done..]. intros (q & Hl & Hq). exists q. split; [by eapply lookup_weaken|].
  eapply map_Forall2_impl; [exact Hq|]. intros k x u Hu. by eapply reads_grows.
Qed.

(** A field of the copied agent is replaced by what [new] holds. *)
Lemma reads_with_path m a x tm p :
  reads m x (tm, a) -> reads m (with_VolumePath p x) (tm, set_spec a (set_volume_path (agent_Spec a) p)).
Proof. intros (? & ? & [] & ?). hnf. by split_and!. Qed.
Lemma reads_with_resources m a x tm r rs :
  reads m x (tm, a) -> reads_pointer (T := raw_resources) m r rs ->
  reads m (with_Resources r x) (tm, set_spec a (set_resources (agent_Spec a) rs)).
Proof. intros (? & ? & [] & ?) Hr. hnf. by split_and!. Qed.

(** The pointer [o] owns [x], all the rest of [s] being something else. *)
Definition holds_at s o (x : raw_agent) (v : TypeMeta * Agent) : Prop :=
  exists rest, s = <[o := to_cell x]> rest /\ rest !! o = None /\ reads rest x v.

(** An edit of the struct at [o]. *)
Lemma builds_edit m s o x x' v v' Q :
  m ##ₘ s -> holds_at s o x v -> (forall rest, reads rest x v -> reads rest x' v') ->
  (forall s', m ##ₘ s' -> holds_at s' o x' v' -> Q tt s') -> builds m s (store o x') Q.
Proof.
  intros Hd (rest & -> & Ho & Hr) Hedit HQ. eapply builds_store; [done|apply lookup_insert_eq|].
  rewrite insert_insert_eq. apply HQ; [|exists rest; auto].
  apply map_disjoint_insert_r in Hd as [? ?]. by apply map_disjoint_insert_r.
Qed.

Lemma holds_load s o x v : holds_at s o x v -> s !! o = Some (to_cell x) /\ reads_pointer (T := raw_agent) s (Some o) (Some v).
Proof.
  intros (rest & -> & Ho & Hr). split; [apply lookup_insert_eq|]. apply owns_reads. by exists x, rest.
Qed.

(** The default path is entered. *)
Lemma builds_path m s o x tm a Q :
  m ##ₘ s -> holds_at s o x (tm, a) ->
  (forall x' s', m ##ₘ s' ->
     holds_at s' o x' (tm, if bool_decide (VolumePath (agent_Spec a) = "")
                           then set_spec a (set_volume_path (agent_Spec a) "/jacoco/work") else a) -> Q tt s') ->
  builds m s (if bool_decide (raw_VolumePath (raw_Spec x) = "")
              then store o (with_VolumePath "/jacoco/work" x) else mret tt) Q.
Proof.
  intros Hd Hx HQ. pose proof Hx as (rest & _ & _ & _ & _ & [] & _). cbn in reads_VolumePath0.
  rewrite reads_VolumePath0. case_bool_decide.
  - eapply builds_edit; [exact Hd|exact Hx| |intros s' Hd' Hx'; by eapply HQ].
    intros rest' Hr'. by apply reads_with_path.
  - apply builds_ret; [done|]. by eapply HQ.
Qed.

(** The default resources are made and entered. *)
Lemma builds_resources m s o x tm a Q :
  m ##ₘ s -> holds_at s o x (tm, a) ->
  (forall x' s', m ##ₘ s' -> holds_at s' o x' (tm, set_spec a (set_resources (agent_Spec a) (Some default_resources))) -> Q tt s') ->
  builds m s (limits ← default_list raw_MustParse; requests ← default_list raw_MustParse;
              r ← alloc (RawResources (Some limits) (Some requests)); store o (with_Resources (Some r) x)) Q.
Proof.
  intros Hd (rest & -> & Ho & Hr) HQ.
  apply builds_bind. eapply builds_apart; [exact Hd|apply default_list_makes|]. cbv beta.
  intros limits n1 Hm1 [Hn1 Hr1]%map_disjoint_insert_l Hl Hd1. rewrite <- insert_union_l in *.
  apply builds_bind. eapply builds_apart; [exact Hd1|apply default_list_makes|]. cbv beta.
  intros requests n2 Hm2 [Hn2 Hr2]%map_disjoint_insert_l Hq Hd2. rewrite <- insert_union_l in *.
  apply builds_bind, builds_alloc; [exact Hd2|]. intros r _ [Hor Hrn]%lookup_insert_None Hd3.
  rewrite insert_insert_ne by done. set (rest' := <[r := _]> (rest ∪ n1 ∪ n2)).
  assert (H12 : rest ∪ n1 ∪ n2 ⊆ rest') by (by apply insert_subseteq).
  assert (Hn1s : n1 ⊆ rest ∪ n1 ∪ n2).
  { etrans; [by apply map_union_subseteq_r|apply map_union_subseteq_l]. }
  assert (Hn2s : n2 ⊆ rest ∪ n1 ∪ n2) by (by apply map_union_subseteq_r).
  assert (Ho' : rest' !! o = None).
  { unfold rest'. rewrite lookup_insert_ne by done. by apply lookup_union_None; split; [apply lookup_union_None|]. }
  rewrite insert_insert_ne in Hd3 by done. fold rest' in Hd3.
  eapply builds_store; [exact Hd3|apply lookup_insert_eq|]. rewrite insert_insert_eq. apply (HQ (with_Resources (Some r) x)).
  { apply map_disjoint_insert_r in Hd3 as [? ?]. by apply map_disjoint_insert_r. }
  exists rest'. split_and!; [done..|]. apply reads_with_resources.
  - eapply reads_grows; [|exact Hr]. etrans; [|exact H12]. etrans; apply map_union_subseteq_l.
  - eexists. split; [apply lookup_insert_eq|]. split; [exact (reads_quantities_grows _ _ _ _ (transitivity Hn1s H12) Hl)|exact (reads_quantities_grows _ _ _ _ (transitivity Hn2s H12) Hq)].
Qed.

(** C10: [FillDefaultValue], as it runs on memory, gives a pointer to a new struct whose value is
    the defaults filled into the value of the argument, and leaves all memory the argument
    leads to as it was; on a nil pointer it panics. The hypothesis is what [MustParse]
    promises. *)
Theorem FillDefaultValue_refines m p tm a :
  reads_pointer (T := raw_agent) m (Some p) (Some (tm, a)) ->
  makes m (FillDefaultValue_at raw_MustParse (Some p))
    (fun new q => reads_pointer (T := raw_agent) new q (Some (tm, FillDefaultValue a))) /\
  (FillDefaultValue_at raw_MustParse None m).1 = Panic "invalid memory address or nil pointer dereference".
Proof.
  intros (x0 & Hl & Hx0). split; [|done]. apply makes_builds. unfold FillDefaultValue_at.
  apply builds_bind. unfold Agent_DeepCopy, DeepCopy. cbn [when_set]. apply builds_bind.
  eapply (builds_apart m ∅); [apply map_disjoint_empty_r|rewrite (right_id_L ∅ (∪)); by eapply copy_pointer_owns|].
  cbv beta. intros q new Hd _ (x & rest & -> & Hq & Hr) _. rewrite (left_id_L ∅ (∪)).
  apply builds_ret; [done|]. intros _.
  assert (Hx : holds_at (<[q := to_cell x]> rest) q x (tm, a)) by (by exists rest).
  apply builds_bind. eapply builds_load; [done|right; apply lookup_insert_eq|]. intros _.
  revert Hx Hd. generalize (<[q := to_cell x]> rest) as s. clear rest Hq Hr. intros s Hx Hd.
  apply builds_bind, (builds_path m s q x tm a); [done..|]. clear s Hx Hd. intros x1 s Hd Hx _.
  unfold FillDefaultValue. cbv zeta. revert Hx.
  generalize (if bool_decide (VolumePath (agent_Spec a) = "")
              then set_spec a (set_volume_path (agent_Spec a) "/jacoco/work") else a) as a1. intros a1 Hx.
  apply builds_bind. destruct (holds_load s q x1 _ Hx) as [Hq Hread].
  eapply builds_load; [done|by right|]. intros _. apply builds_bind.
  pose proof Hx as (rest & Hs & _ & _ & _ & [] & _). cbn in reads_Resources0.
  destruct (raw_Resources (raw_Spec x1)) as [r|], (Resources (agent_Spec a1)) as [rs|] eqn:Ea; try done.
  - apply builds_ret; [done|]. intros _. apply builds_ret; [done|]. exact Hread.
  - eapply builds_resources; [done..|]. intros x2 s2 Hd2 Hx2 _. apply builds_ret; [done|].
    by apply (holds_load s2 q x2).
Qed.
End Package.
