(* ===== verification/DeepCopyExamples.v ===== *)
(** * A concrete memory for [DeepCopy], and its theorems on the sample agent

    A toleration is a pointer to its text; the other Kubernetes types hold no pointers. *)

From stdpp Require Import base tactics option list gmap strings.
From S2P Require Import Prelude AgentTypes Converter DeepCopy.

Local Open Scope string_scope.

#[local] Existing Instance text_k8s.

Definition demo_memory : K8sMemory := {|
  raw_Quantity := string; raw_EnvVar := EnvVar; raw_Affinity := string; raw_Toleration := loc;
  raw_ObjectMeta := ObjectMeta; raw_ListMeta := string; raw_StatefulSetStatus := N; raw_cell := string;
  zero_EnvVar := MkEnvVar "" "" None; zero_Affinity := ""; zero_Toleration := 1%positive; zero_Quantity := "";
  zero_ObjectMeta := zero_meta; zero_ListMeta := ""; zero_StatefulSetStatus := 0%N; ListMeta := string;
  map_range := map_to_list; map_range_perm g := reflexivity _;
|}.
#[local] Existing Instance demo_memory.

Definition plain_reads (T : Type) : Reads T T := fun _ x v => x = v.
Definition plain_copy (T : Type) : CopyOp T := fun x => mret x.
Lemma plain_copier (T : Type) : @DeepCopier _ T T (plain_reads T) (plain_copy T).
Proof.
  split; [done|]. intros m x v Hx. exists x, ∅. rewrite (right_id_L ∅ (∪)).
  split_and!; [done|apply map_disjoint_empty_r|done].
Qed.

Definition boxed_reads : Reads loc string := fun m l v => m !! l = Some (COther v).
Definition boxed_copy : CopyOp loc := fun l m =>
  match m !! l with
  | Some (COther v) => let o := fresh (dom m) in (Done o, <[o := COther v]> m)
  | _ => (Panic "invalid memory address or nil pointer dereference", m)
  end.
Lemma makes_alone {A} (p : M (gmap loc cell) A) m o c (R : gmap loc cell -> A -> Prop) a :
  p m = (Done a, <[o := c]> m) -> m !! o = None -> R {[o := c]} a -> makes m p R.
Proof.
  intros Hp Ho HR. exists a, {[o := c]}. split_and!; [|by apply map_disjoint_singleton_r|done].
  by rewrite Hp, (insert_union_singleton_r _ _ _ Ho).
Qed.
Lemma boxed_copier : @DeepCopier _ loc string boxed_reads boxed_copy.
Proof.
  split; [intros m m' x v Hs Hx; by eapply lookup_weaken|]. intros m x v Hx. hnf in Hx.
  eapply makes_alone.
  - unfold DeepCopyInto, boxed_copy. by rewrite Hx.
  - apply not_elem_of_dom, is_fresh.
  - hnf. apply lookup_singleton_eq.
Qed.

(** A map of quantities is copied as a whole. *)
Definition copy_quantities (l : loc) : M (gmap loc cell) loc := g ← load l; alloc (g : gmap string string).
Definition demo_resources_copy : CopyOp raw_resources := fun x =>
  limits ← when_set (raw_Limits x) copy_quantities;
  requests ← when_set (raw_Requests x) copy_quantities;
  mret (RawResources limits requests).
Lemma copy_quantities_makes m p v :
  @reads_quantities demo_memory text_k8s (plain_reads string) m p v ->
  makes m (when_set p copy_quantities) (fun new o => @reads_quantities demo_memory text_k8s (plain_reads string) new o v).
Proof.
  intros Hr. apply when_set_makes; [done|by destruct p, v|]. intros l ->. destruct v as [g|]; [|done].
  destruct Hr as (q & Hl & Hq). apply makes_builds. unfold copy_quantities. apply builds_bind.
  eapply builds_load; [apply map_disjoint_empty_r|by left|]. intros Hd. apply builds_alloc; [done|].
  intros o _ _. exists q. split; [apply lookup_insert_eq|]. eapply map_Forall2_impl; [exact Hq|]. done.
Qed.
Lemma demo_reads_quantities_grows m m' p v :
  m ⊆ m' -> @reads_quantities demo_memory text_k8s (plain_reads string) m p v ->
  @reads_quantities demo_memory text_k8s (plain_reads string) m' p v.
Proof.
  intros Hs. destruct p, v; [|done..]. intros (q & Hl & Hq). exists q. split; [by eapply lookup_weaken|].
  eapply map_Forall2_impl; [exact Hq|]. done.
Qed.
Lemma demo_resources_copier :
  @DeepCopier demo_memory raw_resources ResourceRequirements (@reads_resources _ _ (plain_reads string)) demo_resources_copy.
Proof.
  split.
  - intros m m' x v Hs [? ?]. split; by eapply demo_reads_quantities_grows.
  - intros m x v [Hlim Hreq]. apply makes_builds. unfold DeepCopyInto, demo_resources_copy.
    assert (m ##ₘ (∅ : gmap loc cell)) by apply map_disjoint_empty_r.
    do 2 (apply builds_bind; eapply builds_copy;
      [assumption| |intros ?; apply copy_quantities_makes; eapply demo_reads_quantities_grows; eassumption|];
      [intros ? ? ? ? ?; by eapply demo_reads_quantities_grows|]; cbv beta; intros ? ? ? ? ?).
    apply builds_ret; [done|]. split; [by eapply demo_reads_quantities_grows|done].
Qed.

#[local] Instance demo_copies : K8sCopies := {|
  Quantity_reads := plain_reads string; Quantity_copy := plain_copy string; Quantity_copier := plain_copier string;
  EnvVar_reads := plain_reads EnvVar; EnvVar_copy := plain_copy EnvVar; EnvVar_copier := plain_copier EnvVar;
  Affinity_reads := plain_reads string; Affinity_copy := plain_copy string; Affinity_copier := plain_copier string;
  Toleration_reads := boxed_reads; Toleration_copy := boxed_copy; Toleration_copier := boxed_copier;
  ObjectMeta_reads := plain_reads ObjectMeta; ObjectMeta_copy := plain_copy ObjectMeta; ObjectMeta_copier := plain_copier ObjectMeta;
  ListMeta_reads := plain_reads string; ListMeta_copy := plain_copy string; ListMeta_copier := plain_copier string;
  StatefulSetStatus_reads := plain_reads N; StatefulSetStatus_copy := plain_copy N; StatefulSetStatus_copier := plain_copier N;
  resources_copy := demo_resources_copy; resources_copier := demo_resources_copier;
|}.

(** The sample agent at 1, with a label and a toleration. *)
Definition tolerant_agent : Agent :=
  let s := agent_Spec sample_agent in
  set_spec sample_agent (MkAgentSpec (Image s) (Env s) (StorageClassName s) (StorageSize s) (Some {["tier" := "test"]})
    (VolumePath s) (Resources s) (spec_Affinity s) (spec_Annotations s) (NodeSelector s) (Some ["NoSchedule"])).
Definition agent_at_1 : gmap loc cell :=
  let s := agent_Spec tolerant_agent in
  list_to_map
    [(1%positive, CAgent (RawAgent (MkTypeMeta "Agent" "v1alpha1") (agent_meta tolerant_agent)
       (RawSpec (Image s) (Some 2%positive) (StorageClassName s) (StorageSize s) (Some 3%positive) (VolumePath s) None None
          None None (Some 4%positive)) (RawStatus 0%N)));
     (2%positive, CEnv (elems (Env s))); (3%positive, CStrings {["tier" := "test"]});
     (4%positive, CTolerations [5%positive]); (5%positive, COther "NoSchedule")].

Lemma agent_at_1_reads :
  reads_pointer (T := raw_agent) agent_at_1 (Some 1%positive) (Some (MkTypeMeta "Agent" "v1alpha1", tolerant_agent)).
Proof.
  eexists. split; [reflexivity|]. split_and!; [reflexivity..| |reflexivity].
  split; try reflexivity.
  - eexists. split; [reflexivity|]. repeat constructor.
  - eexists. split; [reflexivity|]. repeat constructor.
Qed.

Definition demo_MustParse (text : string) : M (gmap loc cell) raw_Quantity := fun m => (Done text, m).

Lemma MustParse_plain m text : makes m (demo_MustParse text) (fun new q => reads new q (MustParse text)).
Proof.
  exists text, ∅. rewrite (right_id_L ∅ (∪)). split_and!; [done|apply map_disjoint_empty_r|reflexivity].
Qed.

Lemma FillDefaultValue_refines_witness :
  makes agent_at_1 (FillDefaultValue_at demo_MustParse (Some 1%positive))
    (fun new q => reads_pointer (T := raw_agent) new q
       (Some (MkTypeMeta "Agent" "v1alpha1", FillDefaultValue tolerant_agent))).
Proof.
  destruct (FillDefaultValue_refines demo_MustParse MustParse_plain agent_at_1 1%positive
    (MkTypeMeta "Agent" "v1alpha1") tolerant_agent agent_at_1_reads) as [Hfill _].
  exact Hfill.
Defined.

(** The copy, and the original, by themselves. *)
Lemma DeepCopy_independent_witness :
  exists q new, Agent_DeepCopy (Some 1%positive) agent_at_1 = (Done (Some q), agent_at_1 ∪ new) /\
    reads_pointer (T := raw_agent) new (Some q) (Some (MkTypeMeta "Agent" "v1alpha1", tolerant_agent)) /\
    reads_pointer (T := raw_agent) agent_at_1 (Some 1%positive) (Some (MkTypeMeta "Agent" "v1alpha1", tolerant_agent)).
Proof.
  destruct DeepCopy_independent as ((_ & Hcopy) & _).
  destruct (Hcopy agent_at_1 1%positive _ agent_at_1_reads) as (q & new & Hp & _ & Hq & Horig).
  exists q, new. split_and!; [exact Hp|by apply Hq|by apply Horig].
Defined.
