(* ===== verification/Reconciler.v ===== *)
(** * [controllers/agent_controller.go]: the reconciliation of an Agent

    The Kubernetes API server is behind the interface [ApiServer]; what the operator relies
    on of it is the class [ApiServerLaws], whose laws are the documented behaviour of
    create, update and get. *)

From stdpp Require Import base tactics option list gmap strings.
From S2P Require Import Prelude AgentTypes Converter Goroutines.

Local Open Scope string_scope.

(** ** The API server *)

(** An error of the API, as [errors.IsNotFound] and [errors.IsAlreadyExists] tell it apart. *)
Inductive api_error :=
| ErrNotFound (msg : error)
| ErrAlreadyExists (msg : error)
| ErrOther (msg : error).

Definition IsNotFound (e : api_error) : bool :=
  match e with ErrNotFound _ => true | _ => false end.
Definition IsAlreadyExists (e : api_error) : bool :=
  match e with ErrAlreadyExists _ => true | _ => false end.
Definition api_message (e : api_error) : error :=
  match e with ErrNotFound m | ErrAlreadyExists m | ErrOther m => m end.

(** [types.NamespacedName]: namespace and name. *)
Abbreviation namespaced_name := (string * string)%type.

Section Client.
Context `{K8sTypes}.

(** [client.Object]: what the operator creates and updates. *)
Inductive client_object :=
| ObjServiceAccount (o : ServiceAccount)
| ObjRole (o : Role)
| ObjRoleBinding (o : RoleBinding)
| ObjStatefulSet (o : StatefulSet)
| ObjAgent (o : Agent).

Definition object_meta (o : client_object) : ObjectMeta :=
  match o with
  | ObjServiceAccount o => sa_meta o
  | ObjRole o => role_meta o
  | ObjRoleBinding o => rb_meta o
  | ObjStatefulSet o => sts_meta o
  | ObjAgent o => agent_meta o
  end.

Definition object_kind (o : client_object) : string :=
  match o with
  | ObjServiceAccount _ => "ServiceAccount"
  | ObjRole _ => "Role"
  | ObjRoleBinding _ => "RoleBinding"
  | ObjStatefulSet _ => "StatefulSet"
  | ObjAgent _ => "Agent"
  end.

(** Kind, namespace and name identify an object. *)
Definition object_key (o : client_object) : string * namespaced_name :=
  (object_kind o, (Namespace (object_meta o), Name (object_meta o))).

Class ApiServer (W : Type) := {
  api_GetAgent : namespaced_name -> W -> Agent + api_error;
  api_GetStatefulSet : namespaced_name -> W -> StatefulSet + api_error;
  (** the stateful sets of a namespace that carry the labels *)
  api_ListStatefulSets : string -> gmap string string -> W -> list StatefulSet + api_error;
  api_Create : client_object -> W -> option api_error * W;
  api_Update : client_object -> W -> option api_error * W;
  api_UpdateStatus : Agent -> W -> option api_error * W;
}.

(** What the server may set on its own: the untouched metadata fields and the status. *)
Definition reset_meta (m : ObjectMeta) : ObjectMeta :=
  MkMeta (Name m) (Namespace m) (Labels m) (Annotations m) (DeletionTimestamp m)
    (OwnerReferences m) zero_rest.
Definition desired (o : client_object) : client_object :=
  match o with
  | ObjServiceAccount o => ObjServiceAccount (MkServiceAccount (reset_meta (sa_meta o)))
  | ObjRole o => ObjRole (MkRole (reset_meta (role_meta o)) (Rules o))
  | ObjRoleBinding o =>
      ObjRoleBinding (MkRoleBinding (reset_meta (rb_meta o)) (rb_RoleRef o) (Subjects o))
  | ObjStatefulSet o => ObjStatefulSet (MkSts (reset_meta (sts_meta o)) (sts_Spec o) zero_status)
  | ObjAgent o =>
      ObjAgent (MkAgent (reset_meta (agent_meta o)) (agent_Spec o) (MkAgentStatus zero_status))
  end.

(** The server holds a map from keys to objects. A successful create or update stores the
    object, up to what the server sets itself; a failed one changes no object. The client of a
    manager reads from a cache, which follows the server in its own time: a call does not
    change it. *)
Class ApiServerLaws (W : Type) `{ApiServer W} := {
  objects : W -> gmap (string * namespaced_name) client_object;
  cached : W -> gmap (string * namespaced_name) client_object;
  get_agent_law nn w :
    match api_GetAgent nn w with
    | inl a => cached w !! ("Agent", nn) = Some (ObjAgent a) /\ object_key (ObjAgent a) = ("Agent", nn)
    | inr e => IsNotFound e = true -> cached w !! ("Agent", nn) = None
    end;
  get_sts_law nn w :
    match api_GetStatefulSet nn w with
    | inl s => cached w !! ("StatefulSet", nn) = Some (ObjStatefulSet s) /\
        object_key (ObjStatefulSet s) = ("StatefulSet", nn)
    | inr e => IsNotFound e = true -> cached w !! ("StatefulSet", nn) = None
    end;
  create_law o w :
    match api_Create o w with
    | (None, w') => objects w !! object_key o = None /\
        exists o', desired o' = desired o /\ objects w' = <[object_key o := o']> (objects w)
    | (Some e, w') => objects w' = objects w /\
        (IsAlreadyExists e = true -> is_Some (objects w !! object_key o))
    end;
  update_law o w :
    match api_Update o w with
    | (None, w') => is_Some (objects w !! object_key o) /\
        exists o', desired o' = desired o /\ objects w' = <[object_key o := o']> (objects w)
    | (Some e, w') => objects w' = objects w
    end;
  update_status_law a w :
    match api_UpdateStatus a w with
    | (None, w') =>
        exists a0 a', objects w !! object_key (ObjAgent a) = Some (ObjAgent a0) /\
          desired (ObjAgent a') = desired (ObjAgent a0) /\
          objects w' = <[object_key (ObjAgent a) := ObjAgent a']> (objects w)
    | (Some e, w') => objects w' = objects w
    end;
  create_cached o w : cached (api_Create o w).2 = cached w;
  update_cached o w : cached (api_Update o w).2 = cached w;
  update_status_cached a w : cached (api_UpdateStatus a w).2 = cached w;
}.

(** The cache has caught up with the server. *)
Definition synced `{ApiServerLaws W} (w : W) : Prop := cached w = objects w.
End Client.

(** ** The reconciler *)

(** [ctrl.Result]: the requeue delay in seconds, if any. *)
Record reconcile_result := MkResult { RequeueAfter : option Z }.
Definition zero_result : reconcile_result := MkResult None.
Definition time_Minute : Z := 60.

Section Reconciler.
Context `{K8sTypes} {W : Type} `{!ApiServer W}.
(** [ctrl.SetControllerReference] with the reconciler's scheme; its error is dropped. *)
Variable SetControllerReference : Agent -> ObjectMeta -> list OwnerReference.
(** [json.Marshal] and [json.Unmarshal] on agent specs. *)
Variable json_Marshal : AgentSpec -> string + error.
Variable json_Unmarshal : string -> AgentSpec + error.
(** [StatefulSetList.Size()]: the length of the list's protobuf encoding. *)
Variable StatefulSetList_Size : list StatefulSet -> Z.

(** A read, another call during which the cluster may change. *)
Definition client_read {A} (f : W -> A) : prog W A := await (Prelude.gets f).
Definition client_Create (o : client_object) : prog W (option api_error) :=
  await (fun w => let (e, w') := api_Create o w in (Done e, w')).
Definition client_Update (o : client_object) : prog W (option api_error) :=
  await (fun w => let (e, w') := api_Update o w in (Done e, w')).
Definition client_UpdateStatus (a : Agent) : prog W (option api_error) :=
  await (fun w => let (e, w') := api_UpdateStatus a w in (Done e, w')).

(** [errorx.WithStack] and [errorx.Wrapf]: nil stays nil. *)
Definition WithStack (e : option api_error) : option error := api_message <$> e.
Definition Wrapf (e : option api_error) (msg : string) : option error :=
  (fun e => msg +:+ ": " +:+ api_message e) <$> e.

(** [if err = m; err != nil { return err }; k] *)
Definition return_if_err {E} (m : prog W (option E)) (k : prog W (option E)) : prog W (option E) :=
  e ← m; match e with Some e => mret (Some e) | None => k end.

Definition upsertResource (object : client_object) : prog W (option api_error) :=
  err ← client_Create object;
  match err with
  | Some e => if IsAlreadyExists e then client_Update object else mret (Some e)
  | None => mret None
  end.

(** Runs a conversion on the agent object the caller holds. *)
Definition on_agent {A} (m : M Agent A) (agent : Agent) : prog W (A * Agent) := local (fun w =>
  match m agent with
  | (Done a, agent') => (Done (a, agent'), w)
  | (Panic e, _) => (Panic e, w)
  | (Blocked, _) => (Blocked, w)
  end).

(** The agent with its spec recorded in its [spec] annotation. *)
Definition record_spec (agent : Agent) : Agent :=
  let data := match json_Marshal (agent_Spec agent) with inl d => d | inr _ => "" end in
  match Annotations (agent_meta agent) with
  | Some m => set_agent_annotations agent (Some (<["spec" := data]> m))
  | None => set_agent_annotations agent (Some {["spec" := data]})
  end.

(** The calls of [CreateResource] after the conversion. *)
Definition create_objects (resources : AgentResources) (agent : Agent) : prog W (option error) :=
  return_if_err (e ← upsertResource (ObjServiceAccount (res_ServiceAccount resources));
                 mret (WithStack e)) $
  return_if_err (e ← upsertResource (ObjRole (res_Role resources)); mret (WithStack e)) $
  return_if_err (e ← upsertResource (ObjRoleBinding (res_RoleBinding resources));
                 mret (WithStack e)) $
  return_if_err (e ← client_Create (ObjStatefulSet (res_StatefulSet resources));
                 mret (WithStack e)) $
  e ← client_Update (ObjAgent (record_spec agent));
  mret (WithStack e).

Definition CreateResource (agent : Agent) : prog W (option error) :=
  '(resources, agent) ← on_agent (ConvertAgent SetControllerReference) agent;
  create_objects resources agent.

(** The old stateful set with the new specification. *)
Definition set_sts_spec (s : StatefulSet) (spec : StatefulSetSpec) : StatefulSet :=
  MkSts (sts_meta s) spec (sts_Status s).

(** The calls of [UpdateResource] after the conversion. *)
Definition update_objects (oldDeploy : StatefulSet) (resources : AgentResources) (agent : Agent)
  : prog W (option error) :=
  return_if_err (e ← upsertResource (ObjRole (res_Role resources)); mret (WithStack e)) $
  return_if_err (e ← upsertResource (ObjRoleBinding (res_RoleBinding resources));
                 mret (WithStack e)) $
  return_if_err (e ← upsertResource (ObjServiceAccount (res_ServiceAccount resources));
                 mret (WithStack e)) $
  let newDeploy := res_StatefulSet resources in
  return_if_err (e ← client_Update (ObjStatefulSet (set_sts_spec oldDeploy (sts_Spec newDeploy)));
                 mret (WithStack e)) $
  e ← client_Update (ObjAgent (record_spec agent));
  mret (WithStack e).

Definition UpdateResource (oldDeploy : StatefulSet) (agent : Agent) : prog W (option error) :=
  '(resources, agent) ← on_agent (ConvertAgent SetControllerReference) agent;
  update_objects oldDeploy resources agent.

Definition requeue (m : prog W (option error)) : prog W (reconcile_result * option error) :=
  err ← m;
  match err with
  | None => mret (MkResult (Some time_Minute), None)
  | Some e => mret (zero_result, Some e)
  end.

Definition Reconcile (req : namespaced_name) : prog W (reconcile_result * option error) :=
  got ← client_read (api_GetAgent req);
  match got with
  | inr e => if IsNotFound e then mret (zero_result, None)
             else mret (zero_result, Some (api_message e))
  | inl agent =>
    if bool_decide (is_Some (DeletionTimestamp (agent_meta agent)))
    then mret (zero_result, None) else
    let agent := FillDefaultValue agent in
    old ← client_read (api_GetStatefulSet req);
    match old with
    | inr e => if IsNotFound e then requeue (CreateResource agent)
               else mret (zero_result, Some (api_message e))
    | inl oldDeploy =>
      match json_Unmarshal (map_get (Annotations (agent_meta agent)) "spec") with
      | inr e => mret (zero_result, Some e)
      | inl oldSpec =>
        if negb (bool_decide (agent_Spec agent = oldSpec))
        then requeue (UpdateResource oldDeploy agent)
        else
          listed ← client_read (api_ListStatefulSets (Namespace (agent_meta agent)) (getLables agent));
          match listed with
          | inr e => mret (zero_result, Wrapf (Some e) "failed to list statefulset")
          | inl items =>
            if bool_decide (StatefulSetList_Size items = 0%Z) then mret (zero_result, None) else
            match items with
            | [] => panic "index out of range [0] with length 0"
            | item :: _ =>
              if bool_decide (sts_Status item = agent_StatefulSetStatus (agent_Status agent))
              then mret (zero_result, None)
              else
                e ← client_UpdateStatus (set_agent_status agent (sts_Status item));
                mret (zero_result, Wrapf e "failed to update agent status")
            end
          end
      end
    end
  end.

(** The calls when nobody intervenes. *)
Lemma client_Create_run o w : client_Create o w = let (e, w') := api_Create o w in (Done e, w').
Proof. apply await_run. Qed.
Lemma client_Update_run o w : client_Update o w = let (e, w') := api_Update o w in (Done e, w').
Proof. apply await_run. Qed.
Lemma client_UpdateStatus_run a w : client_UpdateStatus a w = let (e, w') := api_UpdateStatus a w in (Done e, w').
Proof. apply await_run. Qed.
Lemma client_read_run {A} (f : W -> A) w : client_read f w = (Done (f w), w).
Proof. reflexivity. Qed.
Lemma return_if_err_run {E} (m k : prog W (option E)) w :
  return_if_err m k w = match m w with
                        | (Done (Some e), w') => (Done (Some e), w')
                        | (Done None, w') => k w'
                        | (Panic msg, w') => (Panic msg, w')
                        | (Blocked, w') => (Blocked, w')
                        end.
Proof. unfold return_if_err. rewrite bind_run. by destruct (m w) as [[[e|]| |] w']. Qed.
Lemma return_if_err_preserves (R : W -> W -> Prop) {E} (m k : prog W (option E)) :
  preserves R m -> preserves R k -> preserves R (return_if_err m k).
Proof. intros Hm Hk. unfold return_if_err. apply preserves_bind; [done|]. by intros [e|]. Qed.
Lemma return_if_err_unblocked {E} (m k : prog W (option E)) :
  unblocked m -> unblocked k -> unblocked (return_if_err m k).
Proof. intros Hm Hk. unfold return_if_err. apply unblocked_bind; [done|]. by intros [e|]. Qed.
End Reconciler.

(** The calls of a run alone, besides what [go_run] and [go_inv] know. *)
Ltac api_run := repeat first [rewrite client_read_run | rewrite client_Create_run | rewrite client_Update_run
  | rewrite client_UpdateStatus_run | rewrite bind_run | rewrite ret_run | progress cbn beta iota].

(** ** Sequences of writes *)

Section Writes.
Context `{K8sTypes} {W : Type} `{!ApiServer W} `{!ApiServerLaws W}.
Implicit Types (a : Agent) (o : client_object) (w : W).
Abbreviation cluster := (gmap (string * namespaced_name) client_object).

(** The objects are stored in order, each up to what the server sets itself. *)
Fixpoint chain (os : list client_object) (m m' : cluster) : Prop :=
  match os with
  | [] => m' = m
  | o :: os => exists o', desired o' = desired o /\ chain os (<[object_key o := o']> m) m'
  end.

(** [o] is in the cluster, up to what the server sets itself. *)
Definition present o (m : cluster) : Prop :=
  exists o', m !! object_key o = Some o' /\ desired o' = desired o.

Lemma chain_other os m m' k :
  chain os m m' -> Forall (fun o => object_key o <> k) os -> m' !! k = m !! k.
Proof.
  revert m. induction os as [|o os IH]; intros m Hc Hk; cbn in Hc; [by subst|].
  destruct Hc as (o' & _ & Hc). inversion_clear Hk as [|? ? Ho Hos].
  rewrite (IH _ Hc Hos). by apply lookup_insert_ne.
Qed.

Lemma chain_present os m m' :
  chain os m m' -> NoDup (map object_key os) -> Forall (fun o => present o m') os.
Proof.
  revert m. induction os as [|o os IH]; intros m Hc Hnd; [done|].
  destruct Hc as (o' & Hd & Hc). inversion_clear Hnd as [|? ? Hnotin Hnd'].
  constructor; [|by apply (IH _ Hc)]. exists o'. split; [|done].
  rewrite (chain_other os _ _ _ Hc), lookup_insert_eq; [done|].
  apply Forall_forall. intros o2 Ho2 Heq. apply Hnotin. rewrite <- Heq.
  by apply list_elem_of_fmap_2.
Qed.

(** A call that stores [o] when it returns nil and no object otherwise. *)
Definition writes (s : prog W (option error)) o : Prop :=
  forall w r w', s w = (Done r, w') ->
    match r with
    | None => chain [o] (objects w) (objects w')
    | Some _ => objects w' = objects w
    end.

Lemma upsertResource_inv o w r w' :
  upsertResource o w = (Done r, w') ->
  match r with
  | None => chain [o] (objects w) (objects w')
  | Some _ => objects w' = objects w
  end.
Proof.
  unfold upsertResource. intros Hr. go_inv. rewrite client_Create_run in E.
  pose proof (create_law o w) as Hc. destruct (api_Create o w) as [[e|] w1]; simplify_eq.
  - destruct Hc as [Hw _]. destruct (IsAlreadyExists e); go_inv; [|done].
    rewrite client_Update_run in Hr. pose proof (update_law o w0) as Hu. destruct (api_Update o w0) as [[e'|] w2]; simplify_eq;
      [congruence|]. destruct Hu as (_ & o' & Ho & Hobj). exists o'. cbn. by rewrite <- Hw.
  - go_inv. destruct Hc as (_ & o' & Ho & Hobj). by exists o'.
Qed.

Lemma writes_upsert o : writes (e ← upsertResource o; mret (WithStack e)) o.
Proof. intros w r w' Hr. go_inv. apply upsertResource_inv in E. by destruct r0. Qed.

Lemma writes_create o : writes (e ← client_Create o; mret (WithStack e)) o.
Proof.
  intros w r w' Hr. go_inv. rewrite client_Create_run in E. pose proof (create_law o w) as Hc.
  destruct (api_Create o w) as [[e|] w1]; simplify_eq; [by destruct Hc|].
  destruct Hc as (_ & o' & Ho & Hobj). by exists o'.
Qed.

Lemma writes_update o : writes (e ← client_Update o; mret (WithStack e)) o.
Proof.
  intros w r w' Hr. go_inv. rewrite client_Update_run in E. pose proof (update_law o w) as Hc.
  destruct (api_Update o w) as [[e|] w1]; simplify_eq; [done|].
  destruct Hc as (_ & o' & Ho & Hobj). by exists o'.
Qed.

Lemma return_if_err_inv (m k : prog W (option error)) w r w' :
  return_if_err m k w = (Done r, w') ->
  (exists e, m w = (Done (Some e), w') /\ r = Some e) \/
  (exists w1, m w = (Done None, w1) /\ k w1 = (Done r, w')).
Proof.
  unfold return_if_err. intros Hr. go_inv. destruct r0 as [e|]; go_inv; eauto.
Qed.

(** A sequence of writes stores a prefix of its objects, all of them exactly when it
    returns nil. *)
Definition writes_prefix (s : prog W (option error)) (os : list client_object) : Prop :=
  forall w r w', s w = (Done r, w') ->
    exists n, n <= length os /\ chain (take n os) (objects w) (objects w') /\
              (r = None <-> n = length os).

Lemma writes_prefix_one s o : writes s o -> writes_prefix s [o].
Proof.
  intros Hs w r w' Hr. specialize (Hs w r w' Hr). destruct r as [e|].
  - exists 0. cbn. split_and!; [lia|done|done].
  - exists 1. cbn. split_and!; [lia|done|done].
Qed.

Lemma writes_prefix_cons s o k os :
  writes s o -> writes_prefix k os -> writes_prefix (return_if_err s k) (o :: os).
Proof.
  intros Hs Hk w r w' Hr. apply return_if_err_inv in Hr as [(e & Hr & ->)|(w1 & E1 & Hr)].
  - apply Hs in Hr. exists 0. cbn. split_and!; [lia|done|done].
  - apply Hs in E1 as (o' & Hd & Hc). destruct (Hk _ _ _ Hr) as (n & Hn & Hch & Hiff).
    exists (S n). cbn in *. rewrite Hiff. split_and!; [lia| |lia].
    exists o'. split; [done|]. by rewrite <- Hc.
Qed.
End Writes.

Create HintDb writes.
#[export] Hint Resolve writes_upsert writes_create writes_update writes_prefix_one
  writes_prefix_cons : writes.

(** ** Creating and updating the owned objects *)

Section CreateUpdate.
Context `{K8sTypes} {W : Type} `{!ApiServer W} `{!ApiServerLaws W}.
Variable SetControllerReference : Agent -> ObjectMeta -> list OwnerReference.
Variable json_Marshal : AgentSpec -> string + error.
Implicit Types (a : Agent) (w : W).

(** The agent object as [CreateResource] and [UpdateResource] store it. *)
Definition recorded a : Agent := record_spec json_Marshal (without_snapshot a).

Lemma record_spec_fields a :
  agent_Spec (record_spec json_Marshal a) = agent_Spec a /\
  object_key (ObjAgent (record_spec json_Marshal a)) = object_key (ObjAgent a) /\
  map_get (Annotations (agent_meta (record_spec json_Marshal a))) "spec" =
    match json_Marshal (agent_Spec a) with inl d => d | inr _ => "" end.
Proof.
  unfold record_spec, map_get. destruct (Annotations (agent_meta a)) as [m|]; cbn;
    by rewrite ?lookup_insert_eq, ?lookup_singleton_eq.
Qed.

(** What [CreateResource] and [UpdateResource] write, in order. *)
Definition create_order a rs : list client_object :=
  let res := agent_resources SetControllerReference a rs in
  [ObjServiceAccount (res_ServiceAccount res); ObjRole (res_Role res);
   ObjRoleBinding (res_RoleBinding res); ObjStatefulSet (res_StatefulSet res);
   ObjAgent (recorded a)].
Definition update_order a rs (old : StatefulSet) : list client_object :=
  let res := agent_resources SetControllerReference a rs in
  [ObjRole (res_Role res); ObjRoleBinding (res_RoleBinding res);
   ObjServiceAccount (res_ServiceAccount res);
   ObjStatefulSet (set_sts_spec old (sts_Spec (res_StatefulSet res))); ObjAgent (recorded a)].

Lemma create_order_NoDup a rs : NoDup (map object_key (create_order a rs)).
Proof.
  unfold create_order, object_key. cbn. repeat (constructor; [set_solver|]). constructor.
Qed.

Lemma fill_resources a : exists rs, Resources (agent_Spec (FillDefaultValue a)) = Some rs.
Proof.
  destruct a as [m [im en sc sz sl vp re af sa nd tl] st]. unfold FillDefaultValue. cbn.
  case_bool_decide; cbn; destruct re; cbn; eauto.
Qed.

(** The spec an agent is stored with needs no default. *)
Lemma fill_fixed a a' :
  agent_Spec a' = agent_Spec (without_snapshot (FillDefaultValue a)) ->
  agent_Spec (FillDefaultValue a') = agent_Spec a'.
Proof.
  destruct (fill_resources a) as [rs Hrs].
  pose proof (FillDefaultValue_total SetControllerReference a) as (_ & _ & Hv). intros Hsp.
  assert (VolumePath (agent_Spec a') <> "") by (by rewrite Hsp).
  assert (Resources (agent_Spec a') = Some rs) as Hre by (by rewrite Hsp).
  unfold FillDefaultValue. rewrite bool_decide_false by done. cbn. by rewrite Hre.
Qed.

Lemma on_agent_convert a rs (k : AgentResources * Agent -> prog W (option error)) w :
  Resources (agent_Spec a) = Some rs ->
  (on_agent (ConvertAgent SetControllerReference) a ≫= k) w =
    k (agent_resources SetControllerReference a rs, without_snapshot a) w.
Proof. intros Hrs. unfold on_agent. by rewrite bind_run, ConvertAgent_run, Hrs. Qed.

Lemma create_objects_prefix a rs :
  writes_prefix (create_objects json_Marshal (agent_resources SetControllerReference a rs)
                   (without_snapshot a)) (create_order a rs).
Proof. unfold create_objects, create_order. auto 10 with writes. Qed.

Lemma update_objects_prefix a rs old :
  writes_prefix (update_objects json_Marshal old (agent_resources SetControllerReference a rs)
                   (without_snapshot a)) (update_order a rs old).
Proof. unfold update_objects, update_order. auto 10 with writes. Qed.

Lemma CreateResource_prefix a w r w' :
  CreateResource SetControllerReference json_Marshal (FillDefaultValue a) w = (Done r, w') ->
  exists rs n, Resources (agent_Spec (FillDefaultValue a)) = Some rs /\ n <= 5 /\
    chain (take n (create_order (FillDefaultValue a) rs)) (objects w) (objects w') /\
    (r = None <-> n = 5).
Proof.
  destruct (fill_resources a) as [rs Hrs]. unfold CreateResource.
  rewrite (on_agent_convert _ rs) by done. cbv beta match. intros Hr.
  apply create_objects_prefix in Hr as (n & Hn & Hc & Hiff). eauto 10.
Qed.

(** Whatever the API server answers, [CreateResource] on a defaulted agent has stored
    a prefix of service account, role, role binding, stateful set, agent, in this order,
    and returns nil exactly when it has stored all five. *)
Theorem CreateResource_order a w r w' :
  CreateResource SetControllerReference json_Marshal (FillDefaultValue a) w = (Done r, w') ->
  exists rs n, Resources (agent_Spec (FillDefaultValue a)) = Some rs /\ n <= 5 /\
    chain (take n (create_order (FillDefaultValue a) rs)) (objects w) (objects w') /\
    (r = None <-> n = 5).
Proof. apply CreateResource_prefix. Qed.

(** [UpdateResource] stores a prefix of role, role binding, service account, stateful
    set, agent; the stateful set keeps its old metadata and status and gets the whole
    specification generated from the agent. *)
Theorem UpdateResource_order a old w r w' :
  UpdateResource SetControllerReference json_Marshal old (FillDefaultValue a) w = (Done r, w') ->
  exists rs n, Resources (agent_Spec (FillDefaultValue a)) = Some rs /\ n <= 5 /\
    chain (take n (update_order (FillDefaultValue a) rs old)) (objects w) (objects w') /\
    (r = None <-> n = 5).
Proof.
  destruct (fill_resources a) as [rs Hrs]. unfold UpdateResource.
  rewrite (on_agent_convert _ rs) by done. cbv beta match. intros Hr.
  apply update_objects_prefix in Hr as (n & Hn & Hc & Hiff). eauto 10.
Qed.

(** The API calls and the conversion of a defaulted agent always return. *)
Lemma return_if_err_done (m k : prog W (option error)) w :
  (forall w, is_done (m w).1 = true) -> (forall w, is_done (k w).1 = true) ->
  is_done (return_if_err m k w).1 = true.
Proof.
  intros Hm Hk. rewrite return_if_err_run. specialize (Hm w). destruct (m w) as [[[e|]| |] w1]; cbn in *; auto.
Qed.

Lemma create_done o w : is_done (((e ← client_Create o; mret (WithStack e)) : prog W _) w).1 = true.
Proof. api_run. by destruct (api_Create o w). Qed.
Lemma update_done o w : is_done (((e ← client_Update o; mret (WithStack e)) : prog W _) w).1 = true.
Proof. api_run. by destruct (api_Update o w). Qed.

Lemma upsert_done o w : is_done (((e ← upsertResource o; mret (WithStack e)) : prog W _) w).1 = true.
Proof.
  unfold upsertResource. api_run. destruct (api_Create o w) as [[e|] w1]; [|done].
  destruct (IsAlreadyExists e); [|done]. api_run. by destruct (api_Update o w1).
Qed.

Lemma CreateResource_done a w :
  is_done (CreateResource SetControllerReference json_Marshal (FillDefaultValue a) w).1 = true.
Proof.
  destruct (fill_resources a) as [rs Hrs]. unfold CreateResource.
  rewrite (on_agent_convert _ rs) by done. unfold create_objects.
  repeat (apply return_if_err_done; [intros; first [apply upsert_done | apply create_done | apply update_done]|intros]).
  apply update_done.
Qed.
End CreateUpdate.

(** ** [Reconcile] *)

Section ReconcileTheorems.
Context `{K8sTypes} {W : Type} `{!ApiServer W} `{!ApiServerLaws W}.
Variable SetControllerReference : Agent -> ObjectMeta -> list OwnerReference.
Variable json_Marshal : AgentSpec -> string + error.
Variable json_Unmarshal : string -> AgentSpec + error.
Variable StatefulSetList_Size : list StatefulSet -> Z.
Implicit Types (a : Agent) (w : W) (nn : namespaced_name).

Abbreviation reconcile :=
  (Reconcile SetControllerReference json_Marshal json_Unmarshal StatefulSetList_Size).

(** What the [spec] annotation of an agent decodes to. *)
Definition recorded_spec a : AgentSpec + error :=
  json_Unmarshal (map_get (Annotations (agent_meta a)) "spec").

Lemma fill_meta a : agent_meta (FillDefaultValue a) = agent_meta a.
Proof. unfold FillDefaultValue. case_bool_decide; cbn; by destruct (Resources _). Qed.

Lemma Reconcile_idle nn w :
  match api_GetAgent nn w with
  | inr e => reconcile nn w =
      (Done (zero_result, if IsNotFound e then None else Some (api_message e)), w)
  | inl a =>
      (is_Some (DeletionTimestamp (agent_meta a)) -> reconcile nn w = (Done (zero_result, None), w)) /\
      (DeletionTimestamp (agent_meta a) = None ->
       match api_GetStatefulSet nn w with
       | inr e => IsNotFound e = false ->
           reconcile nn w = (Done (zero_result, Some (api_message e)), w)
       | inl _ =>
           match recorded_spec a with
           | inr e => reconcile nn w = (Done (zero_result, Some e), w)
           | inl s => s = agent_Spec (FillDefaultValue a) ->
               forall sts l,
               api_ListStatefulSets (Namespace (agent_meta a)) (getLables a) w = inl (sts :: l) ->
               sts_Status sts = agent_StatefulSetStatus (agent_Status a) ->
               reconcile nn w = (Done (zero_result, None), w)
           end
       end)
  end.
Proof.
  unfold Reconcile, recorded_spec. api_run.
  destruct (api_GetAgent nn w) as [a|e]; [|by destruct (IsNotFound e)]. rewrite fill_meta.
  split.
  { intros Hd. by rewrite bool_decide_true. }
  intros Hd. rewrite Hd, bool_decide_false by (by intros [? ?]). api_run. cbn [fst snd].
  destruct (api_GetStatefulSet nn w) as [old|e]; [|by intros ->].
  destruct (json_Unmarshal _) as [s|e]; [|done]. intros -> sts l Hl Hst.
  rewrite bool_decide_true by done. cbn [negb]. api_run.
  assert (getLables (FillDefaultValue a) = getLables a) as ->
    by (unfold getLables; by rewrite fill_meta).
  rewrite Hl. case_bool_decide; [done|].
  rewrite bool_decide_true; [done|]. rewrite Hst. f_equal.
  unfold FillDefaultValue. case_bool_decide; cbn; by destruct (Resources _).
Qed.

(** [Reconcile] leaves the cluster alone, without an error, when the agent is gone or
    being deleted, and when the agent, its recorded spec and the status it reports are in
    step with its stateful set; it also leaves it alone, with an error, when a read fails
    or the recorded spec cannot be decoded. *)
Theorem Reconcile_no_write nn w :
  match api_GetAgent nn w with
  | inr e => reconcile nn w =
      (Done (zero_result, if IsNotFound e then None else Some (api_message e)), w)
  | inl a =>
      (is_Some (DeletionTimestamp (agent_meta a)) -> reconcile nn w = (Done (zero_result, None), w)) /\
      (DeletionTimestamp (agent_meta a) = None ->
       match api_GetStatefulSet nn w with
       | inr e => IsNotFound e = false ->
           reconcile nn w = (Done (zero_result, Some (api_message e)), w)
       | inl _ =>
           match recorded_spec a with
           | inr e => reconcile nn w = (Done (zero_result, Some e), w)
           | inl s => s = agent_Spec (FillDefaultValue a) ->
               forall sts l,
               api_ListStatefulSets (Namespace (agent_meta a)) (getLables a) w = inl (sts :: l) ->
               sts_Status sts = agent_StatefulSetStatus (agent_Status a) ->
               reconcile nn w = (Done (zero_result, None), w)
           end
       end)
  end.
Proof. apply Reconcile_idle. Qed.

(** A run that creates: the agent is there, not deleted, and has no stateful set. *)
Definition creating nn a w : Prop :=
  api_GetAgent nn w = inl a /\ DeletionTimestamp (agent_meta a) = None /\
  exists e, api_GetStatefulSet nn w = inr e /\ IsNotFound e = true.

Lemma Reconcile_creating nn a w :
  creating nn a w ->
  reconcile nn w =
    requeue (CreateResource SetControllerReference json_Marshal (FillDefaultValue a)) w.
Proof.
  intros (Ha & Hd & e & Hs & He). unfold Reconcile. api_run. rewrite Ha, Hd.
  rewrite bool_decide_false by (by intros [? ?]). api_run. rewrite Hs, He.
  unfold requeue. reflexivity.
Qed.

(** When the agent has no stateful set, [Reconcile] returns; if it reports no error it
    asks to be run again in one minute and all five objects are in the cluster as
    generated, no other object having changed. *)
Theorem Reconcile_creates nn a w :
  creating nn a w ->
  exists res err w', reconcile nn w = (Done (res, err), w') /\
    (err = None -> RequeueAfter res = Some 60%Z /\
       exists rs, Resources (agent_Spec (FillDefaultValue a)) = Some rs /\
         let os := create_order SetControllerReference json_Marshal (FillDefaultValue a) rs in
         Forall (fun o => present o (objects w')) os /\
         forall k, Forall (fun o => object_key o <> k) os -> objects w' !! k = objects w !! k).
Proof.
  intros Hcr. rewrite (Reconcile_creating nn a w Hcr).
  pose proof (CreateResource_done SetControllerReference json_Marshal a w) as Hdone.
  unfold requeue. rewrite bind_run.
  destruct (CreateResource _ _ _ w) as [[r| |] w'] eqn:E; try discriminate Hdone.
  destruct r as [e|]; (do 3 eexists; split; [reflexivity|]); [done|]. intros _. split; [done|].
  apply CreateResource_prefix in E as (rs & n & Hrs & Hn & Hc & Hiff).
  assert (n = 5) as -> by by apply Hiff. exists rs. split; [done|]. cbn zeta. split.
  - eapply chain_present; [exact Hc|]. apply create_order_NoDup.
  - intros k Hk. eapply chain_other; [exact Hc|exact Hk].
Qed.

(** The agent object in the cluster after the creation. *)
Lemma created_agent nn a w w' rs n :
  creating nn a w -> n <= 5 ->
  chain (take n (create_order SetControllerReference json_Marshal (FillDefaultValue a) rs))
    (objects w) (objects w') ->
  if decide (n = 5)
  then exists a', objects w' !! ("Agent", nn) = Some (ObjAgent a') /\
         agent_Spec a' = agent_Spec (without_snapshot (FillDefaultValue a)) /\
         Annotations (agent_meta a') =
           Annotations (agent_meta (recorded json_Marshal (FillDefaultValue a)))
  else objects w' !! ("Agent", nn) = objects w !! ("Agent", nn).
Proof.
  intros (Ha & _) Hn Hc. pose proof (get_agent_law nn w) as Hl. rewrite Ha in Hl.
  destruct Hl as [_ Hkey].
  assert (object_key (ObjAgent (recorded json_Marshal (FillDefaultValue a))) = ("Agent", nn)) as Hk.
  { unfold recorded. destruct (record_spec_fields json_Marshal (without_snapshot (FillDefaultValue a)))
      as (_ & -> & _). rewrite <- Hkey. unfold object_key. cbn. by rewrite fill_meta. }
  case_decide as H5.
  - subst n. apply chain_present in Hc; [|apply create_order_NoDup].
    assert (present (ObjAgent (recorded json_Marshal (FillDefaultValue a))) (objects w')) as (o' & Ho & Hd).
    { eapply Forall_forall in Hc; [exact Hc|]. unfold create_order. cbn. set_solver. }
    rewrite Hk in Ho. destruct o' as [?|?|?|?|a']; try discriminate Hd.
    exists a'. split; [done|]. cbn in Hd. pose proof (f_equal object_meta Hd) as Hm. cbn in Hm.
    assert (agent_Spec a' = agent_Spec (recorded json_Marshal (FillDefaultValue a))) as Hs
      by congruence.
    unfold recorded in *.
    destruct (record_spec_fields json_Marshal (without_snapshot (FillDefaultValue a))) as (Hsp & _).
    split; [congruence|]. exact (f_equal Annotations Hm).
  - eapply chain_other; [exact Hc|].
    destruct n as [|[|[|[|[|n]]]]]; try lia; cbn; repeat (constructor; [done|]); constructor.
Qed.

(** A run that finds the stateful set and a recorded spec in step ends in the status part. *)
Lemma Reconcile_in_step nn a sts w :
  api_GetAgent nn w = inl a -> DeletionTimestamp (agent_meta a) = None ->
  api_GetStatefulSet nn w = inl sts ->
  recorded_spec a = inl (agent_Spec (FillDefaultValue a)) ->
  reconcile nn w =
    match api_ListStatefulSets (Namespace (agent_meta a)) (getLables a) w with
    | inr e => (Done (zero_result, Wrapf (Some e) "failed to list statefulset"), w)
    | inl items =>
        if bool_decide (StatefulSetList_Size items = 0%Z) then (Done (zero_result, None), w) else
        match items with
        | [] => (Panic "index out of range [0] with length 0", w)
        | item :: _ =>
            if bool_decide (sts_Status item = agent_StatefulSetStatus (agent_Status (FillDefaultValue a)))
            then (Done (zero_result, None), w)
            else let (e, w') := api_UpdateStatus (set_agent_status (FillDefaultValue a) (sts_Status item)) w in
                 (Done (zero_result, Wrapf e "failed to update agent status"), w')
        end
    end.
Proof.
  intros Ha Hd Hs Hr. unfold recorded_spec in Hr. unfold Reconcile. api_run. rewrite Ha, Hd.
  rewrite bool_decide_false by (by intros [? ?]). api_run. rewrite Hs, fill_meta, Hr.
  rewrite bool_decide_true by done. cbn [negb]. api_run.
  assert (getLables (FillDefaultValue a) = getLables a) as ->
    by (unfold getLables; by rewrite fill_meta).
  destruct (api_ListStatefulSets _ _ w) as [items|e]; [|done].
  case_bool_decide; [done|]. destruct items as [|item items]; [done|].
  case_bool_decide; [done|]. api_run. by destruct (api_UpdateStatus _ w).
Qed.

(** A creation that reported success is a fixed point: as long as the objects stay as
    it left them and the cache has caught up, every later reconciliation finds the recorded spec equal to the agent's,
    never rewrites an owned object and changes no desired state, whatever it returns. The
    hypothesis on JSON says that the spec survives encoding and decoding. *)
Theorem Reconcile_converges nn a w res w' d :
  creating nn a w -> reconcile nn w = (Done (res, None), w') ->
  json_Marshal (agent_Spec (without_snapshot (FillDefaultValue a))) = inl d ->
  json_Unmarshal d = inl (agent_Spec (without_snapshot (FillDefaultValue a))) ->
  forall w2 a2 sts2, objects w2 = objects w' -> synced w2 ->
  api_GetAgent nn w2 = inl a2 -> api_GetStatefulSet nn w2 = inl sts2 ->
  DeletionTimestamp (agent_meta a2) = None ->
  recorded_spec a2 = inl (agent_Spec (FillDefaultValue a2)) /\
  forall k, desired <$> objects (reconcile nn w2).2 !! k = desired <$> objects w2 !! k.
Proof.
  intros Hcr Hrun Hm Hu w2 a2 sts2 Hobj Hsy Ha2 Hs2 Hd2.
  rewrite (Reconcile_creating nn a w Hcr) in Hrun. unfold requeue in Hrun. go_inv.
  destruct r as [e|]; go_inv.
  apply CreateResource_prefix in E as (rs & n & Hrs & Hn & Hc & Hiff).
  assert (n = 5) as -> by by apply Hiff.
  pose proof (created_agent nn a w w' rs 5 Hcr Hn Hc) as Hag.
  rewrite decide_True in Hag by done.
  destruct Hag as (a' & Hl & Hsp & Han).
  pose proof (get_agent_law nn w2) as Hg. rewrite Ha2, Hsy, Hobj, Hl in Hg. destruct Hg as [[= <-] _].
  assert (recorded_spec a' = inl (agent_Spec (FillDefaultValue a'))) as Hrec.
  { unfold recorded_spec, map_get. rewrite Han.
    destruct (record_spec_fields json_Marshal (without_snapshot (FillDefaultValue a)))
      as (_ & _ & Hann). unfold map_get, recorded in *.
    by rewrite Hann, Hm, Hu, (fill_fixed SetControllerReference a a' Hsp), Hsp. }
  split; [done|]. intros k. rewrite (Reconcile_in_step nn a' sts2 w2) by done.
  destruct (api_ListStatefulSets _ _ w2) as [items|e]; [|done].
  case_bool_decide; [done|]. destruct items as [|item items]; [done|].
  case_bool_decide; [done|]. set (b := set_agent_status _ _).
  pose proof (update_status_law b w2) as Hus. destruct (api_UpdateStatus b w2) as [[e|] w3]; cbn.
  { by rewrite Hus. }
  destruct Hus as (b0 & b1 & Hb0 & Hdes & ->).
  destruct (decide (k = object_key (ObjAgent b))) as [->|Hk].
  - rewrite lookup_insert_eq, Hb0. cbn [fmap option_fmap option_map]. by rewrite Hdes.
  - by rewrite lookup_insert_ne.
Qed.

(** C34: a creation that stores the stateful set but fails to record the spec on the agent
    is never repaired: every reconciliation that sees the same objects ends in the decoding
    error of the missing annotation and changes nothing. *)
Theorem Reconcile_stuck nn a w res e w' e0 :
  creating nn a w -> synced w -> reconcile nn w = (Done (res, Some e), w') ->
  map_get (Annotations (agent_meta a)) "spec" = "" -> json_Unmarshal "" = inr e0 ->
  forall w2 a2 sts2, objects w2 = objects w' -> synced w2 ->
  api_GetAgent nn w2 = inl a2 -> api_GetStatefulSet nn w2 = inl sts2 ->
  a2 = a /\ reconcile nn w2 = (Done (zero_result, Some e0), w2).
Proof.
  intros Hcr Hsy Hrun Hann He0 w2 a2 sts2 Hobj Hsy2 Ha2 Hs2.
  rewrite (Reconcile_creating nn a w Hcr) in Hrun. unfold requeue in Hrun. go_inv.
  destruct r as [e'|]; go_inv.
  apply CreateResource_prefix in E as (rs & n & Hrs & Hn & Hc & Hiff).
  pose proof (created_agent nn a w w' rs n Hcr Hn Hc) as Hag.
  destruct (decide (n = 5)) as [Hn5|_]; [by apply Hiff in Hn5|].
  destruct Hcr as (Ha & Hd & _).
  pose proof (get_agent_law nn w) as Hg. rewrite Ha, Hsy in Hg. destruct Hg as [Hg _].
  pose proof (get_agent_law nn w2) as Hg2. rewrite Ha2, Hsy2, Hobj, Hag, Hg in Hg2.
  destruct Hg2 as [[= <-] _]. split; [done|].
  pose proof (Reconcile_idle nn w2) as Hnw. rewrite Ha2, Hs2 in Hnw.
  destruct Hnw as [_ Hnw]. specialize (Hnw Hd). unfold recorded_spec in Hnw.
  by rewrite Hann, He0 in Hnw.
Qed.

(** When no stateful set carries the agent's own label, the test on the size of the
    list does not protect the access to its first item: [Size] is the length of the
    protobuf encoding of the list, and [Reconcile] panics whenever that is not zero for
    the empty list. *)
Theorem Reconcile_empty_list_panics nn a sts w :
  api_GetAgent nn w = inl a -> DeletionTimestamp (agent_meta a) = None ->
  api_GetStatefulSet nn w = inl sts ->
  recorded_spec a = inl (agent_Spec (FillDefaultValue a)) ->
  api_ListStatefulSets (Namespace (agent_meta a)) (getLables a) w = inl [] ->
  StatefulSetList_Size [] <> 0%Z ->
  reconcile nn w = (Panic "index out of range [0] with length 0", w).
Proof.
  intros Ha Hd Hs Hr Hl Hsz. rewrite (Reconcile_in_step nn a sts w) by done.
  by rewrite Hl, bool_decide_false.
Qed.
End ReconcileTheorems.

(** ** A server in memory, for the witnesses *)

#[local] Existing Instance text_k8s.

(** A map of objects, and the cache; [refuse_agent] makes every update of an agent fail, [hide_sets] makes
    every list of stateful sets empty. *)
Record memory_server := MemoryServer {
  memory_objects : gmap (string * namespaced_name) (@client_object text_k8s);
  memory_cache : gmap (string * namespaced_name) (@client_object text_k8s);
  refuse_agent : bool;
  hide_sets : bool;
}.

Definition put_object (o : @client_object text_k8s) (w : memory_server) : memory_server :=
  MemoryServer (<[object_key o := o]> (memory_objects w)) (memory_cache w) (refuse_agent w) (hide_sets w).
(** The cache catches up. *)
Definition sync (w : memory_server) : memory_server :=
  MemoryServer (memory_objects w) (memory_objects w) (refuse_agent w) (hide_sets w).

Definition memory_update (o : @client_object text_k8s) (w : memory_server)
  : option api_error * memory_server :=
  match memory_objects w !! object_key o with
  | None => (Some (ErrNotFound "not found"), w)
  | Some _ => match o with
              | ObjAgent _ => if refuse_agent w then (Some (ErrOther "conflict"), w)
                              else (None, put_object o w)
              | _ => (None, put_object o w)
              end
  end.

#[global] Instance memory_api : @ApiServer text_k8s memory_server := {|
  api_GetAgent nn w := match memory_cache w !! ("Agent", nn) with
    | None => inr (ErrNotFound "not found")
    | Some (ObjAgent a) => if bool_decide (object_key (ObjAgent a) = ("Agent", nn)) then inl a
                           else inr (ErrOther "bad object")
    | Some _ => inr (ErrOther "bad object")
    end;
  api_GetStatefulSet nn w := match memory_cache w !! ("StatefulSet", nn) with
    | None => inr (ErrNotFound "not found")
    | Some (ObjStatefulSet s) =>
        if bool_decide (object_key (ObjStatefulSet s) = ("StatefulSet", nn)) then inl s
        else inr (ErrOther "bad object")
    | Some _ => inr (ErrOther "bad object")
    end;
  api_ListStatefulSets ns labels w := if hide_sets w then inl [] else inl
    (omap (fun kv => match kv.2 with
                     | ObjStatefulSet s => if bool_decide (Namespace (sts_meta s) = ns) then Some s else None
                     | _ => None end) (map_to_list (memory_cache w)));
  api_Create o w := match memory_objects w !! object_key o with
    | Some _ => (Some (ErrAlreadyExists "already exists"), w)
    | None => (None, put_object o w)
    end;
  api_Update := memory_update;
  api_UpdateStatus a w := match memory_objects w !! object_key (ObjAgent a) with
    | Some (ObjAgent a0) =>
        (None, MemoryServer (<[object_key (ObjAgent a) :=
                   ObjAgent (set_agent_status a0 (agent_StatefulSetStatus (agent_Status a)))]>
                 (memory_objects w)) (memory_cache w) (refuse_agent w) (hide_sets w))
    | _ => (Some (ErrNotFound "not found"), w)
    end;
|}.

#[global] Instance memory_laws : @ApiServerLaws text_k8s memory_server memory_api.
Proof.
  refine {| objects := memory_objects; cached := memory_cache |}.
  - intros nn w. cbn. destruct (memory_cache w !! ("Agent", nn)) as [[]|] eqn:E; try done.
    case_bool_decide; done.
  - intros nn w. cbn. destruct (memory_cache w !! ("StatefulSet", nn)) as [[]|] eqn:E; try done.
    case_bool_decide; done.
  - intros o w. cbn. destruct (memory_objects w !! object_key o) eqn:E; [done|]. split; [done|].
    by exists o.
  - intros o w. cbn. unfold memory_update. destruct (memory_objects w !! object_key o) eqn:E; [|done].
    destruct o; try (split; [by eexists|]; by eexists). destruct (refuse_agent w); [done|].
    split; [by eexists|]. by eexists.
  - intros a w. cbn. destruct (memory_objects w !! object_key (ObjAgent a)) as [[]|] eqn:E; try done.
    do 2 eexists. split_and!; [reflexivity| |reflexivity]. reflexivity.
  - intros o w. cbn. by destruct (memory_objects w !! object_key o).
  - intros o w. cbn. unfold memory_update. destruct (memory_objects w !! object_key o); [|done].
    destruct o; try done. by destruct (refuse_agent w).
  - intros a w. cbn. by destruct (memory_objects w !! object_key (ObjAgent a)) as [[]|].
Defined.

(** One agent, [demo/agent-sample], and nothing else. The JSON text of a spec is its image,
    which is enough to tell the specs of the witnesses apart. *)
Definition one_agent (refuse hide : bool) : memory_server :=
  sync (MemoryServer {[("Agent", ("demo", "agent-sample")) := ObjAgent sample_agent]} ∅ refuse hide).
Definition sample_spec : @AgentSpec text_k8s := agent_Spec (without_snapshot sample).
Definition image_json : @AgentSpec text_k8s -> string + error := fun s => inl (Image s).
Definition image_spec : string -> @AgentSpec text_k8s + error := fun d =>
  if bool_decide (d = "nginx:stable") then inl sample_spec else inr "unexpected end of JSON input".
(** The encoding of a list holds its metadata in two bytes at least. *)
Definition encoded_size (l : list (@StatefulSet text_k8s)) : Z := (2 + 100 * Z.of_nat (length l))%Z.

Definition memory_reconcile : namespaced_name -> prog memory_server (reconcile_result * option error) :=
  Reconcile no_refs image_json image_spec encoded_size.
Definition demo : namespaced_name := ("demo", "agent-sample").

Lemma one_agent_creating refuse hide : creating demo sample_agent (one_agent refuse hide).
Proof. split_and!; [reflexivity|reflexivity|]. eexists. split; reflexivity. Qed.

(** ** Witnesses *)

Lemma CreateResource_order_witness :
  exists w' rs n,
    CreateResource no_refs image_json (FillDefaultValue sample_agent) (one_agent false false)
      = (Done None, w') /\ n = 5 /\
    chain (take n (create_order no_refs image_json (FillDefaultValue sample_agent) rs))
      (objects (one_agent false false)) (objects w').
Proof.
  destruct (CreateResource no_refs image_json (FillDefaultValue sample_agent) (one_agent false false))
    as [o w'] eqn:E.
  assert (o = Done None) as -> by run_outcome E.
  destruct (CreateResource_order no_refs image_json sample_agent _ _ _ E)
    as (rs & n & _ & _ & Hc & Hn).
  exists w', rs, n. split_and!; [reflexivity|by apply Hn|exact Hc].
Defined.

Lemma UpdateResource_order_witness :
  exists sts w' rs n,
    UpdateResource no_refs image_json sts (FillDefaultValue sample_agent)
      (memory_reconcile demo (one_agent false false)).2 = (Done None, w') /\ n = 5 /\
    chain (take n (update_order no_refs image_json (FillDefaultValue sample_agent) rs sts))
      (objects (memory_reconcile demo (one_agent false false)).2) (objects w').
Proof.
  set (sts := res_StatefulSet (agent_resources no_refs sample default_resources)).
  exists sts.
  destruct (UpdateResource no_refs image_json sts (FillDefaultValue sample_agent)
    (memory_reconcile demo (one_agent false false)).2) as [o w'] eqn:E.
  assert (o = Done None) as -> by run_outcome E.
  destruct (UpdateResource_order no_refs image_json sample_agent sts _ _ _ E)
    as (rs & n & _ & _ & Hc & Hn).
  exists w', rs, n. split_and!; [reflexivity|by apply Hn|exact Hc].
Defined.

Lemma Reconcile_no_write_witness :
  memory_reconcile demo (MemoryServer ∅ ∅ false false) = (Done (zero_result, None), MemoryServer ∅ ∅ false false).
Proof.
  exact (Reconcile_no_write no_refs image_json image_spec encoded_size demo (MemoryServer ∅ ∅ false false)).
Defined.

Lemma Reconcile_creates_witness :
  exists res w', memory_reconcile demo (one_agent false false) = (Done (res, None), w') /\
    RequeueAfter res = Some 60%Z.
Proof.
  destruct (Reconcile_creates no_refs image_json image_spec encoded_size demo sample_agent
              (one_agent false false) (one_agent_creating _ _)) as (res & err & w' & E & H).
  assert (err = None) as -> by (pose proof (f_equal fst E) as E1;
    revert E1; vm_compute; congruence).
  exists res, w'. split; [exact E|]. by apply H.
Defined.

(** The server after a reconciliation, and what reading it back shows of the agent. *)
Definition server_after (refuse hide : bool) : memory_server :=
  sync (memory_reconcile demo (one_agent refuse hide)).2.
Definition agent_view {A} (f : @Agent text_k8s -> A) (w : memory_server) : option A :=
  match api_GetAgent demo w with inl a => Some (f a) | inr _ => None end.
Definition has_set (w : memory_server) : bool :=
  match api_GetStatefulSet demo w with inl _ => true | inr _ => false end.
Definition in_step (a : @Agent text_k8s) : bool :=
  bool_decide (DeletionTimestamp (agent_meta a) = None) &&
  bool_decide (recorded_spec image_spec a = inl (agent_Spec (FillDefaultValue a))).

Lemma agent_view_inv {A} (f : @Agent text_k8s -> A) w x :
  agent_view f w = Some x -> exists a, api_GetAgent demo w = inl a /\ f a = x.
Proof. unfold agent_view. destruct (api_GetAgent demo w); naive_solver. Qed.

Lemma has_set_inv w : has_set w = true -> exists s, api_GetStatefulSet demo w = inl s.
Proof. unfold has_set. destruct (api_GetStatefulSet demo w); naive_solver. Qed.

Lemma bool_decide_andb (P Q : Prop) `{Decision P, Decision Q} :
  bool_decide P && bool_decide Q = true -> P /\ Q.
Proof. by rewrite andb_true_iff, !bool_decide_eq_true. Qed.

Lemma Reconcile_converges_witness :
  exists a2, api_GetAgent demo (server_after false false) = inl a2 /\
    forall k, desired <$> objects (memory_reconcile demo (server_after false false)).2 !! k
              = desired <$> objects (server_after false false) !! k.
Proof.
  destruct (memory_reconcile demo (one_agent false false)) as [o w'] eqn:E.
  assert (o = Done (MkResult (Some 60%Z), None)) as -> by run_outcome E.
  assert (server_after false false = sync w') as Hafter by (unfold server_after; rewrite E; reflexivity).
  destruct (agent_view_inv in_step (server_after false false) true) as (a2 & Ea & Hst);
    [vm_compute; reflexivity|].
  destruct (has_set_inv (server_after false false)) as [s2 Es]; [vm_compute; reflexivity|].
  apply bool_decide_andb in Hst as [Hd _].
  exists a2. split; [exact Ea|].
  exact (proj2 (Reconcile_converges no_refs image_json image_spec encoded_size demo sample_agent
           (one_agent false false) _ _ "nginx:stable" (one_agent_creating _ _) E eq_refl eq_refl
           (server_after false false) a2 s2 ltac:(rewrite Hafter; reflexivity) eq_refl Ea Es Hd)).
Defined.

Lemma Reconcile_stuck_witness :
  has_set (server_after true false) = true /\
  memory_reconcile demo (server_after true false) =
    (Done (zero_result, Some "unexpected end of JSON input"), server_after true false).
Proof.
  split; [vm_compute; reflexivity|].
  destruct (memory_reconcile demo (one_agent true false)) as [o w'] eqn:E.
  assert (o = Done (zero_result, Some "conflict")) as -> by run_outcome E.
  assert (server_after true false = sync w') as Hafter by (unfold server_after; rewrite E; reflexivity).
  destruct (agent_view_inv (fun _ => tt) (server_after true false) tt) as (a2 & Ea & _);
    [vm_compute; reflexivity|].
  destruct (has_set_inv (server_after true false)) as [s2 Es]; [vm_compute; reflexivity|].
  exact (proj2 (Reconcile_stuck no_refs image_json image_spec encoded_size demo sample_agent
           (one_agent true false) _ _ _ "unexpected end of JSON input" (one_agent_creating _ _) eq_refl E
           eq_refl eq_refl (server_after true false) a2 s2 ltac:(rewrite Hafter; reflexivity) eq_refl Ea Es)).
Defined.

Lemma Reconcile_empty_list_panics_witness :
  memory_reconcile demo (server_after false true) =
    (Panic "index out of range [0] with length 0", server_after false true).
Proof.
  destruct (agent_view_inv in_step (server_after false true) true) as (a & Ea & Hst);
    [vm_compute; reflexivity|].
  destruct (has_set_inv (server_after false true)) as [s Es]; [vm_compute; reflexivity|].
  apply bool_decide_andb in Hst as [Hd Hr].
  assert (hide_sets (server_after false true) = true) as Hh by (vm_compute; reflexivity).
  apply (Reconcile_empty_list_panics no_refs image_json image_spec encoded_size demo a s
           (server_after false true) Ea Hd Es Hr); [|discriminate].
  cbn [api_ListStatefulSets memory_api]. rewrite Hh. reflexivity.
Defined.
