(* ===== verification/ReconcilerSpec.v ===== *)
(** * What the operator promises: an abstract machine that [Reconcile] refines

    The abstract state is the desired part of every object of the cluster, without what the
    API server sets itself. One abstract step leaves it alone, or writes a prefix of the
    plan for one agent; which of the two, and with which result, depends on that state and
    on whether a call fails. *)

From stdpp Require Import base tactics option list gmap strings.
From S2P Require Import Prelude GoStrings AgentTypes Converter Goroutines Reconciler.

Local Open Scope string_scope.

Section Spec.
Context `{K8sTypes}.
Variable SetControllerReference : Agent -> ObjectMeta -> list OwnerReference.
Variable json_Marshal : AgentSpec -> string + error.
Variable json_Unmarshal : string -> AgentSpec + error.

Abbreviation cluster := (gmap (string * namespaced_name) client_object).

Definition put (m : cluster) (o : client_object) : cluster := <[object_key o := desired o]> m.
Definition put_all (os : list client_object) (m : cluster) : cluster := foldl put m os.

(** The agent and the stateful set with the name of the request. *)
Definition agent_is (nn : namespaced_name) (a : Agent) (m : cluster) : Prop :=
  m !! ("Agent", nn) = Some (desired (ObjAgent a)) /\ object_key (ObjAgent a) = ("Agent", nn).
Definition set_is (nn : namespaced_name) (s : StatefulSet) (m : cluster) : Prop :=
  m !! ("StatefulSet", nn) = Some (desired (ObjStatefulSet s)) /\
  object_key (ObjStatefulSet s) = ("StatefulSet", nn).

(** The writes for an agent, and whether all of them were done. *)
Inductive applied (plan : list client_object) (m : cluster) : reconcile_result -> option error -> cluster -> Prop :=
| applied_all : applied plan m (MkResult (Some time_Minute)) None (put_all plan m)
| applied_some n e : n < length plan -> applied plan m zero_result (Some e) (put_all (take n plan) m).

Inductive operator_step (nn : namespaced_name) (m : cluster) : reconcile_result -> option error -> cluster -> Prop :=
| op_gone : m !! ("Agent", nn) = None -> operator_step nn m zero_result None m
| op_failed e : operator_step nn m zero_result (Some e) m
| op_deleting a :
    agent_is nn a m -> is_Some (DeletionTimestamp (agent_meta a)) -> operator_step nn m zero_result None m
| op_create a rs res err m' :
    agent_is nn a m -> DeletionTimestamp (agent_meta a) = None ->
    Resources (agent_Spec (FillDefaultValue a)) = Some rs ->
    m !! ("StatefulSet", nn) = None ->
    applied (create_order SetControllerReference json_Marshal (FillDefaultValue a) rs) m res err m' ->
    operator_step nn m res err m'
| op_update a old rs s res err m' :
    agent_is nn a m -> DeletionTimestamp (agent_meta a) = None ->
    Resources (agent_Spec (FillDefaultValue a)) = Some rs ->
    set_is nn old m -> recorded_spec json_Unmarshal a = inl s -> s <> agent_Spec (FillDefaultValue a) ->
    applied (update_order SetControllerReference json_Marshal (FillDefaultValue a) rs old) m res err m' ->
    operator_step nn m res err m'
| op_in_step a old :
    agent_is nn a m -> DeletionTimestamp (agent_meta a) = None ->
    set_is nn old m -> recorded_spec json_Unmarshal a = inl (agent_Spec (FillDefaultValue a)) ->
    operator_step nn m zero_result None m.

(** ** What the specification says by itself *)

Lemma put_all_other os m k : k ∉ map object_key os -> put_all os m !! k = m !! k.
Proof.
  revert m. induction os as [|o os IH]; intros m Hk; [done|]. cbn [map] in Hk.
  apply not_elem_of_cons in Hk as [Ho Hos]. change (put_all os (put m o) !! k = m !! k).
  rewrite IH by done. by apply lookup_insert_ne.
Qed.

Lemma put_all_in os m o :
  NoDup (map object_key os) -> o ∈ os -> put_all os m !! object_key o = Some (desired o).
Proof.
  revert m. induction os as [|o' os IH]; intros m Hnd Ho; [set_solver|]. cbn [map] in Hnd.
  apply NoDup_cons in Hnd as [Hn Hnd]. change (put_all os (put m o') !! object_key o = Some (desired o)).
  apply elem_of_cons in Ho as [->|Ho]; [|by apply IH].
  rewrite put_all_other by done. apply lookup_insert_eq.
Qed.

Lemma chain_put (os : list client_object) (m m' : cluster) : chain os m m' -> desired <$> m' = put_all os (desired <$> m).
Proof.
  revert m. induction os as [|o os IH]; intros m Hc; [by cbn in Hc; subst|].
  destruct Hc as (o' & Hd & Hc). rewrite (IH _ Hc), fmap_insert, Hd. done.
Qed.

(** Nothing that decides is lost in [desired]. *)
Lemma desired_agent a b :
  desired (ObjAgent a) = desired (ObjAgent b) ->
  agent_Spec a = agent_Spec b /\ Annotations (agent_meta a) = Annotations (agent_meta b) /\
  DeletionTimestamp (agent_meta a) = DeletionTimestamp (agent_meta b).
Proof. destruct a as [[] ? ?], b as [[] ? ?]. cbn. intros [=]. by subst. Qed.

(** The names of what one agent owns, its own included. *)
Definition owned (nn : namespaced_name) : list (string * namespaced_name) :=
  let '(ns, name) := nn in
  [("ServiceAccount", (ns, ("source-cov-" +:+ name) +:+ "-sa"));
   ("Role", (ns, ("source-cov-" +:+ name) +:+ "-role"));
   ("RoleBinding", (ns, ("source-cov-" +:+ name) +:+ "-rb")); ("StatefulSet", nn); ("Agent", nn)].

Lemma recorded_key nn a :
  object_key (ObjAgent a) = ("Agent", nn) ->
  object_key (ObjAgent (recorded json_Marshal (FillDefaultValue a))) = ("Agent", nn).
Proof.
  intros <-. unfold recorded.
  destruct (record_spec_fields json_Marshal (without_snapshot (FillDefaultValue a))) as (_ & -> & _).
  unfold object_key. cbn. by rewrite fill_meta.
Qed.

Lemma create_keys nn a rs :
  object_key (ObjAgent a) = ("Agent", nn) ->
  map object_key (create_order SetControllerReference json_Marshal (FillDefaultValue a) rs) = owned nn.
Proof.
  intros Ha. pose proof (recorded_key nn a Ha) as Hag. destruct nn as [ns name].
  unfold object_key in Ha. cbn in Ha. injection Ha as Hns Hname.
  unfold create_order. cbn [map]. rewrite Hag. unfold owned, object_key. cbn.
  unfold getServiceAccountName, getRoleName, getNamePrefix, without_snapshot, set_spec, set_agent_annotations. cbn [agent_meta Name Namespace].
  by rewrite !fill_meta, Hns, Hname.
Qed.

Lemma update_keys nn a rs old :
  object_key (ObjAgent a) = ("Agent", nn) -> object_key (ObjStatefulSet old) = ("StatefulSet", nn) ->
  map object_key (update_order SetControllerReference json_Marshal (FillDefaultValue a) rs old) ≡ₚ owned nn.
Proof.
  intros Ha Ho. rewrite <- (create_keys nn a rs Ha). unfold create_order, update_order. cbn [map].
  change (object_key (ObjStatefulSet (set_sts_spec old _))) with (object_key (ObjStatefulSet old)).
  rewrite Ho. assert (object_key (ObjStatefulSet (res_StatefulSet
    (agent_resources SetControllerReference (FillDefaultValue a) rs))) = ("StatefulSet", nn)) as ->.
  { rewrite (surjective_pairing nn). unfold object_key in *. cbn in *. rewrite fill_meta. by injection Ha as <-. }
  solve_Permutation.
Qed.

Lemma owned_NoDup nn : NoDup (owned nn).
Proof. destruct nn. unfold owned. repeat (constructor; [set_solver|]). constructor. Qed.

(** Agents with different names own different objects. *)
Lemma owned_disjoint nn nn' k : k ∈ owned nn -> k ∈ owned nn' -> nn = nn'.
Proof.
  destruct nn as [ns name], nn' as [ns' name']. unfold owned.
  rewrite !elem_of_cons, !elem_of_nil.
  intros Hk Hk'. assert (ns = ns' /\ name = name') as [-> ->]; [|done].
  destruct_or! Hk; destruct_or! Hk'; try done; subst k; simplify_eq; try done;
    match goal with Heq : _ +:+ _ = _ +:+ _ |- _ => split; [done|exact (str_app_inj_r _ _ _ Heq)] end.
Qed.

Lemma applied_frame plan m res err m' k :
  applied plan m res err m' -> k ∉ map object_key plan -> m' !! k = m !! k.
Proof.
  intros [|n e _] Hk; [by apply put_all_other|]. apply put_all_other.
  rewrite <- firstn_map. intros (i & Hi & _)%elem_of_take. apply Hk. by eapply list_elem_of_lookup_2.
Qed.

(** A step for one agent changes no object but its own. *)
Lemma operator_step_frame nn m res err m' k :
  operator_step nn m res err m' -> k ∉ owned nn -> m' !! k = m !! k.
Proof.
  intros Hs Hk.
  destruct Hs as [|?| |a rs ? ? ? [_ Ha] _ _ _ Hp|a old ? ? ? ? ? [_ Ha] _ _ [_ Ho] _ _ Hp|]; try done;
    (eapply applied_frame; [exact Hp|]).
  - by rewrite (create_keys nn a _ Ha).
  - by rewrite (update_keys nn a _ old Ha Ho).
Qed.

(** ** Convergence

    After a step that asks to run again, the agent records its own spec, so the next steps
    for it change nothing. The hypothesis on JSON says that the spec survives encoding and
    decoding. *)

Definition json_ok (s : AgentSpec) : Prop :=
  exists d, json_Marshal s = inl d /\ json_Unmarshal d = inl s.

(** The agent's stateful set is there and its recorded spec is its own. *)
Definition settled (nn : namespaced_name) (m : cluster) : Prop :=
  is_Some (m !! ("StatefulSet", nn)) /\
  exists a, agent_is nn a m /\ recorded_spec json_Unmarshal a = inl (agent_Spec (FillDefaultValue a)).

Lemma applied_recorded plan m res m' o :
  applied plan m res None m' -> NoDup (map object_key plan) -> o ∈ plan ->
  m' !! object_key o = Some (desired o).
Proof. inversion 1; subst. by apply put_all_in. Qed.

Lemma fill_recorded a :
  json_ok (agent_Spec (without_snapshot (FillDefaultValue a))) ->
  recorded_spec json_Unmarshal (recorded json_Marshal (FillDefaultValue a)) =
    inl (agent_Spec (FillDefaultValue (recorded json_Marshal (FillDefaultValue a)))).
Proof.
  intros (d & Hm & Hu). unfold recorded_spec, recorded.
  destruct (record_spec_fields json_Marshal (without_snapshot (FillDefaultValue a))) as (Hsp & _ & Hann).
  by rewrite Hann, Hm, Hu, (fill_fixed SetControllerReference a _ Hsp), Hsp.
Qed.

Lemma written_settles nn a old m res m' plan :
  applied plan m res None m' -> map object_key plan ≡ₚ owned nn ->
  ObjStatefulSet old ∈ plan -> object_key (ObjStatefulSet old) = ("StatefulSet", nn) ->
  ObjAgent (recorded json_Marshal (FillDefaultValue a)) ∈ plan ->
  object_key (ObjAgent a) = ("Agent", nn) ->
  json_ok (agent_Spec (without_snapshot (FillDefaultValue a))) -> settled nn m'.
Proof.
  intros Hp Hkeys Hs Hsk Ha Hak Hj.
  assert (Hnd : NoDup (map object_key plan)) by (rewrite Hkeys; apply owned_NoDup).
  pose proof (recorded_key nn a Hak) as Hrk. split.
  - rewrite <- Hsk. eexists. by eapply applied_recorded.
  - eexists. split; [split; [|exact Hrk]|by apply fill_recorded].
    rewrite <- Hrk. by eapply applied_recorded.
Qed.

Lemma operator_step_settles nn m res m' :
  operator_step nn m res None m' -> RequeueAfter res <> None ->
  (forall a, agent_is nn a m -> json_ok (agent_Spec (without_snapshot (FillDefaultValue a)))) ->
  settled nn m'.
Proof.
  intros Hs Hr Hj. inversion Hs as [| | |a rs ? ? ? [Hm Ha] _ _ _ Hp|a old rs ? ? ? ? [Hm Ha] _ _ [_ Ho] _ _ Hp|];
    subst; cbn in Hr; try done.
  - eapply (written_settles nn a); [exact Hp|by rewrite (create_keys nn a rs Ha)|..];
      [by apply list_elem_of_further, list_elem_of_further, list_elem_of_further, list_elem_of_here| |by do 4 apply list_elem_of_further; apply list_elem_of_here|done|by apply Hj].
    pose proof (f_equal (fun l => nth 3 l ("", nn)) (create_keys nn a rs Ha)) as Hk. by destruct nn.
  - eapply (written_settles nn a); [exact Hp|by rewrite (update_keys nn a rs old Ha Ho)|..];
      [by apply list_elem_of_further, list_elem_of_further, list_elem_of_further, list_elem_of_here|exact Ho|by do 4 apply list_elem_of_further; apply list_elem_of_here|done|by apply Hj].
Qed.

Lemma settled_stays nn m res err m' : settled nn m -> operator_step nn m res err m' -> m' = m.
Proof.
  intros ((s & Hset) & a & [Hm Ha] & Hrec) Hs.
  assert (Hsame : forall a', agent_is nn a' m -> recorded_spec json_Unmarshal a' = inl (agent_Spec (FillDefaultValue a'))).
  { intros a' [Hm' _]. rewrite Hm in Hm'. apply (inj Some), desired_agent in Hm' as (Hsp & Han & _).
    unfold recorded_spec in *. rewrite <- Han, Hrec. f_equal. clear -Hsp. destruct a, a'. cbn in Hsp. subst.
    unfold FillDefaultValue. cbn. case_bool_decide; cbn; by destruct (Resources _). }
  destruct Hs as [| | |a' ? ? ? ? _ _ _ Hno _|a' ? ? ? ? ? ? Ha' _ _ _ Hr Hne _|]; try done.
  - by rewrite Hset in Hno.
  - rewrite (Hsame a' Ha') in Hr. congruence.
Qed.
End Spec.

(** ** The refinement *)

Section Refinement.
Context `{K8sTypes} {W : Type} `{!ApiServer W} `{!ApiServerLaws W}.
Variable SetControllerReference : Agent -> ObjectMeta -> list OwnerReference.
Variable json_Marshal : AgentSpec -> string + error.
Variable json_Unmarshal : string -> AgentSpec + error.
Variable StatefulSetList_Size : list StatefulSet -> Z.
Implicit Types (a : Agent) (w : W) (nn : namespaced_name).

Abbreviation reconcile :=
  (Reconcile SetControllerReference json_Marshal json_Unmarshal StatefulSetList_Size).
Abbreviation spec_step := (operator_step SetControllerReference json_Marshal json_Unmarshal).

(** The abstract state of a server. *)
Definition view w : gmap (string * namespaced_name) client_object := desired <$> objects w.

(** What the operator sees of it. *)
Definition seen w : gmap (string * namespaced_name) client_object := desired <$> cached w.
Lemma synced_seen w : synced w -> seen w = view w.
Proof. unfold synced, seen, view. by intros ->. Qed.

Lemma seen_agent nn w :
  match api_GetAgent nn w with
  | inl a => agent_is nn a (seen w)
  | inr e => IsNotFound e = true -> seen w !! ("Agent", nn) = None
  end.
Proof.
  pose proof (get_agent_law nn w) as Hl. unfold agent_is, seen. rewrite lookup_fmap.
  destruct (api_GetAgent nn w); [by destruct Hl as [-> Hk]|]. intros He. by rewrite Hl.
Qed.
Lemma seen_set nn w :
  match api_GetStatefulSet nn w with
  | inl s => set_is nn s (seen w)
  | inr e => IsNotFound e = true -> seen w !! ("StatefulSet", nn) = None
  end.
Proof.
  pose proof (get_sts_law nn w) as Hl. unfold set_is, seen. rewrite lookup_fmap.
  destruct (api_GetStatefulSet nn w); [by destruct Hl as [-> Hk]|]. intros He. by rewrite Hl.
Qed.

Lemma applied_requeue (m : prog W (option error)) plan w o w' :
  writes_prefix m plan -> is_done (m w).1 = true -> requeue m w = (o, w') ->
  exists res err, o = Done (res, err) /\ applied plan (view w) res err (view w').
Proof.
  intros Hp Hd. unfold requeue. rewrite bind_run. destruct (m w) as [[r| |] w1] eqn:E; try discriminate Hd.
  apply Hp in E as (n & Hn & Hc & Hiff). apply chain_put in Hc. unfold view.
  destruct r as [e|]; intros [= <- <-]; (do 2 eexists; split; [reflexivity|]); rewrite Hc.
  - constructor. destruct (decide (n = length plan)) as [He|]; [by apply Hiff in He|lia].
  - rewrite (proj1 Hiff), take_ge by done. constructor.
Qed.

Lemma CreateResource_writes a rs :
  Resources (agent_Spec a) = Some rs ->
  writes_prefix (CreateResource SetControllerReference json_Marshal a)
    (create_order SetControllerReference json_Marshal a rs).
Proof.
  intros Hrs w r w'. unfold CreateResource. rewrite (on_agent_convert _ _ rs) by done.
  apply create_objects_prefix.
Qed.
Lemma UpdateResource_writes a old rs :
  Resources (agent_Spec a) = Some rs ->
  writes_prefix (UpdateResource SetControllerReference json_Marshal old a)
    (update_order SetControllerReference json_Marshal a rs old).
Proof.
  intros Hrs w r w'. unfold UpdateResource. rewrite (on_agent_convert _ _ rs) by done.
  apply update_objects_prefix.
Qed.

Lemma UpdateResource_done a old w :
  is_done (UpdateResource SetControllerReference json_Marshal old (FillDefaultValue a) w).1 = true.
Proof.
  destruct (fill_resources a) as [rs Hrs]. unfold UpdateResource.
  rewrite (on_agent_convert _ _ rs) by done. unfold update_objects.
  repeat (apply return_if_err_done; [intros; first [apply upsert_done | apply create_done | apply update_done]|intros]).
  apply update_done.
Qed.

(** One run of [Reconcile] for any agent, after which the cache catches up. *)
Definition caught_up w w' : Prop := objects w' = objects w /\ synced w'.
Definition some_reconcile w w' : Prop := synced w /\ exists nn o w1, reconcile nn w = (o, w1) /\ caught_up w1 w'.

(** The status update leaves the abstract state alone. *)
Lemma status_view a w e w' : api_UpdateStatus a w = (e, w') -> view w' = view w.
Proof.
  intros Hu. pose proof (update_status_law a w) as Hl. rewrite Hu in Hl. unfold view.
  destruct e; [by rewrite Hl|]. destruct Hl as (a0 & a' & Ha & Hd & ->).
  rewrite fmap_insert, Hd. apply map_eq. intros k.
  destruct (decide (k = object_key (ObjAgent a))) as [->|]; [|by rewrite lookup_insert_ne].
  by rewrite lookup_insert_eq, lookup_fmap, Ha.
Qed.

Lemma reconcile_steps nn w o w' :
  synced w -> reconcile nn w = (o, w') ->
  match o with
  | Done (res, err) => spec_step nn (view w) res err (view w')
  | Panic _ => view w' = view w
  | Blocked => False
  end.
Proof.
  intros Hsy. pose proof (seen_agent nn w) as Hva. pose proof (seen_set nn w) as Hst. rewrite (synced_seen w Hsy) in *.
  unfold Reconcile. api_run.
  destruct (api_GetAgent nn w) as [a|e] eqn:Ha.
  2: { destruct (IsNotFound e) eqn:He; intros [= <- <-]; [|constructor]. constructor. by apply Hva. }
  case_bool_decide as Hdel; [intros [= <- <-]; by eapply op_deleting|].
  assert (Hd : DeletionTimestamp (agent_meta a) = None) by (destruct (DeletionTimestamp _); naive_solver).
  destruct (fill_resources a) as [rs Hrs]. api_run.
  destruct (api_GetStatefulSet nn w) as [old|e] eqn:Hs.
  2: { destruct (IsNotFound e) eqn:He; [|intros [= <- <-]; constructor]. intros Hr.
       eapply applied_requeue in Hr as (res & err & -> & Happ); [|by apply CreateResource_writes|apply CreateResource_done].
       eapply op_create; try done. by apply Hst. }
  rewrite fill_meta.
  destruct (json_Unmarshal _) as [s|e] eqn:Hj; [|intros [= <- <-]; constructor].
  case_bool_decide as Heq; cbn [negb].
  2: { intros Hr. eapply applied_requeue in Hr as (res & err & -> & Happ);
         [|by apply UpdateResource_writes|apply UpdateResource_done]. eapply op_update; done. }
  subst s. assert (Hin : spec_step nn (view w) zero_result None (view w)) by (by eapply op_in_step).
  api_run. destruct (api_ListStatefulSets _ _ w) as [items|e]; [|intros [= <- <-]; constructor].
  case_bool_decide; [by intros [= <- <-]|]. destruct items as [|item items]; [by intros [= <- <-]|].
  case_bool_decide; [by intros [= <- <-]|]. api_run.
  destruct (api_UpdateStatus _ w) as [e w1] eqn:Hu. intros [= <- <-]. rewrite (status_view _ _ _ _ Hu).
  by destruct e; [constructor|].
Qed.
Lemma reconcile_frame nn w o w' k :
  synced w -> reconcile nn w = (o, w') -> k ∉ owned nn -> view w' !! k = view w !! k.
Proof.
  intros Hsy Hr Hk. apply (reconcile_steps _ _ _ _ Hsy) in Hr. destruct o as [[res err]| |]; [|by rewrite Hr|done].
  by eapply operator_step_frame.
Qed.

Lemma settled_ext nn (m m' : gmap (string * namespaced_name) client_object) :
  (forall k, k ∈ owned nn -> m' !! k = m !! k) ->
  settled json_Unmarshal nn m -> settled json_Unmarshal nn m'.
Proof.
  intros Hk. unfold settled, agent_is. destruct nn as [ns name]. by rewrite !Hk by (unfold owned; set_solver).
Qed.

Lemma settled_run nn w w' :
  settled json_Unmarshal nn (view w) -> some_reconcile w w' ->
  forall k, k ∈ owned nn -> view w' !! k = view w !! k.
Proof.
  intros Hs (Hsy & nn' & o & w1 & Hr & Hobj & _) k Hk. assert (view w' = view w1) as -> by (unfold view; by rewrite Hobj).
  destruct (decide (nn' = nn)) as [->|Hne].
  - apply (reconcile_steps _ _ _ _ Hsy) in Hr. destruct o as [[res err]| |]; [|by rewrite Hr|done].
    by rewrite (settled_stays _ _ _ _ _ _ _ _ Hs Hr).
  - eapply reconcile_frame; [exact Hsy|exact Hr|]. intros Hk'. by apply Hne, (owned_disjoint _ _ k).
Qed.

(** C5: [Reconcile] refines the abstract operator: seen through what the API server does not
    set itself, a run alone that starts when the cache has caught up is one step of it with the
    same result if it returns; if it panics it changes nothing, and it never waits. *)
Theorem Reconcile_refines nn w o w' :
  synced w -> reconcile nn w = (o, w') ->
  match o with
  | Done (res, err) => spec_step nn (view w) res err (view w')
  | Panic _ => view w' = view w
  | Blocked => False
  end.
Proof. apply reconcile_steps. Qed.

(** C7: once a run has asked to be run again in a minute, whether it created or updated the
    objects, they stay as they are: no sequence of further runs, for this agent or others,
    changes what belongs to the agent, as long as the cache catches up before each run. The hypothesis on JSON says
    that the spec survives encoding and decoding. *)
Theorem Reconcile_stable nn w res w' w1 w2 :
  synced w -> reconcile nn w = (Done (res, None), w') -> RequeueAfter res <> None ->
  (forall a, agent_is nn a (view w) ->
     json_ok json_Marshal json_Unmarshal (agent_Spec (without_snapshot (FillDefaultValue a)))) ->
  caught_up w' w1 -> rtc some_reconcile w1 w2 -> forall k, k ∈ owned nn -> view w2 !! k = view w' !! k.
Proof.
  intros Hsy Hr Hres Hj [Hobj _] Hrtc. apply (reconcile_steps _ _ _ _ Hsy) in Hr. cbn in Hr.
  assert (Hs : settled json_Unmarshal nn (view w')) by (by eapply operator_step_settles).
  assert (view w1 = view w') as Hv by (unfold view; by rewrite Hobj). rewrite <- Hv in *.
  clear Hr Hres Hj Hobj Hv w'. induction Hrtc as [|w1 w2 w3 Hrun _ IH]; intros k Hk; [done|].
  pose proof (settled_run nn w1 w2 Hs Hrun) as Hsame.
  rewrite IH by (done || by eapply settled_ext). by apply Hsame.
Qed.
End Refinement.

(** ** Witnesses *)

#[local] Existing Instance text_k8s.

Lemma one_agent_synced refuse hide : synced (one_agent refuse hide).
Proof. reflexivity. Qed.

Lemma Reconcile_refines_witness :
  exists w', memory_reconcile demo (one_agent false false) = (Done (MkResult (Some 60%Z), None), w') /\
    operator_step no_refs image_json image_spec demo (view (one_agent false false))
      (MkResult (Some 60%Z)) None (view w').
Proof.
  destruct (memory_reconcile demo (one_agent false false)) as [o w'] eqn:E.
  assert (o = Done (MkResult (Some 60%Z), None)) as -> by run_outcome E.
  exists w'. split; [reflexivity|].
  exact (Reconcile_refines no_refs image_json image_spec encoded_size demo (one_agent false false) _ _ (one_agent_synced _ _) E).
Defined.

Lemma sync_caught_up (w : memory_server) : caught_up w (sync w).
Proof. done. Qed.

Lemma Reconcile_stable_witness :
  Forall (fun k => view (sync (memory_reconcile demo (server_after false false)).2) !! k =
                   view (memory_reconcile demo (one_agent false false)).2 !! k)
    (owned demo).
Proof.
  apply Forall_forall.
  destruct (memory_reconcile demo (one_agent false false)) as [o w'] eqn:E.
  assert (o = Done (MkResult (Some 60%Z), None)) as -> by run_outcome E.
  assert (server_after false false = sync w') as Hafter by (unfold server_after; rewrite E; reflexivity).
  apply (Reconcile_stable no_refs image_json image_spec encoded_size demo (one_agent false false) _ _ (server_after false false)
    _ (one_agent_synced _ _) E).
  - discriminate.
  - intros a [Ha _]. change (view (one_agent false false) !! ("Agent", demo)) with
      (Some (desired (ObjAgent sample_agent))) in Ha.
    apply (inj Some), desired_agent in Ha as (Hsp & Han & _). exists "nginx:stable".
    destruct a as [[] sa st]. cbn in Hsp, Han. subst. split; reflexivity.
  - rewrite Hafter. apply sync_caught_up.
  - apply rtc_once. split; [reflexivity|].
    exists demo, (memory_reconcile demo (server_after false false)).1, (memory_reconcile demo (server_after false false)).2.
    split; [apply surjective_pairing|apply sync_caught_up].
Defined.
