(* ===== verification/ReconcilerRuns.v ===== *)
(** * A run of [Reconcile] while others change the cluster

    Between any two calls of a run everybody else may write to the API server. What a run
    guarantees then is stated with the logic of [Goroutines]: which objects it touches whatever
    the others do; that it ends with nothing left to do, or asks to be run again, if the cache
    does not change in what the controller would notice; and that it settles its agent if only
    the operator writes to what belongs to it, however far the cache is behind. *)

From stdpp Require Import base tactics option list gmap strings.
From S2P Require Import Prelude GoStrings AgentTypes Converter Goroutines Reconciler ReconcilerSpec.

Local Open Scope string_scope.

(** An object is in a list that is written out. *)
Ltac member := repeat first [apply list_elem_of_here | apply list_elem_of_further].

Section Runs.
Context `{K8sTypes} {W : Type} `{!ApiServer W} `{!ApiServerLaws W}.
Variable SetControllerReference : Agent -> ObjectMeta -> list OwnerReference.
Variable json_Marshal : AgentSpec -> string + error.
Variable json_Unmarshal : string -> AgentSpec + error.
Variable StatefulSetList_Size : list StatefulSet -> Z.
Implicit Types (a : Agent) (w : W) (o : client_object) (nn : namespaced_name).

Abbreviation reconcile := (Reconcile SetControllerReference json_Marshal json_Unmarshal StatefulSetList_Size).
Abbreviation settled := (settled json_Unmarshal).
Abbreviation cluster := (gmap (string * namespaced_name) client_object).

Abbreviation reads := (client_read (W := W)).

(** Agent [nn] is in the cluster and is not being deleted. *)
Definition wanted nn (m : cluster) : Prop :=
  exists a, agent_is nn a m /\ DeletionTimestamp (agent_meta a) = None.
(** Nothing is left to do. *)
Definition calm nn (m : cluster) : Prop := wanted nn m -> settled nn m.

(** The spec of the agent survives encoding and decoding. *)
Definition spec_json_ok nn (m : cluster) : Prop :=
  forall a, agent_is nn a m -> json_ok json_Marshal json_Unmarshal (agent_Spec (without_snapshot (FillDefaultValue a))).

(** A request is asked for again after an error, or after the time the result names. *)
Definition asks_again (res : reconcile_result) (err : option error) : bool :=
  match err, RequeueAfter res with None, None => false | _, _ => true end.

Abbreviation anything := (fun _ _ : W => True).
#[export] Instance anything_preorder : PreOrder anything.
Proof. by split. Qed.

(** Nothing but what belongs to [nn] changes. *)
Definition within nn w w' : Prop := forall k, k ∉ owned nn -> view w' !! k = view w !! k.
#[export] Instance within_preorder nn : PreOrder (within nn).
Proof. split; [by intros w k|]. intros w1 w2 w3 HA HB k Hk. by rewrite HB, HA. Qed.

(** The agent stays as it is and its stateful set stays in place. *)
Definition leaves nn (m m' : cluster) : Prop :=
  m' !! ("Agent", nn) = m !! ("Agent", nn) /\
  (is_Some (m !! ("StatefulSet", nn)) -> is_Some (m' !! ("StatefulSet", nn))).
#[export] Instance leaves_preorder nn : PreOrder (leaves nn).
Proof. split; [by intros w|]. intros w1 w2 w3 [A1 S1] [A2 S2]. split; [congruence|auto]. Qed.

Lemma agent_is_ext nn a (m m' : cluster) :
  m' !! ("Agent", nn) = m !! ("Agent", nn) -> agent_is nn a m' <-> agent_is nn a m.
Proof. unfold agent_is. by intros ->. Qed.
Lemma calm_leaves nn m m' : leaves nn m m' -> calm nn m -> calm nn m'.
Proof.
  intros [Ha Hs] Hc (a & Hag & Hd). rewrite (agent_is_ext nn a _ _ Ha) in Hag.
  destruct Hc as [Hset (b & Hb & Hr)]; [by exists a|]. split; [by apply Hs|]. exists b. by rewrite (agent_is_ext nn b _ _ Ha).
Qed.

(** The cache shows the agent and its stateful set as they are. *)
Definition up_to_date nn w : Prop :=
  seen w !! ("Agent", nn) = view w !! ("Agent", nn) /\ seen w !! ("StatefulSet", nn) = view w !! ("StatefulSet", nn).

Lemma calm_up_to_date nn w : up_to_date nn w -> calm nn (seen w) -> calm nn (view w).
Proof. intros [Ha Hs]. apply calm_leaves. split; [by rewrite Ha|by rewrite Hs]. Qed.

(** ** A run and its cache

    While the others leave the cache alone, in what concerns the agent, a run ends with nothing
    left to do as far as the cache shows, or asks to be run again. *)

Definition seen_leaves nn w w' : Prop := leaves nn (seen w) (seen w').
#[export] Instance seen_leaves_preorder nn : PreOrder (seen_leaves nn).
Proof. unfold seen_leaves. split; [intros w|intros w1 w2 w3]; [reflexivity|apply transitivity]. Qed.

Definition run_post nn (r : reconcile_result * option error) w : Prop :=
  asks_again r.1 r.2 = false -> calm nn (seen w).
#[export] Instance run_post_stable nn r : Stable (seen_leaves nn) (run_post nn r).
Proof. intros w w' Hp Hl Ha. eapply calm_leaves; [exact Hl|by apply Hp]. Qed.

Abbreviation wp_seen nn := (wp anything (seen_leaves nn)).

Lemma wp_trivial {A} R (p : prog W A) w : wp anything R p (fun _ _ => True) w.
Proof. revert w. induction p; intros w; cbn; auto. Qed.

Lemma wp_requeue nn (m : prog W (option error)) w : wp_seen nn (requeue m) (run_post nn) w.
Proof. apply wp_bind. eapply wp_mono; [|apply wp_trivial]. intros [e|] w' _ Ha; discriminate Ha. Qed.

Lemma wp_read {A B} nn (f : W -> A) (k : A -> prog W B) Q w :
  (forall w', seen_leaves nn w w' -> wp_seen nn (k (f w')) Q w') -> wp_seen nn (reads f ≫= k) Q w.
Proof. intros Hk. apply wp_bind. intros w' Hl. split; [done|]. intros b [= <-]. by apply Hk. Qed.

Lemma update_status_seen a w : seen (api_UpdateStatus a w).2 = seen w.
Proof. unfold seen. by rewrite update_status_cached. Qed.

(** A run that ends at once. *)
Lemma wp_calm nn res err w : calm nn (seen w) -> wp_seen nn (mret (res, err)) (run_post nn) w.
Proof. by intros Hc _. Qed.
Lemma wp_error nn res e w : wp_seen nn (mret (res, Some e)) (run_post nn) w.
Proof. intros Ha. discriminate Ha. Qed.

(** The status part of a run. *)
Definition status_part a : prog W (reconcile_result * option error) :=
  listed ← reads (api_ListStatefulSets (Namespace (agent_meta a)) (getLables a));
  match listed with
  | inr e => mret (zero_result, Wrapf (Some e) "failed to list statefulset")
  | inl items =>
      if bool_decide (StatefulSetList_Size items = 0%Z) then mret (zero_result, None) else
      match items with
      | [] => panic "index out of range [0] with length 0"
      | item :: _ =>
          if bool_decide (sts_Status item = agent_StatefulSetStatus (agent_Status a))
          then mret (zero_result, None)
          else e ← client_UpdateStatus (set_agent_status a (sts_Status item));
               mret (zero_result, Wrapf e "failed to update agent status")
      end
  end.

Lemma status_part_wp nn a w : calm nn (seen w) -> wp_seen nn (status_part a) (run_post nn) w.
Proof.
  intros Hc. apply wp_read. intros w1 Hl. pose proof (calm_leaves nn _ _ Hl Hc) as Hc1.
  destruct (api_ListStatefulSets _ _ w1) as [items|e]; [|apply wp_error].
  case_bool_decide; [by apply wp_calm|]. destruct items as [|item items]; [by split|].
  case_bool_decide; [by apply wp_calm|]. apply wp_bind. intros w2 Hl2. split; [done|].
  pose proof (calm_leaves nn _ _ Hl2 Hc1) as Hc2. set (b := set_agent_status _ _).
  pose proof (update_status_seen b w2) as Hs. destruct (api_UpdateStatus b w2) as [e w3]. cbn in *. intros ? _.
  apply (wp_calm nn). by rewrite Hs.
Qed.

Lemma Reconcile_seen nn w : wp_seen nn (reconcile nn) (run_post nn) w.
Proof.
  unfold Reconcile. apply wp_read. intros w1 Hl1. pose proof (seen_agent nn w1) as Hva.
  destruct (api_GetAgent nn w1) as [a|e].
  2: { destruct (IsNotFound e); [|apply wp_error]. apply wp_calm. intros (a & [Hav _] & _). by rewrite Hva in Hav. }
  case_bool_decide as Hdel.
  { apply wp_calm. intros (a' & [Ha' _] & Hd). destruct Hva as [Hva _]. rewrite Hva in Ha'.
    apply (inj Some), desired_agent in Ha' as (_ & _ & Heq). rewrite <- Heq in Hd. rewrite Hd in Hdel. by destruct Hdel. }
  apply wp_read. intros w2 Hl2. rewrite <- (agent_is_ext nn a _ _ (proj1 Hl2)) in Hva. pose proof (seen_set nn w2) as Hvs.
  destruct (api_GetStatefulSet nn w2) as [old|e].
  2: { destruct (IsNotFound e); [apply wp_requeue|apply wp_error]. }
  rewrite fill_meta. destruct (json_Unmarshal _) as [s|e] eqn:Hu; [|apply wp_error].
  case_bool_decide as Heq; cbn [negb]; [|apply wp_requeue]. rewrite <- (fill_meta a).
  apply status_part_wp. intros _. subst s. split; [by rewrite (proj1 Hvs); eexists|]. by exists a.
Qed.

(** ** The calls *)

(** A call that stores [o] unless it fails, and leaves the cache alone. *)
Definition stores (m : M W (option api_error)) o : Prop := forall w, exists e w',
  m w = (Done e, w') /\ seen w' = seen w /\ view w' = match e with Some _ => view w | None => put (view w) o end.

Abbreviation call f := (fun w => let (e, w') := f w in (Done e, w')).

Lemma Create_stores o : stores (call (api_Create o)) o.
Proof.
  intros w. pose proof (create_law o w) as Hc. pose proof (create_cached o w) as Hs. unfold seen.
  destruct (api_Create o w) as [[e|] w']; cbn in Hs; rewrite <- Hs; (do 2 eexists; split; [done|]; split; [done|]); unfold view.
  - destruct Hc as [Hw _]. by rewrite Hw.
  - destruct Hc as (_ & o' & Hd & ->). by rewrite fmap_insert, Hd.
Qed.
Lemma Update_stores o : stores (call (api_Update o)) o.
Proof.
  intros w. pose proof (update_law o w) as Hc. pose proof (update_cached o w) as Hs. unfold seen.
  destruct (api_Update o w) as [[e|] w']; cbn in Hs; rewrite <- Hs; (do 2 eexists; split; [done|]; split; [done|]); unfold view.
  - by rewrite Hc.
  - destruct Hc as (_ & o' & Hd & ->). by rewrite fmap_insert, Hd.
Qed.

Lemma put_within nn o w w' : object_key o ∈ owned nn -> view w' = put (view w) o -> within nn w w'.
Proof. intros Ho Hv k Hk. rewrite Hv. apply lookup_insert_ne. intros Heq. by subst k. Qed.
Lemma stores_within m nn o : object_key o ∈ owned nn -> stores m o -> Prelude.preserves (within nn) m.
Proof.
  intros Ho Hm w. destruct (Hm w) as (e & w' & -> & _ & Hv). cbn. destruct e; [|by eapply put_within].
  intros k _. by rewrite Hv.
Qed.

(** ** Whatever the others do *)

Section Anyway.
Variable nn : namespaced_name.
Abbreviation wp_any := (wp (within nn) anything).

Lemma preserves_any {A} (p : prog W A) w : preserves (within nn) p -> wp_any p (fun _ _ => True) w.
Proof. intros Hp. eapply wp_mono; [|by apply (wp_preserves _ _ p (fun _ => True))]. done. Qed.

Lemma Create_within o : object_key o ∈ owned nn -> preserves (within nn) (client_Create o).
Proof. intros Ho. apply preserves_await. eapply stores_within; [exact Ho|apply Create_stores]. Qed.
Lemma Update_within o : object_key o ∈ owned nn -> preserves (within nn) (client_Update o).
Proof. intros Ho. apply preserves_await. eapply stores_within; [exact Ho|apply Update_stores]. Qed.
Lemma upsert_within o : object_key o ∈ owned nn -> preserves (within nn) (upsertResource o).
Proof.
  intros Ho. apply preserves_bind; [by apply Create_within|]. intros [e|]; [|done].
  destruct (IsAlreadyExists e); [by apply Update_within|done].
Qed.
Lemma UpdateStatus_within a : preserves (within nn) (client_UpdateStatus a).
Proof.
  apply preserves_await. intros w k _. destruct (api_UpdateStatus a w) as [e w'] eqn:Hu. cbn.
  by rewrite (status_view a w e w' Hu).
Qed.

Ltac next_within Hin :=
  first [apply return_if_err_preserves | idtac];
  [apply preserves_bind; [first [apply upsert_within | apply Create_within | apply Update_within]; apply Hin; member|done]|..].

Lemma create_objects_within a rs :
  object_key (ObjAgent a) = ("Agent", nn) ->
  preserves (within nn) (create_objects json_Marshal (agent_resources SetControllerReference (FillDefaultValue a) rs)
    (without_snapshot (FillDefaultValue a))).
Proof.
  intros Ha. pose proof (create_keys SetControllerReference json_Marshal nn a rs Ha) as Hk.
  assert (forall o, o ∈ create_order SetControllerReference json_Marshal (FillDefaultValue a) rs -> object_key o ∈ owned nn) as Hin.
  { intros o Ho. rewrite <- Hk. by apply list_elem_of_fmap_2. }
  unfold create_objects. do 5 next_within Hin.
Qed.
Lemma update_objects_within a old rs :
  object_key (ObjAgent a) = ("Agent", nn) -> object_key (ObjStatefulSet old) = ("StatefulSet", nn) ->
  preserves (within nn) (update_objects json_Marshal old (agent_resources SetControllerReference (FillDefaultValue a) rs)
    (without_snapshot (FillDefaultValue a))).
Proof.
  intros Ha Ho. pose proof (update_keys SetControllerReference json_Marshal nn a rs old Ha Ho) as Hk.
  assert (forall o, o ∈ update_order SetControllerReference json_Marshal (FillDefaultValue a) rs old -> object_key o ∈ owned nn) as Hin.
  { intros o Ho'. rewrite <- Hk. by apply list_elem_of_fmap_2. }
  unfold update_objects. do 5 next_within Hin.
Qed.

(** After the conversion, a sequence of writes, and its result. *)
Lemma wp_converted a (k : AgentResources * Agent -> prog W (option error)) w :
  (forall rs, preserves (within nn) (k (agent_resources SetControllerReference (FillDefaultValue a) rs, without_snapshot (FillDefaultValue a)))) ->
  wp_any (requeue (on_agent (ConvertAgent SetControllerReference) (FillDefaultValue a) ≫= k)) (fun _ _ => True) w.
Proof.
  intros Hk. destruct (fill_resources a) as [rs Hrs]. apply wp_bind, wp_bind. unfold on_agent.
  apply wp_local; rewrite ConvertAgent_run, Hrs; cbn; [reflexivity|]. intros ? [= <-].
  eapply wp_mono; [|by apply preserves_any]. by intros [e|] w' _.
Qed.

Lemma any_read {A B} (f : W -> A) (k : A -> prog W B) w :
  (forall w', wp_any (k (f w')) (fun _ _ => True) w') -> wp_any (client_read f ≫= k) (fun _ _ => True) w.
Proof. intros Hk. apply wp_bind. intros w' _. split; [reflexivity|]. intros b [= <-]. apply Hk. Qed.

(** A run keeps within what belongs to its agent, even if the others do anything at all. *)
Lemma Reconcile_within w : wp_any (reconcile nn) (fun _ _ => True) w.
Proof.
  unfold Reconcile. apply any_read. intros w1. pose proof (get_agent_law nn w1) as Hag.
  destruct (api_GetAgent nn w1) as [a|e]; [|by case_match]. destruct Hag as [_ Ha]. case_bool_decide; [done|].
  apply any_read. intros w2. pose proof (get_sts_law nn w2) as Hst.
  destruct (api_GetStatefulSet nn w2) as [old|e].
  2: { destruct (IsNotFound e); [|done]. apply wp_converted. intros rs. by apply create_objects_within. }
  destruct Hst as [_ Ho]. destruct (json_Unmarshal _) as [s|e]; [|done]. case_bool_decide; cbn [negb].
  2: { apply wp_converted. intros rs. by apply update_objects_within. }
  apply any_read. intros w3. destruct (api_ListStatefulSets _ _ w3) as [items|e]; [|done].
  case_bool_decide; [done|]. destruct items as [|item items]; [by split|]. case_bool_decide; [done|].
  apply preserves_any, preserves_bind; [apply UpdateStatus_within|done].
Qed.
End Anyway.

(** A run for one agent that nobody interrupts changes only that agent, its service account,
    role, role binding and stateful set, and so nothing that belongs to another agent. *)
Theorem Reconcile_isolated nn w r w' :
  reconcile nn w = (r, w') ->
  (forall k, k ∉ owned nn -> view w' !! k = view w !! k) /\
  (forall nn' k, nn' <> nn -> k ∈ owned nn' -> view w' !! k = view w !! k).
Proof.
  intros Hr. destruct (wp_alone (within nn) anything (fun _ _ _ => I) _ _ _ _ _ (Reconcile_within nn w) Hr) as [Hin _].
  split; [exact Hin|]. intros nn' k Hne Hk. apply Hin. intros Hk'. by apply Hne, (owned_disjoint nn' nn k).
Qed.

(** ** A run leaves the cache alone *)

Definition same_cache w w' : Prop := cached w' = cached w.
#[export] Instance same_cache_preorder : PreOrder same_cache.
Proof. split; [by intros w|]. intros w1 w2 w3 HA HB. unfold same_cache in *. congruence. Qed.

Lemma Create_cache o : preserves same_cache (client_Create o).
Proof. apply preserves_await. intros w. pose proof (create_cached o w) as Hc. by destruct (api_Create o w). Qed.
Lemma Update_cache o : preserves same_cache (client_Update o).
Proof. apply preserves_await. intros w. pose proof (update_cached o w) as Hc. by destruct (api_Update o w). Qed.
Lemma UpdateStatus_cache a : preserves same_cache (client_UpdateStatus a).
Proof. apply preserves_await. intros w. pose proof (update_status_cached a w) as Hc. by destruct (api_UpdateStatus a w). Qed.
Lemma read_cache {A} (f : W -> A) : preserves same_cache (reads f).
Proof. by split. Qed.
Lemma upsert_cache o : preserves same_cache (upsertResource o).
Proof.
  apply preserves_bind; [apply Create_cache|]. intros [e|]; [|done]. destruct (IsAlreadyExists e); [apply Update_cache|done].
Qed.
Lemma convert_cache a : preserves same_cache (on_agent (ConvertAgent SetControllerReference) a : prog W _).
Proof. split; [|done]. intros w. by destruct (ConvertAgent SetControllerReference a) as [[]]. Qed.

Ltac writes_cache :=
  repeat (apply return_if_err_preserves;
    [apply preserves_bind; [first [apply upsert_cache | apply Create_cache | apply Update_cache]|done]|]);
  apply preserves_bind; [apply Update_cache|done].

Lemma requeue_cache (m : prog W (option error)) : preserves same_cache m -> preserves same_cache (requeue m).
Proof. intros Hm. apply preserves_bind; [exact Hm|]. by intros [e|]. Qed.

Lemma Reconcile_cache nn : preserves same_cache (reconcile nn).
Proof.
  unfold Reconcile. apply preserves_bind; [apply read_cache|]. intros [a|e]; [|by case_match]. case_bool_decide; [done|].
  apply preserves_bind; [apply read_cache|]. intros [old|e].
  2: { destruct (IsNotFound e); [|done]. apply requeue_cache, preserves_bind; [apply convert_cache|]. intros [rs a'].
       unfold create_objects. writes_cache. }
  destruct (json_Unmarshal _) as [s|e]; [|done]. case_bool_decide; cbn [negb].
  2: { apply requeue_cache, preserves_bind; [apply convert_cache|]. intros [rs a']. unfold update_objects. writes_cache. }
  apply preserves_bind; [apply read_cache|]. intros [items|e]; [|done]. case_bool_decide; [done|].
  destruct items as [|item items]; [by split|]. case_bool_decide; [done|].
  apply preserves_bind; [apply UpdateStatus_cache|done].
Qed.

(** ** A run never waits *)

Lemma client_call_unblocked (f : W -> option api_error * W) : unblocked (await (call f) : prog W _).
Proof. split; [|done]. intros w. by destruct (f w). Qed.
Lemma read_unblocked {A} (f : W -> A) : unblocked (client_read f).
Proof. by split. Qed.
Lemma upsert_unblocked o : unblocked (upsertResource o : prog W _).
Proof.
  apply unblocked_bind; [apply client_call_unblocked|]. intros [e|]; [|done].
  destruct (IsAlreadyExists e); [apply client_call_unblocked|done].
Qed.
Lemma convert_unblocked a : unblocked (on_agent (ConvertAgent SetControllerReference) a : prog W _).
Proof. split; [|done]. intros w. rewrite ConvertAgent_run. by destruct (Resources (agent_Spec a)). Qed.

Lemma Reconcile_unblocked nn : unblocked (reconcile nn).
Proof.
  assert (Hrq : forall m : prog W (option error), unblocked m -> unblocked (requeue m)).
  { intros m Hm. apply unblocked_bind; [exact Hm|]. by intros [e|]. }
  assert (Hcall : forall m : prog W (option api_error), unblocked m -> unblocked (e ← m; mret (WithStack e))).
  { intros m Hm. by apply unblocked_bind. }
  unfold Reconcile. apply unblocked_bind; [apply read_unblocked|]. intros [a|e]; [|by case_match].
  case_bool_decide; [done|]. apply unblocked_bind; [apply read_unblocked|]. intros [old|e].
  2: { destruct (IsNotFound e); [|done]. apply Hrq, unblocked_bind; [apply convert_unblocked|]. intros [rs a'].
       do 4 (apply return_if_err_unblocked; [apply Hcall; first [apply upsert_unblocked | apply client_call_unblocked]|]).
       apply Hcall, client_call_unblocked. }
  destruct (json_Unmarshal _) as [s|e]; [|done]. case_bool_decide; cbn [negb].
  2: { apply Hrq, unblocked_bind; [apply convert_unblocked|]. intros [rs a'].
       do 4 (apply return_if_err_unblocked; [apply Hcall; first [apply upsert_unblocked | apply client_call_unblocked]|]).
       apply Hcall, client_call_unblocked. }
  apply unblocked_bind; [apply read_unblocked|]. intros [items|e]; [|done]. case_bool_decide; [done|].
  destruct items as [|item items]; [by split|]. case_bool_decide; [done|].
  apply unblocked_bind; [apply client_call_unblocked|done].
Qed.

(** ** A run in progress

    A run for [nn] that has begun, with changes by others between its calls. *)
Inductive in_progress nn : prog W (reconcile_result * option error) -> W -> Prop :=
| run_begins w : in_progress nn (reconcile nn) w
| others_act p w w' : in_progress nn p w -> in_progress nn p w'
| run_goes_on p w p' gs w' : in_progress nn p w -> exec p w = (Done (p', gs), w') -> in_progress nn p' w'.

Lemma in_progress_within nn p w :
  in_progress nn p w -> ready_for (within nn) (fun _ _ => True) p (fun _ _ => True) w /\ unblocked p.
Proof.
  intros Hp. induction Hp as [w|p w w' _ [IH Hu]|p w p' gs w' _ [IH Hu] He].
  - split; [|apply Reconcile_unblocked]. intros w' _. apply Reconcile_within.
  - split; [|done]. intros w2 _. by apply IH.
  - destruct (exec_ready _ _ _ _ _ _ IH He) as [_ Hr]. split; [by eapply Hr|].
    pose proof (exec_unblocked p w Hu) as Hu'. rewrite He in Hu'. apply Hu'.
Qed.

(** C17: whatever others do to the cluster while a run is in progress, each step of a run for
    one agent changes only that agent, its service account, role, role binding and stateful
    set, and agents with different names or namespaces share none of these: so reconciling one
    agent never touches what belongs to another. A run never waits, and starts nothing else. *)
Theorem run_isolated nn p w r w' :
  in_progress nn p w -> exec p w = (r, w') ->
  (forall k, k ∉ owned nn -> view w' !! k = view w !! k) /\
  (forall nn' k, nn' <> nn -> k ∈ owned nn' -> view w' !! k = view w !! k) /\
  r <> Blocked /\ forall p' gs, r = Done (p', gs) -> gs = [].
Proof.
  intros Hp He. destruct (in_progress_within nn p w Hp) as [Hr Hu].
  destruct (exec_ready _ _ _ _ _ _ Hr He) as [Hin _]. pose proof (exec_unblocked p w Hu) as Hu'. rewrite He in Hu'.
  split_and!; [exact Hin| |by intros ->|by intros p' gs ->; apply Hu'].
  intros nn' k Hne Hk. apply Hin. intros Hk'. by apply Hne, (owned_disjoint nn' nn k).
Qed.
End Runs.

(** ** A run that is disturbed *)

#[local] Existing Instance text_k8s.

(** Somebody deletes the agent just after it was read. *)
Definition demo_run0 : prog memory_server (reconcile_result * option error) :=
  Reconcile no_refs image_json image_spec encoded_size demo.
Definition next_of (p : prog memory_server (reconcile_result * option error)) (w : memory_server) :=
  match exec p w with (Done (p', _), w') => (p', w') | (_, w') => (p, w') end.
Definition demo_run1 := (next_of demo_run0 (one_agent false false)).1.
Definition no_agent : memory_server := MemoryServer ∅ ∅ false false.
Definition demo_run2 := (next_of demo_run1 no_agent).1.
Definition disturbed_world : memory_server := (exec demo_run2 no_agent).2.

Lemma next_of_step nn p w :
  in_progress no_refs image_json image_spec encoded_size nn p w ->
  in_progress no_refs image_json image_spec encoded_size nn (next_of p w).1 (next_of p w).2.
Proof.
  intros Hp. unfold next_of. destruct (exec p w) as [[[p' gs]|msg|] w'] eqn:E; cbn; [by eapply run_goes_on|..]; by eapply others_act.
Qed.

(** The run creates the service account all the same, and nothing of another agent. *)
Lemma run_isolated_witness :
  is_Some (view disturbed_world !! ("ServiceAccount", ("demo", "source-cov-agent-sample-sa"))) /\
  view disturbed_world !! ("ServiceAccount", ("demo", "source-cov-other-sa")) = None.
Proof.
  split; [eexists; vm_compute; reflexivity|].
  destruct (run_isolated no_refs image_json image_spec encoded_size demo demo_run2 no_agent
    (exec demo_run2 no_agent).1 disturbed_world) as (_ & Hother & _).
  - apply (others_act _ _ _ _ _ _ (next_of demo_run1 no_agent).2), next_of_step.
    apply (others_act _ _ _ _ _ _ (next_of demo_run0 (one_agent false false)).2), next_of_step, run_begins.
  - apply surjective_pairing.
  - rewrite (Hother ("demo", "other") ("ServiceAccount", ("demo", "source-cov-other-sa")) ltac:(discriminate)); [reflexivity|].
    apply list_elem_of_here.
Defined.

Lemma Reconcile_isolated_witness :
  view (server_after false false) !! ("Role", ("demo", "source-cov-other-role")) = None.
Proof.
  destruct (Reconcile_isolated no_refs image_json image_spec encoded_size demo (one_agent false false)
    (memory_reconcile demo (one_agent false false)).1 (memory_reconcile demo (one_agent false false)).2
    ltac:(apply surjective_pairing)) as [_ Hother].
  change (view (server_after false false)) with (view (memory_reconcile demo (one_agent false false)).2).
  rewrite (Hother ("demo", "other") ("Role", ("demo", "source-cov-other-role")) ltac:(discriminate)); [reflexivity|].
  apply list_elem_of_further, list_elem_of_here.
Defined.
