(* ===== verification/Settling.v ===== *)
(** * How a run settles its agent

    When only the operator writes to what belongs to an agent, every version of the agent that
    the server holds, or that the cache may still show, leads to the same recorded agent. So
    even a run on old data stores what it should, and a run that reports no error leaves the
    agent settled. *)

From stdpp Require Import base tactics option list gmap strings.
From S2P Require Import Prelude GoStrings AgentTypes Converter Goroutines Reconciler ReconcilerSpec ReconcilerRuns.

Local Open Scope string_scope.

Section Settling.
Context `{K8sTypes} {W : Type} `{!ApiServer W} `{!ApiServerLaws W}.
Variable SetControllerReference : Agent -> ObjectMeta -> list OwnerReference.
Variable json_Marshal : AgentSpec -> string + error.
Variable json_Unmarshal : string -> AgentSpec + error.
Variable StatefulSetList_Size : list StatefulSet -> Z.
Variable nn : namespaced_name.
Implicit Types (a : Agent) (w : W) (o : client_object).

Abbreviation reconcile := (Reconcile SetControllerReference json_Marshal json_Unmarshal StatefulSetList_Size).
Abbreviation settled := (settled json_Unmarshal nn).
Abbreviation cluster := (gmap (string * namespaced_name) client_object).
Abbreviation stored a := (recorded json_Marshal (FillDefaultValue a)).

(** ** The stored agent *)

(** The spec that a run stores is not changed by the next run. *)
Lemma stored_spec_fixed a a' :
  agent_Spec a' = agent_Spec (without_snapshot (FillDefaultValue a)) ->
  agent_Spec (without_snapshot (FillDefaultValue a')) = agent_Spec a'.
Proof.
  intros Hsp. pose proof (fill_fixed (fun _ _ => []) a a' Hsp) as Hf.
  unfold without_snapshot at 1. cbn [agent_Spec set_spec]. rewrite Hf.
  assert (forall p, (move_snapshot (spec_Annotations (agent_Spec a')) p).1 = spec_Annotations (agent_Spec a')) as Hm.
  { intros p. rewrite Hsp. unfold move_snapshot at 1. cbn [agent_Spec without_snapshot set_spec spec_Annotations set_spec_annotations].
    by rewrite move_snapshot_gone, lookup_delete_eq. }
  rewrite Hm. by destruct (agent_Spec a').
Qed.

Lemma stored_deletion a : DeletionTimestamp (agent_meta (stored a)) = DeletionTimestamp (agent_meta a).
Proof. unfold recorded, record_spec. destruct (Annotations _); cbn; by rewrite fill_meta. Qed.

Lemma stored_spec a : agent_Spec (stored a) = agent_Spec (without_snapshot (FillDefaultValue a)).
Proof. apply record_spec_fields. Qed.

(** An agent up to what the server sets. *)
Lemma desired_agent_inv a b :
  desired (ObjAgent a) = desired (ObjAgent b) ->
  agent_Spec a = agent_Spec b /\ reset_meta (agent_meta a) = reset_meta (agent_meta b).
Proof.
  intros Hd. pose (inner o := match o with ObjAgent x => x | _ => a end).
  split; [exact (f_equal (fun o => agent_Spec (inner o)) Hd)|exact (f_equal (fun o => agent_meta (inner o)) Hd)].
Qed.

Lemma stored_meta a :
  agent_meta (stored a) =
    MkMeta (Name (agent_meta a)) (Namespace (agent_meta a)) (Labels (agent_meta a))
      (Some (<["spec" := match json_Marshal (agent_Spec (stored a)) with inl d => d | inr _ => "" end]>
         (entries (move_snapshot (Annotations (agent_meta a)) ∅).1)))
      (DeletionTimestamp (agent_meta a)) (OwnerReferences (agent_meta a)) (Rest (agent_meta a)).
Proof.
  rewrite stored_spec. unfold recorded, record_spec.
  pose proof (fill_meta a) as Hm. unfold without_snapshot. cbn [agent_meta agent_Spec set_spec set_agent_annotations Annotations].
  rewrite Hm. destruct (move_snapshot (Annotations (agent_meta a)) ∅).1 as [m|]; cbn; rewrite Hm; [done|].
  by rewrite insert_empty.
Qed.

Lemma fill_spec_ext a b :
  agent_Spec a = agent_Spec b -> agent_Spec (FillDefaultValue a) = agent_Spec (FillDefaultValue b).
Proof.
  destruct a as [ma sa ta], b as [mb sb tb]. cbn. intros ->. unfold FillDefaultValue. cbn.
  case_bool_decide; cbn; by destruct (Resources _).
Qed.
Lemma move_snapshot_fst (m : gomap string) p q : (move_snapshot m p).1 = (move_snapshot m q).1.
Proof. unfold move_snapshot. by destruct (entries m !! _). Qed.
Lemma stored_spec_ext a b : agent_Spec a = agent_Spec b -> agent_Spec (stored a) = agent_Spec (stored b).
Proof.
  intros Hs. rewrite !stored_spec. unfold without_snapshot. cbn [agent_Spec set_spec].
  rewrite (fill_spec_ext a b Hs). f_equal. apply move_snapshot_fst.
Qed.

Lemma stored_annotations a : map_get (Annotations (agent_meta (stored a))) "spec" =
  match json_Marshal (agent_Spec (stored a)) with inl d => d | inr _ => "" end.
Proof. rewrite stored_meta. unfold map_get. cbn. by rewrite lookup_insert_eq. Qed.

(** What is stored depends on the desired part only, and storing it again changes nothing. *)
Lemma stored_ext a b :
  desired (ObjAgent a) = desired (ObjAgent b) -> desired (ObjAgent (stored a)) = desired (ObjAgent (stored b)).
Proof.
  intros Hd. destruct (desired_agent_inv a b Hd) as [Hs Hm]. cbn [desired]. rewrite !stored_meta, (stored_spec_ext a b Hs).
  pose proof (f_equal Name Hm) as H1. pose proof (f_equal Namespace Hm) as H2. pose proof (f_equal Labels Hm) as H3.
  pose proof (f_equal Annotations Hm) as H4. pose proof (f_equal DeletionTimestamp Hm) as H5.
  pose proof (f_equal OwnerReferences Hm) as H6. unfold reset_meta in *. cbn in *. congruence.
Qed.

Lemma stored_again a : desired (ObjAgent (stored (stored a))) = desired (ObjAgent (stored a)).
Proof.
  assert (agent_Spec (stored (stored a)) = agent_Spec (stored a)) as Hs.
  { rewrite stored_spec. apply (stored_spec_fixed a), stored_spec. }
  cbn [desired]. rewrite Hs. f_equal. f_equal. rewrite (stored_meta (stored a)), Hs, (stored_meta a).
  unfold reset_meta. cbn [Name Namespace Labels Annotations DeletionTimestamp OwnerReferences Rest].
  rewrite !move_snapshot_gone. cbn [entries default]. f_equal. f_equal.
  unfold id. rewrite delete_insert_ne by discriminate. by rewrite delete_delete_eq, insert_insert_eq.
Qed.

(** ** Agents of the family of [a0] *)

Section Family.
Variable a0 : Agent.

(** An agent from which a run stores what it would from [a0]. *)
Record kin a : Prop := MkKin {
  kin_key : object_key (ObjAgent a) = ("Agent", nn);
  kin_deletion : DeletionTimestamp (agent_meta a) = None;
  kin_json : json_ok json_Marshal json_Unmarshal (agent_Spec (stored a));
  kin_stored : desired (ObjAgent (stored a)) = desired (ObjAgent (stored a0));
}.

Lemma kin_desired a b : desired (ObjAgent a) = desired (ObjAgent b) -> kin a -> kin b.
Proof.
  intros Hd [Hk Hdel Hj Hst]. destruct (desired_agent_inv a b Hd) as [Hs Hm].
  pose proof (f_equal Name Hm) as H1. pose proof (f_equal Namespace Hm) as H2. pose proof (f_equal DeletionTimestamp Hm) as H3.
  cbn in H1, H2, H3. constructor.
  - rewrite <- Hk. unfold object_key. cbn. congruence.
  - congruence.
  - by rewrite <- (stored_spec_ext a b Hs).
  - by rewrite <- (stored_ext a b Hd).
Qed.
Lemma kin_again a : kin a -> kin (stored a).
Proof.
  intros [Hk Hdel Hj Hst]. constructor.
  - by apply recorded_key.
  - by rewrite stored_deletion.
  - assert (agent_Spec (stored (stored a)) = agent_Spec (stored a)) as ->; [|done].
    rewrite stored_spec. apply (stored_spec_fixed a), stored_spec.
  - by rewrite stored_again.
Qed.

(** The agent that is stored is in step with itself. *)
Lemma stored_in_step a :
  kin a -> recorded_spec json_Unmarshal (stored a) = inl (agent_Spec (FillDefaultValue (stored a))).
Proof.
  intros Ha. apply (fill_recorded (fun _ _ => [])). rewrite <- stored_spec. apply Ha.
Qed.

(** ** States of the cluster *)

Definition family (m : cluster) : Prop := exists a, agent_is nn a m /\ kin a.
Definition in_step (m : cluster) : Prop :=
  exists a, agent_is nn a m /\ recorded_spec json_Unmarshal a = inl (agent_Spec (FillDefaultValue a)).

(** The agent stays or becomes the stored one, and the stateful set stays in place. *)
Definition toward (m m' : cluster) : Prop :=
  (m' !! ("Agent", nn) = m !! ("Agent", nn) \/ m' !! ("Agent", nn) = Some (desired (ObjAgent (stored a0)))) /\
  (is_Some (m !! ("StatefulSet", nn)) -> is_Some (m' !! ("StatefulSet", nn))).
#[export] Instance toward_preorder : PreOrder toward.
Proof.
  split; [intros m; split; [by left|done]|]. intros m1 m2 m3 [A1 S1] [A2 S2]. split; [|auto].
  destruct A2 as [->|A2]; [exact A1|by right].
Qed.
Lemma leaves_toward m m' : leaves nn m m' -> toward m m'.
Proof. intros [Ha Hs]. split; [by left|done]. Qed.

Lemma family_agent m a : family m -> agent_is nn a m -> kin a.
Proof. intros (b & [Hb _] & Hk) [Ha _]. rewrite Hb in Ha. apply (inj Some) in Ha. by eapply kin_desired. Qed.

Lemma stored_agent m m' :
  family m -> m' !! ("Agent", nn) = Some (desired (ObjAgent (stored a0))) ->
  exists a, agent_is nn (stored a) m' /\ kin a.
Proof.
  intros (a & _ & Ha) Hm. exists a. split; [|done]. split; [by rewrite Hm, (kin_stored a Ha)|].
  apply recorded_key, Ha.
Qed.
Lemma family_toward m m' : family m -> toward m m' -> family m'.
Proof.
  intros Hf [[Ha|Ha] _].
  - destruct Hf as (a & Hag & Hk). exists a. by rewrite (agent_is_ext nn a _ _ Ha).
  - destruct (stored_agent m m' Hf Ha) as (a & Hag & Hk). exists (stored a). split; [done|by apply kin_again].
Qed.
Lemma in_step_toward m m' : family m -> toward m m' -> in_step m -> in_step m'.
Proof.
  intros Hf [[Ha|Ha] _] Hi.
  - destruct Hi as (a & Hag & Hr). exists a. by rewrite (agent_is_ext nn a _ _ Ha).
  - destruct (stored_agent m m' Hf Ha) as (a & Hag & Hk). exists (stored a). split; [done|by apply stored_in_step].
Qed.
Lemma settled_toward m m' : family m -> toward m m' -> settled m -> settled m'.
Proof. intros Hf Ht [Hs Hi]. split; [by apply Ht|by apply (in_step_toward m)]. Qed.

(** The server and the cache hold agents of the family, and the cache is not ahead. *)
Record lineage w : Prop := MkLineage {
  lin_view : family (view w);
  lin_seen : family (seen w);
  lin_step : in_step (seen w) -> in_step (view w);
  lin_set : is_Some (seen w !! ("StatefulSet", nn)) -> is_Some (view w !! ("StatefulSet", nn));
}.

Lemma lineage_toward w w' : lineage w -> seen w' = seen w -> toward (view w) (view w') -> lineage w'.
Proof.
  intros [Hv Hs Hi Hset] Hseen Ht. constructor; rewrite ?Hseen; [by apply (family_toward (view w))|done| |].
  - intros Hst. by apply (in_step_toward (view w)), Hi.
  - intros Hst. by apply Ht, Hset.
Qed.

(** What everybody does to a lineage. *)
Definition onward w w' : Prop := lineage w -> lineage w' /\ toward (view w) (view w').
#[export] Instance onward_preorder : PreOrder onward.
Proof.
  split; [intros w Hl; by split|]. intros w1 w2 w3 H12 H23 Hl. destruct (H12 Hl) as [Hl2 Ht2], (H23 Hl2) as [Hl3 Ht3].
  split; [done|by etrans].
Qed.
Lemma onward_same w w' : seen w' = seen w -> toward (view w) (view w') -> onward w w'.
Proof. intros Hs Ht Hl. split; [by eapply lineage_toward|done]. Qed.

(** A run that reports no error leaves the agent settled. *)
Definition settles (r : reconcile_result * option error) w : Prop := lineage w /\ (r.2 = None -> settled (view w)).
#[export] Instance settles_stable r : Stable onward (settles r).
Proof.
  intros w w' [Hl Hr] Ho. destruct (Ho Hl) as [Hl' Ht]. split; [done|]. intros He.
  eapply settled_toward; [apply Hl|exact Ht|by apply Hr].
Qed.

(** ** The writes of one run *)

(** Between two calls: the stateful set is in place from some call on. *)
Definition stage (b : bool) w : Prop := lineage w /\ (b = true -> is_Some (view w !! ("StatefulSet", nn))).
Definition is_set o : bool := bool_decide (object_key o = ("StatefulSet", nn)).
Abbreviation wp_on := (wp onward onward).

#[export] Instance stage_stable b : Stable onward (stage b).
Proof. intros w w' [Hl Hb] Ho. destruct (Ho Hl) as [Hl' Ht]. split; [done|]. intros He. by apply Ht, Hb. Qed.

(** From stage [b], the statement [p] returns nil only at stage [b']. *)
Definition brings {E} (b b' : bool) (p : prog W (option E)) : Prop :=
  forall w, stage b w -> wp_on p (fun r w' => stage b w' /\ (r = None -> stage b' w')) w.

Lemma put_toward o (m : cluster) : object_key o <> ("Agent", nn) -> toward m (put m o).
Proof.
  intros Ho. apply leaves_toward. unfold put. split; [by apply lookup_insert_ne|]. intros Hs.
  destruct (decide (object_key o = ("StatefulSet", nn))) as [->|]; [by rewrite lookup_insert_eq; eexists|].
  by rewrite lookup_insert_ne.
Qed.

Lemma brings_call b m o : stores m o -> object_key o <> ("Agent", nn) -> brings b (b || is_set o) (await m).
Proof.
  intros Hm Ho w Hst w1 Hl. destruct (Hm w1) as (e & w' & -> & Hs & Hv). cbn. destruct (stage_stable b w w1 Hst Hl) as [Hlin Hb].
  assert (toward (view w1) (view w')) as Ht by (destruct e; rewrite Hv; [done|by apply put_toward]).
  pose proof (onward_same w1 w' Hs Ht) as Hon. split; [done|]. intros ? [= <-].
  destruct (stage_stable b w1 w' (conj Hlin Hb) Hon) as [Hlin' Hb']. split; [by split|]. intros ->.
  split; [done|]. rewrite orb_true_iff. intros [?|Hk]; [auto|]. apply bool_decide_eq_true in Hk. rewrite Hv. unfold put.
  rewrite Hk, lookup_insert_eq. by eexists.
Qed.

Lemma brings_WithStack b b' (p : prog W (option api_error)) : brings b b' p -> brings b b' (e ← p; mret (WithStack e)).
Proof.
  intros Hp w Hst. apply wp_bind. eapply wp_mono; [|by apply Hp]. intros r w' [Hb Hb']. split; [done|].
  destruct r; [done|]. intros _. by apply Hb'.
Qed.
Lemma brings_create b o :
  object_key o <> ("Agent", nn) -> brings b (b || is_set o) (e ← client_Create o; mret (WithStack e)).
Proof. intros Ho. by apply brings_WithStack, brings_call; [apply Create_stores|]. Qed.
Lemma brings_update b o :
  object_key o <> ("Agent", nn) -> brings b (b || is_set o) (e ← client_Update o; mret (WithStack e)).
Proof. intros Ho. by apply brings_WithStack, brings_call; [apply Update_stores|]. Qed.
Lemma brings_upsert b o :
  object_key o <> ("Agent", nn) -> brings b (b || is_set o) (e ← upsertResource o; mret (WithStack e)).
Proof.
  intros Ho. apply brings_WithStack. intros w Hst. apply wp_bind.
  eapply wp_mono; [|by apply (brings_call b _ o (Create_stores o) Ho)]. intros r w' [Hb Hb'].
  destruct r as [e|]; [|by split]. destruct (IsAlreadyExists e); [|by split].
  by apply (brings_call b _ o (Update_stores o) Ho).
Qed.

(** The result of a sequence of writes: nil only if the agent is settled. *)
Definition written (r : option error) w : Prop := lineage w /\ (r = None -> settled (view w)).

(** [if err != nil { return err }] *)
Lemma wp_if_err b b' (m k : prog W (option error)) w :
  brings b b' m -> stage b w -> (forall w', stage b' w' -> wp_on k written w') -> wp_on (return_if_err m k) written w.
Proof.
  intros Hm Hst Hk. apply wp_bind. eapply wp_mono; [|by apply Hm]. intros r w' [[Hl _] Hb'].
  destruct r as [e|]; [by split|]. by apply Hk, Hb'.
Qed.

Lemma record_agent a w :
  kin a -> stage true w -> wp_on (e ← client_Update (ObjAgent (stored a)); mret (WithStack e)) written w.
Proof.
  intros Ha Hst. apply wp_bind. intros w1 Hon. pose proof (stage_stable true w w1 Hst Hon) as [Hl Hset].
  destruct (Update_stores (ObjAgent (stored a)) w1) as (e & w' & -> & Hs & Hv). cbn.
  assert (object_key (ObjAgent (stored a)) = ("Agent", nn)) as Hk by (apply recorded_key, Ha).
  assert (toward (view w1) (view w')) as Ht.
  { destruct e; rewrite Hv; [done|]. split; [right|]; unfold put; rewrite Hk.
    - by rewrite lookup_insert_eq, (kin_stored a Ha).
    - by rewrite lookup_insert_ne. }
  split; [by apply onward_same|]. intros ? [= <-]. split; [by eapply lineage_toward|]. destruct e as [e|]; [done|]. intros _.
  split; [by apply Ht, Hset|]. exists (stored a). split; [|by apply stored_in_step]. split; [|done].
  rewrite Hv. unfold put. by rewrite Hk, lookup_insert_eq.
Qed.

(** One write of the plan. *)
Ltac next_write :=
  match goal with Hst : stage _ ?w |- Goroutines.wp _ _ (return_if_err _ _) _ ?w =>
    eapply wp_if_err; [first [apply brings_upsert | apply brings_create | apply brings_update]; by intros [=]|exact Hst|];
    clear Hst w; intros ? ?
  end.

Lemma create_objects_wp a rs w :
  kin a -> Resources (agent_Spec (FillDefaultValue a)) = Some rs -> stage false w ->
  wp_on (create_objects json_Marshal (agent_resources SetControllerReference (FillDefaultValue a) rs)
        (without_snapshot (FillDefaultValue a))) written w.
Proof.
  intros Ha Hrs Hst. assert (is_set (ObjStatefulSet (res_StatefulSet (agent_resources SetControllerReference (FillDefaultValue a) rs))) = true) as Hset.
  { apply bool_decide_eq_true.
    pose proof (f_equal (fun l => nth 3 l ("", nn)) (create_keys SetControllerReference json_Marshal nn a rs (kin_key a Ha))) as Hs.
    by destruct nn. }
  unfold create_objects. do 4 next_write. rewrite Hset, orb_true_r in *. by apply record_agent.
Qed.

Lemma update_objects_wp a rs old w :
  kin a -> object_key (ObjStatefulSet old) = ("StatefulSet", nn) -> stage true w ->
  wp_on (update_objects json_Marshal old (agent_resources SetControllerReference (FillDefaultValue a) rs)
        (without_snapshot (FillDefaultValue a))) written w.
Proof. intros Ha Ho Hst. unfold update_objects. do 4 next_write. by apply record_agent. Qed.

(** The conversion, and the answer to a sequence of writes. *)
Lemma requeue_wp a (k : AgentResources * Agent -> prog W (option error)) w :
  (forall rs, Resources (agent_Spec (FillDefaultValue a)) = Some rs ->
     wp_on (k (agent_resources SetControllerReference (FillDefaultValue a) rs, without_snapshot (FillDefaultValue a))) written w) ->
  wp_on (requeue (on_agent (ConvertAgent SetControllerReference) (FillDefaultValue a) ≫= k)) settles w.
Proof.
  intros Hk. destruct (fill_resources a) as [rs Hrs]. apply wp_bind, wp_bind. unfold on_agent.
  apply wp_local; rewrite ConvertAgent_run, Hrs; cbn; [reflexivity|]. intros ? [= <-].
  eapply wp_mono; [|by apply Hk]. intros [e|] w' [Hl Hr]; (split; [done|]); [done|]. intros _. by apply Hr.
Qed.

(** ** The whole run *)

Lemma on_read {A B} (f : W -> A) (k : A -> prog W B) Q w :
  (forall w', onward w w' -> wp_on (k (f w')) Q w') -> wp_on (client_read f ≫= k) Q w.
Proof. intros Hk. apply wp_bind. intros w' Hl. split; [reflexivity|]. intros b [= <-]. by apply Hk. Qed.
Lemma on_error res e w : lineage w -> wp_on (mret (res, Some e)) settles w.
Proof. by intros Hl. Qed.

Lemma status_part_settles a w :
  lineage w -> settled (view w) -> wp_on (status_part StatefulSetList_Size a) settles w.
Proof.
  intros Hl0 Hc0. assert (settles (zero_result, None) w) as Hs by done. clear Hl0 Hc0.
  apply on_read. intros w1 Ho. pose proof (settles_stable _ w w1 Hs Ho) as Hs1.
  destruct (api_ListStatefulSets _ _ w1) as [items|e]; [|by apply on_error, Hs1].
  case_bool_decide; [done|]. destruct items as [|item items]; [by split|].
  case_bool_decide; [done|]. apply wp_bind. intros w2 Ho2. pose proof (settles_stable _ w1 w2 Hs1 Ho2) as Hs2.
  set (b := set_agent_status _ _). pose proof (update_status_seen b w2) as Hseen.
  destruct (api_UpdateStatus b w2) as [e w3] eqn:Hu. pose proof (status_view b w2 e w3 Hu) as Hv. cbn in *.
  assert (onward w2 w3) as Ho3 by (apply onward_same; [done|by rewrite Hv]).
  split; [done|]. intros ? [= <-]. destruct (settles_stable _ w2 w3 Hs2 Ho3) as [Hl3 Hc3]. split; [done|]. intros _. by apply Hc3.
Qed.

Lemma Reconcile_settles_wp w : lineage w -> wp_on (reconcile nn) settles w.
Proof.
  intros Hl. unfold Reconcile. apply on_read. intros w1 Ho1. destruct (Ho1 Hl) as [Hl1 _].
  pose proof (seen_agent nn w1) as Hva. destruct (api_GetAgent nn w1) as [a|e].
  2: { destruct (IsNotFound e); [|by apply on_error]. destruct (lin_seen w1 Hl1) as (a & [Hav _] & _). by rewrite Hva in Hav. }
  pose proof (family_agent _ a (lin_seen w1 Hl1) Hva) as Ha. rewrite (kin_deletion a Ha), bool_decide_false by (by intros [? ?]).
  apply on_read. intros w2 Ho2. destruct (Ho2 Hl1) as [Hl2 Ht2]. pose proof (seen_set nn w2) as Hvs.
  destruct (api_GetStatefulSet nn w2) as [old|e].
  2: { destruct (IsNotFound e); [|by apply on_error]. apply requeue_wp. intros rs Hrs. by apply create_objects_wp. }
  destruct Hvs as [Hset Hok]. assert (is_Some (view w2 !! ("StatefulSet", nn))) as Hset2 by (apply (lin_set w2 Hl2); by rewrite Hset).
  rewrite fill_meta. destruct (json_Unmarshal _) as [s|e] eqn:Hu; [|by apply on_error].
  case_bool_decide as Heq; cbn [negb].
  2: { apply requeue_wp. intros rs Hrs. by apply update_objects_wp. }
  rewrite <- (fill_meta a). apply status_part_settles; [done|]. split; [done|].
  apply (in_step_toward (view w1)); [apply Hl1|done|]. apply (lin_step w1 Hl1). exists a. split; [done|]. unfold recorded_spec.
  by rewrite Hu, Heq.
Qed.
End Family.
End Settling.
