(* ===== verification/Operator.v ===== *)
(** * The start of the operator

    [src/main.go], [SetupWithManager] of [controllers/agent_controller.go] and the scheme of
    [api/v1alpha1]: what is registered, and in which order the process is set up. *)

From stdpp Require Import base tactics option list gmap strings relations.
From S2P Require Import Prelude GoStrings AgentTypes Converter Reconciler ReconcilerSpec.

Local Open Scope string_scope.

(** ** The scheme *)

(** Group, version and kind of a type. *)
Abbreviation kind_id := (string * string * string)%type.
Abbreviation scheme := (gset kind_id).

Definition GroupVersion : string * string := (GroupVersion_Group, "v1alpha1").

(** [scheme.Builder]: the kinds registered so far, for one group and version. *)
Record scheme_builder := MkBuilder { builder_GroupVersion : string * string; builder_kinds : list string }.
Definition new_SchemeBuilder : scheme_builder := MkBuilder GroupVersion [].
Definition Register (kinds : list string) (b : scheme_builder) : scheme_builder :=
  MkBuilder (builder_GroupVersion b) (builder_kinds b ++ kinds).
(** The [init] of agent_types.go. *)
Definition SchemeBuilder : scheme_builder := Register ["Agent"; "AgentList"] new_SchemeBuilder.
Definition builder_ids (b : scheme_builder) : list kind_id := map (pair (builder_GroupVersion b)) (builder_kinds b).

(** The kinds of the objects that [Reconcile] reads and writes. *)
Definition operator_kinds : list kind_id :=
  [(GroupVersion, "Agent"); ("", "v1", "ServiceAccount");
   ("rbac.authorization.k8s.io", "v1", "Role"); ("rbac.authorization.k8s.io", "v1", "RoleBinding");
   ("apps", "v1", "StatefulSet"); ("apps", "v1", "StatefulSetList")].

Section Scheme.
(** [AddToScheme] of client-go, and of a builder. *)
Variable clientgo_AddToScheme : scheme -> scheme * option error.
Variable builder_AddToScheme : scheme_builder -> scheme -> scheme * option error.

(** [utilruntime.Must] *)
Definition Must (err : option error) : M scheme unit :=
  match err with Some e => panic e | None => mret tt end.
Definition AddToScheme : scheme -> scheme * option error := builder_AddToScheme SchemeBuilder.
(** The [init] of main.go, on the new scheme. *)
Definition main_init : M scheme unit :=
  err ← (fun s => let (s', e) := clientgo_AddToScheme s in (Done e, s'));
  _ ← Must err;
  err ← (fun s => let (s', e) := AddToScheme s in (Done e, s'));
  Must err.
End Scheme.

(** ** Setting up *)

Record flags := MkFlags { metricsAddr : string; probeAddr : string; enableLeaderElection : bool }.
Definition flag_defaults : flags := MkFlags ":8080" ":8081" false.

(** [ctrl.Options] *)
Record manager_options := MkOptions {
  MetricsBindAddress : string;
  Port : Z;
  HealthProbeBindAddress : string;
  LeaderElection : bool;
  LeaderElectionID : string;
}.
Definition options_of (f : flags) : manager_options :=
  MkOptions (metricsAddr f) 9443 (probeAddr f) (enableLeaderElection f) "8e3aefdd.erda.cloud".

(** What a controller reacts to: objects of its own kind, and objects they control. *)
Record controller := MkController { For : string; Owns : list string }.

(** The calls that can fail. *)
Inductive setup_call :=
| GetConfigOrDie
| NewManager (opts : manager_options)
| Complete (c : controller)
| AddHealthzCheck (name : string)
| AddReadyzCheck (name : string)
| Start.

Section Main.
(** The outcome of a call, from the calls before it. *)
Variable answers : list setup_call -> setup_call -> option error.
(** [flag.Parse]: the values of the flags, or the status the process exits with. *)
Variable flag_Parse : flags -> list string -> flags + Z.

Definition perform (c : setup_call) : M (list setup_call) (option error) := fun calls =>
  (Done (answers calls c), (calls ++ [c])%list).

(** [NewControllerManagedBy(mgr).For(&Agent{}).Owns(&StatefulSet{}).Complete(r)] *)
Definition SetupWithManager : M (list setup_call) (option error) :=
  perform (Complete (MkController "Agent" ["StatefulSet"])).

(** [if err := call; err != nil { os.Exit(1) }] *)
Definition or_exit (call : M (list setup_call) (option error)) (rest : M (list setup_call) Z) : M (list setup_call) Z :=
  err ← call;
  match err with Some _ => mret 1%Z | None => rest end.

(** The status the process exits with. *)
Definition main (args : list string) : M (list setup_call) Z :=
  match flag_Parse flag_defaults args with
  | inr status => mret status
  | inl f =>
      or_exit (perform GetConfigOrDie) $
      or_exit (perform (NewManager (options_of f))) $
      or_exit SetupWithManager $
      or_exit (perform (AddHealthzCheck "healthz")) $
      or_exit (perform (AddReadyzCheck "readyz")) $
      or_exit (perform Start) $
      mret 0%Z
  end.

(** The calls of a start that succeeds. *)
Definition start_calls (f : flags) : list setup_call :=
  [GetConfigOrDie; NewManager (options_of f); Complete (MkController "Agent" ["StatefulSet"]);
   AddHealthzCheck "healthz"; AddReadyzCheck "readyz"; Start].
(** Call number [i] of it succeeds. *)
Definition call_ok (f : flags) (i : nat) : Prop :=
  exists c, start_calls f !! i = Some c /\ answers (take i (start_calls f)) c = None.

Fixpoint in_order (calls : list setup_call) : M (list setup_call) Z :=
  match calls with
  | [] => mret 0%Z
  | c :: calls' => or_exit (perform c) (in_order calls')
  end.

Lemma in_order_run todo done_ :
  exists n st, in_order todo done_ = (Done st, (done_ ++ take n todo)%list) /\
    (forall i c, i < n - 1 -> todo !! i = Some c -> answers (done_ ++ take i todo)%list c = None) /\
    ((st = 1%Z /\ exists c e, 0 < n /\ todo !! (n - 1) = Some c /\ answers (done_ ++ take (n - 1) todo)%list c = Some e) \/
     (st = 0%Z /\ n = length todo /\ (forall i c, todo !! i = Some c -> answers (done_ ++ take i todo)%list c = None))).
Proof.
  revert done_. induction todo as [|c todo IH]; intros done_.
  { exists 0, 0%Z. rewrite app_nil_r. split_and!; [done|intros; lia|]. right. by split_and!. }
  cbn [in_order]. unfold or_exit. rewrite M_bind_run. cbn. destruct (answers done_ c) as [e|] eqn:E.
  - exists 1, 1%Z. split_and!; [by destruct todo|intros; lia|]. left. split; [done|]. exists c, e. cbn. rewrite app_nil_r.
    by split_and!; [lia|..].
  - destruct (IH (done_ ++ [c])%list) as (n & st & -> & Hok & Hend). exists (S n), st.
    assert (Hstep : forall i c', (forall c'', todo !! i = Some c'' -> answers ((done_ ++ [c]) ++ take i todo)%list c'' = None) ->
      (c :: todo) !! S i = Some c' -> answers (done_ ++ take (S i) (c :: todo))%list c' = None).
    { intros i c' H Hi. rewrite <- (H c' Hi). f_equal. cbn. by rewrite <- (assoc_L (++)%list). }
    split_and!.
    + cbn. by rewrite <- (assoc_L (++)%list).
    + intros [|i] c' Hi Hc'; [cbn in Hc'; simplify_eq; by rewrite app_nil_r|]. apply Hstep; [|done].
      intros c'' Hc''. apply Hok; [lia|done].
    + destruct Hend as [(-> & c' & e & Hn & Hc' & He)|(-> & -> & Hall)].
      * left. split; [done|]. exists c', e. destruct n as [|n]; [lia|]. cbn in *. rewrite Nat.sub_0_r in *.
        split_and!; [lia|done|]. by rewrite <- (assoc_L (++)%list) in He.
      * right. split_and!; [done|done|]. intros [|i] c' Hc'; [cbn in Hc'; simplify_eq; by rewrite app_nil_r|].
        apply Hstep; [|done]. intros c''. apply Hall.
Qed.
End Main.

(** ** Theorems on the start *)

(** C35: the manager is started only when everything has been set up: the process makes a
    prefix of six calls in order, the controller for agents and their stateful sets and the
    two checks before the start; it ends with status 1 at once when a call fails, and with 0
    exactly when all of them succeeded; wrong flags end it before the first call. *)
Theorem main_starts_last answers flag_Parse args :
  match flag_Parse flag_defaults args with
  | inr status => main answers flag_Parse args [] = (Done status, [])
  | inl f =>
      exists n status, main answers flag_Parse args [] = (Done status, take n (start_calls f)) /\
        (forall i, i < n - 1 -> call_ok answers f i) /\
        ((status = 1%Z /\ 0 < n /\ n <= 6 /\ ~ call_ok answers f (n - 1)) \/
         (status = 0%Z /\ n = 6 /\ call_ok answers f 5))
  end.
Proof.
  unfold main. destruct (flag_Parse flag_defaults args) as [f|status]; [|done].
  destruct (in_order_run answers (start_calls f) []) as (n & st & Hrun & Hok & Hend).
  exists n, st. split; [exact Hrun|]. split.
  - intros i Hi. assert (Hlt : i < 6).
    { destruct Hend as [(_ & c & e & _ & Hc & _)|(_ & -> & _)]; [|cbn in Hi; lia].
      apply lookup_lt_Some in Hc. cbn in Hc. lia. }
    destruct (lookup_lt_is_Some_2 (start_calls f) i Hlt) as [c Hc]. exists c. split; [done|]. by apply Hok.
  - destruct Hend as [(-> & c & e & Hn & Hc & He)|(-> & -> & Hall)].
    + left. pose proof (lookup_lt_Some _ _ _ Hc) as Hlt. cbn in Hlt. split_and!; [done|lia|lia|].
      intros (c' & Hc' & Ha). rewrite Hc in Hc'. injection Hc' as <-. cbn in He. congruence.
    + right. split_and!; [done..|]. eexists. split; [reflexivity|]. by apply (Hall 5).
Qed.

(** After the [init] functions the scheme knows the kinds of all objects the operator handles;
    the laws are what client-go and the scheme builder promise when they report no error. *)
Lemma scheme_complete clientgo builder s s' :
  (forall s s', clientgo s = (s', None) -> s ⊆ s' /\ list_to_set (tail operator_kinds) ⊆ s') ->
  (forall b s s', builder b s = (s', None) -> s ⊆ s' /\ list_to_set (builder_ids b) ⊆ s') ->
  main_init clientgo builder s = (Done tt, s') -> forall k, k ∈ operator_kinds -> k ∈ s'.
Proof.
  intros Hc Hb. unfold main_init, AddToScheme. rewrite M_bind_run. specialize (Hc s). specialize (Hb SchemeBuilder).
  destruct (clientgo s) as [s1 [e|]]; [done|]. destruct (Hc s1 eq_refl) as [_ H1]. rewrite !M_bind_run. cbn.
  specialize (Hb s1). rewrite !M_bind_run. destruct (builder SchemeBuilder s1) as [s2 [e|]]; [done|].
  destruct (Hb s2 eq_refl) as [H2 H3]. intros [= <-] k Hk. unfold operator_kinds in Hk.
  rewrite elem_of_cons in Hk. destruct Hk as [->|Hk].
  - by apply H3, elem_of_list_to_set, list_elem_of_here.
  - by apply H2, H1, elem_of_list_to_set.
Qed.
