(* ===== verification/ControlLoop.v ===== *)
(** * The running operator

    Between the cluster and [Reconcile] is the controller: a cache that follows the cluster, a
    queue of requests that changes of the cache fill, the requests that are asked for at a
    later time, and one run at a time, between the calls of which everybody else may change the
    cluster and the cache may catch up. A step relation on these gives the
    two properties of the operator as a whole: no agent is forgotten, and every agent is
    settled in the end. *)

From stdpp Require Import base tactics option list gmap strings relations.
From S2P Require Import Prelude GoStrings AgentTypes Converter Goroutines Reconciler ReconcilerSpec ReconcilerRuns Settling Operator.

Local Open Scope string_scope.

Section Running.
Context `{K8sTypes} {W : Type} `{!ApiServer W} `{!ApiServerLaws W}.
Variable SetControllerReference : Agent -> ObjectMeta -> list OwnerReference.
Variable json_Marshal : AgentSpec -> string + error.
Variable json_Unmarshal : string -> AgentSpec + error.
Variable StatefulSetList_Size : list StatefulSet -> Z.
(** The agent whose controller reference is among the owner references of an object. *)
Variable controller_of : list OwnerReference -> option string.
Variable c : controller.
Implicit Types (w : W) (nn : namespaced_name).

Abbreviation reconcile := (Reconcile SetControllerReference json_Marshal json_Unmarshal StatefulSetList_Size).
Abbreviation settled := (settled json_Unmarshal).
Abbreviation calm := (calm json_Unmarshal).
Abbreviation spec_json_ok := (spec_json_ok json_Marshal json_Unmarshal).
Abbreviation cluster := (gmap (string * namespaced_name) client_object).
Abbreviation run := (prog W (reconcile_result * option error)).

(** Whether an object is controlled by agent [nn]. *)
Definition controls nn (o : client_object) : Prop :=
  Namespace (object_meta o) = nn.1 /\ controller_of (OwnerReferences (object_meta o)) = Some nn.2.

(** The controller hears nothing of [nn] when its cache goes from [m] to [m']: its own object
    has not changed, and none that it controls or has controlled. *)
Definition unnoticed (m m' : cluster) nn : Prop :=
  m' !! (For c, nn) = m !! (For c, nn) /\
  forall k o, k.1 ∈ Owns c -> controls nn o -> m !! k = Some o \/ m' !! k = Some o -> m' !! k = m !! k.

(** The requests that wait, those that are asked for at a later time, the run in progress, and
    whether the process has crashed. *)
Record op_state := OpState {
  op_world : W;
  op_queue : gset namespaced_name;
  op_delayed : gset namespaced_name;
  op_running : option (namespaced_name * run);
  op_crashed : bool;
}.

Inductive op_label :=
| Edit
| Begin (nn : namespaced_name)
| Call (nn : namespaced_name)
| End (nn : namespaced_name) (res : reconcile_result) (err : option error)
| Timer (nn : namespaced_name)
| Crash (nn : namespaced_name)
| Restart.

(** What waits after [w] has become [w']: all that waited in [q], all that is noticed, and
    what a resynchronisation adds. *)
Definition enqueued w w' (q q' : gset namespaced_name) : Prop :=
  q ⊆ q' /\ forall nn, nn ∈ q' \/ unnoticed (cached w) (cached w') nn.

(** The process starts by filling the cache and listing what is there. *)
Definition op_start w (q : gset namespaced_name) : op_state := OpState w q ∅ None false.
Definition lists w (q : gset namespaced_name) : Prop := forall nn, is_Some (cached w !! (For c, nn)) -> nn ∈ q.

(** A run goes from one call to the next; a request that comes in for it meanwhile waits in
    the queue. *)
Inductive op_step : op_label -> op_state -> op_state -> Prop :=
| op_edit w w' q q' d r b :
    enqueued w w' q q' -> op_step Edit (OpState w q d r b) (OpState w' q' d r b)
| op_begin nn w q d :
    nn ∈ q -> op_step (Begin nn) (OpState w q d None false) (OpState w (q ∖ {[nn]}) d (Some (nn, reconcile nn)) false)
| op_call nn p p' w w' q q' d :
    is_ret p = false -> exec p w = (Done (p', []), w') -> enqueued w w' q q' ->
    op_step (Call nn) (OpState w q d (Some (nn, p)) false) (OpState w' q' d (Some (nn, p')) false)
| op_end nn res err w q d :
    op_step (End nn res err) (OpState w q d (Some (nn, Ret (res, err))) false)
      (OpState w q (if asks_again res err then {[nn]} ∪ d else d) None false)
| op_timer nn w q d r :
    nn ∈ d -> op_step (Timer nn) (OpState w q d r false) (OpState w ({[nn]} ∪ q) (d ∖ {[nn]}) r false)
| op_crash nn p w q d msg w' :
    exec p w = (Panic msg, w') -> op_step (Crash nn) (OpState w q d (Some (nn, p)) false) (OpState w' q d None true)
| op_restart w q d r b q' :
    lists w q' -> op_step Restart (OpState w q d r b) (op_start w q').
Definition some_op_step (s s' : op_state) : Prop := exists l, op_step l s s'.

(** When a stateful set with the name of the agent vanishes, it was controlled by the agent. *)
Definition not_orphaned nn w w' : Prop :=
  forall s, cached w !! ("StatefulSet", nn) = Some s -> cached w' !! ("StatefulSet", nn) = None -> controls nn s.
(** A step in which nobody makes an orphan of agent [nn]'s stateful set vanish. *)
Definition keeping_step nn (s s' : op_state) : Prop :=
  exists l, op_step l s s' /\ (l = Edit -> not_orphaned nn (op_world s) (op_world s')).
Lemma keeping_steps nn s s' : rtc (keeping_step nn) s s' -> rtc some_op_step s s'.
Proof. apply rtc_subrel. intros x y (l & Hl & _). by exists l. Qed.

Abbreviation view_of s := (view (op_world s)).

(** Agent [nn] is waited for: it is in the queue, will be at a later time, or is being run. *)
Definition awaited (s : op_state) nn : Prop :=
  nn ∈ op_queue s \/ nn ∈ op_delayed s \/ exists p, op_running s = Some (nn, p).

(** ** No agent is forgotten *)

Hypothesis c_agents : c = MkController "Agent" ["StatefulSet"].

Abbreviation anything := (fun _ _ : W => True).
Abbreviation run_post := (run_post json_Unmarshal).

(** A run in progress keeps to what belongs to its agent, whatever the others do. *)
Definition run_within (s : op_state) : Prop :=
  forall nn p, op_running s = Some (nn, p) ->
    ready (within nn) anything p (op_world s) /\ unblocked p /\ preserves same_cache p.

(** A run in progress of which nothing was noticed ends with nothing left to do, as far as the
    cache shows, or asks to be run again. *)
Definition run_ok (s : op_state) nn : Prop :=
  forall p, op_running s = Some (nn, p) -> ready_for anything (seen_leaves nn) p (run_post nn) (op_world s).

Definition within_inv (s : op_state) : Prop := op_crashed s = true \/ run_within s.
Definition op_inv nn (s : op_state) : Prop :=
  op_crashed s = true \/ nn ∈ op_queue s \/
    run_ok s nn /\ (calm nn (seen (op_world s)) \/ nn ∈ op_delayed s \/ exists p, op_running s = Some (nn, p)).

Lemma seen_same w w' k : cached w' !! k = cached w !! k -> seen w' !! k = seen w !! k.
Proof. intros Hk. unfold seen. by rewrite !lookup_fmap, Hk. Qed.

Lemma start_inv nn w q : lists w q -> op_inv nn (op_start w q).
Proof.
  intros Hl. right. destruct (decide (nn ∈ q)) as [|Hn]; [by left|]. right. split; [done|].
  left. intros (a & [Ha _] & _). destruct Hn. apply Hl. rewrite c_agents. unfold seen in Ha. rewrite lookup_fmap in Ha. cbn in *.
  destruct (cached w !! ("Agent", nn)); [by eexists|done].
Qed.

(** What is not noticed leaves the cached agent alone. *)
Lemma unnoticed_leaves w w' nn :
  not_orphaned nn w w' -> unnoticed (cached w) (cached w') nn -> seen_leaves nn w w'.
Proof.
  intros Hfair [Hag Hown]. rewrite c_agents in Hag, Hown. cbn in Hag, Hown. split; [by apply seen_same|].
  unfold seen. rewrite !lookup_fmap. destruct (cached w !! ("StatefulSet", nn)) as [o|] eqn:Eo; [|by intros [? ?]].
  intros _. destruct (cached w' !! ("StatefulSet", nn)) as [o'|] eqn:Eo'; [by eexists|].
  rewrite (Hown ("StatefulSet", nn) o) in Eo'; [congruence|set_solver|by apply Hfair|by left].
Qed.
Lemma same_cache_leaves nn w w' : same_cache w w' -> seen_leaves nn w w'.
Proof. intros Hc. unfold seen_leaves, seen. by rewrite Hc. Qed.

(** *** One step *)

Lemma run_within_call nn p p' w w' q q' d d' :
  run_within (OpState w q d (Some (nn, p)) false) -> exec p w = (Done (p', []), w') ->
  run_within (OpState w' q' d' (Some (nn, p')) false) /\ within nn w w' /\ same_cache w w'.
Proof.
  intros Hw He. destruct (Hw nn p eq_refl) as (Hr & Hu & Hc). cbn in Hr.
  destruct (exec_ready _ _ _ _ _ _ Hr He) as [Hin Hp], (exec_preserves _ _ _ _ _ Hc He) as [Hsame Hp'].
  split; [|done]. intros nn' p1 [= <- <-]. pose proof (exec_unblocked p w Hu) as Hu'. rewrite He in Hu'.
  split_and!; [by apply (Hp p' [])|apply Hu'|by apply (Hp' p' [])].
Qed.
Lemma run_within_later w w' q q' d d' r b b' :
  run_within (OpState w q d r b) -> run_within (OpState w' q' d' r b').
Proof. intros Hw nn p Hp. destruct (Hw nn p Hp) as [Hr Hrest]. split; [|done]. by intros w2 _; apply Hr. Qed.
Lemma run_within_begin w q d nn b : run_within (OpState w q d (Some (nn, reconcile nn)) b).
Proof.
  intros nn' p [= <- <-]. split_and!; [|apply Reconcile_unblocked|apply Reconcile_cache]. intros w' _. apply Reconcile_within.
Qed.

Lemma run_ok_call nn p p' w w' q q' d d' :
  run_ok (OpState w q d (Some (nn, p)) false) nn -> exec p w = (Done (p', []), w') ->
  run_ok (OpState w' q' d' (Some (nn, p')) false) nn.
Proof.
  intros Hr He. specialize (Hr p eq_refl). cbn in Hr.
  destruct (exec_ready_for _ _ _ (run_post nn) _ _ _ (run_post_stable json_Unmarshal nn) Hr He) as [_ Hp].
  intros p1 [= <-]. by apply (Hp p' []).
Qed.
Lemma run_ok_later nn w w' q q' d d' r b :
  run_ok (OpState w q d r b) nn -> seen_leaves nn w w' -> run_ok (OpState w' q' d' r b) nn.
Proof. intros Hr Hl p Hp. eapply ready_for_later; [typeclasses eauto|by apply Hr|exact Hl]. Qed.
Lemma run_ok_begin nn w q d b : run_ok (OpState w q d (Some (nn, reconcile nn)) b) nn.
Proof. intros p [= <-] w' Hl. apply Reconcile_seen. Qed.

Lemma op_step_within l s s' : op_step l s s' -> within_inv s -> within_inv s'.
Proof.
  intros Hs Hw. destruct Hs as [| |nn p p' w w' q q' d _ He _| | | |]; try (by left); try (by right);
    (destruct Hw as [|Hw]; [by left|]); right.
  - by eapply run_within_later.
  - apply run_within_begin.
  - by eapply (run_within_call nn p p' w w' q q' d d).
  - exact Hw.
Qed.

Lemma op_step_inv nn l s s' :
  op_step l s s' -> (l = Edit -> not_orphaned nn (op_world s) (op_world s')) -> within_inv s -> op_inv nn s -> op_inv nn s'.
Proof.
  intros Hs Hkeep Hw HI. destruct Hs as [w w' q q' d r b [Hq Hn]|nn' w q d Hin|nn' p p' w w' q q' d _ He [Hq _]|nn' res err w q d|nn' w q d r Hin| |w q d r b q' Hl];
    try (by left); try (by apply start_inv).
  all: destruct HI as [HI|HI]; [by left|]; right; cbn in *.
  - destruct (Hn nn) as [?|Hun]; [by left|]. destruct HI as [?|[Hr Hc]]; [left; set_solver|]. right.
    pose proof (unnoticed_leaves w w' nn (Hkeep eq_refl) Hun) as Hl.
    split; [by eapply run_ok_later|]. destruct Hc as [Hc|?]; [left; by eapply calm_leaves|by right].
  - destruct (decide (nn = nn')) as [<-|Hne].
    + right. split; [by apply run_ok_begin|]. right. right. by eexists.
    + destruct HI as [?|[Hr Hc]]; [left; set_solver|]. right. split; [by intros p [= -> _]|].
      destruct Hc as [?|[?|[p Hp]]]; [by left|by right; left|done].
  - destruct HI as [?|[Hr Hc]]; [left; set_solver|]. right. destruct (decide (nn = nn')) as [<-|Hne].
    + split; [by eapply (run_ok_call nn p p' w w' q q')|]. right. right. by eexists.
    + split; [by intros p1 [= -> _]|]. destruct Hc as [Hc|[?|[p1 [= -> _]]]]; [left|by right; left|done].
      destruct Hw as [|Hw]; [done|]. eapply calm_leaves; [|exact Hc]. apply same_cache_leaves.
      by apply (run_within_call nn' p p' w w' q q' d d Hw He).
  - destruct HI as [?|[Hr Hc]]; [by left|]. right. split; [done|].
    destruct (decide (nn = nn')) as [<-|Hne].
    + destruct (asks_again res err) eqn:Ha; [right; left; set_solver|]. left.
      by apply (Hr (Ret (res, err)) eq_refl w (reflexivity w)).
    + destruct Hc as [?|[?|[p [= -> _]]]]; [by left| |done]. right. left. destruct (asks_again res err); set_solver.
  - destruct HI as [?|[Hr Hc]]; [left; set_solver|].
    destruct (decide (nn = nn')) as [<-|Hne]; [left; set_solver|]. right. split; [exact Hr|].
    destruct Hc as [?|[?|?]]; [by left|right; left; set_solver|by right; right].
Qed.

Lemma op_steps_within s s' : rtc some_op_step s s' -> within_inv s -> within_inv s'.
Proof. intros Hs. induction Hs as [|s s1 s' [l Hl] _ IH]; [done|]. intros HI. by apply IH, (op_step_within l s). Qed.
Lemma op_steps_inv nn s s' : rtc (keeping_step nn) s s' -> within_inv s -> op_inv nn s -> op_inv nn s'.
Proof.
  intros Hs. induction Hs as [|s s1 s' (l & Hl & Hkeep) _ IH]; [done|]. intros Hw HI.
  apply IH; [by eapply op_step_within|by eapply op_step_inv].
Qed.
Lemma op_reachable_within w q s : rtc some_op_step (op_start w q) s -> within_inv s.
Proof. intros Hs. apply (op_steps_within _ _ Hs). by right. Qed.
Lemma op_reachable nn w q s : lists w q -> rtc (keeping_step nn) (op_start w q) s -> op_inv nn s.
Proof. intros Hl Hs. apply (op_steps_inv nn _ _ Hs); [by right|by apply start_inv]. Qed.

(** C9: an agent is not forgotten, as long as nobody takes its stateful set from its control
    and then makes it vanish: in every state the operator can reach from its start without
    that, whatever else others do to the cluster and to the agent itself, also between any two
    calls of a run, the agent, if it is wanted and the cache shows it as it is, is settled, or
    waits in the queue, or will be looked at again at a later time, or is being run; and this
    is so in spite of failing calls, of runs on old data, of panics and of restarts. *)
Theorem no_agent_forgotten w q s nn :
  lists w q -> rtc (keeping_step nn) (op_start w q) s -> op_crashed s = false ->
  up_to_date nn (op_world s) -> wanted nn (view_of s) -> settled nn (view_of s) \/ awaited s nn.
Proof.
  intros Hl Hs Hc Hup Hw. unfold awaited.
  destruct (op_reachable nn w q s Hl Hs) as [?|[?|[_ [Hcalm|[?|?]]]]];
    [congruence|by right; left| |by right; right; left|by right; right; right].
  left. by apply (calm_up_to_date _ _ _ Hup Hcalm).
Qed.

(** Agents that are named by a key or by a controller reference. *)
Definition mentioned (m : cluster) : gset namespaced_name :=
  list_to_set (map_to_list m ≫= fun '(k, o) =>
    k.2 :: match controller_of (OwnerReferences (object_meta o)) with
           | Some name => [(Namespace (object_meta o), name)]
           | None => []
           end).
Lemma mentioned_key m k o : m !! k = Some o -> k.2 ∈ mentioned m.
Proof.
  intros Hk. apply elem_of_list_to_set, list_elem_of_bind. exists (k, o).
  split; [apply list_elem_of_here|by apply elem_of_map_to_list].
Qed.
Lemma mentioned_controls m k o nn : m !! k = Some o -> controls nn o -> nn ∈ mentioned m.
Proof.
  intros Hk [Hns Hc]. apply elem_of_list_to_set, list_elem_of_bind. exists (k, o).
  split; [|by apply elem_of_map_to_list]. rewrite Hc, Hns. apply list_elem_of_further, list_elem_of_singleton. by destruct nn.
Qed.
Lemma can_enqueue w w' q : exists q', enqueued w w' q q'.
Proof.
  exists (q ∪ mentioned (cached w) ∪ mentioned (cached w')). split; [set_solver|]. intros nn.
  destruct (decide (nn ∈ mentioned (cached w))) as [|Hn]; [left; set_solver|].
  destruct (decide (nn ∈ mentioned (cached w'))) as [|Hn']; [left; set_solver|]. right.
  split; [|intros k o _ Hco [Ho|Ho]; [destruct Hn|destruct Hn']; by eapply mentioned_controls].
  destruct (cached w !! (For c, nn)) eqn:E; [destruct Hn; by apply mentioned_key in E|].
  destruct (cached w' !! (For c, nn)) eqn:E'; [destruct Hn'; by apply mentioned_key in E'|done].
Qed.

(** A run in progress is never stuck: it ends, goes on or panics. *)
Lemma run_can_step w q s nn p :
  rtc some_op_step (op_start w q) s -> op_crashed s = false -> op_running s = Some (nn, p) ->
  exists l s', op_step l s s' /\ (l = Call nn \/ l = Crash nn \/ exists res err, l = End nn res err).
Proof.
  intros Hs Hc Hp. destruct (op_reachable_within w q s Hs) as [?|Hw]; [congruence|].
  destruct (Hw nn p Hp) as (_ & Hu & _). destruct s as [w1 q1 d1 r1 b1]. cbn in Hc, Hp. subst.
  destruct (is_ret p) eqn:Er.
  - destruct p as [[res err]| | |]; [|done..]. exists (End nn res err). eexists. split; [apply op_end|]. eauto.
  - pose proof (exec_unblocked p w1 Hu) as He. destruct (exec p w1) as [[[p' gs]|msg|] w2] eqn:E; [|..|done].
    + destruct He as [_ ->]. destruct (can_enqueue w1 w2 q1) as [q2 Hq]. exists (Call nn). eexists.
      split; [by apply (op_call nn p p' w1 w2 q1 q2)|by left].
    + exists (Crash nn). eexists. split; [by eapply op_crash|by right; left].
Qed.

(** ** Every agent gets settled *)

(** The states and steps of an operator that runs for ever. *)
Variable st : nat -> op_state.
Variable lab : nat -> op_label.
Variable nn : namespaced_name.
Abbreviation view_at i := (view_of (st i)).
Abbreviation seen_at i := (seen (op_world (st i))).

Definition execution : Prop := forall i, op_step (lab i) (st i) (st (S i)).

(** A step of a run for [nn]. *)
Definition moves (l : op_label) : bool :=
  match l with Call nn' | End nn' _ _ | Crash nn' => bool_decide (nn' = nn) | _ => false end.
(** A request in the queue is served, a time that was set passes, and a run that has begun
    goes on. *)
Definition fair_runs : Prop :=
  (forall i, nn ∈ op_queue (st i) -> exists j, i <= j /\ lab j = Begin nn) /\
  (forall i, nn ∈ op_delayed (st i) -> exists j, i <= j /\ lab j = Timer nn) /\
  (forall i p, op_running (st i) = Some (nn, p) -> exists j, i <= j /\ moves (lab j) = true).

(** Between two steps of the operator nobody else touches what belongs to the agent, and the
    cache shows of it what it showed before or what was there at some time since. *)
Definition quiet_edit i : Prop :=
  (forall k, k ∈ owned nn -> view_at (S i) !! k = view_at i !! k) /\
  (forall k, k ∈ owned nn ->
     seen_at (S i) !! k = seen_at i !! k \/ exists j, j <= i /\ seen_at (S i) !! k = view_at j !! k).
(** Besides, no run for it reports an error, and the process neither crashes nor is started
    anew. *)
Definition undisturbed : Prop :=
  (forall i, lab i = Edit -> quiet_edit i) /\
  (forall i res err, lab i = End nn res err -> err = None) /\
  (forall i, match lab i with Crash _ | Restart => False | _ => True end).

Section Live.
Variable a0 : Agent.
Abbreviation lineage := (lineage json_Marshal json_Unmarshal nn a0).
Abbreviation toward := (toward json_Marshal nn a0).
Abbreviation onward := (onward json_Marshal json_Unmarshal nn a0).
Abbreviation settles := (settles json_Marshal json_Unmarshal nn a0).

(** A run for [nn] in progress will settle it, or report an error. *)
Definition run_settles (s : op_state) : Prop :=
  forall p, op_running s = Some (nn, p) -> ready_for onward onward p settles (op_world s).

(** What stays so while the agent gets settled. *)
Record live (s : op_state) : Prop := MkLive {
  live_within : run_within s;
  live_lineage : lineage (op_world s);
  live_settles : run_settles s;
}.
(** All states since the first. *)
Definition past i : Prop := forall j, j <= i -> lineage (op_world (st j)) /\ toward (view_at j) (view_at i).

(** A step that leaves the run for [nn] as it is. *)
Lemma live_onward w w' q q' d d' r b :
  onward w w' -> run_within (OpState w' q' d' r b) -> live (OpState w q d r b) -> live (OpState w' q' d' r b).
Proof.
  intros Ho Hw [_ Hlin Hr]. constructor; [done|by apply Ho|]. intros p Hp. eapply ready_for_later; [typeclasses eauto|by apply Hr|exact Ho].
Qed.
Lemma owned_leaves w w' : (forall k, k ∈ owned nn -> view w' !! k = view w !! k) -> leaves nn (view w) (view w').
Proof. intros Hk. destruct nn as [ns name]. split; by rewrite Hk by (unfold owned; set_solver). Qed.

Lemma quiet_onward i : quiet_edit i -> past i -> onward (op_world (st i)) (op_world (st (S i))).
Proof.
  intros [Hview Hseen] Hpast Hl. pose proof (leaves_toward json_Marshal nn a0 _ _ (owned_leaves _ _ Hview)) as Ht.
  split; [|done]. destruct Hl as [Hv Hs Hi Hset].
  assert (("Agent", nn) ∈ owned nn) as Ha by (destruct nn; unfold owned; set_solver).
  assert (("StatefulSet", nn) ∈ owned nn) as Hst by (destruct nn; unfold owned; set_solver).
  constructor.
  - by eapply (family_toward _ _ _ _ (view_at i)).
  - destruct (Hseen _ Ha) as [He|(j & Hj & He)].
    + destruct Hs as (a & Hag & Hk). exists a. by rewrite (agent_is_ext nn a _ _ He).
    + destruct (Hpast j Hj) as [[(a & Hag & Hk) _ _ _] _]. exists a. by rewrite (agent_is_ext nn a _ _ He).
  - intros (a & Hag & Hr). eapply in_step_toward; [exact Hv|exact Ht|]. destruct (Hseen _ Ha) as [He|(j & Hj & He)].
    + apply Hi. exists a. by rewrite <- (agent_is_ext nn a _ _ He).
    + destruct (Hpast j Hj) as [Hlj Htj]. eapply in_step_toward; [apply Hlj|exact Htj|]. exists a.
      by rewrite <- (agent_is_ext nn a _ _ He).
  - intros Hss. apply Ht. destruct (Hseen _ Hst) as [He|(j & Hj & He)]; rewrite He in Hss; [by apply Hset|].
    destruct (Hpast j Hj) as [_ Htj]. by apply Htj.
Qed.

(** One step takes a live state to a live one. *)
Lemma live_step l s s' :
  op_step l s s' -> (l = Edit -> onward (op_world s) (op_world s')) ->
  match l with Crash _ | Restart => False | _ => True end -> live s ->
  live s' /\ onward (op_world s) (op_world s').
Proof.
  intros Hs Hedit Hup HL.
  destruct Hs as [w w' q q' d r b _|nn' w q d _|nn' p p' w w' q q' d _ He _|nn' res err w q d|nn' w q d r _| |]; try done; cbn in *.
  - split; [|by apply Hedit]. eapply live_onward; [by apply Hedit| |exact HL]. eapply run_within_later, HL.
  - split; [|reflexivity]. destruct HL as [_ Hlin _]. constructor; [apply run_within_begin|done|].
    intros p [= -> <-] w' Ho. apply Reconcile_settles_wp. by apply Ho.
  - destruct HL as [Hw Hlin Hr]. destruct (run_within_call nn' p p' w w' q q' d d Hw He) as (Hw' & Hin & Hc).
    destruct (decide (nn' = nn)) as [->|Hne].
    + specialize (Hr p eq_refl). cbn in Hr.
      destruct (exec_ready_for _ _ _ settles _ _ _ (settles_stable json_Marshal json_Unmarshal nn a0) Hr He) as [Ho Hp].
      split; [|done]. constructor; [done|by apply Ho|]. intros p1 [= <-]. by apply (Hp p' []).
    + assert (onward w w') as Ho.
      { apply onward_same; [unfold seen; by rewrite Hc|]. apply leaves_toward, owned_leaves.
        intros k Hk. apply Hin. intros Hk'. by apply Hne, (owned_disjoint nn' nn k). }
      split; [|done]. constructor; [done|by apply Ho|]. by intros p1 [= -> _].
  - split; [|reflexivity]. destruct HL as [_ Hlin _]. by constructor.
  - split; [|reflexivity]. destruct HL as [Hw Hlin Hr]. by constructor.
Qed.
(** At a time when the cache shows the agent as it is. *)
Lemma start_lineage w :
  up_to_date nn w -> agent_is nn a0 (view w) -> DeletionTimestamp (agent_meta a0) = None -> spec_json_ok nn (view w) -> lineage w.
Proof.
  intros [Hua Hus] Ha Hd Hj. assert (kin json_Marshal json_Unmarshal nn a0 a0) as Hk.
  { constructor; [apply Ha|done| |done]. rewrite stored_spec. by apply Hj. }
  constructor.
  - by exists a0.
  - exists a0. by rewrite (agent_is_ext nn a0 _ _ Hua).
  - intros (a & Hag & Hr). exists a. by rewrite <- (agent_is_ext nn a _ _ Hua).
  - by rewrite Hus.
Qed.

Section Fair.
Hypothesis Hex : execution.
Hypothesis Hun : undisturbed.
Hypothesis Hfair : fair_runs.

Lemma live_past i : live (st 0) -> live (st i) /\ past i.
Proof.
  intros H0. induction i as [|i [IH Hpast]].
  - split; [done|]. intros j Hj. assert (j = 0) as -> by lia. split; [apply H0|reflexivity].
  - destruct Hun as (Hedit & _ & Hup).
    destruct (live_step (lab i) (st i) (st (S i)) (Hex i)
      (fun Hl => quiet_onward i (Hedit i Hl) Hpast) (Hup i) IH) as [HL Ho]. split; [done|].
    intros j Hj. destruct (decide (j = S i)) as [->|Hne]; [split; [apply HL|reflexivity]|].
    destruct (Hpast j ltac:(lia)) as [Hlj Htj]. split; [done|]. etrans; [exact Htj|]. apply Ho, IH.
Qed.
Lemma settled_from i j : live (st 0) -> settled nn (view_at i) -> i <= j -> settled nn (view_at j).
Proof.
  intros H0 Hset Hij. destruct (live_past j H0) as [_ Hpast]. destruct (Hpast i Hij) as [Hl Ht].
  eapply settled_toward; [apply Hl|exact Ht|exact Hset].
Qed.

(** A run stays as it is until it moves. *)
Lemma run_waits i j p :
  op_running (st i) = Some (nn, p) -> i <= j -> (forall k, i <= k < j -> moves (lab k) = false) ->
  op_running (st j) = Some (nn, p).
Proof.
  intros Hp Hij. induction Hij as [|j Hij IH]; [done|]. intros Hk. specialize (IH ltac:(intros; apply Hk; lia)).
  specialize (Hk j ltac:(lia)). destruct Hun as (_ & _ & Hup). specialize (Hup j). pose proof (Hex j) as Hs. revert Hs Hk Hup IH.
  generalize (st j), (st (S j)), (lab j). intros s s' l Hs Hk Hup IH.
  destruct Hs; cbn in *; try done; simplify_eq; by rewrite bool_decide_true in Hk.
Qed.

(** In a fair execution a run that has begun comes to its end. *)
Lemma run_ends p : forall i, op_running (st i) = Some (nn, p) ->
  exists j res err, i <= j /\ lab j = End nn res err.
Proof.
  destruct Hfair as (_ & _ & Hmove). induction p as [p IH] using exec_induction. intros i Hp.
  destruct (Hmove i p Hp) as (j0 & Hj0 & Hm0). destruct (least_from (fun k => moves (lab k)) i j0 Hj0 Hm0) as (j & Hj & Hm & Hleast).
  pose proof (run_waits i j p Hp Hj Hleast) as Hpj. destruct Hun as (_ & _ & Hup). specialize (Hup j).
  pose proof (Hex j) as Hs. destruct (lab j) as [|?|nn'|nn' res err|?|?|] eqn:El; try done; cbn in Hm; apply bool_decide_eq_true in Hm as ->.
  - assert (exists p' w w', is_ret p = false /\ exec p w = (Done (p', []), w') /\ op_running (st (S j)) = Some (nn, p')) as (p' & w & w' & Hret & He & Hp').
    { clear -Hs Hpj. inversion Hs as [| |? ? p' w w' ? ? ? Hret He _ Heq Hst Hst'| | | |]; subst. rewrite <- Hst in Hpj. cbn in Hpj.
      simplify_eq. by exists p', w, w'. }
    destruct (IH w p' [] w' Hret He (S j) Hp') as (k & res & err & Hk & Hlk). exists k, res, err. split; [lia|done].
  - by exists j, res, err.
Qed.

Lemma queue_settles i : live (st 0) -> nn ∈ op_queue (st i) -> exists j, settled nn (view_at j).
Proof.
  intros H0 Hin. pose proof Hfair as (Hq & _ & _). destruct (Hq i Hin) as (j & _ & Hj).
  assert (op_running (st (S j)) = Some (nn, reconcile nn)) as Hp.
  { pose proof (Hex j) as Hs. rewrite Hj in Hs. by inversion Hs. }
  destruct (run_ends _ (S j) Hp) as (k & res & err & _ & Hk). destruct Hun as (_ & Herr & _).
  rewrite (Herr k res err Hk) in Hk. exists k. destruct (live_past k H0) as [[_ _ Hr] _].
  assert (op_running (st k) = Some (nn, Ret (res, None))) as Hpk.
  { pose proof (Hex k) as Hs. rewrite Hk in Hs. by inversion Hs. }
  destruct (Hr _ Hpk (op_world (st k)) (reflexivity _)) as [_ Hpost]. by apply Hpost.
Qed.

Lemma delayed_settles i : live (st 0) -> nn ∈ op_delayed (st i) -> exists j, settled nn (view_at j).
Proof.
  intros H0 Hin. pose proof Hfair as (_ & Hd & _). destruct (Hd i Hin) as (j & _ & Hj).
  apply (queue_settles (S j) H0). pose proof (Hex j) as Hs. rewrite Hj in Hs. inversion Hs; subst. cbn. set_solver.
Qed.
End Fair.
End Live.

(** C6: take a state that the operator can reach, without an orphaned stateful set of the agent
    vanishing, in which the agent is wanted, the cache shows it as it is and no run for it is in
    progress. If from then on requests for it in the queue are served, times that were set
    pass and runs that have begun go on, and if nobody else touches what belongs to the agent,
    no run for it reports an error and the process stays up, then every run for it comes to its
    end and the agent is settled from some time on, whatever happens to all other agents,
    wherever in a run it happens and however far behind the cache is later. Encoding and
    decoding must give the agent's spec back. *)
Theorem agent_eventually_settled w q :
  lists w q -> rtc (keeping_step nn) (op_start w q) (st 0) -> op_crashed (st 0) = false ->
  (forall p, op_running (st 0) <> Some (nn, p)) -> execution -> fair_runs -> undisturbed ->
  up_to_date nn (op_world (st 0)) -> wanted nn (view_at 0) -> spec_json_ok nn (view_at 0) ->
  (forall i p, op_running (st i) = Some (nn, p) -> exists j res, i <= j /\ lab j = End nn res None) /\
  exists n, forall i, n <= i -> settled nn (view_at i).
Proof.
  intros Hl Hr Hc Hrun Hex Hfair Hun Hup Hw Hj. split.
  { intros i p Hp. destruct (run_ends Hex Hun Hfair p i Hp) as (j & res & err & Hij & Hlab). exists j, res.
    split; [done|]. destruct Hun as (_ & Herr & _). by rewrite (Herr j res err Hlab) in Hlab. }
  destruct (op_reachable_within w q (st 0) (keeping_steps _ _ _ Hr)) as [?|Hin]; [congruence|].
  destruct Hw as (a0 & Ha & Hd). assert (live a0 (st 0)) as H0.
  { constructor; [done|by apply start_lineage|]. by intros p Hp; destruct (Hrun p). }
  assert (exists j, settled nn (view_at j)) as [j Hset].
  2: { exists j. intros i Hi. by apply (settled_from a0 Hex Hun j). }
  destruct (op_reachable nn w q (st 0) Hl Hr) as [?|[Hq|[_ [Hcalm|[Hdl|[p Hp]]]]]]; [congruence|..].
  - by apply (queue_settles a0 Hex Hun Hfair 0).
  - exists 0. apply (calm_up_to_date _ _ _ Hup Hcalm). by exists a0.
  - by apply (delayed_settles a0 Hex Hun Hfair 0).
  - by destruct (Hrun p).
Qed.
End Running.
