(* ===== verification/ControlLoopExample.v ===== *)
(** * An execution of the operator

    The sample agent on the server in memory, and a scheduler that can be evaluated: it carries
    out the theorems of [ControlLoop] on a concrete operator that runs for ever. *)

From stdpp Require Import base tactics option list gmap strings relations.
From S2P Require Import Prelude GoStrings AgentTypes Converter Goroutines Reconciler ReconcilerSpec ReconcilerRuns Operator ControlLoop.

Local Open Scope string_scope.

#[local] Existing Instance text_k8s.

Definition name_refs (a : @Agent text_k8s) (m : @ObjectMeta text_k8s) : list (@OwnerReference text_k8s) :=
  [Name (agent_meta a)].
Definition name_controller (refs : list (@OwnerReference text_k8s)) : option string := head refs.
Definition agent_controller : controller := MkController "Agent" ["StatefulSet"].

Abbreviation demo_run := (prog memory_server (reconcile_result * option error)).
Abbreviation demo_state := (@op_state memory_server).
Definition op_reconcile : namespaced_name -> demo_run := Reconcile name_refs image_json image_spec encoded_size.
Abbreviation demo_step := (op_step name_refs image_json image_spec encoded_size name_controller agent_controller).

(** ** A scheduler

    The cache catches up after every run, which brings the sample agent back to the queue, and
    times that are set pass before the next run. *)
Definition before_run : memory_server := one_agent false false.

Definition next (s : demo_state) : op_label * demo_state :=
  let 'OpState w q d r b := s in
  let start_anew := (Restart, op_start w {[demo]}) in
  if b then start_anew else
  match r with
  | Some (nn, Ret (res, err)) =>
      (End nn res err, OpState w q (if asks_again res err then {[nn]} ∪ d else d) None false)
  | Some (nn, p) =>
      match exec p w with
      | (Done (p', []), w') => (Call nn, OpState w' q d (Some (nn, p')) false)
      | (Panic _, w') => (Crash nn, OpState w' q d None true)
      | _ => start_anew
      end
  | None =>
      if negb (bool_decide (demo ∈ q)) then (Edit, OpState (sync w) ({[demo]} ∪ q) d None false)
      else if bool_decide (demo ∈ d) then (Timer demo, OpState w ({[demo]} ∪ q) (d ∖ {[demo]}) None false)
      else (Begin demo, OpState w (q ∖ {[demo]}) d (Some (demo, op_reconcile demo)) false)
  end.

Definition demo_at (i : nat) : demo_state := Nat.iter i (fun s => (next s).2) (op_start before_run {[demo]}).
Definition demo_label (i : nat) : op_label := (next (demo_at i)).1.

(** All objects, of the server and of the cache, belong to the sample agent, and no other agent
    controls the stateful set. *)
Definition of_demo (kv : (string * namespaced_name) * @client_object text_k8s) : bool :=
  existsb (fun k => bool_decide (k = kv.1)) (owned demo) &&
  (negb (bool_decide (kv.1.1 = "StatefulSet")) ||
   bool_decide (Namespace (object_meta kv.2) = "demo") &&
   match name_controller (OwnerReferences (object_meta kv.2)) with
   | Some name => bool_decide (name = "agent-sample")
   | None => true
   end).
Definition demo_only (w : memory_server) : bool :=
  forallb of_demo (map_to_list (memory_cache w)) && forallb of_demo (map_to_list (memory_objects w)).

Lemma demo_only_lookup w k o : demo_only w = true -> memory_cache w !! k = Some o -> of_demo (k, o) = true.
Proof.
  intros [Hall _]%andb_true_iff Hk. rewrite forallb_forall in Hall. apply Hall, list_elem_of_In.
  by apply elem_of_map_to_list.
Qed.
Lemma demo_only_sync w : demo_only w = true -> demo_only (sync w) = true.
Proof. intros [_ Hall]%andb_true_iff. by apply andb_true_iff. Qed.

Lemma demo_only_agent w nn : demo_only w = true -> nn <> demo -> memory_cache w !! ("Agent", nn) = None.
Proof.
  intros Hw Hne. destruct (memory_cache w !! ("Agent", nn)) as [o|] eqn:E; [exfalso|done].
  apply (demo_only_lookup w _ _ Hw), andb_true_iff in E as [E _]. apply existsb_exists in E as (k & Hk & E).
  apply bool_decide_eq_true in E. cbn [fst] in E. subst k. apply list_elem_of_In in Hk.
  cbn in Hk. rewrite !elem_of_cons, elem_of_nil in Hk. destruct_or! Hk; simplify_eq.
Qed.

Lemma demo_unnoticed (w w' : memory_server) nn :
  demo_only w = true -> demo_only w' = true -> nn <> demo ->
  unnoticed name_controller agent_controller (cached w) (cached w') nn.
Proof.
  intros Hw Hw' Hne. split; [cbn; by rewrite !demo_only_agent|]. intros k o Hk [Hns Hc] Ho. cbn in Hk.
  apply list_elem_of_singleton in Hk. exfalso. apply Hne.
  assert (Hd : of_demo (k, o) = true) by (by destruct Ho as [Ho|Ho]; eapply demo_only_lookup; [|exact Ho| |exact Ho]).
  apply andb_true_iff in Hd as [_ Hd]. cbn [fst snd] in Hd. rewrite bool_decide_true in Hd by done.
  apply andb_true_iff in Hd as [Hn Hname]. apply bool_decide_eq_true in Hn. rewrite Hc in Hname.
  apply bool_decide_eq_true in Hname. destruct nn. unfold demo. cbn in *. congruence.
Qed.

Lemma demo_enqueued (w w' : memory_server) (q : gset namespaced_name) :
  demo_only w = true -> demo_only w' = true -> enqueued name_controller agent_controller w w' q ({[demo]} ∪ q).
Proof.
  intros Hw Hw'. split; [set_solver|]. intros nn. destruct (decide (nn = demo)) as [->|Hne]; [left; set_solver|].
  right. by apply demo_unnoticed.
Qed.
(** A call changes nothing of the cache. *)
Lemma same_enqueued (w w' : memory_server) (q : gset namespaced_name) :
  cached w' = cached w -> enqueued name_controller agent_controller w w' q q.
Proof. intros Hc. split; [done|]. intros nn. right. rewrite Hc. split; [done|]. by intros k o _ _ _. Qed.
Lemma demo_lists (w : memory_server) : demo_only w = true -> lists agent_controller w {[demo]}.
Proof.
  intros Hw nn [o Ho]. destruct (decide (nn = demo)) as [->|Hne]; [set_solver|].
  change (memory_cache w !! ("Agent", nn) = Some o) in Ho. by rewrite demo_only_agent in Ho.
Qed.

(** The sample agent controls its stateful set in the cache. *)
Definition set_controlled (w : memory_server) : bool :=
  match memory_cache w !! ("StatefulSet", demo) with
  | Some s => bool_decide (Namespace (object_meta s) = "demo" /\
                           name_controller (OwnerReferences (object_meta s)) = Some "agent-sample")
  | None => true
  end.
Lemma demo_controls (w w' : memory_server) :
  set_controlled w = true -> not_orphaned name_controller demo w w'.
Proof.
  unfold set_controlled. intros Hw s Hs _. change (memory_cache w !! ("StatefulSet", demo) = Some s) in Hs.
  rewrite Hs in Hw. by apply bool_decide_eq_true in Hw.
Qed.

(** What the scheduler does is a step of the operator. *)
Lemma next_step (s : demo_state) :
  demo_only (op_world s) = true -> op_crashed s = true \/ run_within s -> demo_step (next s).1 s (next s).2.
Proof.
  destruct s as [w q d r b]. intros Hw Hin. cbn [op_world] in Hw. pose proof (demo_lists w Hw) as Hl. unfold next.
  destruct b; [by apply op_restart|]. destruct Hin as [Hin|Hin]; [done|].
  assert (forall nn (p : demo_run), r = Some (nn, p) -> is_ret p = false -> let l_s := match exec p w with
      | (Done (p', []), w') => (Call nn, OpState w' q d (Some (nn, p')) false)
      | (Panic _, w') => (Crash nn, OpState w' q d None true)
      | _ => (Restart, op_start w {[demo]})
      end in demo_step l_s.1 (OpState w q d (Some (nn, p)) false) l_s.2) as Hrun.
  { intros nn p Hr Hp. cbn zeta. destruct (Hin nn p Hr) as (_ & _ & Hc). cbn in Hc.
    destruct (exec p w) as [[[p' [|g gs]]|msg|] w'] eqn:E; cbn.
    - apply op_call; [done..|]. apply same_enqueued. by apply (exec_preserves _ _ _ _ _ Hc E).
    - by apply op_restart.
    - by eapply op_crash.
    - by apply op_restart. }
  destruct r as [[nn [[res err]|B m k|B m k|g k]]|]; [apply op_end|by apply Hrun..|].
  destruct (bool_decide (demo ∈ q)) eqn:Eq; cbn [negb].
  - apply bool_decide_eq_true in Eq. case_bool_decide; [by apply op_timer|by apply op_begin].
  - by apply op_edit, demo_enqueued, demo_only_sync.
Qed.

(** ** The execution is a loop *)

(** Eleven steps, and then six for ever. *)
Lemma demo_loop : demo_at 17 = demo_at 11.
Proof. vm_cast_no_check (@eq_refl demo_state (demo_at 11)). Qed.
Lemma demo_at_add i j : demo_at (i + j) = Nat.iter i (fun s => (next s).2) (demo_at j).
Proof. apply Nat.iter_add. Qed.
Lemma demo_at_loop i : exists k, k < 17 /\ demo_at i = demo_at k.
Proof.
  induction i as [i IH] using (well_founded_induction lt_wf). destruct (decide (i < 17)) as [|Hi]; [by exists i|].
  destruct (IH (i - 6) ltac:(lia)) as (k & Hk & Hd). exists k. split; [done|]. rewrite <- Hd.
  replace i with ((i - 17) + 17) at 1 by lia. replace (i - 6) with ((i - 17) + 11) by lia.
  by rewrite !demo_at_add, demo_loop.
Qed.
Definition labels_from (s : demo_state) (n : nat) : list op_label :=
  map (fun i => (next (Nat.iter i (fun s => (next s).2) s)).1) (seq 0 n).

Lemma labels_from_at i n l : l ∈ labels_from (demo_at i) n -> exists j, i <= j /\ demo_label j = l.
Proof.
  intros Hl. apply list_elem_of_fmap in Hl as (j & -> & _). exists (j + i). split; [lia|].
  unfold demo_label. by rewrite demo_at_add.
Qed.

#[local] Instance op_label_eq_dec : EqDecision op_label.
Proof.
  assert (EqDecision reconcile_result) by solve_decision. solve_decision.
Defined.

(** What is checked of every state: the objects, the next label, and what is to come. *)
Definition harmless (l : op_label) : bool :=
  match l with Crash _ | Restart | End _ _ (Some _) => false | _ => true end.
Definition comes (s : demo_state) (f : op_label -> bool) : bool := existsb f (labels_from s 20).
Definition fine (s : demo_state) : bool :=
  demo_only (op_world s) && set_controlled (op_world s) && harmless (next s).1 && comes s (moves demo) &&
  comes s (fun l => bool_decide (l = Begin demo)) &&
  (negb (bool_decide (demo ∈ op_delayed s)) || comes s (fun l => bool_decide (l = Timer demo))).

Lemma demo_fine i : fine (demo_at i) = true.
Proof.
  destruct (demo_at_loop i) as (k & Hk & ->).
  assert (forallb (fun k => fine (demo_at k)) (seq 0 17) = true) as Hall by (vm_compute; reflexivity).
  rewrite forallb_forall in Hall. apply Hall, in_seq. lia.
Qed.

Lemma comes_at i f : comes (demo_at i) f = true -> exists j, i <= j /\ f (demo_label j) = true.
Proof.
  intros Hc. apply existsb_exists in Hc as (l & Hl & Hf). apply list_elem_of_In, labels_from_at in Hl as (j & Hj & <-).
  by exists j.
Qed.

Lemma demo_next i :
  op_crashed (demo_at i) = true \/ run_within (demo_at i) -> demo_step (demo_label i) (demo_at i) (demo_at (S i)).
Proof. pose proof (demo_fine i) as Hi. unfold fine in Hi. rewrite !andb_true_iff in Hi. apply next_step, Hi. Qed.

Lemma demo_within i : within_inv (demo_at i).
Proof. induction i as [|i IH]; [by right|]. exact (op_step_within _ _ _ _ _ _ _ _ _ (demo_next i IH) IH). Qed.
Lemma demo_execution i : demo_step (demo_label i) (demo_at i) (demo_at (S i)).
Proof. apply demo_next, demo_within. Qed.

Lemma demo_fair : fair_runs demo_at demo_label demo.
Proof.
  split_and!; intros i; pose proof (demo_fine i) as Hi; unfold fine in Hi; rewrite !andb_true_iff, orb_true_iff in Hi;
    destruct Hi as [[[_ Hm] Hb] Ht].
  - intros _. apply comes_at in Hb as (j & Hj & Hl). apply bool_decide_eq_true in Hl. by exists j.
  - intros Hin. destruct Ht as [Ht|Ht]; [by rewrite bool_decide_true in Ht|].
    apply comes_at in Ht as (j & Hj & Hl). apply bool_decide_eq_true in Hl. by exists j.
  - intros p _. by apply comes_at in Hm.
Qed.
Lemma demo_harmless i : harmless (demo_label i) = true.
Proof. pose proof (demo_fine i) as Hi. unfold fine in Hi. rewrite !andb_true_iff in Hi. apply Hi. Qed.

(** The only edit is the catching up of the cache. *)
Lemma next_edit (s : demo_state) : (next s).1 = Edit -> op_world (next s).2 = sync (op_world s).
Proof.
  destruct s as [w q d r b]. unfold next. destruct b; [done|].
  destruct r as [[nn [[res err]|B m k|B m k|g k]]|]; [done|..]; repeat (case_match; try done).
Qed.

Lemma demo_undisturbed : undisturbed demo_at demo_label demo.
Proof.
  split_and!; intros i.
  - intros He. apply next_edit in He. change (next (demo_at i)).2 with (demo_at (S i)) in He.
    split; intros k _; rewrite He; [done|]. right. exists i. by split.
  - intros res [e|] He; [|done]. pose proof (demo_harmless i) as Hi. by rewrite He in Hi.
  - pose proof (demo_harmless i) as Hi. by destruct (demo_label i).
Qed.

Lemma demo_wanted : wanted demo (view before_run).
Proof. exists sample_agent. split; [split; reflexivity|reflexivity]. Qed.
Lemma demo_spec_ok : spec_json_ok image_json image_spec demo (view before_run).
Proof.
  intros a [Ha _]. change (view before_run !! ("Agent", demo)) with (Some (desired (ObjAgent sample_agent))) in Ha.
  apply (inj Some), desired_agent in Ha as (Hsp & Han & _). exists "nginx:stable".
  destruct a as [[] sa stt]. cbn in Hsp, Han. subst. split; reflexivity.
Qed.
Lemma demo_keeping i :
  keeping_step name_refs image_json image_spec encoded_size name_controller agent_controller demo (demo_at i) (demo_at (S i)).
Proof.
  exists (demo_label i). split; [apply demo_execution|]. intros _. apply demo_controls.
  pose proof (demo_fine i) as Hi. unfold fine in Hi. rewrite !andb_true_iff in Hi. apply Hi.
Qed.
Lemma demo_reach i : rtc (keeping_step name_refs image_json image_spec encoded_size name_controller agent_controller demo)
  (op_start before_run {[demo]}) (demo_at i).
Proof. induction i as [|i IH]; [apply rtc_refl|]. eapply rtc_r; [exact IH|]. apply demo_keeping. Qed.

Lemma agent_eventually_settled_witness :
  (forall i p, op_running (demo_at i) = Some (demo, p) -> exists j res, i <= j /\ demo_label j = End demo res None) /\
  exists n, forall i, n <= i -> settled image_spec demo (view (op_world (demo_at i))).
Proof.
  apply (agent_eventually_settled name_refs image_json image_spec encoded_size name_controller agent_controller eq_refl
    demo_at demo_label demo before_run {[demo]}).
  - apply demo_lists. vm_compute. reflexivity.
  - apply rtc_refl.
  - reflexivity.
  - discriminate.
  - exact demo_execution.
  - exact demo_fair.
  - exact demo_undisturbed.
  - split; reflexivity.
  - exact demo_wanted.
  - exact demo_spec_ok.
Defined.

(** In the middle of a run, after the role binding has been created. *)
Lemma no_agent_forgotten_witness :
  settled image_spec demo (view (op_world (demo_at 6))) \/ awaited (demo_at 6) demo.
Proof.
  apply (no_agent_forgotten name_refs image_json image_spec encoded_size name_controller agent_controller eq_refl
    before_run {[demo]}).
  - apply demo_lists. vm_compute. reflexivity.
  - apply demo_reach.
  - vm_compute. reflexivity.
  - split; vm_compute; reflexivity.
  - exists sample_agent. split; [split|]; vm_compute; reflexivity.
Defined.

(** ** An orphan

    The settled agent's stateful set loses its owner references: the operator looks at the
    agent and finds nothing to do. Then the stateful set is deleted, and the operator, which
    watches the stateful sets of its agents by these references, hears nothing. *)
Definition without_owner (o : @client_object text_k8s) : @client_object text_k8s :=
  match o with
  | ObjStatefulSet s =>
      let m := sts_meta s in
      ObjStatefulSet (MkSts (MkMeta (Name m) (Namespace m) (Labels m) (Annotations m) (DeletionTimestamp m) [] (Rest m))
        (sts_Spec s) (sts_Status s))
  | _ => o
  end.
Definition on_objects (f : gmap (string * namespaced_name) (@client_object text_k8s) -> gmap (string * namespaced_name) (@client_object text_k8s))
  (w : memory_server) : memory_server :=
  MemoryServer (f (memory_objects w)) (f (memory_cache w)) (refuse_agent w) (hide_sets w).
Definition set_world (f : memory_server -> memory_server) (q : gset namespaced_name) (s : demo_state) : demo_state :=
  OpState (f (op_world s)) (q ∪ op_queue s) (op_delayed s) (op_running s) (op_crashed s).

Definition orphaned : demo_state :=
  set_world (on_objects (alter without_owner ("StatefulSet", demo))) {[demo]} (demo_at 16).
Definition looked_at (i : nat) : demo_state := Nat.iter i (fun s => (next s).2) orphaned.
Definition forgotten : demo_state := set_world (on_objects (delete ("StatefulSet", demo))) ∅ (looked_at 5).

Lemma set_world_step (f : memory_server -> memory_server) (q : gset namespaced_name) (s : demo_state) :
  enqueued name_controller agent_controller (op_world s) (f (op_world s)) (op_queue s) (q ∪ op_queue s) ->
  demo_step Edit s (set_world f q s).
Proof. destruct s. intros He. by apply op_edit. Qed.

(** Nothing is heard of a stateful set that nobody controls. *)
Lemma uncontrolled_deleted (w : memory_server) (q : gset namespaced_name) :
  (forall s, memory_cache w !! ("StatefulSet", demo) = Some s -> name_controller (OwnerReferences (object_meta s)) = None) ->
  enqueued name_controller agent_controller w (on_objects (delete ("StatefulSet", demo)) w) q (∅ ∪ q).
Proof.
  intros Hw. split; [set_solver|]. intros nn. right. split.
  - change (delete ("StatefulSet", demo) (memory_cache w) !! ("Agent", nn) = memory_cache w !! ("Agent", nn)).
    by rewrite lookup_delete_ne.
  - intros k o _ [_ Hc] Ho. change (delete ("StatefulSet", demo) (memory_cache w) !! k = memory_cache w !! k).
    change (memory_cache w !! k = Some o \/ delete ("StatefulSet", demo) (memory_cache w) !! k = Some o) in Ho.
    destruct (decide (k = ("StatefulSet", demo))) as [->|Hne]; [|by rewrite lookup_delete_ne].
    rewrite lookup_delete_eq in Ho. destruct Ho as [Ho|Ho]; [|done]. by rewrite (Hw o Ho) in Hc.
Qed.

Lemma looked_at_steps i :
  within_inv orphaned -> i <= 5 ->
  within_inv (looked_at i) /\ rtc (some_op_step name_refs image_json image_spec encoded_size name_controller agent_controller)
    orphaned (looked_at i).
Proof.
  intros H0. induction i as [|i IH]; intros Hi; [split; [done|apply rtc_refl]|].
  destruct (IH ltac:(lia)) as [Hw Hr]. assert (demo_only (op_world (looked_at i)) = true) as Hd.
  { assert (forallb (fun i => demo_only (op_world (looked_at i))) (seq 0 5) = true) as Hall by (vm_compute; reflexivity).
    rewrite forallb_forall in Hall. apply Hall, in_seq. lia. }
  pose proof (next_step (looked_at i) Hd Hw) as Hs. split; [exact (op_step_within _ _ _ _ _ _ _ _ _ Hs Hw)|].
  eapply rtc_r; [exact Hr|]. by exists (next (looked_at i)).1.
Qed.

(** An agent can be forgotten. The operator watches the stateful sets of its agents by their
    controller reference only: when somebody removes the reference and, after the operator has
    looked at the agent and found nothing to do, deletes the stateful set, then the agent is
    wanted and has no stateful set, the cache shows all this, and nothing waits or runs for
    it. *)
Lemma orphaned_agent_forgotten :
  rtc (some_op_step name_refs image_json image_spec encoded_size name_controller agent_controller)
    (op_start before_run {[demo]}) forgotten /\
  op_crashed forgotten = false /\ up_to_date demo (op_world forgotten) /\ wanted demo (view (op_world forgotten)) /\
  ~ settled image_spec demo (view (op_world forgotten)) /\ ~ awaited forgotten demo.
Proof.
  assert (demo_step Edit (demo_at 16) orphaned) as H1.
  { apply (set_world_step (on_objects (alter without_owner ("StatefulSet", demo)))), demo_enqueued; vm_compute; reflexivity. }
  destruct (looked_at_steps 5 (op_step_within _ _ _ _ _ _ _ _ _ H1 (demo_within 16)) (le_n 5)) as [_ H2]. split_and!.
  - etrans; [eapply keeping_steps, (demo_reach 16)|]. eapply rtc_l; [by exists Edit|]. eapply rtc_r; [exact H2|]. exists Edit.
    apply (set_world_step (on_objects (delete ("StatefulSet", demo)))), uncontrolled_deleted.
    assert (from_option (fun s => name_controller (OwnerReferences (object_meta s))) None
      (memory_cache (op_world (looked_at 5)) !! ("StatefulSet", demo)) = None) as Hn by (vm_compute; reflexivity).
    intros s Hs. by rewrite Hs in Hn.
  - vm_compute. reflexivity.
  - split; vm_compute; reflexivity.
  - assert (exists a, memory_objects (op_world forgotten) !! ("Agent", demo) = Some (ObjAgent a) /\ Name (agent_meta a) = "agent-sample" /\
      Namespace (agent_meta a) = "demo" /\ DeletionTimestamp (agent_meta a) = None) as (a & Ha & Hn & Hns & Hd).
    { eexists. split; [vm_compute; reflexivity|]. by split_and!. }
    exists a. split; [split; [|unfold object_key, object_meta; by rewrite Hn, Hns]|exact Hd]. unfold view. rewrite lookup_fmap.
    change (objects (op_world forgotten)) with (memory_objects (op_world forgotten)). by rewrite Ha.
  - intros [Hs _]. vm_compute in Hs. by destruct Hs.
  - unfold awaited. intros [Hq|[Hd|[p Hp]]]; [..|vm_compute in Hp; discriminate Hp].
    + apply elem_of_elements in Hq. vm_compute in Hq. by apply elem_of_nil in Hq.
    + apply elem_of_elements in Hd. vm_compute in Hd. by apply elem_of_nil in Hd.
Qed.
