(* ===== verification/Conf.v ===== *)
(** * The agent's configuration values, directories and statuses

    [agent/conf/conf.go], [agent/core/addr.go] and [agent/core/status.go]. *)

From stdpp Require Import base tactics option list strings.
From S2P Require Import Prelude GoStrings.

Local Open Scope string_scope.

(** ** [conf.Conf] and the constants of the package *)

Record Conf := MkConf {
  CenterHost : string;
  CenterToken : string;
  ProjectID : N;
  ProjectNs : string;
  OrgName : string;
  Workspace : string;
}.

Definition WorkDir : string := "/jacoco/work".
Definition JacocoCliAddr : string := "/app/jacococli.jar".
Definition ExtractCliAddr : string := "/app/extract-jar.sh".

(** ** [addr.go] *)

Definition GenPlanDumpExecDir (planID : N) : string := WorkDir +:+ "/" +:+ fmt_uint planID.
Definition GenSvcDumpExecDir (planID : N) (svcName : string) : string :=
  WorkDir +:+ "/" +:+ fmt_uint planID +:+ "/" +:+ svcName.
Definition GenSvcJarDir (svcName : string) : string := WorkDir +:+ "/service/" +:+ svcName.
Definition GenSvcClassDir (svcName : string) : string := WorkDir +:+ "/class/" +:+ svcName.
Definition GenProjectClassDir : string := WorkDir +:+ "/class/_project_".

(** ** [status.go] *)

Definition Running : string := "running".
Definition Ready : string := "ready".
Definition Success : string := "success".
Definition Fail_ : string := "fail".
Definition Error_ : string := "error".

(** [CodeCoverageExecStatus] is a string type: the center may send any string. *)
Definition RunningStatus : string := "running".
Definition ReadyStatus : string := "ready".
Definition EndingStatus : string := "ending".
Definition CancelStatus : string := "cancel".
Definition SuccessStatus : string := "success".
Definition FailStatus : string := "fail".

(** The dump directory of a plan or a service determines the plan and the service. *)
Lemma GenPlanDumpExecDir_inj p q : GenPlanDumpExecDir p = GenPlanDumpExecDir q -> p = q.
Proof.
  unfold GenPlanDumpExecDir. intros Heq. apply fmt_uint_inj.
  rewrite <- !str_app_assoc in Heq. exact (str_app_inj_l _ _ _ Heq).
Qed.
