(* ===== verification/EnvConf.v ===== *)
(** * [agent/conf/envconf.go]: configuration from the environment

    [Load] walks over the fields of a struct by reflection: a field is described by its tags
    and its type, and the result is the list of values assigned, by field. *)

From Stdlib Require Import Ascii.
From stdpp Require Import base tactics option list gmap strings.
From Stdlib Require Import Lia.
From S2P Require Import Prelude GoStrings NetHttp Conf.

Local Open Scope string_scope.

(** ** The standard library's conversions *)

(** [strings.TrimSpace]: the white space of Unicode, as it is encoded in UTF-8. *)
Fixpoint chars (l : list N) : string :=
  match l with [] => EmptyString | n :: l' => String (ascii_of_N n) (chars l') end.
Definition spaces : list string :=
  map chars ([[9]; [10]; [11]; [12]; [13]; [32]; [194; 133]; [194; 160]; [225; 154; 128]; [226; 128; 168];
              [226; 128; 169]; [226; 128; 175]; [226; 129; 159]; [227; 128; 128]]%N ++
             map (fun n => [226; 128; 128 + N.of_nat n]%N) (seq 0 11)).

Definition leading_space (s : string) : option string := find (HasPrefix s) spaces.
Definition trailing_space (s : string) : option string := find (HasSuffix s) spaces.

(** Every round removes at least one byte. *)
Fixpoint trim_left (fuel : nat) (s : string) : string :=
  match fuel with
  | 0 => s
  | S fuel' => match leading_space s with
               | Some sp => trim_left fuel' (drop_str (String.length sp) s)
               | None => s
               end
  end.
Fixpoint trim_right (fuel : nat) (s : string) : string :=
  match fuel with
  | 0 => s
  | S fuel' => match trailing_space s with
               | Some sp => trim_right fuel' (take_str (String.length s - String.length sp) s)
               | None => s
               end
  end.
Definition TrimSpace (s : string) : string :=
  let s := trim_left (String.length s) s in trim_right (String.length s) s.

Example TrimSpace_test : TrimSpace (chars [194; 160; 32; 97; 32; 98; 10]%N) = "a b".
Proof. vm_compute. reflexivity. Qed.

(** [strings.ToLower] on the comparisons with ASCII words: [strings.EqualFold] and the
    switch on booleans. *)
Fixpoint ToLower (s : string) : string :=
  match s with EmptyString => EmptyString | String c s' => String (to_lower c) (ToLower s') end.
Definition EqualFold (a b : string) : bool := bool_decide (ToLower a = ToLower b).

(** [strconv.ParseUint(s, 10, 64)]; the text of its errors is abbreviated. *)
Fixpoint parse_digits (acc : N) (s : string) : option N :=
  match s with
  | EmptyString => Some acc
  | String c s' => if is_digit c then parse_digits (10 * acc + (ascii_code c - 48)) s' else None
  end.
Definition ParseUint (s : string) : N + error :=
  match s with
  | EmptyString => inr "invalid syntax"
  | _ => match parse_digits 0 s with
         | None => inr "invalid syntax"
         | Some n => if (n <? 2 ^ 64)%N then inl n else inr "value out of range"
         end
  end.

(** [^[A-Z][A-Z0-9_]*$] *)
Definition key_ok (key : string) : bool :=
  match key with
  | EmptyString => false
  | String c s => is_upper c && all_chars (fun c => is_upper c || is_digit c || bool_decide (c = "_"%char)) s
  end.

(** ** [Load] *)

(** The kinds of fields, with the conversion of those whose text the standard library
    parses in a way that is not modelled. *)
Inductive kind :=
| KString
| KUint64
| KBool
| KParsed (parse : string -> option error).   (* int, int64, duration, float64, JSON *)

Record field := Field {
  f_env : string;
  f_default : string;
  f_required : string;
  f_kind : kind;
}.

Inductive value := VString (s : string) | VUint64 (n : N) | VBool (b : bool) | VParsed (s : string).

(** The text for a field: the passed-in variables replace both the environment and the
    default. *)
Definition raw_value (Getenv : string -> string) (envs : option (gmap string string)) (f : field) : string :=
  let value := match envs with
               | Some m => default "" (m !! f_env f)
               | None => if bool_decide (Getenv (f_env f) <> "") then Getenv (f_env f) else f_default f
               end in
  TrimSpace value.

(** The value of a kind: [None] leaves the field as it is. *)
Definition convert (k : kind) (text : string) : option value + error :=
  match k with
  | KString => inl (Some (VString text))
  | KUint64 => match ParseUint text with inl n => inl (Some (VUint64 n)) | inr e => inr e end
  | KBool => inl (if bool_decide (ToLower text = "true") then Some (VBool true)
                  else if bool_decide (ToLower text = "false") then Some (VBool false) else None)
  | KParsed parse => match parse text with None => inl (Some (VParsed text)) | Some e => inr e end
  end.

(** One round of the loop. *)
Definition load_field (Getenv : string -> string) (envs : option (gmap string string)) (f : field)
  : option value + error :=
  if bool_decide (f_env f = "") then inl None
  else if negb (key_ok (f_env f)) then inr ("failed to match, key: " +:+ f_env f)
  else
    let text := raw_value Getenv envs f in
    if EqualFold (f_required f) "true" && bool_decide (text = "")
    then inr ("failed to found required environment variable, key: " +:+ f_env f)
    else if bool_decide (text = "") then inl None
    else convert (f_kind f) text.

Fixpoint Load (Getenv : string -> string) (envs : option (gmap string string)) (fields : list field)
  : list (option value) + error :=
  match fields with
  | [] => inl []
  | f :: fields' =>
      match load_field Getenv envs f with
      | inr e => inr e
      | inl v => match Load Getenv envs fields' with inr e => inr e | inl vs => inl (v :: vs) end
      end
  end.

(** [MustLoad] *)
Definition MustLoad (Getenv : string -> string) (fields : list field) : outcome (list (option value)) :=
  match Load Getenv None fields with inl vs => Done vs | inr e => Panic e end.

(** ** The agent's configuration *)

Definition required (key : string) (k : kind) : field := Field key "" "true" k.
Definition conf_fields : list field :=
  [required "CENTER_HOST" KString; required "CENTER_TOKEN" KString; required "PROJECT_ID" KUint64;
   required "PROJECT_NS" KString; required "ORG_NAME" KString; required "WORKSPACE" KString].

(** The struct after the assignments. *)
Definition conf_of (vs : list (option value)) : option Conf :=
  match vs with
  | [Some (VString h); Some (VString t); Some (VUint64 p); Some (VString n); Some (VString o); Some (VString w)] =>
      Some (MkConf h t p n o w)
  | _ => None
  end.

(** [init] of the package. *)
Definition init_conf (Getenv : string -> string) : outcome (option Conf) :=
  match MustLoad Getenv conf_fields with
  | Done vs => Done (conf_of vs)
  | Panic e => Panic e
  | Blocked => Blocked
  end.

(** ** Lemmas *)

(** The fuel of [TrimSpace] is enough: no space is left at the start. *)
Lemma spaces_nonempty sp : sp ∈ spaces -> 0 < String.length sp.
Proof.
  intros H. assert (Hall : Forall (fun sp => Nat.ltb 0 (String.length sp) = true) spaces).
  { vm_compute. repeat constructor. }
  apply Nat.ltb_lt. by apply (proj1 (Forall_forall _ _) Hall).
Qed.

Lemma length_drop_str n s : String.length (drop_str n s) = String.length s - n.
Proof. revert s. induction n as [|n IH]; intros [|c s]; cbn; [done..|apply IH]. Qed.

Lemma trim_left_enough fuel s : String.length s <= fuel -> leading_space (trim_left fuel s) = None.
Proof.
  revert s. induction fuel as [|fuel IH]; intros s Hlen; cbn [trim_left].
  - destruct s; [reflexivity|cbn in Hlen; lia].
  - destruct (leading_space s) as [sp|] eqn:E; [|done]. apply IH. rewrite length_drop_str.
    assert (Hsp : 0 < String.length sp).
    { apply spaces_nonempty. unfold leading_space in E. apply find_some in E as [E _]. by apply list_elem_of_In. }
    destruct s as [|c s]; [cbn; lia|]. cbn in Hlen |- *. lia.
Qed.

Lemma ParseUint_bound s n : ParseUint s = inl n -> (n < 2 ^ 64)%N.
Proof.
  unfold ParseUint. destruct s; [done|]. destruct (parse_digits _ _); [|done].
  destruct (N.ltb_spec n0 (2 ^ 64)); intros Hn; by simplify_eq.
Qed.

(** A required string, a required number. *)
Lemma load_required Getenv key k :
  key_ok key = true ->
  load_field Getenv None (required key k) =
    let text := TrimSpace (Getenv key) in
    if bool_decide (text = "") then inr ("failed to found required environment variable, key: " +:+ key)
    else convert k text.
Proof.
  intros Hkey. unfold load_field, raw_value, required. cbn [f_env f_default f_required f_kind].
  rewrite bool_decide_false by (by intros ->). rewrite Hkey. cbn [negb].
  change (EqualFold "true" "true") with true. cbn [andb].
  assert ((if bool_decide (Getenv key <> "") then Getenv key else "") = Getenv key) as ->.
  { case_bool_decide as H; [done|]. destruct (decide (Getenv key = "")) as [->|]; [done|by destruct H]. }
  destruct (bool_decide (TrimSpace (Getenv key) = "")); reflexivity.
Qed.

(** The text of a variable that is not blank. *)
Definition text_of (Getenv : string -> string) (key : string) : option string :=
  let text := TrimSpace (Getenv key) in if bool_decide (text = "") then None else Some text.

(** C39: the agent starts exactly when all six variables have text besides white space and
    the project is a decimal number below 2^64; then the configuration holds exactly these
    values, trimmed; in every other case it panics before it does anything. *)
Theorem init_conf_spec Getenv :
  match text_of Getenv "CENTER_HOST", text_of Getenv "CENTER_TOKEN", text_of Getenv "PROJECT_ID",
        text_of Getenv "PROJECT_NS", text_of Getenv "ORG_NAME", text_of Getenv "WORKSPACE" with
  | Some h, Some t, Some p, Some n, Some o, Some w =>
      match ParseUint p with
      | inl id => init_conf Getenv = Done (Some (MkConf h t id n o w)) /\ (id < 2 ^ 64)%N
      | inr e => init_conf Getenv = Panic e
      end
  | _, _, _, _, _, _ => exists e, init_conf Getenv = Panic e
  end.
Proof.
  assert (Hload : forall key k, key_ok key = true -> load_field Getenv None (required key k) =
    match text_of Getenv key with
    | None => inr ("failed to found required environment variable, key: " +:+ key)
    | Some text => convert k text
    end).
  { intros key k Hk. rewrite load_required by done. unfold text_of. cbv zeta. by case_bool_decide. }
  unfold init_conf, MustLoad, conf_fields, Load. rewrite !Hload by reflexivity.
  destruct (text_of Getenv "CENTER_HOST"); [|by eexists]. destruct (text_of Getenv "CENTER_TOKEN"); [|by eexists].
  destruct (text_of Getenv "PROJECT_ID") as [p|]; [|by eexists]. cbn [convert].
  destruct (ParseUint p) as [id|e] eqn:Ep.
  - apply ParseUint_bound in Ep as Hb.
    destruct (text_of Getenv "PROJECT_NS"); [|by eexists]. destruct (text_of Getenv "ORG_NAME"); [|by eexists].
    destruct (text_of Getenv "WORKSPACE"); [|by eexists]. by split.
  - destruct (text_of Getenv "PROJECT_NS"), (text_of Getenv "ORG_NAME"), (text_of Getenv "WORKSPACE");
      by eexists.
Qed.

(** When variables are passed in, the environment and the default tag of a field are
    both ignored: a field whose variable is not among them is an error if required and keeps
    its value otherwise. *)
Theorem Load_passed_in Getenv envs f :
  f_env f <> "" -> key_ok (f_env f) = true -> default "" (envs !! f_env f) = "" ->
  load_field Getenv (Some envs) f =
    if EqualFold (f_required f) "true"
    then inr ("failed to found required environment variable, key: " +:+ f_env f) else inl None.
Proof.
  intros Hne Hkey Henv. unfold load_field, raw_value. rewrite bool_decide_false by done. rewrite Hkey, Henv.
  change (TrimSpace "") with "". cbn [negb]. rewrite bool_decide_true by done.
  by destruct (EqualFold _ _).
Qed.

(** The default of a field that is not passed in is lost. *)
Lemma Load_passed_in_witness :
  load_field (fun _ => "") (Some ∅) (Field "TIMEOUT" "30" "" KUint64) = inl None /\
  load_field (fun _ => "") None (Field "TIMEOUT" "30" "" KUint64) = inl (Some (VUint64 30)).
Proof.
  split; [|reflexivity].
  exact (Load_passed_in (fun _ => "") ∅ (Field "TIMEOUT" "30" "" KUint64) ltac:(discriminate) eq_refl eq_refl).
Defined.
