(* ===== verification/AgentWorld.v ===== *)
(** * The state of the agent process and its calls to the outside

    The agent keeps two global registries, [RunJobs] and [Services], both [sync.Map]s of
    pointers, so the state has a heap for each kind of object. Everything outside the
    process (commands, files, sockets, HTTP, the Kubernetes API, the clock) is an oracle
    that answers each call from the calls made so far; every call and its answer are
    recorded in [history]. *)

From stdpp Require Import base tactics option list gmap strings.
From S2P Require Import Prelude GoStrings Goroutines NetHttp Conf LimitGroup.

Local Open Scope string_scope.

(** ** Objects *)

(** [DetectionJob]. The context is [ctx_done]: whether [cancelFunc] was called. *)
Record DetectionJob := MkJob {
  PlanID : N;
  Status : string;
  JobStatus : string;
  MavenSettings : string;
  Includes : string;
  Excludes : string;
  ErrorMsg : string;
  ctx_done : bool;
  DumpLock : bool;
}.

Record Pod := MkPod {
  Addr : string;
  PodName : string;
  ContainerName : string;
  pod_ErrorMsg : string;
  HasError : bool;
}.

Record Service := MkService {
  svc_Name : string;
  svc_Image : string;
  JarAddrList : list string;
  Pods : list Pod;
  LoadJarPackageLock : bool;
  ErrorMessage : string;
  IsDelete : bool;
  svc_ctx_done : bool;
}.

(** Field assignments. *)
Definition job_with_status (s : string) (j : DetectionJob) : DetectionJob :=
  MkJob (PlanID j) s (JobStatus j) (MavenSettings j) (Includes j) (Excludes j) (ErrorMsg j)
    (ctx_done j) (DumpLock j).
Definition job_with_job_status (s : string) (j : DetectionJob) : DetectionJob :=
  MkJob (PlanID j) (Status j) s (MavenSettings j) (Includes j) (Excludes j) (ErrorMsg j)
    (ctx_done j) (DumpLock j).
Definition job_cancelled (j : DetectionJob) : DetectionJob :=
  MkJob (PlanID j) (Status j) (JobStatus j) (MavenSettings j) (Includes j) (Excludes j)
    (ErrorMsg j) true (DumpLock j).
Definition job_with_lock (b : bool) (j : DetectionJob) : DetectionJob :=
  MkJob (PlanID j) (Status j) (JobStatus j) (MavenSettings j) (Includes j) (Excludes j)
    (ErrorMsg j) (ctx_done j) b.

Definition svc_with_pods (p : list Pod) (s : Service) : Service :=
  MkService (svc_Name s) (svc_Image s) (JarAddrList s) p (LoadJarPackageLock s)
    (ErrorMessage s) (IsDelete s) (svc_ctx_done s).
Definition svc_with_image (i : string) (s : Service) : Service :=
  MkService (svc_Name s) i (JarAddrList s) (Pods s) (LoadJarPackageLock s)
    (ErrorMessage s) (IsDelete s) (svc_ctx_done s).
Definition svc_with_jars (l : list string) (s : Service) : Service :=
  MkService (svc_Name s) (svc_Image s) l (Pods s) (LoadJarPackageLock s)
    (ErrorMessage s) (IsDelete s) (svc_ctx_done s).
Definition svc_with_error (e : string) (s : Service) : Service :=
  MkService (svc_Name s) (svc_Image s) (JarAddrList s) (Pods s) (LoadJarPackageLock s)
    e (IsDelete s) (svc_ctx_done s).
Definition svc_with_load_lock (b : bool) (s : Service) : Service :=
  MkService (svc_Name s) (svc_Image s) (JarAddrList s) (Pods s) b
    (ErrorMessage s) (IsDelete s) (svc_ctx_done s).
Definition svc_deleted (s : Service) : Service :=
  MkService (svc_Name s) (svc_Image s) (JarAddrList s) (Pods s) (LoadJarPackageLock s)
    (ErrorMessage s) true true.

(** ** Calls to the outside *)

(** What [encoding/json] is given to encode. *)
Inductive json :=
| JStr (s : string)
| JNum (n : N)
| JObj (fields : list (string * json)).

(** A request of the agent to the center, as [client.Do] gets it. *)
Record center_request := CenterRequest {
  cr_Method : string;
  cr_URL : string;
  cr_Header : header;
  cr_Body : option string;
}.

(** The upload of one file as a multipart form. *)
Record upload_request := UploadRequest {
  up_Host : string;
  up_Path : string;
  up_Params : list (string * string);
  up_Header : list (string * string);
  up_File : string;
}.

(** [FileUploadResponse], the fields the agent reads: [success], the error, and the UUID and
    URL of the file, if the answer has one. *)
Record upload_response := UploadResponse {
  upload_Success : bool;
  upload_Error : string;
  upload_Data : option (string * string);
}.

(** A pod as the Kubernetes API lists it: its IP, its name, its containers' names. *)
Record k8s_pod := K8sPod { PodIP : string; k8s_Name : string; k8s_Containers : list string }.

(** A deployment, the fields the agent reads: name, labels, and of the pod template's
    containers the image and the environment (names and values). *)
Record container := Container { c_Image : string; c_Env : list (string * string) }.
Record deployment := Deployment {
  deploy_Name : string;
  deploy_Labels : gmap string string;
  deploy_Containers : list container;
}.

(** The answer of [os.Stat]: no error, an error for which [os.IsExist] holds, another error. *)
Inductive stat_result := StatOk | StatExistErr | StatErr.

(** An item of a [filepath.Walk]: the path, whether it is a directory, or an error. *)
Record walk_item := WalkItem { walk_path : string; walk_is_dir : bool; walk_err : bool }.

(** The calls, indexed by the type of their answer. *)
Inductive call : Type -> Type :=
| Run (dir name : string) (args : list string) : call (option error)
| Stat (path : string) : call stat_result
| Mkdir (path : string) : call (option error)
| MkdirTemp (dir pattern : string) : call (string + error)
| CreateTemp (dir pattern : string) : call (string + error)
| Create (path : string) : call (option error)
| OpenFile (path : string) : call (option error)
| WriteString (path data : string) : call (option error)
| Setenv (key value : string) : call unit
| ReadDir (path : string) : call (list string + error)
| Remove (path : string) : call (option error)
| DialTimeout (addr : string) : call (option error)
| Sleep (seconds : Z) : call unit
| NowFormat : call string
| HttpDo (req : center_request) : call (http_response + error)
| PostMultipart (req : upload_request) : call ((Z * upload_response) + error)
| InClusterConfig : call (option error)
| NewForConfig : call (option error)
| ListDeployments (ns : string) : call (list deployment + error)
| ListPods (ns selector : string) : call (list k8s_pod + error)
| CopyFromPod (ns podName srcPath destPath : string) : call (option error)
| Walk (root : string) : call (list walk_item)
| PickOrder (keys : list string) : call (list string).

Record event := Event { ev_type : Type; ev_call : call ev_type; ev_answer : ev_type }.
Arguments Event {ev_type} ev_call ev_answer.

(** The outside world: an answer to every call, from the calls made before it. *)
Definition oracle : Type := forall A, list event -> call A -> A.

(** ** The state *)

(** The keys of [RunJobs] have type [interface{}]: plan numbers, and the service names that
    [DeleteService] passes. *)
Inductive map_key := KeyUint64 (n : N) | KeyString (s : string).

#[global] Instance map_key_eq_dec : EqDecision map_key.
Proof. solve_decision. Defined.
#[global] Instance map_key_countable : Countable map_key.
Proof.
  apply (inj_countable' (fun k => match k with KeyUint64 n => inl n | KeyString s => inr s end)
           (fun x => match x with inl n => KeyUint64 n | inr s => KeyString s end)).
  by intros [].
Defined.

(** Pointers. *)
Abbreviation loc := positive.

(** The goroutines that wait to run. A goroutine that sleeps or waits is the rest of its
    code: [GoSchedulingJob] is [schedulingJob] from its start, [GoDumpLoop] its loop with
    the variables [job] and [loopTimes]; [GoMonitorJob] is the goroutine [schedulingJob]
    starts, [GoCleanJob] the rest of it after the job's context is done and five minutes
    have passed; [GoReloadJarAddr] and [GoForgetService] are those [saveServices] starts,
    [GoForgetLater] the rest of the latter ten minutes after the service's end. *)
Inductive goroutine :=
| GoSchedulingJob (planID : N)
| GoDumpLoop (planID : N) (job : loc) (loopTimes : nat)
| GoMonitorJob (planID : N)
| GoCleanJob (planID : N)
| GoReloadJarAddr (svc : loc)
| GoForgetService (svc : loc)
| GoForgetLater (svc : loc).

Record world := World {
  RunJobs : gmap map_key loc;
  job_heap : gmap loc DetectionJob;
  Services : gmap string loc;
  svc_heap : gmap loc Service;
  group_heap : gmap loc limitSyncGroup;
  spawned : list goroutine;
  history : list event;
}.

Definition empty_world : world := World ∅ ∅ ∅ ∅ ∅ [] [].

Definition with_RunJobs (f : gmap map_key loc -> gmap map_key loc) (w : world) : world :=
  World (f (RunJobs w)) (job_heap w) (Services w) (svc_heap w) (group_heap w) (spawned w) (history w).
Definition with_job_heap (f : gmap loc DetectionJob -> gmap loc DetectionJob) (w : world) : world :=
  World (RunJobs w) (f (job_heap w)) (Services w) (svc_heap w) (group_heap w) (spawned w) (history w).
Definition with_Services (f : gmap string loc -> gmap string loc) (w : world) : world :=
  World (RunJobs w) (job_heap w) (f (Services w)) (svc_heap w) (group_heap w) (spawned w) (history w).
Definition with_svc_heap (f : gmap loc Service -> gmap loc Service) (w : world) : world :=
  World (RunJobs w) (job_heap w) (Services w) (f (svc_heap w)) (group_heap w) (spawned w) (history w).
Definition with_group_heap (f : gmap loc limitSyncGroup -> gmap loc limitSyncGroup) (w : world) : world :=
  World (RunJobs w) (job_heap w) (Services w) (svc_heap w) (f (group_heap w)) (spawned w) (history w).
Definition with_spawned (g : goroutine) (w : world) : world :=
  World (RunJobs w) (job_heap w) (Services w) (svc_heap w) (group_heap w) (spawned w ++ [g]) (history w).
Definition with_event (e : event) (w : world) : world :=
  World (RunJobs w) (job_heap w) (Services w) (svc_heap w) (group_heap w) (spawned w) (history w ++ [e]).

(** ** Access to the heaps

    The code of a goroutine: the statements on memory are [local], those that wait are
    [await]. *)

Definition nil_deref : string := "invalid memory address or nil pointer dereference".

Definition load_job (l : loc) : prog world DetectionJob := local (fun w =>
  match job_heap w !! l with Some j => (Done j, w) | None => (Panic nil_deref, w) end).
Definition update_job (l : loc) (f : DetectionJob -> DetectionJob) : prog world unit :=
  modify (with_job_heap (alter f l)).
Definition new_job (j : DetectionJob) : prog world loc := local (fun w =>
  let l := fresh (dom (job_heap w)) in (Done l, with_job_heap (<[l := j]>) w)).

Definition load_svc (l : loc) : prog world Service := local (fun w =>
  match svc_heap w !! l with Some s => (Done s, w) | None => (Panic nil_deref, w) end).
Definition update_svc (l : loc) (f : Service -> Service) : prog world unit :=
  modify (with_svc_heap (alter f l)).
Definition new_svc (s : Service) : prog world loc := local (fun w =>
  let l := fresh (dom (svc_heap w)) in (Done l, with_svc_heap (<[l := s]>) w)).

(** [go f()], for the goroutines that wait in [spawned] until they are started. *)
Definition go (g : goroutine) : prog world unit := modify (with_spawned g).

(** [l.DumpLock.Lock()] waits while the lock is held. *)
Definition lock_dump (l : loc) : prog world unit := await (fun w =>
  match job_heap w !! l with
  | None => (Panic nil_deref, w)
  | Some j => if DumpLock j then (Blocked, w) else (Done tt, with_job_heap (alter (job_with_lock true) l) w)
  end).
Definition unlock_dump (l : loc) : prog world unit := update_job l (job_with_lock false).

(** A limited wait group: [Add(1)] counts the task, then waits for a place in the channel;
    [Done] waits for the channel, then uncounts; [Wait] waits until nothing is counted. *)
Definition new_group (maxSize : nat) : prog world loc := local (fun w =>
  let l := fresh (dom (group_heap w)) in (Done l, with_group_heap (<[l := NewSemaphore maxSize]>) w)).
Definition on_group (l : loc) (f : limitSyncGroup -> outcome limitSyncGroup) : M world unit := fun w =>
  match group_heap w !! l with
  | None => (Panic nil_deref, w)
  | Some s =>
      match f s with
      | Done s' => (Done tt, with_group_heap (<[l := s']>) w)
      | Panic e => (Panic e, w)
      | Blocked => (Blocked, w)
      end
  end.
Definition group_Add (l : loc) : prog world unit :=
  _ ← local (on_group l (fun s => Done (wg_Add 1 s)));
  await (on_group l (fun s => match send s with Some s' => Done s' | None => Blocked end)).
Definition group_Done (l : loc) : prog world unit :=
  _ ← await (on_group l (fun s => match receive s with Some s' => Done s' | None => Blocked end));
  local (on_group l (fun s => match wg_Done s with Some s' => Done s' | None => Panic "sync: negative WaitGroup counter" end)).
Definition group_Wait (l : loc) : prog world unit :=
  await (on_group l (fun s => if wg_Wait s then Done s else Blocked)).

(** ** The registries *)

Definition SetJob (planID : N) (job : loc) : prog world unit :=
  modify (with_RunJobs (<[KeyUint64 planID := job]>)).
(** [None] is the pair of a fresh zero job, which no caller keeps, and [false]. *)
Definition GetJob (planID : N) : prog world (option loc) :=
  gets (fun w => RunJobs w !! KeyUint64 planID).
Definition DeleteJob (planID : N) : prog world unit :=
  modify (with_RunJobs (delete (KeyUint64 planID))).

Definition SetService (svcName : string) (svc : loc) : prog world unit :=
  modify (with_Services (<[svcName := svc]>)).
Definition GetService (svcName : string) : prog world (option loc) :=
  gets (fun w => Services w !! svcName).
(** As written: the key is deleted from [RunJobs]. *)
Definition DeleteService (svcName : string) : prog world unit :=
  modify (with_RunJobs (delete (KeyString svcName))).

(** ** External calls and iteration *)

Section External.
Variable O : oracle.

Definition ext {A} (c : call A) : prog world A := await (fun w =>
  let r := O A (history w) c in (Done r, with_event (Event c r) w)).

(** The order in which [Range] and [range] visit the keys of a map: any permutation. *)
Definition pick_order (keys : list string) : prog world (list string) :=
  o ← ext (PickOrder keys);
  mret (if decide (o ≡ₚ keys) then o else keys).

(** [Services.Range(body)], with the variable [s] that the body assigns: the body returns
    whether to go on, and the new value. *)
Fixpoint range_loop {S} (keys : list string) (body : S -> string -> prog world (bool * S)) (s : S) : prog world S :=
  match keys with
  | [] => mret s
  | k :: keys' =>
      r ← body s k;
      let '(go_on, s') := r in
      if (go_on : bool) then range_loop keys' body s' else mret s'
  end.

Definition range_services {S} (body : S -> string -> prog world (bool * S)) (s : S) : prog world S :=
  keys ← gets (fun w : world => (map_to_list (Services w)).*1);
  order ← pick_order keys;
  range_loop order body s.

(** [simpleRun] *)
Definition simpleRun (dir name : string) (arg : list string) : prog world (option error) :=
  ext (Run dir name arg).

(** [Exists] *)
Definition Exists (path : string) : prog world bool :=
  r ← ext (Stat path);
  mret (match r with StatOk => true | StatExistErr => true | StatErr => false end).
End External.

(** An external call always returns, and is recorded with its answer. *)
Lemma ext_inv O {A} (c : call A) w r w' :
  ext O c w = (Done r, w') -> w' = with_event (Event c r) w /\ r = O A (history w) c.
Proof. cbn. by intros [= <- <-]. Qed.

Lemma ext_run O {A} (c : call A) w :
  ext O c w = (Done (O A (history w) c), with_event (Event c (O A (history w) c)) w).
Proof. reflexivity. Qed.

(** Reading through a valid pointer. *)
Lemma load_svc_done l s w : svc_heap w !! l = Some s -> load_svc l w = (Done s, w).
Proof. cbn. by intros ->. Qed.
Lemma load_job_done l j w : job_heap w !! l = Some j -> load_job l w = (Done j, w).
Proof. cbn. by intros ->. Qed.
Lemma load_svc_inv l w s w' : load_svc l w = (Done s, w') -> w' = w /\ svc_heap w !! l = Some s.
Proof. cbn. destruct (svc_heap w !! l); by intros [= <- <-]. Qed.
Lemma load_job_inv l w j w' : load_job l w = (Done j, w') -> w' = w /\ job_heap w !! l = Some j.
Proof. cbn. destruct (job_heap w !! l); by intros [= <- <-]. Qed.

(** ** Relations between states *)

(** The history only grows. *)
Definition history_grows (w w' : world) : Prop := exists l : list event, history w' = (history w ++ l)%list.

(** Only the history changed. *)
Definition only_history (w w' : world) : Prop :=
  RunJobs w' = RunJobs w /\ job_heap w' = job_heap w /\ Services w' = Services w /\
  svc_heap w' = svc_heap w /\ group_heap w' = group_heap w /\ spawned w' = spawned w /\ history_grows w w'.

#[global] Instance history_grows_preorder : PreOrder history_grows.
Proof.
  split.
  - intros w. exists []. by rewrite app_nil_r.
  - intros w1 w2 w3 [l1 H1] [l2 H2]. exists (l1 ++ l2)%list. by rewrite H2, H1, (assoc_L (++)%list).
Qed.

#[global] Instance only_history_preorder : PreOrder only_history.
Proof.
  split.
  - intros w. unfold only_history. by split_and!.
  - intros w1 w2 w3 (?&?&?&?&?&?&?) (?&?&?&?&?&?&?). unfold only_history. split_and!; try congruence.
    by etrans.
Qed.

Lemma only_history_event e w : only_history w (with_event e w).
Proof. unfold only_history. cbn. split_and!; try done. by eexists. Qed.

Lemma ext_only_history O {A} (c : call A) : preserves only_history (ext O c).
Proof. split; [intros w; apply only_history_event|done]. Qed.
Lemma ext_returns O {A} (c : call A) : returns (ext O c).
Proof. by intros w. Qed.
#[export] Hint Resolve ext_only_history : preserves.

Lemma range_loop_preserves {S} R keys (body : S -> string -> prog world (bool * S)) :
  (forall s k, preserves R (body s k)) -> forall s, preserves R (range_loop keys body s).
Proof.
  intros Hbody. induction keys as [|k keys IH]; intros s; cbn; [done|].
  apply preserves_bind; [done|]. by intros [[] s'].
Qed.

Lemma pick_order_only_history O keys : preserves only_history (pick_order O keys).
Proof. unfold pick_order. preserve. Qed.
#[export] Hint Resolve pick_order_only_history : preserves.

(** A loop over the services does what its body does, as often as there are services. *)
Lemma range_services_preserves {S} O R `{!Reflexive R} (body : S -> string -> prog world (bool * S)) s :
  (forall w w', only_history w w' -> R w w') ->
  (forall s k, preserves R (body s k)) -> preserves R (range_services O body s).
Proof.
  intros Hsub Hbody. unfold range_services. apply preserves_bind; [by apply preserves_gets|].
  intros keys. apply preserves_bind; [|intros order; by apply range_loop_preserves].
  apply (preserves_sub only_history R _ Hsub). apply pick_order_only_history.
Qed.

Lemma only_history_refl_sub w w' : only_history w w' -> only_history w w'.
Proof. done. Qed.
#[export] Hint Resolve only_history_refl_sub : preserves.

Ltac preserve_more ::=
  apply range_services_preserves; [typeclasses eauto | solve [auto with preserves] | intros ? ?].

Lemma load_job_only_history l : preserves only_history (load_job l).
Proof. split; [|done]. intros w. by destruct (job_heap w !! l). Qed.
Lemma load_svc_only_history l : preserves only_history (load_svc l).
Proof. split; [|done]. intros w. by destruct (svc_heap w !! l). Qed.
Lemma GetJob_only_history p : preserves only_history (GetJob p).
Proof. unfold GetJob. preserve. Qed.
Lemma GetService_only_history k : preserves only_history (GetService k).
Proof. unfold GetService. preserve. Qed.
Lemma Exists_only_history O path : preserves only_history (Exists O path).
Proof. unfold Exists. preserve. Qed.
Lemma simpleRun_only_history O dir name args : preserves only_history (simpleRun O dir name args).
Proof. unfold simpleRun. preserve. Qed.
#[export] Hint Resolve load_job_only_history load_svc_only_history GetJob_only_history
  GetService_only_history Exists_only_history simpleRun_only_history : preserves.

(** *** Locks and groups *)

(** Taking a lock writes the lock, or nothing. *)
Lemma lock_dump_preserves R `{!Reflexive R} l :
  preserves R (update_job l (job_with_lock true)) -> preserves R (lock_dump l).
Proof.
  intros [HR _]. split; [|done]. intros w. cbn. destruct (job_heap w !! l) as [j|]; [|apply reflexivity].
  destruct (DumpLock j); [apply reflexivity|apply HR].
Qed.

#[export] Hint Extern 3 (preserves _ (lock_dump _)) => apply lock_dump_preserves; first [typeclasses eauto | solve [auto with preserves]] : preserves.

(** The state but for the groups. *)
Definition only_groups (w w' : world) : Prop := exists f, w' = with_group_heap f w.
Lemma on_group_only_groups l f : Prelude.preserves only_groups (on_group l f).
Proof.
  intros w. assert (Hid : only_groups w w) by (exists (fun h => h); by destruct w).
  unfold on_group. destruct (group_heap w !! l); [|done]. destruct (f _); [|done..]. by eexists.
Qed.
Lemma new_group_only_groups n : preserves only_groups (new_group n).
Proof. split; [|done]. intros w. by eexists. Qed.
Lemma group_Add_only_groups l : preserves only_groups (group_Add l).
Proof. split; [apply on_group_only_groups|]. intros u. split; [apply on_group_only_groups|done]. Qed.
Lemma group_Done_only_groups l : preserves only_groups (group_Done l).
Proof. split; [apply on_group_only_groups|]. intros u. split; [apply on_group_only_groups|done]. Qed.
Lemma group_Wait_only_groups l : preserves only_groups (group_Wait l).
Proof. split; [apply on_group_only_groups|done]. Qed.
#[export] Hint Resolve new_group_only_groups group_Add_only_groups group_Done_only_groups
  group_Wait_only_groups : preserves.

(** ** Retrying

    [retry.RetryOnConflict(retry.DefaultRetry, fn)] of client-go is a parameter. It runs [fn]
    once or, after errors, several times, and returns what the last run returned. A run of
    [fn] ends in a value, in which [err] finds the error [fn] returns. *)
Definition retrier : Type := forall A, (A -> option error) -> prog world A -> prog world A.

(** The runs of [fn]: the last one, or one more, after which [stop] says of an error whether it
    is the last. *)
Inductive retries {A} (err : A -> option error) (fn : prog world A) : prog world A -> Prop :=
| retries_last : retries err fn fn
| retries_again (stop : error -> bool) p :
    retries err fn p ->
    retries err fn (a ← fn; match err a with
                            | Some e => if stop e then mret a else p
                            | None => mret a
                            end).

Class RetryLaw (RetryOnConflict : retrier) : Prop :=
  retry_runs : forall A (err : A -> option error) fn, retries err fn (RetryOnConflict A err fn).

(** [fn] returns an error and nothing else. *)
Definition just_error (e : option error) : option error := e.

Section Retry.
Context (RetryOnConflict : retrier) `{!RetryLaw RetryOnConflict} {A : Type} (err : A -> option error).
Implicit Types (fn : prog world A) (w : world).

Lemma preserves_retry R fn : preserves R fn -> preserves R (RetryOnConflict A err fn).
Proof using RetryLaw0.
  intros Hfn. induction (retry_runs A err fn) as [|stop p Hp IH]; [done|].
  apply preserves_bind; [done|]. intros a. destruct (err a); [|done]. by destruct (stop _).
Qed.

(** The result is that of a run of [fn], from a state where every [P] holds that held at the
    start and that a failing run leaves true. *)
Lemma retry_done (P : world -> Prop) fn w a w' :
  RetryOnConflict A err fn w = (Done a, w') -> P w ->
  (forall v b e v', P v -> fn v = (Done b, v') -> err b = Some e -> P v') ->
  exists v, fn v = (Done a, w') /\ P v.
Proof using RetryLaw0.
  intros H HP Hfail. revert w H HP. induction (retry_runs A err fn) as [|stop p Hp IH]; intros w H HP; [by exists w|].
  apply bind_inv_done in H as (b & w1 & E & H). destruct (err b) as [e|] eqn:Eb.
  - destruct (stop e); [cbn in H; simplify_eq; by exists w|]. apply (IH w1 H). by eapply Hfail.
  - cbn in H. simplify_eq. by exists w.
Qed.

(** A function that succeeds is run once. *)
Lemma retry_first fn w a w' :
  fn w = (Done a, w') -> err a = None -> RetryOnConflict A err fn w = (Done a, w').
Proof using RetryLaw0.
  intros H Ha. destruct (retry_runs A err fn) as [|stop p _]; [done|]. by rewrite (bind_done _ _ _ _ _ H), Ha.
Qed.
End Retry.

(** Running [fn] once is an implementation. *)
Definition retry_once : retrier := fun A err fn => fn.
#[global] Instance retry_once_law : RetryLaw retry_once.
Proof. intros A err fn. apply retries_last. Qed.
