(* ===== verification/Untar.v ===== *)
(** * [agent/core/watcher.go]: unpacking the archive of a pod's directory
    ([unTarAll], [stripPathShortcuts], [getPrefix], [unTarImage])

    Paths are those of package [path], which [path/filepath] agrees with on Linux. *)

From Stdlib Require Import Ascii.
From stdpp Require Import base tactics option list gmap strings.
From S2P Require Import Goroutines Prelude GoStrings NetHttp Conf AgentWorld.

Local Open Scope string_scope.

(** ** Paths *)

(** The elements of a path, between its slashes. *)
Fixpoint elements (s : string) : list string :=
  match s with
  | EmptyString => [""]
  | String c s' =>
      if bool_decide (c = "/"%char) then "" :: elements s'
      else match elements s' with
           | h :: t => String c h :: t
           | [] => [String c ""]
           end
  end.

(** What one element does to the elements kept so far, the last first. *)
Definition push (rooted : bool) (kept : list string) (e : string) : list string :=
  if bool_decide (e = "") || bool_decide (e = ".") then kept
  else if bool_decide (e = "..") then
    match kept with
    | k :: kept' => if bool_decide (k = "..") then e :: kept else kept'
    | [] => if rooted then [] else [e]
    end
  else e :: kept.

(** [path.Clean] *)
Definition kept (rooted : bool) (s : string) : list string := foldl (push rooted) [] (elements s).
Definition Clean (s : string) : string :=
  let rooted := HasPrefix s "/" in
  let l := rev (kept rooted s) in
  if rooted then "/" +:+ Join l "/" else if bool_decide (l = []) then "." else Join l "/".

(** [filepath.Join] of two elements. *)
Definition Join2 (a b : string) : string :=
  if bool_decide (a <> "") then Clean (a +:+ "/" +:+ b)
  else if bool_decide (b <> "") then Clean b else "".

(** [filepath.Dir]: the path up to its last slash, cleaned. *)
Fixpoint up_to_last_slash (s : string) : option string :=
  match s with
  | EmptyString => None
  | String c s' =>
      match up_to_last_slash s' with
      | Some d => Some (String c d)
      | None => if bool_decide (c = "/"%char) then Some (String c "") else None
      end
  end.
Definition Dir (s : string) : string := Clean (default "" (up_to_last_slash s)).

Example path_tests :
  map Clean [""; "a//b/./c"; "/../a"; "a/../../b"; "/"; "a/.."; "/tmp/x/app/../../../etc"] =
    ["."; "a/b/c"; "/a"; "../b"; "/"; "."; "/etc"] /\
  map Dir ["/tmp/app/x.jar"; "x"; "/x"] = ["/tmp/app"; "."; "/"].
Proof. vm_compute. auto. Qed.

(** ** The prefix of the archive *)

(** [getPrefix] *)
Definition getPrefix (file : string) : string := TrimLeft1 file "/"%char.

(** The loop of [stripPathShortcuts], every round of which removes three bytes. *)
Fixpoint strip_loop (fuel : nat) (newPath : string) : string :=
  match fuel with
  | 0 => newPath
  | S fuel' =>
      let trimmed := TrimPrefix newPath "../" in
      if bool_decide (trimmed = newPath) then newPath else strip_loop fuel' trimmed
  end.

Definition stripPathShortcuts (p : string) : string :=
  let newPath := strip_loop (String.length (Clean p)) (Clean p) in
  let newPath := if bool_decide (newPath = ".") || bool_decide (newPath = "..") then "" else newPath in
  match newPath with
  | String c rest => if bool_decide (c = "/"%char) then rest else newPath
  | EmptyString => newPath
  end.

(** ** Unpacking *)

(** What [header.FileInfo()] says of an entry. *)
Inductive entry_kind := Directory | SymbolicLink (linkname : string) | RegularFile.
Record tar_entry := TarEntry { entry_Name : string; entry_Kind : entry_kind }.

(** The operations on the file system. *)
Inductive fs_op :=
| MkdirAll (path : string)
| EvalSymlinks (path : string)
| Symlink (oldname newname : string)
| CreateFile (path : string)
| CopyData (path : string).
#[export] Instance fs_op_eq_dec : EqDecision fs_op.
Proof. solve_decision. Defined.

(** *** Where an operation writes

    The elements of a location are names from the root on. A symbolic link is followed where it
    is met, at most [max_links] times. *)
Definition max_links : nat := 40.

Fixpoint follow (links : gmap (list string) string) (fuel : nat) : list string -> list string -> option (list string) :=
  fix go (cur todo : list string) : option (list string) :=
    match todo with
    | [] => Some cur
    | e :: todo' =>
        if bool_decide (e = "") || bool_decide (e = ".") then go cur todo'
        else if bool_decide (e = "..") then go (removelast cur) todo'
        else match links !! (cur ++ [e])%list with
             | None => go (cur ++ [e])%list todo'
             | Some target =>
                 match fuel with
                 | 0 => None
                 | S fuel' => follow links fuel' (if HasPrefix target "/" then [] else cur) (elements target ++ todo')%list
                 end
             end
    end.

(** The operations attempted, the symbolic links by their location, the working directory,
    and what every operation may have written and where. *)
Record fs_state := FsState {
  fs_ops : list fs_op;
  fs_links : gmap (list string) string;
  fs_cwd : list string;
  fs_touched : list (fs_op * list string);
}.

Definition location_of (st : fs_state) (path : string) (es : list string) : option (list string) :=
  follow (fs_links st) max_links (if HasPrefix path "/" then [] else fs_cwd st) es.
(** A file is written where its path leads, through a link at its end too. *)
Definition location (st : fs_state) (path : string) : option (list string) := location_of st path (elements path).
(** A link is made in the directory of its path. *)
Definition link_location (st : fs_state) (path : string) : option (list string) :=
  match location_of st path (removelast (elements path)), last (elements path) with
  | Some dir, Some name => Some (dir ++ [name])%list
  | _, _ => None
  end.
(** [os.MkdirAll] makes what is not there of the directories on the way. *)
Definition dir_locations (st : fs_state) (path : string) : list (list string) :=
  omap (fun n => location_of st path (take n (elements path))) (seq 0 (S (length (elements path)))).

(** The locations an operation may write, or [None] if it fails on too many links. *)
Definition locations (st : fs_state) (op : fs_op) : option (list (list string)) :=
  match op with
  | MkdirAll p => _ ← location st p; Some (dir_locations st p)
  | EvalSymlinks p => _ ← location st p; Some []
  | Symlink _ p => l ← link_location st p; Some [l]
  | CreateFile p | CopyData p => l ← location st p; Some [l]
  end.

Section Untar.
(** The answer of the file system to an operation, from the operations before it. *)
Variable fs : list fs_op -> fs_op -> option error.

Definition link_made (op : fs_op) (locs : list (list string)) (links : gmap (list string) string) : gmap (list string) string :=
  match op, locs with Symlink target _, [l] => <[l := target]> links | _, _ => links end.

Definition do_op (op : fs_op) : M fs_state (option error) := fun st =>
  match locations st op with
  | None => (Done (Some "too many levels of symbolic links"),
             FsState (fs_ops st ++ [op]) (fs_links st) (fs_cwd st) (fs_touched st))
  | Some locs =>
      let err := fs (fs_ops st) op in
      (Done err,
       FsState (fs_ops st ++ [op])
         (match err with None => link_made op locs (fs_links st) | Some _ => fs_links st end)
         (fs_cwd st) (fs_touched st ++ map (pair op) locs))
  end.

(** [a; b] where an error of [a] is returned. *)
Definition and_then (a b : M fs_state (option error)) : M fs_state (option error) :=
  err ← a; match err with Some e => mret (Some e) | None => b end.

(** One round of the loop of [unTarAll]. *)
Definition untar_entry (destDir prefix : string) (e : tar_entry) : M fs_state (option error) :=
  if negb (HasPrefix (entry_Name e) prefix) then mret (Some "tar contents corrupted")
  else
    let destFileName := Join2 destDir (drop_str (String.length prefix) (entry_Name e)) in
    let baseName := Dir destFileName in
    and_then (do_op (MkdirAll baseName))
      match entry_Kind e with
      | Directory => do_op (MkdirAll destFileName)
      | SymbolicLink linkname =>
          and_then (do_op (EvalSymlinks baseName)) (do_op (Symlink linkname destFileName))
      | RegularFile =>
          and_then (do_op (EvalSymlinks baseName))
            (and_then (do_op (CreateFile destFileName)) (do_op (CopyData destFileName)))
      end.

(** [unTarAll] on the entries of an archive, at the end of which reading meets an error or
    the end of the file. *)
Fixpoint unTarAll (destDir prefix : string) (entries : list tar_entry) (last : option error)
  : M fs_state (option error) :=
  match entries with
  | [] => mret last
  | e :: entries' => and_then (untar_entry destDir prefix e) (unTarAll destDir prefix entries' last)
  end.
End Untar.

(** [unTarImage]: every layer is tried, and the errors of the layers are only printed. *)
Fixpoint untar_layers (O : oracle) (unTarDir : string) (layers : list string) : prog world unit :=
  match layers with
  | [] => mret tt
  | layer :: layers' =>
      _ ← simpleRun O "" "tar" ["-zxf"; unTarDir +:+ "/" +:+ layer +:+ ".tar.gz"; "-C"; unTarDir];
      untar_layers O unTarDir layers'
  end.
Definition unTarImage (O : oracle) (unTarDir rootTar : string) (layers : list string) : prog world (option error) :=
  err ← simpleRun O "" "tar" ["-xf"; rootTar; "-C"; unTarDir];
  match err with
  | Some err => mret (Some err)
  | None => _ ← untar_layers O unTarDir layers; mret None
  end.

(** ** Lemmas on paths *)

Lemma elements_ne s : elements s <> [].
Proof. destruct s as [|c s]; cbn; [done|]. case_bool_decide; [done|]. by destruct (elements s). Qed.
Lemma elements_app s t : elements (s +:+ String "/" t) = (elements s ++ elements t)%list.
Proof.
  induction s as [|c s IH]; [done|]. rewrite str_app_cons. cbn [elements]. rewrite IH. case_bool_decide; [done|].
  destruct (elements s) as [|h l] eqn:E; [by destruct (elements_ne s)|done].
Qed.

(** An element that only names something. *)
Definition plain (e : string) : bool := negb (bool_decide (e = "..")).

(** ** Where links lead *)

(** The elements that name something. *)
Definition names (es : list string) : list string := filter (fun e => e <> "" /\ e <> ".") es.
Lemma names_app es es' : names (es ++ es') = (names es ++ names es')%list.
Proof. apply filter_app. Qed.
Lemma names_skip e es : e = "" \/ e = "." -> names (e :: es) = names es.
Proof. intros He. unfold names. rewrite filter_cons_False; [done|]. naive_solver. Qed.
Lemma names_keep e es : e <> "" -> e <> "." -> names (e :: es) = e :: names es.
Proof. intros H1 H2. unfold names. by rewrite filter_cons_True. Qed.

Abbreviation all_plain es := (Forall (fun e => plain e = true) es).

Section Inside.
(** The location of the destination. *)
Variable D : list string.

(** A link whose target does not lead out of the destination: names only, from the root or from
    where the link is. *)
Definition target_stays (target : string) : Prop :=
  all_plain (elements target) /\ (HasPrefix target "/" = true -> D `prefix_of` names (elements target)).
(** No link is on the way to the destination, and those inside it stay there. *)
Definition links_stay (links : gmap (list string) string) : Prop :=
  forall key target, links !! key = Some target -> ~ key `prefix_of` D /\ (D `prefix_of` key -> target_stays target).

Lemma plain_dotdot e : plain e = true -> e <> "..".
Proof. unfold plain. intros H%negb_true_iff. by apply bool_decide_eq_false in H. Qed.

Lemma key_prefix (cur : list string) e rest : (cur ++ [e])%list `prefix_of` (cur ++ e :: rest)%list.
Proof. exists rest. by rewrite <- (assoc_L (++)%list). Qed.
Lemma strict_prefix (cur : list string) e :
  D `prefix_of` (cur ++ [e])%list -> ~ (cur ++ [e])%list `prefix_of` D -> D `prefix_of` cur.
Proof.
  intros [k Hk] Hn. destruct k as [|z k _] using rev_ind.
  - destruct Hn. by rewrite app_nil_r in Hk; rewrite Hk.
  - rewrite (assoc_L (++)%list) in Hk. apply app_inj_tail in Hk as [-> _]. by exists k.
Qed.

(** A path of names that leads into the destination stays there. *)
Lemma follow_inside links fuel : links_stay links -> forall todo cur loc,
  all_plain todo -> D `prefix_of` (cur ++ names todo)%list -> follow links fuel cur todo = Some loc -> D `prefix_of` loc.
Proof.
  intros Hl. induction fuel as [|fuel IHf]; intros todo; induction todo as [|e todo IH]; intros cur loc Hp HD; cbn.
  1,3: intros [= <-]; by rewrite app_nil_r in HD.
  all: apply Forall_cons in Hp as [He Hp]; apply plain_dotdot in He;
    destruct (bool_decide (e = "") || bool_decide (e = ".")) eqn:Eskip.
  1,3: apply IH; [done|]; rewrite names_skip in HD; [done|]; apply orb_true_iff in Eskip as [E|E];
    apply bool_decide_eq_true in E; auto.
  all: apply orb_false_iff in Eskip as [E1%bool_decide_eq_false E2%bool_decide_eq_false];
    rewrite names_keep in HD by done; rewrite bool_decide_false by done;
    destruct (links !! (cur ++ [e])%list) as [target|] eqn:El; [|apply IH; [done|]; by rewrite <- (assoc_L (++)%list)].
  { done. }
  destruct (Hl _ _ El) as [Hout Hin].
  assert (Hkey : D `prefix_of` (cur ++ [e])%list).
  { destruct (prefix_weak_total _ _ _ HD (key_prefix cur e (names todo))) as [?|?]; done. }
  destruct (Hin Hkey) as [Ht Habs]. apply IHf; [by apply Forall_app|]. rewrite names_app.
  destruct (HasPrefix target "/"); [rewrite app_nil_l; by apply prefix_app_r, Habs|].
  apply prefix_app_r. by apply (strict_prefix cur e).
Qed.
(** On the way to the destination there are no links. *)
Lemma follow_above links fuel : links_stay links -> forall todo cur,
  all_plain todo -> (cur ++ names todo)%list `prefix_of` D -> follow links fuel cur todo = Some (cur ++ names todo)%list.
Proof.
  intros Hl todo. destruct fuel as [|fuel]; induction todo as [|e todo IH]; intros cur Hp HD; cbn [follow].
  1,3: by rewrite app_nil_r.
  all: apply Forall_cons in Hp as [He Hp]; apply plain_dotdot in He;
    destruct (bool_decide (e = "") || bool_decide (e = ".")) eqn:Eskip.
  1,3: rewrite names_skip in HD |- *; [by apply IH|..]; apply orb_true_iff in Eskip as [E|E];
    apply bool_decide_eq_true in E; auto.
  all: apply orb_false_iff in Eskip as [E1%bool_decide_eq_false E2%bool_decide_eq_false];
    rewrite names_keep in HD |- * by done; rewrite bool_decide_false by done;
    replace (cur ++ e :: names todo)%list with ((cur ++ [e]) ++ names todo)%list in HD |- * by (by rewrite <- (assoc_L (++)%list));
    destruct (links !! (cur ++ [e])%list) as [target|] eqn:El; [|by apply IH].
  all: exfalso; destruct (Hl _ _ El) as [Hout _]; apply Hout; etrans; [|exact HD]; by apply prefix_app_r.
Qed.
End Inside.

(** ** Absolute paths of names *)

(** An element as a name. *)
Definition good (e : string) : Prop := elements e = [e] /\ e <> "" /\ e <> "." /\ e <> "..".
Definition absolute (p : string) (l : list string) : Prop := p = "/" +:+ Join l "/" /\ Forall good l.

Lemma elements_single s : Forall (fun e => elements e = [e]) (elements s).
Proof.
  induction s as [|c s IH]; cbn [elements]; [by repeat constructor|]. case_bool_decide as Hc; [by constructor|].
  destruct (elements s) as [|h t]; [repeat constructor; cbn; by rewrite bool_decide_false|].
  apply Forall_cons in IH as [Hh Ht]. constructor; [|done]. cbn. by rewrite bool_decide_false, Hh.
Qed.
Lemma elements_Join l : l <> [] -> Forall good l -> elements (Join l "/") = l.
Proof.
  induction l as [|x l IH]; [done|]. intros _ [[Hx _] Hl]%Forall_cons. destruct l as [|y l]; [done|].
  change (Join (x :: y :: l) "/") with (x +:+ "/" +:+ Join (y :: l) "/"). change ("/" +:+ ?t) with (String "/" t).
  by rewrite elements_app, Hx, IH.
Qed.
Lemma names_good l : Forall good l -> names l = l.
Proof. induction 1 as [|x l (_ & H1 & H2 & _) _ IH]; [done|]. by rewrite names_keep, IH. Qed.
Lemma good_plain l : Forall good l -> all_plain l.
Proof.
  intros Hl. eapply Forall_impl; [exact Hl|]. intros e (_ & _ & _ & He). unfold plain. by rewrite bool_decide_false.
Qed.
Lemma absolute_rooted p l : absolute p l -> HasPrefix p "/" = true.
Proof. intros [-> _]. by apply HasPrefix_spec; eexists. Qed.
(** The elements of such a path: its names after an empty one. *)
Lemma absolute_elements p l : absolute p l ->
  elements p = "" :: (if bool_decide (l = []) then [""] else l).
Proof.
  intros [-> Hl]. change ("/" +:+ Join l "/") with ("" +:+ String "/" (Join l "/")). rewrite elements_app.
  case_bool_decide as E; [by subst|]. by rewrite elements_Join.
Qed.

(** Cleaning keeps names. *)
Lemma push_all_plain es : forall acc, all_plain es -> foldl (push true) acc es = (rev (names es) ++ acc)%list.
Proof.
  induction es as [|e es IH]; intros acc Hes; [done|]. apply Forall_cons in Hes as [He Hes].
  pose proof (plain_dotdot e He) as Hd. cbn [foldl]. rewrite IH by done. unfold push.
  destruct (bool_decide (e = "") || bool_decide (e = ".")) eqn:E.
  - rewrite names_skip; [done|]. apply orb_true_iff in E as [E|E]; apply bool_decide_eq_true in E; auto.
  - apply orb_false_iff in E as [E1%bool_decide_eq_false E2%bool_decide_eq_false].
    rewrite bool_decide_false, names_keep by done. cbn [rev]. by rewrite <- (assoc_L (++)%list).
Qed.
Lemma push_good es : forall acc, Forall (fun e => elements e = [e]) es -> Forall good acc -> Forall good (foldl (push true) acc es).
Proof.
  induction es as [|e es IH]; intros acc Hes Hacc; [done|]. apply Forall_cons in Hes as [He Hes]. cbn [foldl].
  apply IH; [done|]. unfold push. destruct (bool_decide (e = "") || bool_decide (e = ".")) eqn:E; [done|].
  apply orb_false_iff in E as [E1%bool_decide_eq_false E2%bool_decide_eq_false]. case_bool_decide as Hd; [|by constructor].
  destruct acc as [|k acc]; [done|]. apply Forall_cons in Hacc as [Hk Hacc]. rewrite bool_decide_false; [done|apply Hk].
Qed.

(** The location of a path that has no links on its way. *)
Definition clean_names (p : string) : list string := rev (kept true p).
Lemma Clean_absolute p : HasPrefix p "/" = true -> absolute (Clean p) (clean_names p).
Proof.
  intros Hp. unfold Clean. rewrite Hp. split; [done|]. apply Forall_rev, push_good; [apply elements_single|done].
Qed.
Lemma Join2_absolute dest rest :
  HasPrefix dest "/" = true -> all_plain (elements rest) ->
  absolute (Join2 dest rest) (clean_names dest ++ names (elements rest))%list.
Proof.
  intros Hroot Hrest. unfold Join2. rewrite bool_decide_true by (by destruct dest).
  assert (Hroot2 : HasPrefix (dest +:+ "/" +:+ rest) "/" = true).
  { apply HasPrefix_spec in Hroot as [t ->]. apply HasPrefix_spec. exists (t +:+ "/" +:+ rest). by rewrite !str_app_assoc. }
  pose proof (Clean_absolute _ Hroot2) as Ha. replace (clean_names (dest +:+ "/" +:+ rest)) with
    (clean_names dest ++ names (elements rest))%list in Ha; [exact Ha|].
  unfold clean_names, kept. change ("/" +:+ rest) with (String "/" rest). rewrite elements_app, foldl_app, (push_all_plain (elements rest)) by done.
  by rewrite rev_app_distr, rev_involutive.
Qed.

Lemma last_slash_single x : elements x = [x] -> up_to_last_slash x = None.
Proof.
  induction x as [|c x IH]; [done|]. cbn [elements up_to_last_slash]. case_bool_decide as Hc.
  - by intros [=].
  - intros Hx. rewrite IH; [done|]. destruct (elements x) as [|h [|h' t]] eqn:E; [by destruct (elements_ne x)|by injection Hx as ->|done].
Qed.
Lemma last_slash_app a x : elements x = [x] -> up_to_last_slash (a +:+ String "/" x) = Some (a +:+ "/").
Proof.
  intros Hx. induction a as [|c a IH].
  - change ("" +:+ ?t) with t. cbn [up_to_last_slash]. by rewrite last_slash_single.
  - rewrite !str_app_cons. cbn [up_to_last_slash]. by rewrite IH.
Qed.
Lemma Join_snoc l x : l <> [] -> Join (l ++ [x]) "/" = Join l "/" +:+ "/" +:+ x.
Proof.
  induction l as [|y l IH]; [done|]. intros _. destruct l as [|z l]; [done|].
  change (Join ((y :: z :: l) ++ [x]) "/") with (y +:+ "/" +:+ Join ((z :: l) ++ [x]) "/"). rewrite IH by done.
  change (Join (y :: z :: l) "/") with (y +:+ "/" +:+ Join (z :: l) "/"). by rewrite !str_app_assoc.
Qed.
(** The parent of a path of names. *)
Lemma Dir_absolute p l : absolute p l -> absolute (Dir p) (removelast l).
Proof.
  intros [-> Hl]. destruct l as [|x l _] using rev_ind; [by vm_compute|].
  rewrite removelast_last. apply Forall_app in Hl as [Hl [[Hx _] _]%Forall_cons].
  assert (Hup : up_to_last_slash ("/" +:+ Join (l ++ [x]) "/") = Some ("/" +:+ Join l "/" +:+ (if bool_decide (l = []) then "" else "/"))).
  { case_bool_decide as E; [subst l; exact (last_slash_app "" x Hx)|]. rewrite Join_snoc by done.
    rewrite <- str_app_assoc. rewrite <- (str_app_assoc "/"). by apply last_slash_app. }
  unfold Dir. rewrite Hup. cbn [default]. set (q := "/" +:+ _).
  assert (Hq : HasPrefix q "/" = true) by (apply HasPrefix_spec; by eexists).
  pose proof (Clean_absolute q Hq) as Ha. replace (clean_names q) with l in Ha; [exact Ha|]. symmetry.
  unfold clean_names, kept. subst q. case_bool_decide as E; [by subst l|].
  change ("/" +:+ Join l "/" +:+ "/") with ("" +:+ String "/" (Join l "/" +:+ String "/" "")).
  rewrite !elements_app, elements_Join by done. change (elements "") with [""]. rewrite push_all_plain.
  - rewrite !names_app, (names_good l Hl). change (names [""]) with (@nil string). by rewrite !app_nil_r, rev_involutive.
  - repeat (apply Forall_app_2 || constructor); try done. by apply good_plain.
Qed.

(** ** Properties *)

Section UntarTheorems.
Variable fs : list fs_op -> fs_op -> option error.
(** The location of the destination. *)
Variable D : list string.

(** Where an operation may write: in the destination, and directories on the way to it. *)
Definition inside (w : fs_op * list string) : Prop :=
  D `prefix_of` w.2 \/ (exists p, w.1 = MkdirAll p) /\ w.2 `prefix_of` D.

Definition keeps_inside (st st' : fs_state) : Prop :=
  links_stay D (fs_links st) ->
  links_stay D (fs_links st') /\ exists new, fs_touched st' = (fs_touched st ++ new)%list /\ Forall inside new.
#[export] Instance keeps_inside_preorder : PreOrder keeps_inside.
Proof.
  split; [intros st Hl; split; [done|]; exists []; by rewrite app_nil_r|].
  intros a b c Hab Hbc Hl. destruct (Hab Hl) as (Hb & n1 & E1 & H1). destruct (Hbc Hb) as (Hc & n2 & E2 & H2).
  split; [done|]. exists (n1 ++ n2)%list. rewrite E2, E1, (assoc_L (++)%list). split; [done|]. by apply Forall_app.
Qed.

(** An operation of [unTarAll] in the destination. *)
Inductive op_inside : fs_op -> Prop :=
| mkdir_inside p l : absolute p l -> D `prefix_of` l \/ l `prefix_of` D -> op_inside (MkdirAll p)
| eval_inside p : op_inside (EvalSymlinks p)
| symlink_inside target p x extra :
    absolute p (D ++ x :: extra) -> target_stays D target -> op_inside (Symlink target p)
| create_inside p extra : absolute p (D ++ extra) -> op_inside (CreateFile p)
| copy_inside p extra : absolute p (D ++ extra) -> op_inside (CopyData p).

Lemma absolute_location st p l es loc :
  links_stay D (fs_links st) -> absolute p l -> es `prefix_of` elements p -> D `prefix_of` names es ->
  location_of st p es = Some loc -> D `prefix_of` loc.
Proof.
  intros Hl Ha [rest He] HD. unfold location_of. rewrite (absolute_rooted p l Ha). apply follow_inside; [done| |done].
  assert (all_plain (elements p)) as Hp.
  { rewrite (absolute_elements p l Ha). constructor; [done|]. case_bool_decide; [by repeat constructor|]. apply good_plain, Ha. }
  rewrite He in Hp. by apply Forall_app in Hp as [Hp _].
Qed.
Lemma names_absolute p l : absolute p l -> names (elements p) = l.
Proof.
  intros Ha. rewrite (absolute_elements p l Ha), names_skip by auto. case_bool_decide as E; [by subst|]. apply names_good, Ha.
Qed.
Lemma file_location st p extra loc :
  links_stay D (fs_links st) -> absolute p (D ++ extra) -> location st p = Some loc -> D `prefix_of` loc.
Proof.
  intros Hl Ha. apply (absolute_location st p (D ++ extra)); [done|done|done|]. rewrite (names_absolute p _ Ha). by exists extra.
Qed.
Lemma link_location_inside st p x extra loc :
  links_stay D (fs_links st) -> absolute p (D ++ x :: extra) -> link_location st p = Some loc ->
  exists y more, loc = (D ++ y :: more)%list.
Proof.
  intros Hl Ha. unfold link_location. pose proof (absolute_elements p _ Ha) as He.
  rewrite bool_decide_false in He by (by destruct D).
  assert (Hdir : removelast (elements p) = (("" :: D) ++ removelast (x :: extra))%list).
  { rewrite He. change ("" :: D ++ x :: extra)%list with (("" :: D) ++ (x :: extra))%list. by apply removelast_app. }
  assert (Hinit : (removelast (x :: extra) ++ [List.last (x :: extra) ""])%list = x :: extra) by (symmetry; by apply app_removelast_last).
  destruct (location_of st p (removelast (elements p))) as [dir|] eqn:Ed; [|done].
  destruct (last (elements p)) as [name|]; [|done]. intros [= <-].
  eapply (absolute_location st p) in Ed as [more ->]; [|done|exact Ha|exists [List.last (x :: extra) ""]|].
  - destruct more as [|y more]; [exists name, []; by rewrite app_nil_r|]. exists y, (more ++ [name])%list.
    by rewrite <- (assoc_L (++)%list).
  - rewrite Hdir, He. change ((("" :: D) ++ ?r)%list) with ("" :: (D ++ r)%list).
    exact (eq_sym (f_equal (fun r => "" :: r) (eq_trans (eq_sym (assoc_L (++)%list _ _ _)) (f_equal (app D) Hinit)))).
  - rewrite Hdir. change ((("" :: D) ++ ?r)%list) with (("" :: D ++ r)%list). rewrite names_skip by auto. rewrite names_good.
    + by exists (removelast (x :: extra)).
    + destruct Ha as [_ Hg]. rewrite <- Hinit, (assoc_L (++)%list) in Hg. by apply Forall_app in Hg as [Hg _].
Qed.
Lemma dir_locations_inside st p l :
  links_stay D (fs_links st) -> absolute p l -> D `prefix_of` l \/ l `prefix_of` D ->
  Forall (fun loc => inside (MkdirAll p, loc)) (dir_locations st p).
Proof.
  intros Hl Ha HD. apply Forall_forall. intros loc Hloc. apply list_elem_of_omap in Hloc as (n & _ & Hloc).
  set (es := take n (elements p)) in *. assert (Hes : es `prefix_of` elements p) by (exists (drop n (elements p)); unfold es; by rewrite take_drop).
  assert (Hn : names es `prefix_of` l).
  { destruct Hes as [rest He]. rewrite <- (names_absolute p l Ha), He, names_app. by apply prefix_app_r. }
  destruct (decide (D `prefix_of` names es)) as [Hin|Hout]; [left; by eapply absolute_location|].
  right. split; [by exists p|]. assert (Habove : names es `prefix_of` D).
  { destruct HD as [HD|HD]; [|by etrans]. destruct (prefix_weak_total _ _ _ HD Hn) as [?|?]; done. }
  unfold location_of in Hloc. rewrite (absolute_rooted p l Ha) in Hloc.
  rewrite (follow_above D) in Hloc; [injection Hloc as <-; exact Habove|done| |exact Habove].
  assert (all_plain (elements p)) as Hp.
  { rewrite (absolute_elements p l Ha). constructor; [done|]. case_bool_decide; [by repeat constructor|]. apply good_plain, Ha. }
  destruct Hes as [rest He]. rewrite He in Hp. by apply Forall_app in Hp as [Hp _].
Qed.

Lemma do_op_inside op : op_inside op -> preserves keeps_inside (do_op fs op).
Proof.
  intros Hop st Hl. unfold do_op. destruct (locations st op) as [locs|] eqn:El.
  2: { split; [done|]. exists []. by rewrite app_nil_r. }
  cbn [snd fs_links fs_touched]. destruct Hop as [p l Ha HD|p|target p x extra Ha Ht|p extra Ha|p extra Ha]; cbn [locations mbind option_bind] in El.
  - destruct (location st p); [|done]. injection El as <-. split; [by destruct (fs _ _)|]. eexists. split; [reflexivity|].
    apply Forall_fmap. by apply (dir_locations_inside st p l).
  - destruct (location st p); [|done]. injection El as <-. split; [by destruct (fs _ _)|]. exists []. by split; [|constructor].
  - destruct (link_location st p) as [loc|] eqn:Eloc; [|done]. injection El as <-.
    apply (link_location_inside st p x extra) in Eloc as (y & more & ->); [|done..]. split.
    + destruct (fs _ _); [done|]. intros key t. cbn. destruct (decide (key = (D ++ y :: more)%list)) as [->|Hne].
      * rewrite lookup_insert_eq. intros [= <-]. split; [|done]. intros [k Hk]. apply (f_equal length) in Hk.
        rewrite !length_app in Hk. cbn in Hk. lia.
      * rewrite lookup_insert_ne by done. apply Hl.
    + eexists. split; [reflexivity|]. constructor; [|done]. left. by exists (y :: more).
  - destruct (location st p) as [loc|] eqn:Eloc; [|done]. injection El as <-. split; [by destruct (fs _ _)|].
    eexists. split; [reflexivity|]. constructor; [|done]. left. by eapply file_location.
  - destruct (location st p) as [loc|] eqn:Eloc; [|done]. injection El as <-. split; [by destruct (fs _ _)|].
    eexists. split; [reflexivity|]. constructor; [|done]. left. by eapply file_location.
Qed.
Lemma and_then_inside a b : preserves keeps_inside a -> preserves keeps_inside b -> preserves keeps_inside (and_then a b).
Proof.
  intros Ha Hb. apply M_preserves_bind; [typeclasses eauto|done|]. intros [e|]; [|done].
  apply M_preserves_ret. typeclasses eauto.
Qed.

(** The name of an entry has no .. after the prefix; a symbolic link is not the destination
    itself and its target does not lead out of it. *)
Definition entry_stays (prefix : string) (e : tar_entry) : Prop :=
  let rest := elements (drop_str (String.length prefix) (entry_Name e)) in
  all_plain rest /\
  match entry_Kind e with SymbolicLink target => names rest <> [] /\ target_stays D target | _ => True end.

Lemma untar_entry_inside destDir prefix e :
  HasPrefix destDir "/" = true -> clean_names destDir = D -> entry_stays prefix e ->
  preserves keeps_inside (untar_entry fs destDir prefix e).
Proof.
  intros Hroot HD [Hrest Hkind]. unfold untar_entry.
  destruct (HasPrefix (entry_Name e) prefix); cbn [negb]; [|apply M_preserves_ret; typeclasses eauto].
  pose proof (Join2_absolute destDir _ Hroot Hrest) as Ha. rewrite HD in Ha. cbv zeta. cbn in Hkind.
  set (p := Join2 destDir _) in *. set (extra := names _) in *.
  pose proof (Dir_absolute p _ Ha) as Hdir.
  assert (Hbase : op_inside (MkdirAll (Dir p))).
  { eapply mkdir_inside; [exact Hdir|]. destruct extra as [|x extra].
    - right. rewrite app_nil_r. destruct D as [|z d] eqn:E; [by exists []|]. exists [List.last (z :: d) ""].
      by apply app_removelast_last.
    - left. rewrite removelast_app by done. by eexists. }
  apply and_then_inside; [by apply do_op_inside|]. destruct (entry_Kind e) as [|target|].
  - apply do_op_inside. eapply mkdir_inside; [exact Ha|]. left. by exists extra.
  - destruct Hkind as [Hne Ht]. apply and_then_inside; apply do_op_inside; [constructor|].
    destruct extra as [|x extra]; [done|]. by eapply symlink_inside.
  - apply and_then_inside; [apply do_op_inside; constructor|].
    apply and_then_inside; apply do_op_inside; econstructor; exact Ha.
Qed.
End UntarTheorems.

(** C40: into a destination given by an absolute path, on the way to which there are no
    symbolic links, and in which they do not lead out of it, an archive whose names have no ..
    after the prefix, and whose symbolic links lie below the destination and point, without ..,
    to where they are or into the destination, is unpacked only in the destination: files,
    links and directories are made there, and directories on the way to it, wherever an error
    ends the unpacking. Every operation is followed to where its path leads through the links
    made so far. *)
Theorem unTarAll_stays fs destDir prefix entries last st :
  let D := clean_names destDir in
  HasPrefix destDir "/" = true -> links_stay D (fs_links st) -> Forall (entry_stays D prefix) entries ->
  let st' := (unTarAll fs destDir prefix entries last st).2 in
  links_stay D (fs_links st') /\
  exists new, fs_touched st' = (fs_touched st ++ new)%list /\ Forall (inside D) new.
Proof.
  intros D Hroot Hl Hes. assert (Hp : preserves (keeps_inside D) (unTarAll fs destDir prefix entries last)).
  { induction Hes as [|e entries He _ IH]; cbn; [apply M_preserves_ret; typeclasses eauto|].
    apply and_then_inside; [by apply untar_entry_inside|exact IH]. }
  exact (Hp st Hl).
Qed.

(** A file system where everything works. *)
Definition no_errors : list fs_op -> fs_op -> option error := fun _ _ => None.

(** Nothing has been done and there are no links. *)
Definition new_fs : fs_state := FsState [] ∅ ["agent"] [].

(** Nothing checks for .. in the names: an entry can write anywhere. *)
Example unTarAll_escapes :
  let r := unTarAll no_errors "/tmp/svc-jar/app" "app" [TarEntry "app/../../../etc/cron.d/job" RegularFile] None new_fs in
  r.1 = Done None /\ (CreateFile "/etc/cron.d/job", ["etc"; "cron.d"; "job"]) ∈ fs_touched r.2.
Proof. split; [by vm_compute|]. apply (bool_decide_unpack _). by vm_compute. Qed.
(** And nothing checks where links lead: what [EvalSymlinks] answers is not used. *)
Example unTarAll_follows_links :
  let r := unTarAll no_errors "/tmp/svc-jar/app" "app"
             [TarEntry "app/l" (SymbolicLink "/etc"); TarEntry "app/l/passwd" RegularFile] None new_fs in
  r.1 = Done None /\ (CreateFile "/tmp/svc-jar/app/l/passwd", ["etc"; "passwd"]) ∈ fs_touched r.2.
Proof. split; [by vm_compute|]. apply (bool_decide_unpack _). by vm_compute. Qed.

(** *** The prefix: the fuel suffices to strip every leading ../ *)

Lemma strip_loop_no_dots fuel s : String.length s <= fuel -> HasPrefix (strip_loop fuel s) "../" = false.
Proof.
  revert s. induction fuel as [|fuel IH]; intros s Hlen; cbn; [by destruct s; [|cbn in Hlen; lia]|].
  case_bool_decide as He.
  - destruct (HasPrefix s "../") eqn:Hp; [|done]. exfalso. apply HasPrefix_spec in Hp as [t ->].
    rewrite TrimPrefix_app in He. apply (f_equal String.length) in He. rewrite str_length_app in He. cbn in He. lia.
  - apply IH. destruct (HasPrefix s "../") eqn:Hp.
    + apply HasPrefix_spec in Hp as [t ->]. rewrite TrimPrefix_app. rewrite str_length_app in Hlen. cbn in Hlen. lia.
    + unfold TrimPrefix in He. rewrite Hp in He. by destruct He.
Qed.

(** ** Witnesses *)


Lemma unTarAll_stays_witness :
  let D := clean_names "/tmp/svc-jar/app" in
  let st' := (unTarAll no_errors "/tmp/svc-jar/app" "app"
    [TarEntry "app/lib" Directory; TarEntry "app/l" (SymbolicLink "lib"); TarEntry "app/l/x.jar" RegularFile] None new_fs).2 in
  links_stay D (fs_links st') /\
  exists new, fs_touched st' = (fs_touched new_fs ++ new)%list /\ Forall (inside D) new.
Proof.
  apply unTarAll_stays; [done|by intros key target [=]|].
  repeat constructor; vm_compute; repeat constructor; by intros [=].
Defined.
