(* ===== verification/CopyFromPod.v ===== *)
(** * [agent/core/watcher.go]: the copy of a pod's directory, [copyFromPod]

    The command [tar] is run in the pod by one goroutine, which writes its output into a pipe;
    another one, the caller, reads the pipe and unpacks it. They share the pipe, the variable
    [err] and a [WaitGroup]. Every statement at which they meet is one step. *)

From stdpp Require Import base tactics option list gmap strings relations.
From S2P Require Import Prelude GoStrings Untar.

Local Open Scope string_scope.

(** The request for an exec in a pod, with its standard streams attached. *)
Record exec_request := ExecRequest { er_Namespace : string; er_Pod : string; er_Command : list string }.

(** What [tar] writes, in the portions the reader takes it in: an entry, a part of a header
    that another portion would complete, bytes that are not a header, the blocks of zeros that
    end an archive (which other bytes may follow). *)
Inductive piece := Entry (e : tar_entry) | Part | Bad (err : error) | Trailer.

(** A run of the command: what it writes, what reading an archive meets where the output stops
    short of its trailer ([None] for the end of the file), and the error [Stream] returns
    when all is written. *)
Record exec_run := ExecRun { run_pieces : list piece; run_cut : option error; run_err : option error }.
(** A pipe closed without a byte written is at the end of the file. *)
Definition at_close (run : exec_run) : option error := match run_pieces run with [] => None | _ => run_cut run end.

(** The statement the caller is at. *)
Inductive main_pc := Waiting | Testing | Reading | Ended (o : outcome (option error)).
(** The statement the goroutine is at: [wait.Done], the rest of what [Stream] has to write,
    [outStream.Close], its end; or it was never started. *)
Inductive stream_pc := Starting | Streaming (rest : list piece) | Closing | Closed | Unstarted.

Record copy_state := CopyState {
  pc_main : main_pc;
  pc_stream : stream_pc;
  var_err : option error;
  wait : nat;
  files : fs_state;
}.

Section CopyFromPod.
Variable fs : list fs_op -> fs_op -> option error.
(** [remotecommand.NewSPDYExecutor] and the [Stream] of its executor. *)
Variable NewSPDYExecutor : exec_request -> option error.
Variable Stream : exec_request -> exec_run.
Variables ProjectNs podName srcPath destPath : string.

Definition exec_of : exec_request := ExecRequest ProjectNs podName ["tar"; "cf"; "-"; srcPath].
Definition tar_run : exec_run := Stream exec_of.
Definition prefix_of_copy : string := stripPathShortcuts (Clean (getPrefix srcPath)).

(** [copyFromPod] up to [wait.Wait]. *)
Definition copyFromPod (st : fs_state) : copy_state :=
  match NewSPDYExecutor exec_of with
  | Some err => CopyState (Ended (Done (Some err))) Unstarted (Some err) 0 st
  | None => CopyState Waiting Starting None 1 st
  end.

(** The goroutine: [wait.Done] comes before [Stream]. Writing is left to the reader, since the
    pipe has no buffer. *)
Definition stream_step (st : copy_state) : option copy_state :=
  match pc_stream st with
  | Starting => Some (CopyState (pc_main st) (Streaming (run_pieces tar_run)) (var_err st) (wait st - 1) (files st))
  | Streaming [] => Some (CopyState (pc_main st) Closing (run_err tar_run) (wait st) (files st))
  | Closing => Some (CopyState (pc_main st) Closed (var_err st) (wait st) (files st))
  | Streaming (_ :: _) | Closed | Unstarted => None
  end.

(** The caller: [wait.Wait], the test of [err], and [unTarAll], one entry at a time. *)
Definition main_step (st : copy_state) : option copy_state :=
  let go main stream files := Some (CopyState main stream (var_err st) (wait st) files) in
  match pc_main st with
  | Waiting => if bool_decide (wait st = 0) then go Testing (pc_stream st) (files st) else None
  | Testing =>
      match var_err st with
      | Some err => go (Ended (Done (Some err))) (pc_stream st) (files st)
      | None => go Reading (pc_stream st) (files st)
      end
  | Reading =>
      match pc_stream st with
      | Streaming (Entry e :: rest) =>
          match untar_entry fs destPath prefix_of_copy e (files st) with
          | (Done None, files') => go Reading (Streaming rest) files'
          | (o, files') => go (Ended o) (Streaming rest) files'
          end
      | Streaming (Part :: rest) => go Reading (Streaming rest) (files st)
      | Streaming (Bad err :: rest) => go (Ended (Done (Some err))) (Streaming rest) (files st)
      | Streaming (Trailer :: rest) => go (Ended (Done None)) (Streaming rest) (files st)
      | Closed => go (Ended (Done (at_close tar_run))) (pc_stream st) (files st)
      | Starting | Streaming [] | Closing | Unstarted => None
      end
  | Ended _ => None
  end.

Definition copy_step (st st' : copy_state) : Prop := main_step st = Some st' \/ stream_step st = Some st'.

(** The schedule of [turns]: [true] where the caller moves, [false] where the goroutine does. *)
Fixpoint drive (turns : list bool) (st : copy_state) : option copy_state :=
  match turns with
  | [] => Some st
  | t :: turns' => st' ← (if t then main_step st else stream_step st); drive turns' st'
  end.
Lemma drive_steps turns : forall st st', drive turns st = Some st' -> rtc copy_step st st'.
Proof.
  induction turns as [|t turns IH]; cbn [drive]; intros st st' H; [by simplify_eq|].
  apply bind_Some in H as (st1 & H1 & H). eapply rtc_l; [|by apply IH]. destruct t; [by left|by right].
Qed.

(** ** Every schedule ends *)

Definition left (st : copy_state) : nat :=
  match pc_main st with Waiting => 3 | Testing => 2 | Reading => 1 | Ended _ => 0 end +
  match pc_stream st with Starting => 3 + length (run_pieces tar_run) | Streaming rest => 2 + length rest
                        | Closing => 1 | Closed | Unstarted => 0 end.

Lemma copy_step_left st st' : copy_step st st' -> left st' < left st.
Proof.
  destruct st as [m s e w f]. unfold copy_step, main_step, stream_step, left. cbn.
  intros [H|H]; [destruct m|]; repeat case_match; simplify_eq/=; lia.
Qed.
Lemma copy_steps_left n st st' : nsteps copy_step n st st' -> n + left st' <= left st.
Proof. induction 1 as [|n a b c Hab _ IH]; [done|]. pose proof (copy_step_left _ _ Hab). lia. Qed.

(** ** The unpacking, whoever is first *)

(** The entries the reader meets, and what it meets after them. *)
Fixpoint archive (ps : list piece) (cut : option error) : list tar_entry * option error :=
  match ps with
  | [] => ([], cut)
  | Entry e :: rest => (e :: (archive rest cut).1, (archive rest cut).2)
  | Part :: rest => archive rest cut
  | Bad err :: _ => ([], Some err)
  | Trailer :: _ => ([], None)
  end.
Definition unpacked (ps : list piece) (st : fs_state) : outcome (option error) * fs_state :=
  let a := archive ps (at_close tar_run) in unTarAll fs destPath prefix_of_copy a.1 a.2 st.

Definition remaining (st : copy_state) : list piece :=
  match pc_stream st with Starting => run_pieces tar_run | Streaming rest => rest | _ => [] end.

Definition stream_inv (st : copy_state) : Prop :=
  match pc_stream st with
  | Starting => wait st = 1 /\ var_err st = None
  | Streaming _ => wait st = 0 /\ var_err st = None
  | Closing | Closed => wait st = 0 /\ var_err st = run_err tar_run
  | Unstarted => False
  end.
Definition main_inv (st0 : fs_state) (st : copy_state) : Prop :=
  match pc_main st with
  | Waiting => remaining st = run_pieces tar_run /\ files st = st0
  | Testing => pc_stream st <> Starting /\ remaining st = run_pieces tar_run /\ files st = st0
  | Reading => pc_stream st <> Starting /\ unpacked (remaining st) (files st) = unpacked (run_pieces tar_run) st0
  | Ended o => (o, files st) = unpacked (run_pieces tar_run) st0 \/
      run_pieces tar_run = [] /\ files st = st0 /\ o = Done (run_err tar_run)
  end.
Definition copy_inv (st0 : fs_state) (st : copy_state) : Prop := stream_inv st /\ main_inv st0 st.

Lemma stream_step_inv st0 st st' : copy_inv st0 st -> stream_step st = Some st' -> copy_inv st0 st'.
Proof.
  destruct st as [m s e w f]. unfold copy_inv, stream_inv, main_inv, stream_step, remaining. cbn.
  intros [Hs Hm] H. destruct s as [|[|p rest]| | |]; simplify_eq/=.
  - destruct Hs as [-> ->]. split; [done|]. destruct m; [done| | |done]; by destruct Hm.
  - destruct Hs as [-> ->]. split; [done|]. destruct m; [done| | |done]; by destruct Hm.
  - destruct Hs as [-> ->]. split; [done|]. destruct m; [done| | |done]; by destruct Hm.
Qed.
Lemma main_step_inv st0 st st' : copy_inv st0 st -> main_step st = Some st' -> copy_inv st0 st'.
Proof.
  destruct st as [m s e w f]. unfold copy_inv, stream_inv, main_inv, main_step, remaining. cbn.
  intros [Hs Hm] H. destruct m as [| | |o]; [| | |done].
  - case_bool_decide as E; [|done]. simplify_eq/=. split; [done|]. split; [|done]. intros ->. by destruct Hs.
  - destruct Hm as (Hne & Hr & ->). destruct e as [err|]; simplify_eq/=; (split; [done|]).
    + right. destruct s as [| | | |]; [done| | | |done]; destruct Hs as [_ E]; [done|..]; by rewrite <- E, <- Hr.
    + split; [done|]. by rewrite Hr.
  - destruct Hm as [Hne Hm]. destruct s as [|[|p rest]| | |]; [done|done| |done| |done].
    + unfold unpacked in *. destruct p as [e'| |err|]; cbn [archive unTarAll fst snd] in Hm; simplify_eq/=.
      * unfold and_then in Hm. rewrite M_bind_run in Hm.
        destruct (untar_entry _ _ _ e' f) as [[[err|]|msg|] f'] eqn:E; simplify_eq/=; (split; [done|]); by auto.
      * by split.
      * split; [done|]. by left.
      * split; [done|]. by left.
    + simplify_eq/=. split; [done|]. by left.
Qed.

Lemma copyFromPod_inv st0 st :
  NewSPDYExecutor exec_of = None -> rtc copy_step (copyFromPod st0) st -> copy_inv st0 st.
Proof.
  intros Hn Hr. remember (copyFromPod st0) as a eqn:Ha.
  assert (H0 : copy_inv st0 a) by (subst a; unfold copyFromPod; by rewrite Hn). clear Ha.
  induction Hr as [|a b c [Hab|Hab] _ IH]; [done|apply IH; by eapply main_step_inv|apply IH; by eapply stream_step_inv].
Qed.

(** A state in which nobody can move: the caller has returned. *)
Lemma stuck_ended st0 st : copy_inv st0 st -> main_step st = None -> stream_step st = None -> exists o, pc_main st = Ended o.
Proof.
  destruct st as [m s e w f]. unfold copy_inv, stream_inv, main_step, stream_step. cbn.
  intros [Hs _] Hm Hst. destruct m as [| | |o]; [| | |by eauto].
  - destruct s; try done; destruct Hs as [-> _]; done.
  - by destruct e.
  - destruct s as [|[|p rest]| | |]; try done. by destruct p; [destruct (untar_entry _ _ _ _ _) as [[[?|]|?|] ?]|..].
Qed.

(** A run that writes nothing. *)
Lemma silent_unpacked st0 : run_pieces tar_run = [] -> unpacked (run_pieces tar_run) st0 = (Done None, st0).
Proof. intros Hs. unfold unpacked, at_close. by rewrite Hs. Qed.
Lemma silent_run st0 r :
  NewSPDYExecutor exec_of = None -> run_pieces tar_run = [] -> r = run_err tar_run \/ r = None ->
  exists st, rtc copy_step (copyFromPod st0) st /\ pc_main st = Ended (Done r).
Proof.
  intros Hn Hs Hr. assert (Hread : exists st, rtc copy_step (copyFromPod st0) st /\ pc_main st = Ended (Done None)).
  { unfold copyFromPod. rewrite Hn. eexists. split.
    - eapply rtc_l; [by right|]. rewrite Hs. eapply rtc_l; [by left|]. eapply rtc_l; [by left|].
      eapply rtc_l; [by right|]. eapply rtc_l; [by right|]. eapply rtc_l; [by left|]. reflexivity.
    - cbn. unfold at_close. by rewrite Hs. }
  destruct r as [err|]; [|exact Hread]. destruct Hr as [Hr|?]; [|done]. unfold copyFromPod. rewrite Hn. eexists. split.
  - eapply rtc_l; [by right|]. rewrite Hs. eapply rtc_l; [by right|]. eapply rtc_l; [by left|].
    rewrite <- Hr. eapply rtc_l; [by left|]. reflexivity.
  - done.
Qed.

(** Once the caller has returned, the goroutine does not get rid of what is left to write. *)
Lemma copyFromPod_leaks st o p rest :
  pc_main st = Ended o -> pc_stream st = Streaming (p :: rest) -> forall st', ~ copy_step st st'.
Proof. intros Hm Hs st' [H|H]; [unfold main_step in H|unfold stream_step in H]; by rewrite ?Hm, ?Hs in H. Qed.

(** C33: every schedule of [copyFromPod] comes to its end, with the caller's return. What
    [tar] has written is unpacked in the same way under every schedule, and the error of
    [Stream] is never seen: neither the result nor the files depend on it. If [tar] writes
    nothing nothing is unpacked, and the result is the error of [Stream] or, where [err] is
    tested before it is set, nil: which of them, the schedule decides. *)
Theorem copyFromPod_error_lost st0 :
  NewSPDYExecutor exec_of = None ->
  (forall n st, nsteps copy_step n (copyFromPod st0) st -> n <= 6 + length (run_pieces tar_run)) /\
  (forall st, rtc copy_step (copyFromPod st0) st -> (forall st', ~ copy_step st st') -> exists o, pc_main st = Ended o) /\
  (forall st o, rtc copy_step (copyFromPod st0) st -> pc_main st = Ended o -> run_pieces tar_run <> [] ->
     (o, files st) = unpacked (run_pieces tar_run) st0) /\
  (run_pieces tar_run = [] ->
     (forall st o, rtc copy_step (copyFromPod st0) st -> pc_main st = Ended o ->
        files st = st0 /\ (o = Done (run_err tar_run) \/ o = Done None)) /\
     forall r, r = run_err tar_run \/ r = None ->
       exists st, rtc copy_step (copyFromPod st0) st /\ pc_main st = Ended (Done r)).
Proof.
  intros Hn. split_and!.
  - intros n st Hs%copy_steps_left. unfold copyFromPod in Hs. rewrite Hn in Hs. unfold left at 2 in Hs. cbn in Hs. lia.
  - intros st Hr Hstuck. apply (stuck_ended st0); [by apply copyFromPod_inv|..].
    + destruct (main_step st) as [st'|] eqn:E; [|done]. destruct (Hstuck st'). by left.
    + destruct (stream_step st) as [st'|] eqn:E; [|done]. destruct (Hstuck st'). by right.
  - intros st o Hr Hm Hne. pose proof (copyFromPod_inv st0 st Hn Hr) as [_ Hi]. unfold main_inv in Hi. rewrite Hm in Hi. naive_solver.
  - intros Hs. split; [|by intros r; apply silent_run]. intros st o Hr Hm.
    pose proof (copyFromPod_inv st0 st Hn Hr) as [_ Hi]. unfold main_inv in Hi. rewrite Hm, silent_unpacked in Hi by done. naive_solver.
Qed.
End CopyFromPod.

(** ** Examples and witnesses *)

(** Archives end with more blocks of zeros than a reader takes: the goroutine waits for ever,
    and the pipe is never closed. *)
Definition padded (req : exec_request) : exec_run := ExecRun [Entry (TarEntry "app/x.jar" RegularFile); Trailer; Part] None None.
Example padded_leaks :
  let step := copy_step no_errors padded "project" "pod-1" "app" "/tmp/svc-jar/app" in
  let st0 := copyFromPod (fun _ => None) "project" "pod-1" "app" new_fs in
  exists st, rtc step st0 st /\ pc_main st = Ended (Done None) /\ pc_stream st = Streaming [Part] /\ forall st', ~ step st st'.
Proof.
  intros step st0.
  assert (Hd : (fun st => (pc_main st, pc_stream st)) <$>
                 drive no_errors padded "project" "pod-1" "app" "/tmp/svc-jar/app" [false; true; true; true; true] st0
               = Some (Ended (Done None), Streaming [Part])) by (vm_compute; reflexivity).
  apply fmap_Some in Hd as (st & Hd & [= Hm Hs]).
  exists st. split_and!; [by eapply drive_steps|done|done|by eapply copyFromPod_leaks].
Qed.

(** A command that fails without output. *)
Definition failing (req : exec_request) : exec_run := ExecRun [] None (Some "command terminated with exit code 2").
Lemma copyFromPod_error_lost_witness :
  let step Stream := copy_step no_errors Stream "project" "pod-1" "app" "/tmp/svc-jar/app" in
  let st0 := copyFromPod (fun _ => None) "project" "pod-1" "app" new_fs in
  (forall n st, nsteps (step padded) n st0 st -> n <= 9) /\
  (exists st, rtc (step failing) st0 st /\ pc_main st = Ended (Done (Some "command terminated with exit code 2"))) /\
  exists st, rtc (step failing) st0 st /\ pc_main st = Ended (Done None).
Proof.
  cbv zeta. split.
  - exact (proj1 (copyFromPod_error_lost no_errors (fun _ => None) padded "project" "pod-1" "app" "/tmp/svc-jar/app" new_fs eq_refl)).
  - destruct (copyFromPod_error_lost no_errors (fun _ => None) failing "project" "pod-1" "app" "/tmp/svc-jar/app" new_fs eq_refl)
      as (_ & _ & _ & H). destruct (H eq_refl) as [_ Hr]. split; apply Hr; auto.
Defined.
