(* ===== verification/Multipart.v ===== *)
(** * [agent/pkg/httpclient/request.go]: [MultipartFormDataBody]

    The body of an upload is written by a goroutine into a pipe while the client reads it
    from the other end. *)

From Stdlib Require Import Ascii.
From stdpp Require Import base tactics option list gmap strings.
From S2P Require Import Prelude GoStrings NetHttp Untar Retry HttpClient.

Local Open Scope string_scope.

(** ** Parts, as [mime/multipart] writes them *)

Definition crlf : string := String "013"%char (String "010"%char "").
Definition quote : string := String "034"%char "".

(** The backslash and the quote are escaped. *)
Fixpoint escapeQuotes (s : string) : string :=
  match s with
  | EmptyString => EmptyString
  | String c s' =>
      if bool_decide (c = "092"%char) || bool_decide (c = "034"%char) then String "092"%char (String c (escapeQuotes s'))
      else String c (escapeQuotes s')
  end.

(** What [CreateFormFile] writes before the content of the file. *)
Definition form_file (boundary : string) (first : bool) (fieldname filename : string) : string :=
  (if first then "--" else crlf +:+ "--") +:+ boundary +:+ crlf +:+
  "Content-Disposition: form-data; name=" +:+ quote +:+ escapeQuotes fieldname +:+ quote +:+
  "; filename=" +:+ quote +:+ escapeQuotes filename +:+ quote +:+ crlf +:+
  "Content-Type: application/octet-stream" +:+ crlf +:+ crlf.
(** What closing the writer writes. *)
Definition closing (boundary : string) : string := crlf +:+ "--" +:+ boundary +:+ "--" +:+ crlf.
Definition FormDataContentType (boundary : string) : string := "multipart/form-data; boundary=" +:+ boundary.

(** ** The goroutine *)

(** A reader that is an [*os.File] has a name. *)
Inductive item_reader := OsFile (name : string) (content : reader) | OtherReader (content : reader).
Definition item_content (r : item_reader) : reader := match r with OsFile _ c | OtherReader c => c end.
Record MultipartItem := MkItem { Reader_ : item_reader; Filename : string }.

(** [filepath.Base]: the last element of a path. *)
Definition Base (p : string) : string :=
  match rev (filter (fun e => e <> "") (elements p)) with
  | e :: _ => e
  | [] => if bool_decide (p = "") then "." else "/"
  end.

Definition item_filename (item : MultipartItem) : string :=
  match Reader_ item with
  | OsFile name _ => if bool_decide (Filename item = "") then Base name else Filename item
  | OtherReader _ => Filename item
  end.

Section Body.
(** The other end of the pipe: what writing some text, after other text, ends in. *)
Variable pipe_Write : string -> string -> option error.
Variable boundary : string.

(** What went through the pipe, whether the writer's end is closed, [r.err], and the fields
    whose reader is closed. *)
Record stream := MkStream {
  st_written : string;
  st_closed : bool;
  st_err : option error;
  st_readers_closed : list string;
}.

(** A write of all the text or none of it. *)
Definition write (text : string) : M stream (option error) := fun s =>
  match pipe_Write (st_written s) text with
  | None => (Done None, MkStream (st_written s +:+ text) (st_closed s) (st_err s) (st_readers_closed s))
  | Some err => (Done (Some err), s)
  end.
Definition set_err (err : error) : M stream unit :=
  modify (fun s => MkStream (st_written s) (st_closed s) (Some err) (st_readers_closed s)).

(** [io.Copy] into the part: what could be read is written, then the error is met. *)
Definition copy_into_part (r : reader) : M stream (option error) :=
  err ← write (rd_data r);
  match err with Some err => mret (Some err) | None => mret (rd_err r) end.

(** The loop over the fields, in the order of [entries]; [true] when it came to its end. *)
Fixpoint fields_loop (first : bool) (entries : list (string * MultipartItem)) : M stream bool :=
  match entries with
  | [] => mret true
  | (field, item) :: entries' =>
      err ← write (form_file boundary first field (item_filename item));
      match err with
      | Some err => _ ← set_err err; mret false
      | None =>
          err ← copy_into_part (item_content (Reader_ item));
          match err with
          | Some err => _ ← set_err err; mret false
          | None => fields_loop false entries'
          end
      end
  end.

(** The function literal of the go statement; the deferred loop closes all readers. *)
Definition multipart_goroutine (entries : list (string * MultipartItem)) : M stream unit :=
  done ← fields_loop true entries;
  _ ← (if done : bool then
         _ ← write (closing boundary);
         modify (fun s => MkStream (st_written s) true (st_err s) (st_readers_closed s))
       else mret tt);
  modify (fun s => MkStream (st_written s) (st_closed s) (st_err s) (st_readers_closed s ++ map fst entries)).

(** The body of the request while the goroutine runs: its text, and whether it ever ends. *)
Inductive pipe_body := Ends (text : string) | Hangs (text : string).
Definition body_of (s : stream) : pipe_body := if st_closed s then Ends (st_written s) else Hangs (st_written s).

Definition MultipartFormDataBody (entries : list (string * MultipartItem)) (r : Request) : Request * pipe_body :=
  let s := (multipart_goroutine entries (MkStream "" false (rq_err r) [])).2 in
  (Header "Content-Type" (FormDataContentType boundary) r, body_of s).

(** ** Theorems *)

(** The text of all parts. *)
Fixpoint parts (first : bool) (entries : list (string * MultipartItem)) : string :=
  match entries with
  | [] => ""
  | (field, item) :: entries' =>
      form_file boundary first field (item_filename item) +:+ rd_data (item_content (Reader_ item)) +:+
      parts false entries'
  end.
Definition readable (fi : string * MultipartItem) : Prop := rd_err (item_content (Reader_ fi.2)) = None.

Lemma fields_loop_ok first entries s :
  (forall t u, pipe_Write t u = None) -> Forall readable entries ->
  fields_loop first entries s =
    (Done true, MkStream (st_written s +:+ parts first entries) (st_closed s) (st_err s) (st_readers_closed s)).
Proof.
  intros Hp. revert first s. induction entries as [|[field item] entries IH]; intros first s Hok.
  - cbn. rewrite str_app_nil_r. by destruct s.
  - apply Forall_cons in Hok as [Hr Hok]. unfold readable in Hr. cbn in Hr. cbn [fields_loop parts].
    rewrite M_bind_run. unfold write at 1. rewrite Hp, M_bind_run. unfold copy_into_part. rewrite M_bind_run.
    unfold write at 1. rewrite Hp, Hr. cbn [mret M_ret]. rewrite IH by done. cbn.
    by rewrite !str_app_assoc.
Qed.

(** A field that cannot be read stops the goroutine, after the parts before it. *)
Lemma fields_loop_error first before field item after err s :
  (forall t u, pipe_Write t u = None) -> Forall readable before -> rd_err (item_content (Reader_ item)) = Some err ->
  fields_loop first (before ++ (field, item) :: after)%list s =
    (Done false, MkStream (st_written s +:+ parts first (before ++ [(field, item)])%list) (st_closed s) (Some err)
                   (st_readers_closed s)).
Proof.
  intros Hp Hok He. revert first s. induction Hok as [|[f i] before Hr Hok IH]; intros first s.
  - cbn [app fields_loop parts]. rewrite M_bind_run. unfold write at 1. rewrite Hp, M_bind_run.
    unfold copy_into_part. rewrite M_bind_run. unfold write at 1. rewrite Hp, He. cbn.
    by rewrite !str_app_assoc, str_app_nil_r.
  - unfold readable in Hr. cbn in Hr. cbn [app fields_loop parts].
    rewrite M_bind_run. unfold write at 1. rewrite Hp, M_bind_run. unfold copy_into_part. rewrite M_bind_run.
    unfold write at 1. rewrite Hp, Hr. cbn [mret M_ret]. rewrite IH. cbn. by rewrite !str_app_assoc.
Qed.

Lemma fields_loop_run first entries s :
  exists b w e, fields_loop first entries s = (Done b, MkStream w (st_closed s) e (st_readers_closed s)).
Proof.
  revert first s. induction entries as [|[field item] entries IH]; intros first s; cbn [fields_loop].
  - exists true, (st_written s), (st_err s). by destruct s.
  - rewrite M_bind_run. unfold write at 1. destruct (pipe_Write _ _) as [err|].
    { do 3 eexists. reflexivity. }
    rewrite M_bind_run. unfold copy_into_part. rewrite M_bind_run. unfold write at 1. cbn [st_written st_closed st_err st_readers_closed].
    destruct (pipe_Write _ _) as [err|]; [do 3 eexists; reflexivity|].
    destruct (rd_err _) as [err|]; cbn [mret M_ret]; [do 3 eexists; reflexivity|].
    match goal with |- context [fields_loop false entries ?t] => destruct (IH false t) as (b & w & e & ->) end.
    by do 3 eexists.
Qed.

(** C32: when the client reads to the end and all fields can be read, the body of an upload is
    exactly the parts, in the order of the loop, and the closing line, and it ends; all
    readers are closed and no error is left. When a field cannot be read, the goroutine
    stops after what could be read of it, closes all readers and records the error, but
    leaves the pipe open: a client that reads the body waits for ever. *)
Theorem multipart_body entries s :
  (forall t u, pipe_Write t u = None) -> st_closed s = false ->
  let s' := (multipart_goroutine entries s).2 in
  st_readers_closed s' = (st_readers_closed s ++ map fst entries)%list /\
  (Forall readable entries ->
     body_of s' = Ends (st_written s +:+ parts true entries +:+ closing boundary) /\ st_err s' = st_err s) /\
  (forall before field item after err,
     entries = (before ++ (field, item) :: after)%list -> Forall readable before ->
     rd_err (item_content (Reader_ item)) = Some err ->
     body_of s' = Hangs (st_written s +:+ parts true (before ++ [(field, item)])%list) /\ st_err s' = Some err).
Proof.
  intros Hp Hopen. cbn zeta. unfold multipart_goroutine. rewrite M_bind_run. split_and!.
  - destruct (fields_loop_run true entries s) as (b & w & e & ->). rewrite M_bind_run. destruct b; [|done].
    rewrite M_bind_run. unfold write. by destruct (pipe_Write _ _).
  - intros Hok. rewrite (fields_loop_ok true entries s Hp Hok), M_bind_run, M_bind_run. unfold write. rewrite Hp.
    unfold body_of. cbn. by rewrite str_app_assoc.
  - intros before field item after err -> Hok He.
    rewrite (fields_loop_error true before field item after err s Hp Hok He), M_bind_run.
    unfold body_of. cbn. by rewrite Hopen.
Qed.
End Body.

(** ** Witnesses *)

(** The upload of a report, and one whose file breaks off. *)
Definition report_field (err : option error) : string * MultipartItem :=
  ("file", MkItem (OsFile "/tmp/1/_project_xml.tar.gz" (Reader "data" err)) "").

Lemma multipart_body_witness :
  body_of (multipart_goroutine (fun _ _ => None) "b" [report_field None] (MkStream "" false None [])).2 =
    Ends (parts "b" true [report_field None] +:+ closing "b") /\
  body_of (multipart_goroutine (fun _ _ => None) "b" [report_field (Some "input/output error")] (MkStream "" false None [])).2 =
    Hangs (parts "b" true [report_field None]).
Proof.
  split.
  - destruct (multipart_body (fun _ _ => None) "b" [report_field None] (MkStream "" false None [])
      (fun _ _ => eq_refl) eq_refl) as (_ & Hok & _).
    apply Hok. by repeat constructor.
  - destruct (multipart_body (fun _ _ => None) "b" [report_field (Some "input/output error")] (MkStream "" false None [])
      (fun _ _ => eq_refl) eq_refl) as (_ & _ & Herr).
    apply (Herr [] _ _ [] "input/output error" eq_refl (Forall_nil_2 _) eq_refl).
Defined.
