(* ===== verification/Callback.v ===== *)
(** * [agent/core/callback.go]: the agent's conversation with the center *)

From stdpp Require Import base tactics option list gmap strings pretty.
From S2P Require Import Prelude GoStrings Goroutines NetHttp Conf AgentWorld.

Local Open Scope string_scope.

(** [CodeCoverageExecRecordDetail] *)
Record CodeCoverageExecRecordDetail := MkDetail {
  detail_PlanID : N;
  detail_ProjectID : N;
  detail_Status : string;
  detail_MavenSetting : string;
  detail_Includes : string;
  detail_Excludes : string;
}.

(** [CodeCoverageExecRecordDetailResp]: [Header.Success] and [Data]. *)
Record CodeCoverageExecRecordDetailResp := MkDetailResp {
  resp_Success : bool;
  resp_Data : option CodeCoverageExecRecordDetail;
}.

(** The three request bodies, as [encoding/json] sees them. *)
Definition CallbackEndRequest (ID : N) (Status Msg ReportXml : string) : json :=
  JObj [("ID", JNum ID); ("Status", JStr Status); ("Msg", JStr Msg); ("reportXmlUUID", JStr ReportXml)].
Definition callbackReportRequest (ID : N) (Status Msg ReportTar : string) : json :=
  JObj [("ID", JNum ID); ("Status", JStr Status); ("Msg", JStr Msg); ("reportTarUrl", JStr ReportTar)].
Definition callbackRequest (ID : N) (Status Msg : string) : json :=
  JObj [("id", JNum ID); ("Status", JStr Status); ("Msg", JStr Msg)].

Section Callback.
Variable O : oracle.
Variable Cfg : Conf.
(** The error [url.Parse] reports for a URL, if any. *)
Variable url_Parse_error : string -> option error.
(** [json.Marshal] on the request bodies; [json.Unmarshal] into a detail response. *)
Variable json_Marshal : json -> string + error.
Variable json_Unmarshal_detail : string -> CodeCoverageExecRecordDetailResp + error.

(** [http.NewRequest] with one of the program's constant methods. *)
Definition new_center_request (method url : string) (body : option string) : center_request + error :=
  match url_Parse_error url with
  | Some e => inr e
  | None => inl (CenterRequest method url ∅ body)
  end.

Definition with_header (k v : string) (r : center_request) : center_request :=
  CenterRequest (cr_Method r) (cr_URL r) (Header_Set (cr_Header r) k v) (cr_Body r).

(** The headers every request carries. *)
Definition authorize (r : center_request) : center_request :=
  with_header "USER-ID" "2" (with_header "Org" (OrgName Cfg)
    (with_header "Authorization" (CenterToken Cfg) r)).

(** [client.Do(request)], reading the body and testing the status; the body is never closed. *)
Definition do_request (request : center_request) : prog world (string + error) :=
  r ← ext O (HttpDo request);
  match r with
  | inr err => mret (inr ("do client error " +:+ err))
  | inl resp =>
      match ReadAll (resp_Body resp) with
      | inr err => mret (inr ("read response body error " +:+ err))
      | inl str =>
          if bool_decide (resp_StatusCode resp = 200%Z) then mret (inl str)
          else mret (inr ("response status code not 200, body: " +:+ str))
      end
  end.

(** Encoding a body and posting it, the common end of the three callbacks. *)
Definition post_json (path : string) (req : json) : prog world (option error) :=
  match json_Marshal req with
  | inr err => mret (Some ("json marshal req error " +:+ err))
  | inl reqBody =>
      match new_center_request "POST" (CenterHost Cfg +:+ path) (Some reqBody) with
      | inr err => mret (Some ("new request error " +:+ err))
      | inl request =>
          let request := with_header "Content-Type" "application/json;charset=UTF-8" request in
          r ← do_request (authorize request);
          mret (match r with inl _ => None | inr err => Some err end)
      end
  end.

(** [uploadFile]; the answer is the pair of UUID and URL, or a nil [*File]. *)
Definition upload_of (erdaAddr token : string) (planID projectID : N) (file : string) : upload_request :=
  UploadRequest erdaAddr "/api/files"
    [("fileFrom", "jacoco-upload-" +:+ fmt_uint planID +:+ "-" +:+ fmt_uint projectID);
     ("expiredIn", "4320h")] [("Authorization", token)] file.

Definition uploadFile (erdaAddr token : string) (planID projectID : N) (file : string)
  : prog world (option (string * string) + error) :=
  r ← ext O (PostMultipart (upload_of erdaAddr token planID projectID file));
  match r with
  | inr err => mret (inr err)
  | inl (code, uploadResp) =>
      if negb (bool_decide (Z.quot code 100 = 2%Z)) || negb (upload_Success uploadResp)
      then mret (inr ("statusCode: " +:+ pretty code +:+ ", respError: " +:+ upload_Error uploadResp))
      else mret (inl (upload_Data uploadResp))
  end.

(** Opening and uploading the file at [addr]; a missing [Data] is dereferenced. *)
Definition upload_at (what addr : string) (planID : N) : prog world ((string * string) + error) :=
  opened ← ext O (OpenFile addr);
  match opened with
  | Some err => mret (inr ("upload " +:+ what +:+ " error " +:+ err))
  | None =>
      fileData ← uploadFile (CenterHost Cfg) (CenterToken Cfg) planID (ProjectID Cfg) addr;
      match fileData with
      | inr err => mret (inr ("upload " +:+ what +:+ " error " +:+ err))
      | inl None => panic nil_deref
      | inl (Some d) => mret (inl d)
      end
  end.

Definition end_path : string := "/api/code-coverage/actions/end-callBack".
Definition report_path : string := "/api/code-coverage/actions/report-callBack".
Definition ready_path : string := "/api/code-coverage/actions/ready-callBack".

Definition callbackEnd (planID : N) (msg status reportXmlAddr : string) : prog world (option error) :=
  if bool_decide (reportXmlAddr <> "") then
    d ← upload_at "xml" reportXmlAddr planID;
    match d with
    | inr err => mret (Some err)
    | inl (UUID, _) => post_json end_path (CallbackEndRequest planID status msg UUID)
    end
  else post_json end_path (CallbackEndRequest planID status msg "").

Definition callbackReport (planID : N) (status msg reportAddr : string) : prog world (option error) :=
  if bool_decide (reportAddr <> "") then
    d ← upload_at "html" reportAddr planID;
    match d with
    | inr err => mret (Some err)
    | inl (_, DownloadURL) => post_json report_path (callbackReportRequest planID status msg DownloadURL)
    end
  else post_json report_path (callbackReportRequest planID status msg "").

Definition callbackReady (planID : N) (msg : string) : prog world (option error) :=
  job ← GetJob planID;
  match job with
  | None => mret None
  | Some l =>
      j ← load_job l;
      if bool_decide (Status j = ReadyStatus) then mret None
      else post_json ready_path (callbackRequest planID ReadyStatus msg)
  end.

Definition status_url : string :=
  CenterHost Cfg +:+ "/api/code-coverage/actions/status?projectID=" +:+ fmt_uint (ProjectID Cfg)
    +:+ "&workspace=" +:+ Workspace Cfg.

Definition status : prog world (option CodeCoverageExecRecordDetail + error) :=
  match new_center_request "GET" status_url None with
  | inr err => mret (inr ("new request error " +:+ err))
  | inl request =>
      r ← do_request (authorize request);
      match r with
      | inr err => mret (inr err)
      | inl body =>
          match json_Unmarshal_detail body with
          | inr err => mret (inr err)
          | inl detail =>
              if negb (resp_Success detail) then mret (inr "response not success")
              else mret (inl (resp_Data detail))
          end
      end
  end.

(** ** Lemmas *)

(** The callbacks change nothing but the history. *)
Lemma do_request_only_history r : preserves only_history (do_request r).
Proof. unfold do_request. preserve. Qed.
#[local] Hint Resolve do_request_only_history : preserves.

Lemma post_json_only_history path req : preserves only_history (post_json path req).
Proof. unfold post_json. preserve. Qed.
#[local] Hint Resolve post_json_only_history : preserves.

(** A callback without a file always returns. *)
Lemma do_request_returns r : returns (do_request r).
Proof.
  apply returns_bind; [apply ext_returns|]. intros [resp|e]; [|apply returns_ret].
  destruct (ReadAll _); [|apply returns_ret]. case_bool_decide; apply returns_ret.
Qed.
Lemma post_json_returns path req : returns (post_json path req).
Proof.
  unfold post_json. destruct (json_Marshal req); [|apply returns_ret].
  destruct (new_center_request _ _ _); [|apply returns_ret].
  apply returns_bind; [apply do_request_returns|]. intros r. apply returns_ret.
Qed.

Lemma callbackEnd_only_history planID msg st addr : preserves only_history (callbackEnd planID msg st addr).
Proof. unfold callbackEnd, upload_at, uploadFile. preserve. Qed.

Lemma callbackReport_only_history planID st msg addr : preserves only_history (callbackReport planID st msg addr).
Proof. unfold callbackReport, upload_at, uploadFile. preserve. Qed.

Lemma callbackReady_only_history planID msg : preserves only_history (callbackReady planID msg).
Proof. unfold callbackReady, GetJob. preserve. Qed.

Lemma status_only_history : preserves only_history status.
Proof. unfold status. preserve. Qed.
End Callback.

#[export] Hint Resolve callbackEnd_only_history callbackReport_only_history
  callbackReady_only_history status_only_history post_json_only_history : preserves.

(** ** What a successful callback tells *)

Section CallbackTheorems.
Variable O : oracle.
Variable Cfg : Conf.
Variable url_Parse_error : string -> option error.
Variable json_Marshal : json -> string + error.
Variable json_Unmarshal_detail : string -> CodeCoverageExecRecordDetailResp + error.

(** The request [req] was answered with status 200. *)
Definition answered_200 (req : center_request) (e : event) : Prop :=
  exists resp, e = Event (HttpDo req) (inl resp) /\ resp_StatusCode resp = 200%Z.

(** [req] is the authorized POST of the JSON value [v] to [path] of the center. *)
Definition center_post (path : string) (v : json) (req : center_request) : Prop :=
  cr_Method req = "POST" /\ cr_URL req = CenterHost Cfg +:+ path /\
  (exists body, json_Marshal v = inl body /\ cr_Body req = Some body) /\
  Header_Get (cr_Header req) "Authorization" = CenterToken Cfg /\
  Header_Get (cr_Header req) "Org" = OrgName Cfg.

Lemma do_request_inv req w b w' :
  do_request O req w = (Done (inl b), w') ->
  exists e resp, w' = with_event e w /\ e = Event (HttpDo req) (inl resp) /\
    resp_StatusCode resp = 200%Z /\ ReadAll (resp_Body resp) = inl b.
Proof.
  unfold do_request. intros H. go_inv. apply ext_inv in E as [-> _].
  destruct r as [resp|err]; [|by go_inv].
  destruct (ReadAll (resp_Body resp)) as [str|err] eqn:Eb; [|by go_inv].
  case_bool_decide; go_inv. exists (Event (HttpDo req) (inl resp)), resp. done.
Qed.

(** [post_json] makes the one request, unless it cannot be built. *)
Lemma post_json_run path v w :
  exists r w', post_json O Cfg url_Parse_error json_Marshal path v w = (Done r, w') /\
    ((w' = w /\ is_Some r /\
      ((exists e, json_Marshal v = inr e) \/ is_Some (url_Parse_error (CenterHost Cfg +:+ path)))) \/
     exists req a, center_post path v req /\ w' = with_event (Event (HttpDo req) a) w /\
       (r = None -> exists resp, a = inl resp /\ resp_StatusCode resp = 200%Z)).
Proof.
  unfold post_json, new_center_request. destruct (json_Marshal v) as [body|err] eqn:Ej.
  2: { do 2 eexists. split; [reflexivity|]. left. split_and!; [done|by eexists|left; by eexists]. }
  destruct (url_Parse_error _) as [e|] eqn:Eu; [do 2 eexists; split; [reflexivity|]; left; split_and!; [done|by eexists|right; by eexists]|].
  set (req := authorize _ _). assert (center_post path v req) as Hreq.
  { unfold req, center_post, authorize, with_header. cbn [cr_Method cr_URL cr_Body cr_Header].
    split_and!; [done|done|eauto| |].
    - rewrite !Header_Get_Set_ne by (vm_compute; discriminate). apply Header_Get_Set.
    - rewrite Header_Get_Set_ne by (vm_compute; discriminate). apply Header_Get_Set. }
  unfold do_request. rewrite !bind_run, ext_run. cbn beta iota. set (a := O _ _ _).
  destruct a as [resp|e] eqn:Ea; [destruct (ReadAll (resp_Body resp)); [case_bool_decide|]|]; do 2 eexists;
    (split; [reflexivity|]); right; exists req, a; rewrite Ea; (split; [done|]); (split; [done|]); try discriminate.
  intros _. by exists resp.
Qed.
Lemma post_json_inv path v w w' :
  post_json O Cfg url_Parse_error json_Marshal path v w = (Done None, w') ->
  exists req e, w' = with_event e w /\ answered_200 req e /\ center_post path v req.
Proof.
  intros H. destruct (post_json_run path v w) as (r & w1 & Hrun & Hcase). rewrite Hrun in H. injection H as -> ->.
  destruct Hcase as [(_ & [? [=]] & _)|(req & a & Hreq & -> & Ha)]. destruct (Ha eq_refl) as (resp & -> & Hst).
  do 2 eexists. split; [reflexivity|]. split; [by exists resp|done].
Qed.

(** The calls of a successful upload. *)
Definition upload_events (addr : string) (planID : N) (code : Z) (up : upload_response) : list event :=
  [Event (OpenFile addr) None;
   Event (PostMultipart (upload_of (CenterHost Cfg) (CenterToken Cfg) planID (ProjectID Cfg) addr))
     (inl (code, up))].

Lemma IsOK_range code : Z.quot code 100 = 2%Z -> (200 <= code < 300)%Z.
Proof.
  intros Hc. pose proof (Z.quot_rem' code 100) as Hqr. rewrite Hc in Hqr.
  destruct (decide (0 <= code)%Z).
  - pose proof (Z.rem_bound_pos code 100). lia.
  - pose proof (Z.rem_bound_pos_neg code 100). lia.
Qed.

Lemma upload_at_inv what addr planID d w w' :
  upload_at O Cfg what addr planID w = (Done (inl d), w') ->
  exists code up, history w' = (history w ++ upload_events addr planID code up)%list /\
    (200 <= code < 300)%Z /\ upload_Success up = true /\ upload_Data up = Some d.
Proof.
  unfold upload_at, uploadFile. intros H. apply bind_inv_done in H as (o & w1 & E & H).
  apply ext_inv in E as [-> _]. destruct o as [err|]; [by go_inv|].
  apply bind_inv_done in H as (fd & w2 & E & H).
  apply bind_inv_done in E as (r & w3 & E & H2). apply ext_inv in E as [-> _].
  destruct r as [[code up]|err]; [|go_inv; by go_inv].
  revert H2. destruct (negb _ || negb _) eqn:Hok; intros H2; go_inv.
  destruct (upload_Data up) as [d'|] eqn:Hd; go_inv. exists code, up.
  apply orb_false_iff in Hok as [Hc Hs]. apply negb_false_iff in Hc, Hs.
  apply bool_decide_eq_true in Hc. split_and!; [|by apply IsOK_range|by apply IsOK_range|done|done].
  unfold upload_events. cbn. by rewrite <- (assoc_L (++)%list).
Qed.

Lemma callbackEnd_inv planID msg st addr w w' :
  callbackEnd O Cfg url_Parse_error json_Marshal planID msg st addr w = (Done None, w') ->
  exists UUID h req e,
    history w' = (history w ++ h ++ [e])%list /\ answered_200 req e /\
    center_post end_path (CallbackEndRequest planID st msg UUID) req /\
    (addr = "" -> h = [] /\ UUID = "") /\
    (addr <> "" -> exists url code up,
       h = upload_events addr planID code up /\
       (200 <= code < 300)%Z /\ upload_Success up = true /\ upload_Data up = Some (UUID, url)).
Proof.
  unfold callbackEnd. case_bool_decide as Ha; intros H.
  - apply bind_inv_done in H as (d & w1 & E & H).
    destruct d as [[UUID url]|err]; [|by go_inv].
    apply upload_at_inv in E as (code & up & Hh & Hc & Hs & Hd).
    apply post_json_inv in H as (req & e & -> & Hans & Hpost).
    exists UUID, (upload_events addr planID code up), req, e.
    split_and!; [|done|done|done|by eauto 10]. cbn. by rewrite Hh, <- app_assoc.
  - subst addr. apply post_json_inv in H as (req & e & -> & Hans & Hpost).
    exists "", [], req, e. by split_and!.
Qed.


Lemma callbackReport_inv planID st msg addr w w' :
  callbackReport O Cfg url_Parse_error json_Marshal planID st msg addr w = (Done None, w') ->
  exists URL h req e,
    history w' = (history w ++ h ++ [e])%list /\ answered_200 req e /\
    center_post report_path (callbackReportRequest planID st msg URL) req /\
    (addr = "" -> h = [] /\ URL = "") /\
    (addr <> "" -> exists uuid code up,
       h = upload_events addr planID code up /\
       (200 <= code < 300)%Z /\ upload_Success up = true /\ upload_Data up = Some (uuid, URL)).
Proof.
  unfold callbackReport. case_bool_decide as Ha; intros H.
  - apply bind_inv_done in H as (d & w1 & E & H).
    destruct d as [[UUID url]|err]; [|by go_inv].
    apply upload_at_inv in E as (code & up & Hh & Hc & Hs & Hd).
    apply post_json_inv in H as (req & e & -> & Hans & Hpost).
    exists url, (upload_events addr planID code up), req, e.
    split_and!; [|done|done|done|by eauto 10]. cbn. by rewrite Hh, <- app_assoc.
  - subst addr. apply post_json_inv in H as (req & e & -> & Hans & Hpost).
    exists "", [], req, e. by split_and!.
Qed.


(** C30: an end callback that returns nil was answered with 200 by the center: its last call
    is the authorized POST of plan, status, message and report UUID; without a report file
    it is the only call, and with one the UUID is that of the file just uploaded. *)
Theorem callbackEnd_delivered planID msg st addr w w' :
  callbackEnd O Cfg url_Parse_error json_Marshal planID msg st addr w = (Done None, w') ->
  exists UUID h req e,
    history w' = (history w ++ h ++ [e])%list /\ answered_200 req e /\
    center_post end_path (CallbackEndRequest planID st msg UUID) req /\
    (addr = "" -> h = [] /\ UUID = "") /\
    (addr <> "" -> exists url code up,
       h = upload_events addr planID code up /\
       (200 <= code < 300)%Z /\ upload_Success up = true /\ upload_Data up = Some (UUID, url)).
Proof. apply callbackEnd_inv. Qed.

(** The ready callback contacts the center exactly when the plan is registered with a
    status other than ready; when it does and returns nil, the center answered 200 to the
    authorized POST that reports the plan ready. *)
Theorem callbackReady_spec planID msg w :
  match RunJobs w !! KeyUint64 planID with
  | None => callbackReady O Cfg url_Parse_error json_Marshal planID msg w = (Done None, w)
  | Some l =>
      forall j, job_heap w !! l = Some j ->
      if bool_decide (Status j = ReadyStatus)
      then callbackReady O Cfg url_Parse_error json_Marshal planID msg w = (Done None, w)
      else forall w', callbackReady O Cfg url_Parse_error json_Marshal planID msg w = (Done None, w') ->
           exists req e, w' = with_event e w /\ answered_200 req e /\
             center_post ready_path (callbackRequest planID ReadyStatus msg) req
  end.
Proof.
  destruct (RunJobs w !! KeyUint64 planID) as [l|] eqn:El.
  - intros j Hj. assert (callbackReady O Cfg url_Parse_error json_Marshal planID msg w =
      (if bool_decide (Status j = ReadyStatus) then mret None
       else post_json O Cfg url_Parse_error json_Marshal ready_path
              (callbackRequest planID ReadyStatus msg)) w) as ->.
    { unfold callbackReady, GetJob. go_run. by rewrite El, (bind_done _ _ _ _ _ (load_job_done _ _ _ Hj)). }
    case_bool_decide; [done|]. intros w'. apply post_json_inv.
  - unfold callbackReady, GetJob. go_run. by rewrite El.
Qed.

(** The status query makes one authorized GET to the center and nothing else; it
    returns a record only from an answer with status 200 whose JSON reports success. *)
Theorem status_spec w r w' :
  status O Cfg url_Parse_error json_Unmarshal_detail w = (Done (inl r), w') ->
  exists req resp body,
    w' = with_event (Event (HttpDo req) (inl resp)) w /\
    cr_Method req = "GET" /\ cr_URL req = status_url Cfg /\
    Header_Get (cr_Header req) "Authorization" = CenterToken Cfg /\
    resp_StatusCode resp = 200%Z /\ ReadAll (resp_Body resp) = inl body /\
    json_Unmarshal_detail body = inl (MkDetailResp true r).
Proof.
  unfold status, new_center_request. destruct (url_Parse_error _); [by intros; go_inv|].
  intros H. apply bind_inv_done in H as (b & w1 & E & H).
  destruct b as [body|err]; [|by go_inv].
  apply do_request_inv in E as (e & resp & -> & -> & Hst & Hb).
  destruct (json_Unmarshal_detail body) as [[[] d]|err] eqn:Ej; cbn in H; go_inv.
  do 3 eexists. split; [reflexivity|]. unfold authorize, with_header.
  cbn [cr_Method cr_URL cr_Header]. split_and!; [done|done| |done|exact Hb|exact Ej].
  rewrite !Header_Get_Set_ne by (vm_compute; discriminate). apply Header_Get_Set.
Qed.
End CallbackTheorems.

(** ** A center for the witnesses *)

Definition demo_conf : Conf := MkConf "https://center" "token" 7 "ns" "org" "TEST".
Definition ok_response : http_response := HttpResponse 200 ∅ (string_reader "{}").

(** Commands, files and requests all succeed, uploads get the UUID [u-1]; no map has an
    order of its own. *)
Definition good_oracle : oracle := fun A h c =>
  match c in call A return A with
  | Run _ _ _ => None
  | Stat _ => StatOk
  | Mkdir _ => None
  | MkdirTemp _ _ => inl "/tmp/dir"
  | CreateTemp dir _ => inl (dir +:+ "/file.exec")
  | Create _ => None
  | OpenFile _ => None
  | WriteString _ _ => None
  | Setenv _ _ => tt
  | ReadDir _ => inl ["a.exec"; "notes.txt"]
  | Remove _ => None
  | DialTimeout _ => None
  | Sleep _ => tt
  | NowFormat => "20210101000000"
  | HttpDo _ => inl ok_response
  | PostMultipart _ => inl (200%Z, UploadResponse true "" (Some ("u-1", "http://f/u-1")))
  | InClusterConfig => None
  | NewForConfig => None
  | ListDeployments _ => inl []
  | ListPods _ _ => inl [K8sPod "10.0.0.1" "pod-1" ["app"]]
  | CopyFromPod _ _ _ _ => None
  | Walk root => [WalkItem root true false; WalkItem (root +:+ "/a.jar") false false]
  | PickOrder keys => keys
  end.

(** The text of a request body is not looked at by the witnesses. *)
Definition plain_marshal : json -> string + error := fun _ => inl "body".
Definition any_url : string -> option error := fun _ => None.

Lemma callbackEnd_delivered_witness :
  exists h req e, let w' := (callbackEnd good_oracle demo_conf any_url plain_marshal 1 "m" "success"
                               "/tmp/x.tar.gz" empty_world).2 in
    history w' = (h ++ [e])%list /\ length h = 2 /\ answered_200 req e.
Proof.
  destruct (callbackEnd_delivered good_oracle demo_conf any_url plain_marshal 1 "m" "success"
    "/tmp/x.tar.gz" empty_world _ eq_refl) as (U & h & req & e & Hh & Hans & _ & _ & Hup).
  exists h, req, e. cbv zeta. split_and!; [exact Hh| |exact Hans].
  destruct (Hup ltac:(discriminate)) as (url & code & up & -> & _). reflexivity.
Defined.

Lemma status_spec_witness :
  exists resp body, ReadAll (resp_Body resp) = inl body /\ resp_StatusCode resp = 200%Z /\
    status good_oracle demo_conf any_url (fun _ => inl (MkDetailResp true None)) empty_world =
      (Done (inl None), (status good_oracle demo_conf any_url
         (fun _ => inl (MkDetailResp true None)) empty_world).2).
Proof.
  destruct (status_spec good_oracle demo_conf any_url (fun _ => inl (MkDetailResp true None))
    empty_world None _ eq_refl) as (req & resp & body & _ & _ & _ & _ & Hst & Hb & _).
  exists resp, body. split_and!; [exact Hb|exact Hst|reflexivity].
Defined.

(** A world where plan 1 is registered with status running. *)
Definition one_job : world :=
  World {[KeyUint64 1 := 1%positive]} {[1%positive := MkJob 1 "running" "running" "" "" "" "" false false]}
    ∅ ∅ ∅ [] [].

Lemma callbackReady_spec_witness :
  exists req e, (callbackReady good_oracle demo_conf any_url plain_marshal 1 "m" one_job).2
                  = with_event e one_job /\ answered_200 req e.
Proof.
  pose proof (callbackReady_spec good_oracle demo_conf any_url plain_marshal 1 "m" one_job) as H.
  change (RunJobs one_job !! KeyUint64 1) with (Some 1%positive) in H. cbv beta match in H.
  specialize (H (MkJob 1 "running" "running" "" "" "" "" false false) eq_refl).
  destruct (H _ eq_refl) as (req & e & He & Hans & _). exists req, e. split; [exact He|exact Hans].
Defined.
