(* ===== verification/Services.v ===== *)
(** * [agent/core/watcher.go]: the registry of instrumented services

    The informer of the deployments of the namespace keeps [Services] up to date; the jar
    files of a new service are copied out of its first pod. *)

From stdpp Require Import base tactics option list gmap strings.
From S2P Require Import Prelude GoStrings Goroutines NetHttp Conf AgentWorld Callback.

Local Open Scope string_scope.

(** ** Definitions *)

(** One of the two variables that switch the coverage agent on. *)
Definition enabling (env : string * string) : bool :=
  let '(name, value) := env in
  (bool_decide (name = "OPEN_JACOCO_AGENT") && bool_decide (value = "true")) ||
  (bool_decide (name = "SOURCECOV_ENABLED") && bool_decide (value = "true")).

(** The loop over the containers: [Image] is overwritten by every container with an enabling
    variable. *)
Definition coverage_image (containers : list container) : string :=
  fold_left (fun image c => if existsb enabling (c_Env c) then c_Image c else image) containers "".

(** The loop over the listed pods: [pod.Spec.Containers[0]] panics on a pod without one. *)
Definition index_out_of_range : string := "index out of range [0] with length 0".
Fixpoint listed_pods (items : list k8s_pod) : outcome (list Pod) :=
  match items with
  | [] => Done []
  | pod :: items' =>
      match k8s_Containers pod with
      | [] => Panic index_out_of_range
      | c :: _ =>
          match listed_pods items' with
          | Done l => Done (MkPod (PodIP pod) (k8s_Name pod) c "" false :: l)
          | o => o
          end
      end
  end.

(** A pure computation that may panic, in the monad. *)
Definition lift {A} (o : outcome A) : prog world A := local (fun w => (o, w)).

(** The file names [filepath.Walk] hands to the callback that are kept: errors are skipped,
    directories are not jar files. *)
Definition jar_files (items : list walk_item) : list string :=
  map walk_path (filter (fun i => negb (walk_err i) && negb (walk_is_dir i) && HasSuffix (walk_path i) ".jar")
                   items).

Section Services.
Variable O : oracle.
Variable Cfg : Conf.
(** [retry.RetryOnConflict(retry.DefaultRetry, fn)] of client-go. *)
Variable RetryOnConflict : retrier.

(** The closure given to [RetryOnConflict]: it fills in the pods of [newServices]. *)
Definition list_pods (l : loc) (name : string) : prog world (option error) :=
  r ← ext O (ListPods (ProjectNs Cfg) ("app=" +:+ name));
  match r with
  | inr err => mret (Some err)
  | inl items =>
      pods ← lift (listed_pods items);
      _ ← update_svc l (svc_with_pods pods);
      mret None
  end.

(** [getServiceByDeploy]; [None] is the nil pointer. A nil deployment is [None]. *)
Definition getServiceByDeploy (deploy : option deployment) : prog world (option loc) :=
  match deploy with
  | None => mret None
  | Some deploy =>
      let name := default "" (deploy_Labels deploy !! "app") in
      let image := coverage_image (deploy_Containers deploy) in
      if bool_decide (image = "") then mret None
      else
        l ← new_svc (MkService name image [] [] false "" false false);
        err ← RetryOnConflict _ just_error (list_pods l name);
        match err with
        | Some _ => mret None
        | None => mret (Some l)
        end
  end.

Definition GenSvcJarImageTempDir (svcName : string) : prog world (string + error) :=
  ext O (MkdirTemp "" (svcName +:+ "svc-jar-*")).

Definition getServiceJarPackage (svc : loc) : prog world (list string + error) :=
  s ← load_svc svc;
  dir ← GenSvcJarImageTempDir (svc_Name s);
  match dir with
  | inr err => mret (inr err)
  | inl imageJarTempPath =>
      now ← load_svc svc;
      match Pods now with
      | [] => panic index_out_of_range
      | pod :: _ =>
          err ← ext O (CopyFromPod (ProjectNs Cfg) (PodName pod) "/app" (imageJarTempPath +:+ "/app"));
          match err with
          | Some err => mret (inr err)
          | None =>
              items ← ext O (Walk (imageJarTempPath +:+ "/app"));
              mret (inl (jar_files items))
          end
      end
  end.

Definition lock_load (l : loc) : prog world unit := await (fun w =>
  match svc_heap w !! l with
  | None => (Panic nil_deref, w)
  | Some s =>
      if LoadJarPackageLock s then (Blocked, w) else (Done tt, with_svc_heap (alter (svc_with_load_lock true) l) w)
  end).
Definition unlock_load (l : loc) : prog world unit := update_svc l (svc_with_load_lock false).

Definition jar_error (name err : string) : string := "get svc " +:+ name +:+ " jar package error " +:+ err.

(** What [reloadJarAddr] does with the jar list it got. *)
Definition store_jars (name : string) (jarList : list string + error) : prog world (option error) :=
  service ← GetService name;
  match service with
  | None => mret None
  | Some l =>
      match jarList with
      | inr err =>
          _ ← update_svc l (svc_with_error (jar_error name err));
          _ ← SetService name l;
          mret (Some err)
      | inl jars =>
          _ ← update_svc l (svc_with_jars jars);
          _ ← SetService name l;
          mret None
      end
  end.

Definition reloadJarAddr (svc : loc) : prog world (option error) :=
  _ ← lock_load svc;
  jarList ← getServiceJarPackage svc;
  s ← load_svc svc;
  err ← store_jars (svc_Name s) jarList;
  _ ← unlock_load svc;
  mret err.

Definition saveServices (svc : option loc) (sync : bool) : prog world unit :=
  match svc with
  | None => mret tt
  | Some svc =>
      s ← load_svc svc;
      old ← GetService (svc_Name s);
      match old with
      | None =>
          _ ← SetService (svc_Name s) svc;
          _ ← go (GoForgetService svc);
          if negb sync then go (GoReloadJarAddr svc)
          else _ ← reloadJarAddr svc; mret tt
      | Some oldSvc =>
          _ ← update_svc oldSvc (svc_with_pods (Pods s));
          _ ← SetService (svc_Name s) oldSvc;
          o ← load_svc oldSvc;
          if bool_decide (svc_Image o <> svc_Image s) then
            _ ← update_svc oldSvc (svc_with_image (svc_Image s));
            _ ← SetService (svc_Name s) oldSvc;
            go (GoReloadJarAddr svc)
          else mret tt
      end
  end.

Definition deleteService (name : string) : prog world unit :=
  svc ← GetService name;
  match svc with
  | None => mret tt
  | Some l =>
      _ ← update_svc l svc_deleted;
      SetService name l
  end.

(** The goroutine of a new service: it waits for the end of the service's context, ... *)
Definition forget_service (svc : loc) : prog world unit :=
  s ← load_svc svc;
  if svc_ctx_done s then
    _ ← ext O (Sleep 600);
    go (GoForgetLater svc)
  else go (GoForgetService svc).

(** ... and ten minutes later looks the service up again. *)
Definition forget_later (svc : loc) : prog world unit :=
  s ← load_svc svc;
  now ← GetService (svc_Name s);
  match now with
  | None => mret tt
  | Some l =>
      n ← load_svc l;
      if IsDelete n then DeleteService (svc_Name n) else mret tt
  end.

(** The handlers of the informer. [AddFunc] reads the counters of deployments to load at
    start-up and loaded so far, and returns the new value of the latter. *)
Definition AddFunc (deployListNum watchListDeployLoadDoneNum : nat) (obj : option deployment) : prog world nat :=
  match obj with
  | Some deploy =>
      newServices ← getServiceByDeploy (Some deploy);
      _ ← (if Nat.ltb watchListDeployLoadDoneNum deployListNum
           then saveServices newServices true else saveServices newServices false);
      mret (S watchListDeployLoadDoneNum)
  | None => mret (S watchListDeployLoadDoneNum)
  end.

Definition DeleteFunc (obj : option deployment) : prog world unit :=
  match obj with
  | Some deploy => deleteService (deploy_Name deploy)
  | None => mret tt
  end.

Definition UpdateFunc (newObj : option deployment) : prog world unit :=
  match newObj with
  | Some deploy =>
      newServices ← getServiceByDeploy (Some deploy);
      saveServices newServices false
  | None => mret tt
  end.

(** The configuration and the client are kept in the variables [restClient] and [clientSet],
    which nothing else sets; the calls of the oracle stand for calls through them. *)
Definition setK8sClientSet : prog world (option error) :=
  err ← ext O InClusterConfig;
  match err with
  | Some err => mret (Some err)
  | None => ext O NewForConfig
  end.

(** The start of [WatchJacocoPod]'s goroutine, up to the start of the informer: the number
    of deployments loaded, or [None] if it gave up. *)
Definition WatchJacocoPod : prog world (option nat) :=
  err ← setK8sClientSet;
  match err with
  | Some _ => mret None
  | None =>
      l ← ext O (ListDeployments (ProjectNs Cfg));
      match l with
      | inr _ => mret None
      | inl items =>
          _ ← for_each items (fun d =>
                newServices ← getServiceByDeploy (Some d);
                saveServices newServices true);
          mret (Some (length items))
      end
  end.
End Services.

(** ** How the registry evolves

    A service that was registered stays registered, the same object under the same name;
    its [IsDelete], the end of its context and its having an error are never undone. *)

(** Every registered pointer leads to a service with the name it is registered under. *)
Definition svc_ok (w : world) : Prop :=
  forall k l, Services w !! k = Some l -> exists s, svc_heap w !! l = Some s /\ svc_Name s = k.

Definition svc_later (s s' : Service) : Prop :=
  svc_Name s' = svc_Name s /\ (IsDelete s = true -> IsDelete s' = true) /\
  (svc_ctx_done s = true -> svc_ctx_done s' = true) /\
  (ErrorMessage s <> "" -> ErrorMessage s' <> "").

Definition svc_evolves (w w' : world) : Prop :=
  Services w ⊆ Services w' /\
  forall l s, svc_heap w !! l = Some s -> exists s', svc_heap w' !! l = Some s' /\ svc_later s s'.

Definition svc_R (w w' : world) : Prop := svc_ok w -> svc_ok w' /\ svc_evolves w w'.

#[global] Instance svc_later_preorder : PreOrder svc_later.
Proof.
  split; unfold svc_later; [by intros s|].
  intros s1 s2 s3 (H1 & H2 & H3 & H4) (K1 & K2 & K3 & K4). split_and!; [congruence|auto..].
Qed.

#[global] Instance svc_R_preorder : PreOrder svc_R.
Proof.
  split.
  - intros w Hok. split; [done|]. split; [done|]. intros l s Hs. by exists s.
  - intros w1 w2 w3 H12 H23 Hok. destruct (H12 Hok) as [Hok2 [Hs2 Hh2]].
    destruct (H23 Hok2) as [Hok3 [Hs3 Hh3]]. split; [done|]. split; [by etrans|].
    intros l s Hs. destruct (Hh2 l s Hs) as (s' & Hs' & Hl). destruct (Hh3 l s' Hs') as (s'' & Hs'' & Hl').
    exists s''. split; [done|by etrans].
Qed.

Lemma same_services w w' : Services w' = Services w -> svc_heap w' = svc_heap w -> svc_R w w'.
Proof.
  intros HS HH Hok. unfold svc_ok, svc_evolves. rewrite HS, HH. split; [done|]. split; [done|].
  intros l s Hs. by exists s.
Qed.

Lemma only_history_svc_R w w' : only_history w w' -> svc_R w w'.
Proof. intros (_ & _ & HS & HH & _). by apply same_services. Qed.

(** What is known about the registry stays known. *)
Definition known (k : string) (l : loc) (w : world) : Prop := svc_ok w /\ Services w !! k = Some l.
Definition named (l : loc) (k : string) (w : world) : Prop :=
  svc_ok w /\ exists s, svc_heap w !! l = Some s /\ svc_Name s = k.

#[global] Instance svc_ok_stable : Stable svc_R svc_ok.
Proof. intros w w' Hok HR. by apply HR. Qed.
#[global] Instance known_stable k l : Stable svc_R (known k l).
Proof.
  intros w w' [Hok Hk] HR. destruct (HR Hok) as [Hok' [Hsub _]]. split; [done|].
  by eapply lookup_weaken.
Qed.
#[global] Instance named_stable l k : Stable svc_R (named l k).
Proof.
  intros w w' (Hok & s & Hs & Hn) HR. destruct (HR Hok) as [Hok' [_ Hh]]. split; [done|].
  destruct (Hh l s Hs) as (s' & Hs' & Hl). exists s'. destruct Hl as [Hl _]. by split; [|congruence].
Qed.

(** *** The primitive operations *)

(** A goroutine that keeps the registry of services in order, among others that do. *)
Abbreviation svc_keeps := (keeps svc_R svc_R).

Lemma update_svc_R l f : (forall s, svc_later s (f s)) -> preserves svc_R (update_svc l f).
Proof.
  intros Hf. apply preserves_modify. intros w Hok. cbn. split.
  - intros k l' Hk. destruct (Hok k l' Hk) as (s & Hs & Hn). cbn.
    destruct (decide (l = l')) as [<-|].
    + exists (f s). rewrite lookup_alter_eq, Hs. split; [done|]. by destruct (Hf s) as [-> _].
    + exists s. by rewrite lookup_alter_ne.
  - split; [done|]. intros l' s Hs. cbn. destruct (decide (l = l')) as [<-|].
    + exists (f s). by rewrite lookup_alter_eq, Hs.
    + exists s. by rewrite lookup_alter_ne.
Qed.

Lemma new_svc_R s : preserves svc_R (new_svc s).
Proof.
  split; [|done]. intros w Hok. cbn. set (l := fresh _).
  assert (Hl : svc_heap w !! l = None) by (apply not_elem_of_dom, is_fresh). split.
  - intros k l' Hk. destruct (Hok k l' Hk) as (s' & Hs' & Hn). exists s'. cbn.
    rewrite lookup_insert_ne; [done|]. intros <-. congruence.
  - split; [done|]. intros l' s' Hs'. exists s'. cbn. rewrite lookup_insert_ne; [done|].
    intros <-. congruence.
Qed.

(** Storing the registered pointer again changes nothing. *)
Lemma SetService_known k l : svc_keeps (known k l) (SetService k l).
Proof. apply keeps_last. intros w [_ Hk]. apply same_services; [|done]. cbn. by apply insert_id. Qed.

(** Registering a new name. *)
Lemma SetService_new k l w : named l k w -> Services w !! k = None -> svc_R w (with_Services (<[k := l]>) w).
Proof.
  intros (_ & s & Hs & Hn) Hk Hok. cbn. split.
  - intros k' l' Hk'. cbn in Hk'. destruct (decide (k = k')) as [<-|].
    + rewrite lookup_insert_eq in Hk'. simplify_eq. by exists s.
    + rewrite lookup_insert_ne in Hk' by done. by apply Hok.
  - split; [by apply insert_subseteq|]. intros l' s' Hs'. by exists s'.
Qed.

Lemma svc_later_with_pods p s : svc_later s (svc_with_pods p s).
Proof. by destruct s. Qed.
Lemma svc_later_with_image i s : svc_later s (svc_with_image i s).
Proof. by destruct s. Qed.
Lemma svc_later_with_jars j s : svc_later s (svc_with_jars j s).
Proof. by destruct s. Qed.
Lemma svc_later_with_error e s : e <> "" -> svc_later s (svc_with_error e s).
Proof. by destruct s. Qed.
Lemma svc_later_jar_error name err s : svc_later s (svc_with_error (jar_error name err) s).
Proof. by apply svc_later_with_error. Qed.
Lemma svc_later_more_error e s : svc_later s (svc_with_error (ErrorMessage s +:+ e) s).
Proof. destruct s as [? ? ? ? ? m ? ?]. unfold svc_later. cbn. split_and!; [done..|]. by destruct m. Qed.
Lemma svc_later_with_load_lock b s : svc_later s (svc_with_load_lock b s).
Proof. by destruct s. Qed.
Lemma svc_later_deleted s : svc_later s (svc_deleted s).
Proof. by destruct s. Qed.
#[export] Hint Resolve svc_later_with_pods svc_later_with_image svc_later_with_jars
  svc_later_jar_error svc_later_more_error svc_later_with_load_lock svc_later_deleted : preserves.
#[export] Hint Resolve update_svc_R new_svc_R only_history_svc_R : preserves.
#[export] Hint Extern 5 (preserves svc_R _) =>
  apply (preserves_sub only_history svc_R _ only_history_svc_R); solve [auto with preserves] : preserves.

(** The operations that leave the services alone. *)
Ltac same_services := split; [intros w; apply same_services; reflexivity|done].
Lemma go_R g : preserves svc_R (go g).
Proof. same_services. Qed.
Lemma DeleteService_R k : preserves svc_R (DeleteService k).
Proof. same_services. Qed.
Lemma lift_R {A} (o : outcome A) : preserves svc_R (lift o).
Proof. same_services. Qed.
Lemma only_groups_svc_R w w' : only_groups w w' -> svc_R w w'.
Proof. intros [f ->]. by apply same_services. Qed.
#[export] Hint Extern 5 (preserves svc_R _) =>
  apply (preserves_sub only_groups svc_R _ only_groups_svc_R); solve [auto with preserves] : preserves.
(** Taking the lock of a service writes the lock, or nothing. *)
Lemma lock_load_preserves R `{!Reflexive R} l :
  preserves R (update_svc l (svc_with_load_lock true)) -> preserves R (lock_load l).
Proof.
  intros [HR _]. split; [|done]. intros w. cbn. destruct (svc_heap w !! l) as [s|]; [|apply reflexivity].
  destruct (LoadJarPackageLock s); [apply reflexivity|apply HR].
Qed.
#[export] Hint Resolve go_R DeleteService_R lift_R : preserves.
#[export] Hint Extern 3 (preserves _ (lock_load _)) => apply lock_load_preserves; first [typeclasses eauto | solve [auto with preserves]] : preserves.

(** What is read is known afterwards. *)
Lemma GetService_known P k {B} (f : option loc -> prog world B) :
  (forall w, P w -> svc_ok w) ->
  svc_keeps (fun w => P w /\ Services w !! k = None) (f None) ->
  (forall l, svc_keeps (known k l) (f (Some l))) ->
  svc_keeps P (GetService k ≫= f).
Proof.
  intros HP Hn Hs. apply keeps_gets; [typeclasses eauto..|]. intros [l|]; [|done].
  eapply keeps_weaken; [apply Hs|]. intros w [H1 H2]. split; [by apply HP|done].
Qed.

(** Reading an object, whose name is then known, when [P] is known too. *)
Lemma load_svc_bind P l {B} (f : Service -> prog world B) :
  (forall w, P w -> svc_ok w) ->
  (forall s, svc_keeps (fun w => P w /\ named l (svc_Name s) w) (f s)) -> svc_keeps P (load_svc l ≫= f).
Proof.
  intros HP. apply keeps_local; [intros w _|intros w s Hw]; cbn;
    destruct (svc_heap w !! l) as [s'|] eqn:E; cbn; try reflexivity; [|done].
  intros [= <-]. split; [done|]. split; [by apply HP|]. by exists s'.
Qed.

(** Updating a registered service and storing it again, what every writer ends with. *)
Lemma update_known k l f {B} (m : prog world B) :
  (forall s, svc_later s (f s)) -> svc_keeps (known k l) m ->
  svc_keeps (known k l) (update_svc l f ≫= fun _ => SetService k l ≫= fun _ => m).
Proof.
  intros Hf Hm. apply keeps_bind; [typeclasses eauto..|by apply update_svc_R|intros _].
  apply keeps_seq; [typeclasses eauto..|apply SetService_known|by intros _].
Qed.

(** What is known of a service needs no more than the registry's order. *)
Lemma keeps_known k l {A} (m : prog world A) : svc_keeps svc_ok m -> svc_keeps (known k l) m.
Proof. intros Hm. eapply keeps_weaken; [exact Hm|by intros w []]. Qed.

(** A loop over the services, for [P] about the registry. *)
Lemma keeps_range_services G R (P : world -> Prop) O {S} (body : S -> string -> prog world (bool * S)) s
    `{!PreOrder R, !Reflexive G, !Stable R P, !Stable G P} :
  (forall w w', only_history w w' -> G w w') ->
  (forall s k, keeps G R P (body s k)) -> keeps G R P (range_services O body s).
Proof.
  intros Hsub Hbody. unfold range_services.
  apply keeps_bind; [done..|by apply preserves_gets|intros keys].
  apply keeps_bind; [done..| |intros order].
  { apply (preserves_sub only_history); [done|apply pick_order_only_history]. }
  revert s. induction order as [|k order IH]; intros s; [apply keeps_ret|]. cbn.
  apply keeps_seq; [done..|intros [[] s']; [apply IH|apply keeps_ret]].
Qed.
Ltac keep_more ::=
  first [ apply keeps_range_services; [typeclasses eauto.. | solve [auto with preserves] | intros ? ?]
        | apply keeps_fork; [typeclasses eauto..|] ].

Section ServicesR.
Variable O : oracle.
Variable Cfg : Conf.
Variable RetryOnConflict : retrier.
Context `{!RetryLaw RetryOnConflict}.

Lemma list_pods_R l name : preserves svc_R (list_pods O Cfg l name).
Proof. unfold list_pods. preserve. Qed.

Lemma getServiceByDeploy_R deploy : preserves svc_R (getServiceByDeploy O Cfg RetryOnConflict deploy).
Proof using RetryLaw0.
  unfold getServiceByDeploy. destruct deploy as [d|]; [|preserve]. case_match; [preserve|].
  apply preserves_bind; [auto with preserves|]. intros l. apply preserves_bind; [|intros ?; preserve].
  apply preserves_retry; [done|]. apply list_pods_R.
Qed.

Lemma getServiceJarPackage_R svc : preserves svc_R (getServiceJarPackage O Cfg svc).
Proof. unfold getServiceJarPackage, GenSvcJarImageTempDir. preserve. Qed.
#[local] Hint Resolve getServiceByDeploy_R getServiceJarPackage_R : preserves.

Lemma store_jars_R name jars : svc_keeps svc_ok (store_jars name jars).
Proof.
  unfold store_jars. apply GetService_known; [done|apply keeps_ret|]. intros l.
  destruct jars; apply update_known; auto with preserves; apply keeps_ret.
Qed.
#[local] Hint Resolve store_jars_R : keeps.

Lemma reloadJarAddr_R svc : svc_keeps svc_ok (reloadJarAddr O Cfg svc).
Proof.
  unfold reloadJarAddr, unlock_load.
  keep.
Qed.
#[local] Hint Resolve reloadJarAddr_R : keeps.

Lemma saveServices_R svc sync : svc_keeps svc_ok (saveServices O Cfg svc sync).
Proof.
  unfold saveServices. destruct svc as [svc|]; [|apply keeps_ret].
  apply load_svc_bind; [done|]. intros s. apply GetService_known; [by intros w []| |intros l].
  - apply keeps_local with (Q := fun _ => svc_ok); [| |intros _; keep].
    + intros w [[_ Hn] Hk]. by apply SetService_new.
    + intros w [] [[Hok Hn] Hk] _. by apply SetService_new.
  - apply update_known; [auto with preserves|].
    apply keeps_bind; [typeclasses eauto..|preserve|intros o]. case_match; [|apply keeps_ret].
    apply update_known; [auto with preserves|]. keep.
Qed.
#[local] Hint Resolve saveServices_R : keeps.

Lemma deleteService_R name : svc_keeps svc_ok (deleteService name).
Proof.
  unfold deleteService. apply GetService_known; [done|apply keeps_ret|]. intros l.
  apply keeps_bind; [typeclasses eauto..|auto with preserves|intros _; apply SetService_known].
Qed.
#[local] Hint Resolve deleteService_R : keeps.

Lemma forget_service_R svc : preserves svc_R (forget_service O svc).
Proof. unfold forget_service. preserve. Qed.
Lemma forget_later_R svc : preserves svc_R (forget_later svc).
Proof. unfold forget_later. preserve. Qed.

Lemma AddFunc_R m n obj : svc_keeps svc_ok (AddFunc O Cfg RetryOnConflict m n obj).
Proof using RetryLaw0. unfold AddFunc. keep. Qed.
Lemma DeleteFunc_R obj : svc_keeps svc_ok (DeleteFunc obj).
Proof. unfold DeleteFunc. keep. Qed.
Lemma UpdateFunc_R obj : svc_keeps svc_ok (UpdateFunc O Cfg RetryOnConflict obj).
Proof using RetryLaw0. unfold UpdateFunc. keep. Qed.
Lemma WatchJacocoPod_R : svc_keeps svc_ok (WatchJacocoPod O Cfg RetryOnConflict).
Proof using RetryLaw0. unfold WatchJacocoPod, setK8sClientSet. keep. Qed.
End ServicesR.
#[export] Hint Resolve forget_service_R forget_later_R : preserves.
#[export] Hint Resolve reloadJarAddr_R saveServices_R deleteService_R AddFunc_R DeleteFunc_R UpdateFunc_R
  WatchJacocoPod_R : keeps.

(** ** What the operations do *)

(** [e] is one of the calls made. *)
Definition happened {A} (c : call A) (r : A) (w : world) : Prop := Event c r ∈ history w.

Lemma coverage_image_last cs image :
  image <> "" -> fold_left (fun i c => if existsb enabling (c_Env c) then c_Image c else i) cs "" = image ->
  exists pre c post, cs = (pre ++ c :: post)%list /\ existsb enabling (c_Env c) = true /\ c_Image c = image /\
    Forall (fun c' => existsb enabling (c_Env c') = false) post.
Proof.
  intros Hne. induction cs as [|c cs IH] using rev_ind; cbn; [congruence|].
  rewrite fold_left_app. cbn. destruct (existsb enabling (c_Env c)) eqn:Ec; intros H.
  - exists cs, c, []. by split_and!.
  - destruct (IH H) as (pre & c' & post & -> & He & Hi & Hp). exists pre, c', (post ++ [c])%list.
    rewrite <- app_assoc. split_and!; [done..|]. apply Forall_app. by split; [|constructor].
Qed.

Section ServiceTheorems.
Variable O : oracle.
Variable Cfg : Conf.
Variable RetryOnConflict : retrier.
Context `{!RetryLaw RetryOnConflict}.

Lemma lift_inv {A} (o : outcome A) a w w' : lift o w = (Done a, w') -> o = Done a /\ w' = w.
Proof. intros H. by destruct o; injection H as <- <-. Qed.

Lemma list_pods_inv l name w w' :
  list_pods O Cfg l name w = (Done None, w') ->
  exists items pods, listed_pods items = Done pods /\
    w' = with_svc_heap (alter (svc_with_pods pods) l)
           (with_event (Event (ListPods (ProjectNs Cfg) ("app=" +:+ name)) (inl items)) w).
Proof.
  unfold list_pods. intros H. apply bind_inv_done in H as (r & w1 & E & H). apply ext_inv in E as [-> _].
  destruct r as [items|err]; [|by go_inv].
  apply bind_inv_done in H as (pods & w2 & E & H). apply lift_inv in E as [Hp ->].
  apply bind_inv_done in H as (u & w3 & E & H). unfold update_svc in E. go_inv. eauto.
Qed.

(** C24: a deployment becomes a service only when one of its containers has a variable that
    enables coverage: the service has the image of the last such container, the name in the
    label [app], and, at the end of a successful listing, exactly the pods with that label,
    each with its first container; no jar files, no error, a context that runs; the registry
    is untouched. *)
Theorem getServiceByDeploy_spec d w l w' :
  getServiceByDeploy O Cfg RetryOnConflict (Some d) w = (Done (Some l), w') ->
  let name := default "" (deploy_Labels d !! "app") in
  exists image items pods pre c post,
    deploy_Containers d = (pre ++ c :: post)%list /\ existsb enabling (c_Env c) = true /\
    c_Image c = image /\ Forall (fun c' => existsb enabling (c_Env c') = false) post /\
    happened (ListPods (ProjectNs Cfg) ("app=" +:+ name)) (inl items) w' /\
    listed_pods items = Done pods /\ map Addr pods = map PodIP items /\
    svc_heap w !! l = None /\
    svc_heap w' !! l = Some (MkService name image [] pods false "" false false) /\
    Services w' = Services w.
Proof using RetryLaw0.
  cbn zeta. unfold getServiceByDeploy. case_bool_decide as Hi; intros H; [by go_inv|].
  set (name := default "" _) in *. set (s0 := MkService name _ _ _ _ _ _ _) in *.
  apply bind_inv_done in H as (l1 & w1 & E & H). injection E as <- <-.
  set (l1 := fresh (dom (svc_heap w))) in *. set (w1 := with_svc_heap _ _) in *.
  apply bind_inv_done in H as (err & w2 & E & H). destruct err as [err|]; [by go_inv|].
  injection H as <- <-.
  assert (Hfresh : svc_heap w !! l1 = None) by (apply not_elem_of_dom, is_fresh).
  destruct (coverage_image_last (deploy_Containers d) _ Hi eq_refl) as (pre & c & post & Hc & He & Hci & Hpost).
  destruct (retry_done _ _ (fun v => Services v = Services w /\ exists p, svc_heap v !! l1 = Some (svc_with_pods p s0))
    _ _ _ _ E) as (v & Hv & HS & p & Hp).
  { split; [done|]. exists []. apply lookup_insert_eq. }
  { intros v b e v' [HS [p Hp]]. unfold list_pods. intros Hv Hb. unfold just_error in Hb. subst b.
    apply bind_inv_done in Hv as (x & v2 & Ex & Hv). apply ext_inv in Ex as [-> _].
    destruct x as [items|err]; [|go_inv; by eauto].
    apply bind_inv_done in Hv as (pods & v3 & Ep & Hv).
    apply bind_inv_done in Hv as (u & v4 & Eu & Hv). discriminate Hv. }
  apply list_pods_inv in Hv as (items & pods & Hpods & ->).
  exists (c_Image c), items, pods, pre, c, post. split_and!; try done.
  - unfold happened. cbn. apply elem_of_app. right. by constructor.
  - clear -Hpods. revert pods Hpods. induction items as [|i items IH]; cbn; intros pods H; [by simplify_eq|].
    destruct (k8s_Containers i); [done|]. destruct (listed_pods items); simplify_eq. cbn. f_equal. by apply IH.
  - cbn. rewrite lookup_alter_eq, Hp. cbn. unfold s0, svc_with_pods. cbn. by rewrite Hci.
Qed.
End ServiceTheorems.

Section RegistryTheorems.
Variable O : oracle.
Variable Cfg : Conf.

(** The registered object with the pods and the image of the one just listed. *)
Definition refreshed (o s : Service) : Service :=
  MkService (svc_Name o) (svc_Image s) (JarAddrList o) (Pods s) (LoadJarPackageLock o)
    (ErrorMessage o) (IsDelete o) (svc_ctx_done o).

Lemma getServiceJarPackage_inv svc s w r w' :
  svc_heap w !! svc = Some s -> getServiceJarPackage O Cfg svc w = (Done r, w') ->
  only_history w w' /\
  forall jars, r = inl jars -> exists dir pod items,
    head (Pods s) = Some pod /\
    happened (CopyFromPod (ProjectNs Cfg) (PodName pod) "/app" (dir +:+ "/app")) None w' /\
    happened (Walk (dir +:+ "/app")) items w' /\ jars = jar_files items.
Proof.
  intros Hs H. split.
  { assert (Hp : preserves only_history (getServiceJarPackage O Cfg svc)) by
      (unfold getServiceJarPackage, GenSvcJarImageTempDir; preserve).
    exact (preserves_alone _ _ _ _ _ Hp H). }
  intros jars ->. unfold getServiceJarPackage, GenSvcJarImageTempDir in H.
  rewrite (bind_done _ _ _ _ _ (load_svc_done _ _ _ Hs)) in H. apply bind_inv_done in H as (d & w1 & E & H). apply ext_inv in E as [-> _].
  destruct d as [dir|err]; [|by go_inv].
  match type of H with _ ?w1 = _ => rewrite (bind_done _ _ w1 w1 s (load_svc_done svc s w1 Hs)) in H end.
  destruct (Pods s) as [|pod pods]; [by go_inv|].
  apply bind_inv_done in H as (d & w1 & E & H). apply ext_inv in E as [-> _].
  destruct d as [err|]; [by go_inv|].
  apply bind_inv_done in H as (items & w1 & E & H). apply ext_inv in E as [-> _]. go_inv.
  exists dir, pod, items. unfold happened. cbn. split_and!; [done| | |done]; set_solver.
Qed.

Lemma jar_files_suffix items p : p ∈ jar_files items -> HasSuffix p ".jar" = true.
Proof.
  unfold jar_files. intros (i & -> & [Hi _]%list_elem_of_filter)%list_elem_of_fmap.
  apply Is_true_true in Hi. by apply andb_true_iff in Hi as [_ Hi].
Qed.

Lemma lock_load_free svc s w :
  svc_heap w !! svc = Some s -> LoadJarPackageLock s = false ->
  lock_load svc w = (Done tt, with_svc_heap (alter (svc_with_load_lock true) svc) w).
Proof. intros Hs Hfree. cbn. by rewrite Hs, Hfree. Qed.

Lemma reloadJarAddr_inv svc s w err w' l o :
  svc_heap w !! svc = Some s -> Services w !! svc_Name s = Some l -> svc_heap w !! l = Some o ->
  LoadJarPackageLock s = false ->
  reloadJarAddr O Cfg svc w = (Done err, w') ->
  match err with
  | Some e => svc_heap w' = <[l := svc_with_error (jar_error (svc_Name s) e) o]> (svc_heap w)
  | None => exists dir pod items jars, jars = jar_files items /\
      Forall (fun p => HasSuffix p ".jar" = true) jars /\ head (Pods s) = Some pod /\
      happened (CopyFromPod (ProjectNs Cfg) (PodName pod) "/app" (dir +:+ "/app")) None w' /\
      happened (Walk (dir +:+ "/app")) items w' /\
      svc_heap w' = <[l := svc_with_jars jars o]> (svc_heap w)
  end /\ Services w' = Services w.
Proof.
  intros Hs Hl Ho Hfree H. unfold reloadJarAddr in H.
  rewrite (bind_done _ _ _ _ _ (lock_load_free svc s w Hs Hfree)) in H.
  apply bind_inv_done in H as (r & w1 & E & H).
  eapply getServiceJarPackage_inv in E as [(_ & _ & HS1 & HH1 & _ & _) Hjars];
    [|cbn; by rewrite lookup_alter_eq, Hs].
  cbn in HS1, HH1. assert (Hs1 : svc_heap w1 !! svc = Some (svc_with_load_lock true s))
    by (by rewrite HH1, lookup_alter_eq, Hs).
  rewrite (bind_done _ _ _ _ _ (load_svc_done _ _ _ Hs1)) in H.
  apply bind_inv_done in H as (e & w2 & E & H). unfold unlock_load, update_svc in H. go_inv.
  unfold store_jars, GetService in E. rewrite bind_run, gets_run in E. cbn [svc_Name svc_with_load_lock] in E.
  rewrite HS1, Hl in E.
  assert (Hheap : forall f : Service -> Service, (forall b x, f (svc_with_load_lock b x) = svc_with_load_lock b (f x)) ->
    alter (svc_with_load_lock false) svc (alter f l (alter (svc_with_load_lock true) svc (svc_heap w))) =
      <[l := f o]> (svc_heap w)).
  { intros f Hf. apply map_eq. intros i. destruct (decide (i = l)) as [->|Hil].
    - rewrite lookup_insert_eq. destruct (decide (svc = l)) as [->|].
      + rewrite !lookup_alter_eq, Ho. cbn. simplify_eq. rewrite <- Hf. do 2 f_equal. by destruct s; cbn in *; subst.
      + rewrite lookup_alter_ne, lookup_alter_eq, lookup_alter_ne, Ho by done. done.
    - rewrite lookup_insert_ne by done. destruct (decide (i = svc)) as [->|].
      + rewrite lookup_alter_eq, lookup_alter_ne, lookup_alter_eq, Hs by done. cbn. by destruct s; cbn in *; subst.
      + by rewrite !lookup_alter_ne. }
  destruct r as [jars|x]; cbn in E; simplify_eq; cbn;
    (split; [rewrite HH1|by rewrite HS1, insert_id]).
  - destruct (Hjars jars eq_refl) as (dir & pod & items & Hpod & Hcp & Hw & ->).
    exists dir, pod, items, (jar_files items). split_and!; try done.
    + apply Forall_forall. intros p. apply jar_files_suffix.
    + apply (Hheap (svc_with_jars (jar_files items))). by intros b [].
  - apply (Hheap (svc_with_error (jar_error (svc_Name s) x))). by intros b [].
Qed.

(** The goroutines that wait to be started stay. *)
Definition same_spawned (w w' : world) : Prop := spawned w' = spawned w.
#[local] Instance same_spawned_preorder : PreOrder same_spawned.
Proof. split; [by intros w|]. intros w1 w2 w3 H1 H2. unfold same_spawned in *. congruence. Qed.
Lemma only_history_same_spawned w w' : only_history w w' -> same_spawned w w'.
Proof. by intros (_ & _ & _ & _ & _ & H & _). Qed.
#[local] Hint Resolve only_history_same_spawned : preserves.
#[local] Hint Extern 5 (preserves same_spawned _) =>
  apply (preserves_sub only_history same_spawned _ only_history_same_spawned); solve [auto with preserves] : preserves.
Lemma update_svc_spawned l f : preserves same_spawned (update_svc l f).
Proof. by apply preserves_modify. Qed.
Lemma SetService_spawned k l : preserves same_spawned (SetService k l).
Proof. by apply preserves_modify. Qed.
#[local] Hint Resolve update_svc_spawned SetService_spawned : preserves.
Lemma reloadJarAddr_spawned svc : preserves same_spawned (reloadJarAddr O Cfg svc).
Proof. unfold reloadJarAddr, unlock_load, getServiceJarPackage, GenSvcJarImageTempDir, store_jars. preserve. Qed.


(** C26: a reload that returns leaves the locks of all services as it found them and writes
    only the service registered under the name: after an error its message, with the jar
    list kept; without error the files ending in .jar of the copy of /app of the first pod,
    with the message kept, so that a message set once stays. *)
Theorem reloadJarAddr_spec svc s w err w' l o :
  svc_heap w !! svc = Some s -> Services w !! svc_Name s = Some l -> svc_heap w !! l = Some o ->
  LoadJarPackageLock s = false ->
  reloadJarAddr O Cfg svc w = (Done err, w') ->
  match err with
  | Some e => svc_heap w' = <[l := svc_with_error (jar_error (svc_Name s) e) o]> (svc_heap w)
  | None => exists dir pod items jars, jars = jar_files items /\
      Forall (fun p => HasSuffix p ".jar" = true) jars /\ head (Pods s) = Some pod /\
      happened (CopyFromPod (ProjectNs Cfg) (PodName pod) "/app" (dir +:+ "/app")) None w' /\
      happened (Walk (dir +:+ "/app")) items w' /\
      svc_heap w' = <[l := svc_with_jars jars o]> (svc_heap w)
  end /\ Services w' = Services w.
Proof. apply reloadJarAddr_inv. Qed.
End RegistryTheorems.

Section StartTheorems.
Variable O : oracle.
Variable Cfg : Conf.
Variable RetryOnConflict : retrier.
Context `{!RetryLaw RetryOnConflict}.

Lemma reloadJarAddr_no_pods svc s w :
  svc_heap w !! svc = Some s -> Pods s = [] -> LoadJarPackageLock s = false ->
  (forall h, exists dir, O _ h (MkdirTemp "" (svc_Name s +:+ "svc-jar-*")) = inl dir) ->
  (reloadJarAddr O Cfg svc w).1 = Panic index_out_of_range.
Proof.
  intros Hs Hp Hfree Htmp. destruct (Htmp (history w)) as [dir Hdir].
  set (w1 := with_svc_heap (alter (svc_with_load_lock true) svc) w).
  assert (Hs1 : svc_heap w1 !! svc = Some (svc_with_load_lock true s)) by (cbn; by rewrite lookup_alter_eq, Hs).
  unfold reloadJarAddr. rewrite (bind_done _ _ _ _ _ (lock_load_free svc s w Hs Hfree)). unfold getServiceJarPackage.
  rewrite bind_run, (bind_done _ _ _ _ _ (load_svc_done _ _ _ Hs1)), bind_run.
  unfold GenSvcJarImageTempDir. cbn. rewrite Hdir. cbn. by rewrite lookup_alter_eq, Hs; cbn; rewrite Hp.
Qed.

Lemma saveServices_no_pods svc s w :
  svc_heap w !! svc = Some s -> Pods s = [] -> LoadJarPackageLock s = false ->
  Services w !! svc_Name s = None ->
  (forall h, exists dir, O _ h (MkdirTemp "" (svc_Name s +:+ "svc-jar-*")) = inl dir) ->
  (saveServices O Cfg (Some svc) true w).1 = Panic index_out_of_range.
Proof.
  intros Hs Hp Hfree Hnew Htmp. unfold saveServices. rewrite (bind_done _ _ _ _ _ (load_svc_done _ _ _ Hs)).
  unfold GetService, SetService, go. rewrite bind_run, gets_run, Hnew. go_run.
  set (w1 := with_spawned _ _).
  pose proof (reloadJarAddr_no_pods svc s w1 Hs Hp Hfree Htmp) as Hr. cbn [negb]. rewrite bind_run.
  destruct (reloadJarAddr _ _ _ w1) as [o w2]. cbn in Hr. by subst o.
Qed.

(** While the deployments of the namespace are loaded, an instrumented deployment
    without pods, say one scaled to zero, ends the agent: when its service is new, the
    listing is empty and the temporary directory can be made, the handler of the informer
    and the loop of the start-up panic on [svc.Pods[0]]. *)
Theorem deployment_without_pods_panics d m n w :
  (forall h, O _ h (ListPods (ProjectNs Cfg) ("app=" +:+ default "" (deploy_Labels d !! "app"))) = inl []) ->
  (forall h, exists dir, O _ h (MkdirTemp "" (default "" (deploy_Labels d !! "app") +:+ "svc-jar-*")) = inl dir) ->
  coverage_image (deploy_Containers d) <> "" ->
  Services w !! default "" (deploy_Labels d !! "app") = None ->
  n < m ->
  (AddFunc O Cfg RetryOnConflict m n (Some d) w).1 = Panic index_out_of_range.
Proof using RetryLaw0.
  set (name := default "" _). intros Hls Htmp Himg Hnew Hmn.
  unfold AddFunc. destruct (Nat.ltb_spec n m) as [_|]; [|lia].
  unfold getServiceByDeploy. case_bool_decide as Hi; [done|]. fold name.
  set (s0 := MkService name _ _ _ _ _ _ _). set (l := fresh (dom (svc_heap w))).
  rewrite !bind_run. cbn [new_svc local alone]. fold l. cbn beta iota.
  set (w1 := with_svc_heap _ w). rewrite bind_run.
  erewrite (retry_first RetryOnConflict just_error (list_pods O Cfg l name) w1 None);
    [|unfold list_pods; rewrite bind_run; cbn; rewrite Hls; reflexivity|done].
  set (w2 := with_svc_heap (alter _ l) _). rewrite ret_run. cbn beta iota.
  assert (Hl : svc_heap w2 !! l = Some s0) by (cbn; by rewrite lookup_alter_eq, lookup_insert_eq).
  pose proof (saveServices_no_pods l s0 w2 Hl eq_refl eq_refl Hnew Htmp) as Hp.
  rewrite bind_run. destruct (saveServices _ _ _ _ w2) as [o w3]. cbn in Hp. by subst o.
Qed.

(** Deleting a deployment looks its own name up, while services are registered under
    their [app] label: nothing happens unless a service has that very name, and then that
    service is marked deleted and its context ended, for good. *)
Theorem DeleteFunc_spec d w :
  match Services w !! deploy_Name d with
  | None => DeleteFunc (Some d) w = (Done tt, w)
  | Some l =>
      forall o, svc_heap w !! l = Some o ->
      exists w', DeleteFunc (Some d) w = (Done tt, w') /\ Services w' = Services w /\
        svc_heap w' = <[l := svc_deleted o]> (svc_heap w) /\ history w' = history w
  end.
Proof.
  unfold DeleteFunc, deleteService, GetService. rewrite bind_run, gets_run.
  destruct (Services w !! deploy_Name d) as [l|] eqn:El; [|reflexivity]. intros o Ho.
  eexists. split; [reflexivity|]. cbn. split_and!; [by apply insert_id| |done].
  apply map_eq. intros i. destruct (decide (i = l)) as [->|].
  - by rewrite lookup_alter_eq, lookup_insert_eq, Ho.
  - by rewrite lookup_alter_ne, lookup_insert_ne.
Qed.
End StartTheorems.

(** ** Witnesses *)

Definition demo_deploy : deployment :=
  Deployment "deploy-shop" {["app" := "shop"]} [Container "shop:1" [("OPEN_JACOCO_AGENT", "true")]].
Definition shop (image : string) (deleted : bool) : Service :=
  MkService "shop" image ["/old.jar"] [MkPod "10.0.0.1" "pod-1" "app" "" false] false "" deleted deleted.
(** A world with the service [shop], and an object not yet registered. *)
Definition one_service (deleted : bool) : world :=
  World ∅ ∅ {["shop" := 1%positive]}
    {[1%positive := shop "shop:1" deleted; 2%positive := shop "shop:2" false]} ∅ [] [].

Lemma getServiceByDeploy_spec_witness :
  exists items, happened (ListPods "ns" "app=shop") (inl items)
    (getServiceByDeploy good_oracle demo_conf retry_once (Some demo_deploy) empty_world).2 /\
    length items = 1.
Proof.
  destruct (getServiceByDeploy_spec good_oracle demo_conf retry_once demo_deploy empty_world
    (fresh (dom (svc_heap empty_world))) _ eq_refl)
    as (im & items & pods & pre & c & post & _ & _ & _ & _ & Hh & Hp & Hm & _ & Hl & _).
  exists items. split; [exact Hh|]. vm_compute in Hl. injection Hl as _ <-.
  apply (f_equal length) in Hm. rewrite !length_map in Hm. symmetry. exact Hm.
Defined.


Lemma reloadJarAddr_spec_witness :
  let w' := (reloadJarAddr good_oracle demo_conf 2%positive (one_service false)).2 in
  exists jars, svc_heap w' !! 1%positive = Some (svc_with_jars jars (shop "shop:1" false)) /\
    Forall (fun p => HasSuffix p ".jar" = true) jars.
Proof.
  cbv zeta.
  destruct (reloadJarAddr_spec good_oracle demo_conf 2%positive (shop "shop:2" false) (one_service false) None
    (reloadJarAddr good_oracle demo_conf 2%positive (one_service false)).2
    1%positive (shop "shop:1" false) eq_refl eq_refl eq_refl eq_refl eq_refl)
    as [(dir & pod & items & jars & _ & Hj & _ & _ & _ & Hh) _].
  exists jars. split; [rewrite Hh; apply lookup_insert_eq|exact Hj].
Defined.

(** The same world, in which no pod is listed. *)
Definition no_pods_oracle : oracle := fun A h c =>
  match c in call A return A -> A with
  | ListPods _ _ => fun _ => inl []
  | _ => fun r => r
  end (good_oracle A h c).

Lemma deployment_without_pods_panics_witness :
  (AddFunc no_pods_oracle demo_conf retry_once 1 0 (Some demo_deploy) empty_world).1
    = Panic index_out_of_range.
Proof.
  apply (deployment_without_pods_panics no_pods_oracle demo_conf retry_once demo_deploy 1 0 empty_world);
    [intros h; reflexivity|intros h; eexists; reflexivity|discriminate|reflexivity|lia].
Defined.

Lemma DeleteFunc_spec_witness :
  exists w', DeleteFunc (Some (Deployment "shop" ∅ [])) (one_service false) = (Done tt, w') /\
    svc_heap w' !! 1%positive = Some (svc_deleted (shop "shop:1" false)).
Proof.
  pose proof (DeleteFunc_spec (Deployment "shop" ∅ []) (one_service false)) as H.
  change (Services _ !! _) with (Some 1%positive) in H. cbv beta match in H.
  destruct (H (shop "shop:1" false) eq_refl) as (w' & Hw & _ & Hh & _).
  exists w'. split; [exact Hw|]. rewrite Hh. apply lookup_insert_eq.
Defined.
