(* ===== verification/Jobs.v ===== *)
(** * [agent/core/job.go]: detection jobs, dumps, merges and reports *)

From stdpp Require Import base tactics option list gmap strings pretty.
From S2P Require Import Prelude GoStrings Goroutines NetHttp Conf AgentWorld Callback Services.

Local Open Scope string_scope.

Section Jobs.
Variable O : oracle.
Variable Cfg : Conf.
Variable url_Parse_error : string -> option error.
Variable json_Marshal : json -> string + error.
Variable json_Unmarshal_detail : string -> CodeCoverageExecRecordDetailResp + error.
(** [retry.RetryOnConflict(retry.DefaultRetry, fn)] of client-go. *)
Variable RetryOnConflict : retrier.

#[local] Abbreviation callbackEnd := (Callback.callbackEnd O Cfg url_Parse_error json_Marshal).
#[local] Abbreviation callbackReport := (Callback.callbackReport O Cfg url_Parse_error json_Marshal).
#[local] Abbreviation callbackReady := (Callback.callbackReady O Cfg url_Parse_error json_Marshal).
#[local] Abbreviation status := (Callback.status O Cfg url_Parse_error json_Unmarshal_detail).

Definition mergeExec (destFile : string) (files : list string) : prog world (option error) :=
  simpleRun O "" "java" (["-jar"; JacocoCliAddr; "merge"] ++ files ++ ["--destfile"; destFile])%list.

(** ** Dumping *)

Definition dial_error (svc addr err : string) : string :=
  "svc " +:+ svc +:+ " container " +:+ addr +:+ " fail to dial error " +:+ err.
Definition temp_error (svc addr err : string) : string :=
  "svc " +:+ svc +:+ " container " +:+ addr +:+ " fail to create temp file error " +:+ err.
Definition dump_error (svc addr err : string) : string :=
  "svc " +:+ svc +:+ " container " +:+ addr +:+ " dump exec error " +:+ err.

Definition dump_args (addr file : string) : list string :=
  ["-jar"; JacocoCliAddr; "dump"; "--address"; addr; "--destfile"; file; "--port"; "6300"; "--reset"].

(** The loop over the pods of a service, from index [i]: the files dumped so far and
    [podErrorMap]. [None]: the goroutine returned from inside the loop. *)
Fixpoint dump_pods (svc : string) (i : nat) (pods : list Pod) (podExecList : list string)
    (podErrorMap : gmap string string) : prog world (option (list string * gmap string string)) :=
  match pods with
  | [] => mret (Some (podExecList, podErrorMap))
  | pod :: pods' =>
      if HasError pod then dump_pods svc (S i) pods' podExecList podErrorMap
      else
        err ← ext O (DialTimeout (Addr pod +:+ ":6300"));
        match err with
        | Some err =>
            dump_pods svc (S i) pods' podExecList
              (<[Addr pod := dial_error svc (Addr pod) err]> podErrorMap)
        | None =>
            f ← ext O (CreateTemp "" ("svc_pod_" +:+ pretty i));
            match f with
            | inr err => mret None
            | inl f =>
                err ← simpleRun O "" "java" (dump_args (Addr pod) f);
                match err with
                | Some err => mret None
                | None => dump_pods svc (S i) pods' (podExecList ++ [f])%list podErrorMap
                end
            end
        end
  end.

(** The last loop of the goroutine, on one pod of [nowSvc]. *)
Definition mark_pod (podErrorMap : gmap string string) (pod : Pod) : Pod :=
  let msg := default "" (podErrorMap !! Addr pod) in
  if bool_decide (msg <> "") then MkPod (Addr pod) (PodName pod) (ContainerName pod) msg true else pod.

(** [nowSvc.ErrorMessage += more] *)
Definition svc_add_error (more : string) (s : Service) : Service :=
  svc_with_error (ErrorMessage s +:+ more) s.

Definition merge_error (err : option error) : string :=
  match err with Some err => "merge pod exec error " +:+ err | None => "" end.

(** The end of the goroutine, once the pods' files are merged. *)
Definition record_dump (key name svcErrorMessage : string) (podErrorMap : gmap string string) : prog world unit :=
  nowSvc ← GetService key;
  match nowSvc with
  | None => mret tt
  | Some l =>
      n ← load_svc l;
      if IsDelete n then mret tt
      else
        _ ← update_svc l (svc_add_error svcErrorMessage);
        _ ← update_svc l (fun s => svc_with_pods (map (mark_pod podErrorMap) (Pods s)) s);
        SetService name l
  end.

(** The goroutine of one service in [dumpExec]. The messages it adds to [svcErrorMessage]
    before it returns early are lost. *)
Definition dump_service (planID : N) (key : string) : prog world unit :=
  svc ← GetService key;
  match svc with
  | None => mret tt
  | Some l =>
      s ← load_svc l;
      if IsDelete s then mret tt
      else
        let dir := GenSvcDumpExecDir planID (svc_Name s) in
        there ← Exists O dir;
        made ← (if (there : bool) then mret None else simpleRun O "" "mkdir" ["-p"; dir]);
        match made with
        | Some _ => mret tt
        | None =>
            svcExec ← ext O (CreateTemp dir ("svc_" +:+ svc_Name s +:+ "_*.exec"));
            match svcExec with
            | inr _ => mret tt
            | inl svcExec =>
                now ← load_svc l;
                pods ← dump_pods (svc_Name s) 0 (Pods now) [] ∅;
                match pods with
                | None => mret tt
                | Some (podExecList, podErrorMap) =>
                    err ← mergeExec svcExec podExecList;
                    record_dump key (svc_Name s) (merge_error err) podErrorMap
                end
            end
        end
  end.

(** The goroutine of one service, with its deferred [wait.Done()]. *)
Definition dump_task (planID : N) (wait : loc) (key : string) : prog world unit :=
  _ ← dump_service planID key;
  group_Done wait.

(** The body of the [Range] of [dumpExec]. *)
Definition dump_body (planID : N) (job wait : loc) (_ : unit) (key : string) : prog world (bool * unit) :=
  j ← load_job job;
  if ctx_done j then mret (false, tt)
  else
    _ ← group_Add wait;
    _ ← fork (dump_task planID wait key);
    mret (true, tt).

Definition dumpExec (planID : N) : prog world unit :=
  job ← GetJob planID;
  match job with
  | None => mret tt
  | Some l =>
      _ ← lock_dump l;
      wait ← new_group 5;
      _ ← range_services O (dump_body planID l wait) tt;
      _ ← group_Wait wait;
      unlock_dump l
  end.

(** ** Merging *)

Definition exec_files (dir : string) (names : list string) : list string :=
  map (fun f => dir +:+ "/" +:+ f) (filter (fun f => HasSuffix f ".exec") names).

Definition remove_files (files : list string) : prog world unit :=
  for_each files (fun f => _ ← ext O (Remove f); mret tt).

(** What follows the merge of one service's files: [false] if the visit ends there. *)
Definition record_merge (name : string) (err : option error) : prog world bool :=
  match err with
  | None => mret true
  | Some _ =>
      nowSvc ← GetService name;
      match nowSvc with
      | None => mret false
      | Some l =>
          n ← load_svc l;
          if IsDelete n then mret false
          else
            _ ← update_svc l (svc_add_error (merge_error err));
            _ ← SetService name l;
            mret true
      end
  end.

(** The body of the [Range] of [mergeAllSvcExec]: the visit of one service. *)
Definition merge_service (planID : N) (merged : gmap string string) (key : string)
  : prog world (gmap string string) :=
  svc ← GetService key;
  match svc with
  | None => mret merged
  | Some l =>
      s ← load_svc l;
      if IsDelete s then mret merged
      else
        let dir := GenSvcDumpExecDir planID (svc_Name s) in
        files ← ext O (ReadDir dir);
        match files with
        | inr _ => mret merged
        | inl files =>
            let svcExecList := exec_files dir files in
            svcExec ← ext O (CreateTemp dir ("svc_" +:+ svc_Name s +:+ "_*.exec"));
            match svcExec with
            | inr _ => mret merged
            | inl svcExec =>
                err ← mergeExec svcExec svcExecList;
                recorded ← record_merge (svc_Name s) err;
                if (recorded : bool) then
                  _ ← remove_files svcExecList;
                  mret (<[svc_Name s := svcExec]> merged)
                else mret merged
            end
        end
  end.

Definition merge_body (planID : N) (job : loc) (merged : gmap string string) (key : string)
  : prog world (bool * gmap string string) :=
  j ← load_job job;
  if ctx_done j then mret (false, merged)
  else merged ← merge_service planID merged key; mret (true, merged).

Definition mergeAllSvcExec (planID : N) : prog world (gmap string string) :=
  job ← GetJob planID;
  match job with
  | None => mret ∅
  | Some l =>
      _ ← lock_dump l;
      merged ← range_services O (merge_body planID l) ∅;
      _ ← unlock_dump l;
      mret merged
  end.

(** ** Messages *)

Definition nl : string := String (Ascii.ascii_of_nat 10) "".
Definition line (msg : string) : string := if bool_decide (msg = "") then "" else msg +:+ nl.

Definition svc_message (s : Service) : string :=
  let servicesMessage := line (ErrorMessage s) in
  let podErrorMessage := fold_left (fun m pod => m +:+ line (pod_ErrorMsg pod)) (Pods s) "" in
  (if bool_decide (servicesMessage = "") then ""
   else "svc " +:+ svc_Name s +:+ " error message " +:+ nl +:+ servicesMessage) +:+
  (if bool_decide (podErrorMessage = "") then ""
   else "svc " +:+ svc_Name s +:+ " pod error message " +:+ nl +:+ podErrorMessage).

Definition job_message (j : DetectionJob) : string :=
  if bool_decide (ErrorMsg j = "") then ""
  else ErrorMsg j +:+ "job error message: " +:+ nl +:+ ErrorMsg j +:+ nl.

Definition message_body (allMessage : string) (key : string) : prog world (bool * string) :=
  svc ← GetService key;
  match svc with
  | None => mret (true, allMessage)
  | Some l => s ← load_svc l; mret (true, allMessage +:+ svc_message s)
  end.

(** [msg[:1500]] if the message is longer. *)
Definition truncate_message (msg : string) : string :=
  if Nat.ltb 1500 (String.length msg) then take_str 1500 msg else msg.

Definition buildCallbackErrorMessage (planID : N) : prog world string :=
  job ← GetJob planID;
  match job with
  | None => mret ""
  | Some l =>
      j ← load_job l;
      allMessage ← range_services O message_body "";
      mret (truncate_message (job_message j +:+ line allMessage))
  end.

(** [callbackEndWithMessage]: the job fails, and the center is told once. *)
Definition job_failed (j : DetectionJob) : DetectionJob :=
  job_cancelled (job_with_job_status Fail_ (job_with_status FailStatus j)).

Definition callbackEndWithMessage (planID : N) (message : string) : prog world unit :=
  job ← GetJob planID;
  match job with
  | None => mret tt
  | Some l =>
      _ ← update_job l job_failed;
      _ ← SetJob planID l;
      _ ← callbackEnd planID message FailStatus "";
      mret tt
  end.

(** ** Class files and sources *)

Definition jars_body (jarAddrList : list string) (key : string) : prog world (bool * list string) :=
  svc ← GetService key;
  match svc with
  | None => mret (true, jarAddrList)
  | Some l =>
      s ← load_svc l;
      if bool_decide (ErrorMessage s <> "") then mret (true, jarAddrList)
      else mret (true, (jarAddrList ++ JarAddrList s)%list)
  end.

Definition extract_command (jars : list string) : string :=
  "bash " +:+ ExtractCliAddr +:+ " " +:+ Join jars "," +:+ " " +:+ GenProjectClassDir.

Definition loadClassSources (planID : N) : prog world (option error) :=
  jarAddrList ← range_services O jars_body [];
  if bool_decide (jarAddrList = []) then mret (Some "all service not find jar path")
  else
    err ← simpleRun O "" "/bin/bash" ["-lc"; extract_command jarAddrList];
    match err with
    | None => mret None
    | Some err =>
        callbackError ← RetryOnConflict _ just_error
          (callbackEnd planID ("failed to get all svc jar classes and sources, error " +:+ err) FailStatus "");
        match callbackError with
        | Some e => mret (Some e)
        | None => mret (Some err)
        end
    end.

(** ** The report *)

Definition report_args (exec kind out : string) : list string :=
  ["-jar"; JacocoCliAddr; "report"; exec; "--classfiles"; GenProjectClassDir +:+ "/sub/libjarcls";
   "--sourcefiles"; GenProjectClassDir +:+ "/sub/libjarsrc"; kind; out].
Definition tar_command (dir archive file : string) : string :=
  "cd " +:+ dir +:+ " && tar -czf " +:+ archive +:+ " " +:+ file.

(** The part of [report] between the two lock operations: the project's dump file. *)
Definition merge_project (svcExecMap : gmap string string) : prog world (string + error) :=
  if bool_decide (svcExecMap = ∅) then mret (inr "not find svc exec dump file")
  else
    projectExec ← ext O (CreateTemp "" "_project_.exec");
    match projectExec with
    | inr err => mret (inr ("create project exec dump file error " +:+ err))
    | inl projectExec =>
        keys ← pick_order O (map_to_list svcExecMap).*1;
        err ← mergeExec projectExec (omap (fun k => svcExecMap !! k) keys);
        match err with
        | Some err => mret (inr ("merge all svc exec dump error " +:+ err))
        | None => mret (inl projectExec)
        end
    end.

(** The XML report and the end callback that carries it: the message sent. *)
Definition report_xml (planID : N) (projectExec tempDir : string) : prog world (string + error) :=
  let fileName := tempDir +:+ "/_project_xml" in
  err ← ext O (Create fileName);
  match err with
  | Some err => mret (inr ("failed to create project xml temp file, error " +:+ err))
  | None =>
      err ← simpleRun O "" "java" (report_args projectExec "--xml" fileName);
      match err with
      | Some err => mret (inr ("failed to report project xml cover, error " +:+ err))
      | None =>
          err ← simpleRun O "" "sh" ["-c"; tar_command tempDir "_project_xml.tar.gz" "_project_xml"];
          match err with
          | Some err => mret (inr ("tar app report xml error " +:+ err))
          | None =>
              errorMessage ← buildCallbackErrorMessage planID;
              err ← RetryOnConflict _ just_error
                (callbackEnd planID errorMessage SuccessStatus (tempDir +:+ "/_project_xml.tar.gz"));
              match err with
              | Some err => mret (inr ("report project cover xml error " +:+ err))
              | None => mret (inl errorMessage)
              end
          end
      end
  end.

(** The HTML report and its callback. *)
Definition report_html (planID : N) (projectExec tempDir errorMessage : string) : prog world (option error) :=
  err ← simpleRun O "" "java" (report_args projectExec "--html" (tempDir +:+ "/_project_html"));
  match err with
  | Some err => mret (Some ("faild report porject html, error " +:+ err))
  | None =>
      times ← ext O NowFormat;
      err ← simpleRun O "" "sh" ["-c"; tar_command tempDir (times +:+ ".tar.gz") "_project_html"];
      match err with
      | Some err => mret (Some ("failed tar project html dir, error " +:+ err))
      | None =>
          err ← callbackReport planID SuccessStatus errorMessage (tempDir +:+ "/" +:+ times +:+ ".tar.gz");
          match err with
          | Some err => mret (Some ("failed report project html tar.gz, error " +:+ err))
          | None => mret None
          end
      end
  end.

Definition report (planID : N) : prog world (option error) :=
  job ← GetJob planID;
  match job with
  | None => mret None
  | Some l =>
      j ← load_job l;
      if bool_decide (Status j <> EndingStatus) then mret None
      else
        _ ← dumpExec planID;
        svcExecMap ← mergeAllSvcExec planID;
        _ ← lock_dump l;
        merged ← merge_project svcExecMap;
        match merged with
        | inr err => mret (Some err)
        | inl projectExec =>
            _ ← unlock_dump l;
            tempDir ← ext O (MkdirTemp "" "");
            match tempDir with
            | inr err => mret (Some ("failed to create project xml temp file, error " +:+ err))
            | inl tempDir =>
                sent ← report_xml planID projectExec tempDir;
                match sent with
                | inr err => mret (Some err)
                | inl errorMessage => report_html planID projectExec tempDir errorMessage
                end
            end
        end
  end.

(** ** Scheduling *)

Definition settings_file : string := "/usr/share/maven/conf/settings.xml".

Definition new_detection_job (d : CodeCoverageExecRecordDetail) : DetectionJob :=
  MkJob (detail_PlanID d) (detail_Status d)
    (if bool_decide (detail_Status d = RunningStatus) || bool_decide (detail_Status d = Ready)
     then Running else "")
    (detail_MavenSetting d) (detail_Includes d) (detail_Excludes d) "" false false.

(** [RunJobs.Range] calling every job's [cancelFunc]. *)
Definition cancel_all : prog world unit :=
  jobs ← gets (fun w : world => (map_to_list (RunJobs w)).*2);
  for_each jobs (fun l => update_job l job_cancelled).

Definition register_job (d : CodeCoverageExecRecordDetail) : prog world unit :=
  newJob ← new_job (new_detection_job d);
  _ ← cancel_all;
  there ← Exists O settings_file;
  made ← (if (there : bool) then mret None
          else simpleRun O "" "bash" ["-c"; "cd /usr/share/maven/conf && touch settings.xml"]);
  match made with
  | Some _ => mret tt
  | None =>
      f ← ext O (OpenFile settings_file);
      match f with
      | Some _ => mret tt
      | None =>
          err ← ext O (WriteString settings_file (detail_MavenSetting d));
          match err with
          | Some _ => mret tt
          | None =>
              _ ← ext O (Setenv "INCLUDES" (detail_Includes d));
              _ ← ext O (Setenv "EXCLUDES" (detail_Excludes d));
              _ ← SetJob (detail_PlanID d) newJob;
              go (GoSchedulingJob (detail_PlanID d))
          end
      end
  end.

Definition saveJob (detail : option CodeCoverageExecRecordDetail) : prog world unit :=
  match detail with
  | None => mret tt
  | Some d =>
      job ← GetJob (detail_PlanID d);
      match job with
      | None => register_job d
      | Some l =>
          j ← load_job l;
          if bool_decide (PlanID j <> detail_PlanID d) then register_job d
          else
            _ ← update_job l (job_with_status (detail_Status d));
            SetJob (detail_PlanID d) l
      end
  end.

(** The closure [WatchJob] gives to [RetryOnConflict]: the error it returns, and the value it
    gives to [detail]. *)
Definition query_status : prog world (option error * option CodeCoverageExecRecordDetail) :=
  r ← status;
  match r with
  | inr err => mret (Some err, None)
  | inl detail => mret (None, detail)
  end.

(** One round of [WatchJob]. *)
Definition watch_job : prog world unit :=
  r ← RetryOnConflict _ fst query_status;
  let '(err, detail) := r in
  match err, detail with
  | None, Some d =>
      if N.leb (detail_PlanID d) 0 then ext O (Sleep 180)
      else
        _ ← saveJob (Some d);
        ext O (Sleep 60)
  | _, _ => ext O (Sleep 180)
  end.

(** One round of the goroutine [schedulingJob] starts. *)
Definition terminal (st : string) : bool :=
  bool_decide (st = FailStatus) || bool_decide (st = SuccessStatus) || bool_decide (st = CancelStatus).

Definition monitor_job (planID : N) : prog world unit :=
  job ← GetJob planID;
  match job with
  | None => mret tt
  | Some l =>
      j ← load_job l;
      if ctx_done j then
        _ ← ext O (Sleep 300);
        go (GoCleanJob planID)
      else if terminal (Status j) then update_job l job_cancelled
      else
        _ ← (if bool_decide (Status j = EndingStatus) then
               err ← report planID;
               match err with
               | Some err => callbackEndWithMessage planID ("report xml and html error " +:+ err)
               | None => mret tt
               end
             else mret tt);
        _ ← ext O (Sleep 30);
        go (GoMonitorJob planID)
  end.

(** The rest of it, five minutes after the end of the job's context. *)
Definition clean_job (planID : N) : prog world unit :=
  _ ← simpleRun O "" "rm" ["-rf"; GenPlanDumpExecDir planID];
  DeleteJob planID.

(** [schedulingJob] after it started its goroutine, up to its loop. *)
Definition prepare_job (planID : N) : prog world unit :=
  err ← loadClassSources planID;
  match err with
  | Some err => callbackEndWithMessage planID ("loadClassSources error " +:+ err)
  | None =>
      _ ← dumpExec planID;
      err ← RetryOnConflict _ just_error
        (msg ← buildCallbackErrorMessage planID; callbackReady planID msg);
      match err with
      | Some err => callbackEndWithMessage planID ("callback ready error " +:+ err)
      | None =>
          job ← GetJob planID;
          match job with
          | None => mret tt
          | Some l =>
              _ ← update_job l (job_with_job_status Ready);
              _ ← SetJob planID l;
              go (GoDumpLoop planID l 1)
          end
      end
  end.

Definition schedulingJob (planID : N) : prog world unit :=
  _ ← go (GoMonitorJob planID);
  job ← GetJob planID;
  match job with
  | None => mret tt
  | Some l =>
      j ← load_job l;
      if bool_decide (JobStatus j <> Running) then mret tt
      else
        there ← Exists O (GenPlanDumpExecDir planID);
        made ← (if (there : bool) then mret None else ext O (Mkdir (GenPlanDumpExecDir planID)));
        match made with
        | Some _ => mret tt
        | None => prepare_job planID
        end
  end.

(** One round of the loop of [schedulingJob]: the wait ends with the job's context or after
    five minutes. *)
Definition dump_loop (planID : N) (job : loc) (loopTimes : nat) : prog world unit :=
  j ← load_job job;
  if ctx_done j then mret tt
  else
    _ ← dumpExec planID;
    if Nat.ltb 10 (S loopTimes) then
      _ ← mergeAllSvcExec planID;
      go (GoDumpLoop planID job 1)
    else go (GoDumpLoop planID job (S loopTimes)).
End Jobs.
