(* ===== verification/JobsOrder.v ===== *)
(** * The registry of jobs stays in order

    Each entry is a job of its own plan, at most one registered job has a context that still
    runs, a cancelled job stays cancelled, and only the clean-up removes an entry. *)

From stdpp Require Import base tactics option list gmap strings.
From S2P Require Import Prelude GoStrings Goroutines NetHttp Conf AgentWorld Callback Services Jobs JobsEvolve.

Definition job_ok (w : world) : Prop :=
  forall k l, RunJobs w !! k = Some l ->
  exists p j, k = KeyUint64 p /\ job_heap w !! l = Some j /\ PlanID j = p.

(** The job registered under [k] is at [l] and its context runs. *)
Definition live (w : world) (k : map_key) (l : loc) : Prop :=
  RunJobs w !! k = Some l /\ exists j, job_heap w !! l = Some j /\ ctx_done j = false.

Definition one_live (w : world) : Prop :=
  forall k1 l1 k2 l2, live w k1 l1 -> live w k2 l2 -> k1 = k2 /\ l1 = l2.

Definition job_inv (w : world) : Prop := job_ok w /\ one_live w.

Definition job_later (j j' : DetectionJob) : Prop :=
  PlanID j' = PlanID j /\ (ctx_done j = true -> ctx_done j' = true).

Definition jobs_evolve (w w' : world) : Prop :=
  forall l j, job_heap w !! l = Some j -> exists j', job_heap w' !! l = Some j' /\ job_later j j'.

(** What any goroutine does to an orderly registry, and what those do that register no job. *)
Definition job_R (w w' : world) : Prop := job_inv w -> job_inv w' /\ jobs_evolve w w'.
Definition job_shrink (w w' : world) : Prop :=
  job_inv w -> job_inv w' /\ RunJobs w' ⊆ RunJobs w /\ jobs_evolve w w'.

#[global] Instance job_later_preorder : PreOrder job_later.
Proof. split; unfold job_later; [by intros j|]. intros j1 j2 j3 [H1 H2] [K1 K2]. split; [congruence|auto]. Qed.

#[global] Instance jobs_evolve_preorder : PreOrder jobs_evolve.
Proof.
  split; [intros w l j Hj; by exists j|]. intros w1 w2 w3 He2 He3 l j Hj.
  destruct (He2 l j Hj) as (j' & Hj' & Hl). destruct (He3 l j' Hj') as (j'' & Hj'' & Hl').
  exists j''. split; [done|by etrans].
Qed.
#[global] Instance job_R_preorder : PreOrder job_R.
Proof.
  split; [by intros w Hi; split|]. intros w1 w2 w3 H12 H23 Hi. destruct (H12 Hi) as (Hi2 & He2).
  destruct (H23 Hi2) as (Hi3 & He3). split; [done|by etrans].
Qed.
#[global] Instance job_shrink_preorder : PreOrder job_shrink.
Proof.
  split; [by intros w Hi; split_and!|]. intros w1 w2 w3 H12 H23 Hi. destruct (H12 Hi) as (Hi2 & Hs2 & He2).
  destruct (H23 Hi2) as (Hi3 & Hs3 & He3). split_and!; [done|by etrans|by etrans].
Qed.
Lemma job_shrink_R w w' : job_shrink w w' -> job_R w w'.
Proof. intros H Hi. by destruct (H Hi) as (? & _ & ?). Qed.
#[export] Hint Resolve job_shrink_R : preserves.

(** The services' operations leave the jobs alone. *)
Definition same_jobs (w w' : world) : Prop := RunJobs w' = RunJobs w /\ job_heap w' = job_heap w.
#[global] Instance same_jobs_preorder : PreOrder same_jobs.
Proof.
  split; [by intros w|]. intros w1 w2 w3 [H1 H2] [H3 H4]. split; congruence.
Qed.

Lemma same_jobs_shrink w w' : same_jobs w w' -> job_shrink w w'.
Proof.
  intros [HR HH] Hi. unfold job_inv, job_ok, one_live, live, jobs_evolve in *. rewrite HR, HH.
  split_and!; [apply Hi..|done|]. intros l j Hj. by exists j.
Qed.
Lemma same_jobs_job_R w w' : same_jobs w w' -> job_R w w'.
Proof. intros H. by apply job_shrink_R, same_jobs_shrink. Qed.
Lemma only_history_same_jobs w w' : only_history w w' -> same_jobs w w'.
Proof. by intros (HR & HH & _). Qed.
Lemma only_history_shrink w w' : only_history w w' -> job_shrink w w'.
Proof. intros H. by apply same_jobs_shrink, only_history_same_jobs. Qed.
Lemma only_groups_same_jobs w w' : only_groups w w' -> same_jobs w w'.
Proof. by intros [f ->]. Qed.
#[export] Hint Resolve only_history_same_jobs only_history_shrink : preserves.
#[export] Hint Extern 5 (preserves same_jobs _) =>
  apply (preserves_sub only_history same_jobs _ only_history_same_jobs); solve [auto with preserves] : preserves.
#[export] Hint Extern 5 (preserves same_jobs _) =>
  apply (preserves_sub only_groups same_jobs _ only_groups_same_jobs); solve [auto with preserves] : preserves.
#[export] Hint Extern 6 (preserves job_shrink _) =>
  apply (preserves_sub same_jobs job_shrink _ same_jobs_shrink); solve [auto with preserves] : preserves.
#[export] Hint Extern 7 (preserves job_R _) =>
  apply (preserves_sub job_shrink job_R _ job_shrink_R); solve [auto with preserves] : preserves.

Ltac jobs_untouched := split; [intros w; split; reflexivity|done].
Lemma update_svc_jobs l f : preserves same_jobs (update_svc l f).
Proof. jobs_untouched. Qed.
Lemma new_svc_jobs s : preserves same_jobs (new_svc s).
Proof. jobs_untouched. Qed.
Lemma SetService_jobs k l : preserves same_jobs (SetService k l).
Proof. jobs_untouched. Qed.
Lemma go_jobs g : preserves same_jobs (go g).
Proof. jobs_untouched. Qed.
Lemma lift_jobs {A} (o : outcome A) : preserves same_jobs (lift o).
Proof. jobs_untouched. Qed.
#[export] Hint Resolve update_svc_jobs new_svc_jobs SetService_jobs go_jobs lift_jobs : preserves.

(** *** Primitive operations on jobs *)

Lemma update_job_R l f : (forall j, job_later j (f j)) -> preserves job_shrink (update_job l f).
Proof.
  intros Hf. apply preserves_modify. intros w [Hok Hone]. cbn.
  assert (Hlook : forall l' j', alter f l (job_heap w) !! l' = Some j' ->
    exists j, job_heap w !! l' = Some j /\ job_later j j').
  { intros l' j' Hj'. destruct (decide (l = l')) as [<-|].
    - rewrite lookup_alter_eq in Hj'. destruct (job_heap w !! l) as [j|]; [|done]. cbn in Hj'. simplify_eq. eauto.
    - rewrite lookup_alter_ne in Hj' by done. by exists j'. }
  assert (Hev : jobs_evolve w (with_job_heap (alter f l) w)).
  { intros l' j Hj. cbn. destruct (decide (l = l')) as [<-|].
    - exists (f j). by rewrite lookup_alter_eq, Hj.
    - exists j. by rewrite lookup_alter_ne. }
  assert (Hlive : forall k l', live (with_job_heap (alter f l) w) k l' -> live w k l').
  { intros k l' [Hk (j' & Hj' & Hd)]. cbn in Hk, Hj'. split; [done|].
    destruct (Hlook _ _ Hj') as (j & Hj & _ & Hl). exists j. split; [done|].
    destruct (ctx_done j); [|done]. rewrite Hl in Hd; done. }
  split; [split|by split].
  - intros k l' Hk. destruct (Hok k l' Hk) as (p & j & -> & Hj & Hp).
    destruct (Hev l' j Hj) as (j' & Hj' & Hl & _). exists p, j'. split_and!; [done|done|congruence].
  - intros k1 l1 k2 l2 H1 H2. apply Hone; by apply Hlive.
Qed.

Lemma job_later_status s j : job_later j (job_with_status s j).
Proof. by destruct j. Qed.
Lemma job_later_job_status s j : job_later j (job_with_job_status s j).
Proof. by destruct j. Qed.
Lemma job_later_cancelled j : job_later j (job_cancelled j).
Proof. by destruct j. Qed.
Lemma job_later_lock b j : job_later j (job_with_lock b j).
Proof. by destruct j. Qed.
Lemma job_later_failed j : job_later j (job_failed j).
Proof. by destruct j. Qed.
#[export] Hint Resolve update_job_R job_later_status job_later_job_status job_later_cancelled job_later_lock
  job_later_failed : preserves.

Lemma new_job_R j : preserves job_shrink (new_job j).
Proof.
  split; [|done]. intros w [Hok Hone]. cbn. set (l := fresh _).
  assert (Hl : job_heap w !! l = None) by (apply not_elem_of_dom, is_fresh).
  assert (Hne : forall k l', RunJobs w !! k = Some l' -> l <> l').
  { intros k l' Hk <-. destruct (Hok k l Hk) as (? & ? & _ & ? & _). congruence. }
  split; [split|split; [done|]].
  - intros k l' Hk. destruct (Hok k l' Hk) as (p & j' & -> & Hj & Hp). exists p, j'. cbn.
    rewrite lookup_insert_ne by (by eapply Hne). done.
  - intros k1 l1 k2 l2 [H1 (j1 & Hj1 & D1)] [H2 (j2 & Hj2 & D2)]. cbn in *.
    rewrite lookup_insert_ne in Hj1, Hj2 by (by eapply Hne). apply Hone; split; eauto.
  - intros l' j' Hj'. cbn. exists j'. rewrite lookup_insert_ne; [done|]. intros <-. congruence.
Qed.
#[export] Hint Resolve new_job_R : preserves.

(** Storing the registered pointer again, and removing an entry. *)
Definition known_job (p : N) (l : loc) (w : world) : Prop := job_inv w /\ RunJobs w !! KeyUint64 p = Some l.

#[global] Instance job_inv_stable : Stable job_R job_inv.
Proof. intros w w' Hi HR. by apply HR. Qed.
#[global] Instance job_inv_shrink : Stable job_shrink job_inv.
Proof. intros w w' Hi HR. by apply HR. Qed.

(** A goroutine that registers no job, among others that may. *)
Abbreviation job_keeps := (keeps job_shrink job_R).

Lemma SetJob_same p l w : known_job p l w -> same_jobs w (with_RunJobs (<[KeyUint64 p := l]>) w).
Proof. intros [_ Hk]. split; [|done]. cbn. by apply insert_id. Qed.
Lemma SetJob_then G R p l {B} (k : unit -> prog world B) :
  (forall w w', same_jobs w w' -> G w w') -> (forall u, keeps G R job_inv (k u)) ->
  keeps G R (known_job p l) (SetJob p l ≫= k).
Proof.
  intros HG. apply keeps_local; intros w; [intros Hk; by apply HG, SetJob_same|].
  intros [] Hk _. apply (same_jobs_shrink w); [by apply SetJob_same|apply Hk].
Qed.
Lemma SetJob_known G R p l : (forall w w', same_jobs w w' -> G w w') -> keeps G R (known_job p l) (SetJob p l).
Proof. intros HG. apply keeps_last. intros w Hk. by apply HG, SetJob_same. Qed.

Lemma delete_shrink k w : job_shrink w (with_RunJobs (delete k) w).
Proof.
  intros [Hok Hone].
  assert (Hreg : forall k' l, RunJobs (with_RunJobs (delete k) w) !! k' = Some l -> RunJobs w !! k' = Some l).
  { intros k' l Hk. cbn in Hk. by apply lookup_delete_Some in Hk as [_ Hk]. }
  split_and!.
  - split; [by intros k' l Hk%Hreg; apply Hok|].
    intros k1 l1 k2 l2 [H1%Hreg D1] [H2%Hreg D2]. by apply Hone.
  - cbn. apply delete_subseteq.
  - intros l j Hj. by exists j.
Qed.
Lemma DeleteJob_R p : preserves job_shrink (DeleteJob p).
Proof. apply preserves_modify, delete_shrink. Qed.
Lemma DeleteService_jobs k : preserves job_shrink (DeleteService k).
Proof. apply preserves_modify, delete_shrink. Qed.
#[export] Hint Resolve DeleteJob_R DeleteService_jobs : preserves.

Lemma GetJob_known G R `{!Reflexive G} P p {B} (f : option loc -> prog world B) :
  (forall w, P w -> job_inv w) ->
  keeps G R (fun w => P w /\ RunJobs w !! KeyUint64 p = None) (f None) ->
  (forall l, keeps G R (known_job p l) (f (Some l))) ->
  keeps G R P (GetJob p ≫= f).
Proof.
  intros HP Hn Hs. apply keeps_gets; [done..|]. intros [l|]; [|done].
  eapply keeps_weaken; [apply Hs|]. intros w [H1 H2]. split; [by apply HP|done].
Qed.

(** Changing the fields of the registered job that do not matter here. *)
Lemma update_known_job G R p l f {B} (k : unit -> prog world B) :
  (forall w w', job_shrink w w' -> G w w') -> (forall j, job_later j (f j)) ->
  (forall u, keeps G R (known_job p l) (k u)) -> keeps G R (known_job p l) (update_job l f ≫= k).
Proof.
  intros HG Hf. apply keeps_local; [intros w _; by apply HG, (update_job_R l f)|].
  intros w [] [Hi Hk] _. split; [|done]. by apply (proj1 (update_job_R l f Hf)).
Qed.

(** *** Registering a job *)

(** No registered job has a context that runs. *)
Definition all_done (w : world) : Prop :=
  forall k l, RunJobs w !! k = Some l -> exists j, job_heap w !! l = Some j /\ ctx_done j = true.

(** A job of plan [p], not registered yet, at [l]. *)
Definition job_of (p : N) (l : loc) (w : world) : Prop :=
  RunJobs w !! KeyUint64 p = None /\ exists j, job_heap w !! l = Some j /\ PlanID j = p.

Lemma cancel_list ls w :
  exists w', for_each ls (fun l => update_job l job_cancelled) w = (Done tt, w') /\
    RunJobs w' = RunJobs w /\ Services w' = Services w /\ svc_heap w' = svc_heap w /\
    spawned w' = spawned w /\ history w' = history w /\
    forall l, job_heap w' !! l =
      if decide (l ∈ ls) then job_cancelled <$> (job_heap w !! l) else job_heap w !! l.
Proof.
  revert w. induction ls as [|l0 ls IH]; intros w.
  - exists w. by split_and!.
  - cbn [for_each]. rewrite bind_run. unfold update_job at 1, modify. cbn beta iota.
    destruct (IH (with_job_heap (alter job_cancelled l0) w)) as (w' & Hrun & HR & HS & HH & Hsp & Hh & Hl).
    exists w'. split_and!; [done..|]. intros l. rewrite Hl. cbn.
    destruct (decide (l = l0)) as [->|Hne].
    + rewrite lookup_alter_eq, (decide_True (P := l0 ∈ l0 :: ls)) by (by constructor).
      case_decide; [|done]. by destruct (job_heap w !! l0) as [[]|].
    + rewrite lookup_alter_ne by done.
      by rewrite (decide_ext (l ∈ ls) (l ∈ l0 :: ls)) by (rewrite elem_of_cons; naive_solver).
Qed.

Lemma cancel_all_run w :
  exists w', cancel_all w = (Done tt, w') /\
    RunJobs w' = RunJobs w /\ Services w' = Services w /\ svc_heap w' = svc_heap w /\
    spawned w' = spawned w /\ history w' = history w /\ (job_ok w -> all_done w') /\
    (forall l, (forall k, RunJobs w !! k <> Some l) -> job_heap w' !! l = job_heap w !! l) /\
    (forall k l, RunJobs w !! k = Some l -> job_heap w' !! l = job_cancelled <$> (job_heap w !! l)).
Proof.
  unfold cancel_all. rewrite bind_run. rewrite gets_run.
  assert (Hin : forall l, l ∈ (map_to_list (RunJobs w)).*2 <-> exists k, RunJobs w !! k = Some l).
  { intros l. rewrite list_elem_of_fmap. setoid_rewrite elem_of_map_to_list'. split.
    - intros ((k & l') & -> & Hk). by exists k.
    - intros (k & Hk). by exists (k, l). }
  destruct (cancel_list (map_to_list (RunJobs w)).*2 w) as (w' & Hrun & HR & HS & HH & Hsp & Hh & Hl).
  assert (Hreg : forall k l, RunJobs w !! k = Some l -> job_heap w' !! l = job_cancelled <$> (job_heap w !! l)).
  { intros k l Hk. by rewrite Hl, decide_True by (apply Hin; eauto). }
  exists w'. split_and!; try done.
  - intros Hok k l Hk. rewrite HR in Hk. rewrite (Hreg k l Hk).
    destruct (Hok k l Hk) as (p & j & _ & Hj & _). rewrite Hj. by eexists.
  - intros l Hno. rewrite Hl, decide_False; [done|]. intros (k & Hk)%Hin. by apply (Hno k).
Qed.

Lemma cancel_all_R : preserves job_shrink cancel_all.
Proof. unfold cancel_all. preserve. Qed.
Lemma cancel_all_straight : straight cancel_all.
Proof. unfold cancel_all. apply straight_bind; [done|]. intros jobs. by apply straight_for_each. Qed.

Lemma SetJob_new p l w :
  (job_inv w /\ all_done w) /\ job_of p l w -> job_R w (with_RunJobs (<[KeyUint64 p := l]>) w).
Proof.
  intros (([Hok Hone] & Hdone) & Hnone & j & Hj & Hp) _. cbn. split; [split|].
  - intros k l' Hk. cbn in Hk. destruct (decide (k = KeyUint64 p)) as [->|].
    + rewrite lookup_insert_eq in Hk. simplify_eq. by exists (PlanID j), j.
    + rewrite lookup_insert_ne in Hk by done. by apply Hok.
  - assert (Hl : forall k l', live (with_RunJobs (<[KeyUint64 p:=l]>) w) k l' -> k = KeyUint64 p /\ l' = l).
    { intros k l' [Hk (j' & Hj' & Hd)]. cbn in Hk, Hj'. destruct (decide (k = KeyUint64 p)) as [->|].
      - rewrite lookup_insert_eq in Hk. by simplify_eq.
      - rewrite lookup_insert_ne in Hk by done. destruct (Hdone k l' Hk) as (j'' & ? & ?). congruence. }
    intros k1 l1 k2 l2 H1%Hl H2%Hl. naive_solver.
  - intros l' j' Hj'. by exists j'.
Qed.

Definition ready_to_register (p : N) (l : loc) (w : world) : Prop :=
  (job_inv w /\ all_done w) /\ job_of p l w.

#[global] Instance ready_same_jobs p l : Stable same_jobs (ready_to_register p l).
Proof.
  intros w w' H [HR HH].
  unfold ready_to_register, job_inv, job_ok, one_live, live, all_done, job_of in *. by rewrite HR, HH.
Qed.
#[global] Instance ready_stable p l : Stable job_shrink (ready_to_register p l).
Proof.
  intros w w' [[Hi Hdone] [Hnone (j & Hj & Hp)]] HR. destruct (HR Hi) as (Hi' & Hsub & Hev).
  split; [split; [done|]|split].
  - intros k l' Hk. destruct (Hdone k l') as (j' & Hj' & Hd); [by eapply lookup_weaken|].
    destruct (Hev l' j' Hj') as (j2 & Hj2 & _ & Hd2). exists j2. split; [done|by apply Hd2].
  - by eapply lookup_weaken_None.
  - destruct (Hev l j Hj) as (j' & Hj' & Hp' & _). exists j'. split; [done|congruence].
Qed.

Section JobsInv.
Variable O : oracle.
Variable Cfg : Conf.
Variable url_Parse_error : string -> option error.
Variable json_Marshal : json -> string + error.
Variable json_Unmarshal_detail : string -> CodeCoverageExecRecordDetailResp + error.
Variable RetryOnConflict : retrier.
Context `{!RetryLaw RetryOnConflict}.

(** The settings of the plan are written before its job is registered, by the only goroutine
    that registers jobs. *)
Ltac untouched := apply (keeps_bind_sub same_jobs);
  [typeclasses eauto|exact same_jobs_job_R|typeclasses eauto|typeclasses eauto|solve [preserve]|].

Lemma register_job_R d :
  keeps job_R job_shrink (fun w => job_inv w /\ RunJobs w !! KeyUint64 (detail_PlanID d) = None) (register_job O d).
Proof.
  unfold register_job. set (p := detail_PlanID d).
  apply keeps_straight with (Q := fun l w => job_inv w /\ job_of p l w /\ forall k, RunJobs w !! k <> Some l).
  { done. }
  { auto with preserves. }
  { intros w l w' [Hi Hnone] H. pose proof (preserves_alone _ _ _ _ _ (new_job_R (new_detection_job d)) H Hi) as (Hi' & _).
    split; [done|]. injection H as <- <-. split.
    - split; [done|]. eexists. cbn. by rewrite lookup_insert_eq.
    - intros k Hk. cbn in Hk. destruct Hi as [Hok _]. destruct (Hok _ _ Hk) as (? & j & _ & Hj & _).
      pose proof (is_fresh (dom (job_heap w))) as Hf. apply not_elem_of_dom in Hf. congruence. }
  intros l. apply keeps_straight with (Q := fun _ => ready_to_register p l); [apply cancel_all_straight| | |].
  { apply (preserves_sub job_shrink); [apply job_shrink_R|apply cancel_all_R]. }
  { intros w u w' (Hi & (Hnone & j & Hj & Hp) & Hno) H.
    pose proof (preserves_alone _ _ _ _ _ cancel_all_R H Hi) as (Hi1 & _).
    destruct (cancel_all_run w) as (w1 & Hrun & HR & _ & _ & _ & _ & Hdone & Hkeep & _).
    rewrite Hrun in H. simplify_eq. split; [split; [done|]|split].
    - by apply Hdone, Hi.
    - by rewrite HR.
    - exists j. by rewrite Hkeep. }
  intros _. cbv beta. untouched. intros there. untouched. intros [e|]; [apply keeps_ret|].
  untouched. intros [e|]; [apply keeps_ret|]. untouched. intros [e|]; [apply keeps_ret|].
  untouched. intros _. untouched. intros _.
  apply keeps_local with (Q := fun _ _ => True); [by apply SetJob_new|done|].
  intros _. apply keeps_preserves. auto with preserves.
Qed.

Lemma load_known G R `{!Reflexive G} p l {B} (f : DetectionJob -> prog world B) :
  (forall j, PlanID j = p -> keeps G R (known_job p l) (f j)) ->
  keeps G R (known_job p l) (load_job l ≫= f).
Proof.
  intros Hf. apply keeps_local with (Q := fun j w => PlanID j = p /\ known_job p l w).
  - intros w _. cbn. by destruct (job_heap w !! l).
  - intros w j [Hi Hk] H. cbn in *. destruct (job_heap w !! l) as [j'|] eqn:Ej; [|done].
    injection H as ->. split; [|done]. destruct Hi as [Hok _].
    destruct (Hok _ _ Hk) as (q & j' & Hq & Hj' & Hp). congruence.
  - intros j. apply wp_keeps. intros w [Hj Hw]. by apply (keeps_wp _ _ _ _ (Hf j Hj)).
Qed.

Lemma saveJob_R d : keeps job_R job_shrink job_inv (saveJob O d).
Proof.
  unfold saveJob. destruct d as [d|]; [|apply keeps_ret].
  apply GetJob_known; [typeclasses eauto|done|apply register_job_R|]. intros l.
  apply load_known; [typeclasses eauto|]. intros j Hj.
  rewrite bool_decide_false by (intros Hne; by destruct Hne).
  apply update_known_job; [apply job_shrink_R|auto with preserves|]. intros _.
  apply SetJob_known, same_jobs_job_R.
Qed.
#[local] Hint Resolve saveJob_R : keeps.
#[local] Hint Resolve mergeExec_only_history dump_pods_only_history remove_files_only_history
  buildCallbackErrorMessage_only_history loadClassSources_only_history merge_project_only_history
  report_xml_only_history report_html_only_history retry_only_history query_status_only_history
  ready_only_history : preserves.

Lemma callbackEndWithMessage_R planID msg :
  job_keeps job_inv (callbackEndWithMessage O Cfg url_Parse_error json_Marshal planID msg).
Proof.
  unfold callbackEndWithMessage. apply GetJob_known; [typeclasses eauto|done|apply keeps_ret|]. intros l.
  apply update_known_job; [done|auto with preserves|intros _].
  apply SetJob_then; [apply same_jobs_shrink|intros _; keep].
Qed.
#[local] Hint Resolve callbackEndWithMessage_R : keeps.

Lemma record_dump_jobs key name msg errs : preserves same_jobs (record_dump key name msg errs).
Proof. unfold record_dump. preserve. Qed.
#[local] Hint Resolve record_dump_jobs : preserves.
Lemma dump_task_jobs planID wait key : preserves same_jobs (dump_task O planID wait key).
Proof. unfold dump_task, dump_service. preserve. Qed.
#[local] Hint Resolve dump_task_jobs : preserves.
Lemma record_merge_jobs name err : preserves same_jobs (record_merge name err).
Proof. unfold record_merge. preserve. Qed.
#[local] Hint Resolve record_merge_jobs : preserves.
Lemma dumpExec_R planID : preserves job_shrink (dumpExec O planID).
Proof. unfold dumpExec, dump_body, unlock_dump. preserve. Qed.
Lemma mergeAllSvcExec_R planID : preserves job_shrink (mergeAllSvcExec O planID).
Proof. unfold mergeAllSvcExec, merge_body, merge_service, unlock_dump. preserve. Qed.
#[local] Hint Resolve dumpExec_R mergeAllSvcExec_R : preserves.

Lemma report_R planID :
  preserves job_shrink (report O Cfg url_Parse_error json_Marshal RetryOnConflict planID).
Proof using RetryLaw0. unfold report, unlock_dump. preserve. Qed.
#[local] Hint Resolve report_R : preserves.

Lemma job_ready_R planID :
  job_keeps job_inv (GetJob planID ≫= fun job => match job with
    | None => mret tt
    | Some l => update_job l (job_with_job_status Ready) ≫= fun _ =>
                SetJob planID l ≫= fun _ => go (GoDumpLoop planID l 1) end).
Proof.
  apply GetJob_known; [typeclasses eauto|done|apply keeps_ret|]. intros l.
  apply update_known_job; [done|auto with preserves|intros _].
  apply SetJob_then; [apply same_jobs_shrink|intros _; keep].
Qed.
#[local] Hint Resolve job_ready_R : keeps.

Lemma prepare_job_R planID :
  job_keeps job_inv (prepare_job O Cfg url_Parse_error json_Marshal RetryOnConflict planID).
Proof using RetryLaw0. unfold prepare_job. keep. Qed.
#[local] Hint Resolve prepare_job_R : keeps.

Lemma schedulingJob_R planID :
  job_keeps job_inv (schedulingJob O Cfg url_Parse_error json_Marshal RetryOnConflict planID).
Proof using RetryLaw0. unfold schedulingJob. keep. Qed.
Lemma watch_job_R :
  keeps job_R job_shrink job_inv (watch_job O Cfg url_Parse_error json_Unmarshal_detail RetryOnConflict).
Proof using RetryLaw0. unfold watch_job. keep. Qed.
Lemma monitor_job_R planID :
  job_keeps job_inv (monitor_job O Cfg url_Parse_error json_Marshal RetryOnConflict planID).
Proof using RetryLaw0. unfold monitor_job. keep. Qed.
Lemma clean_job_R planID : preserves job_shrink (clean_job O planID).
Proof. unfold clean_job. preserve. Qed.
Lemma dump_loop_R planID l n : preserves job_shrink (dump_loop O planID l n).
Proof. unfold dump_loop. preserve. Qed.
End JobsInv.
