(* ===== verification/System.v ===== *)
(** * The agent as a transition system

    The start-up and the informer are one goroutine, [WatchJob] is another, and each [go]
    statement starts one more. They interleave at every call to the outside, at every lock
    and channel, and at every [go] statement of a dump: a step runs one goroutine from its
    suspension to the next ([exec]). A goroutine that waits for a lock has no step until the
    lock is free; a panic of any goroutine ends the process. *)

From stdpp Require Import base tactics option list gmap strings relations.
From S2P Require Import Prelude GoStrings Goroutines NetHttp Conf AgentWorld Callback Services Jobs JobsEvolve JobsOrder.

(** The goroutine of [WatchJacocoPod] ends in the counters [deployListNum] and
    [watchListDeployLoadDoneNum] when it is ready for the next event of the informer, or in
    [None] when it gave up; [WhenStartLoadAllDeploymentLock] is held while it loads. The
    other goroutines carry the [go] statement they come from; those of a dump that of the
    dump. *)
Record system := System {
  sys_world : world;
  WhenStartLoadAllDeploymentLock : bool;
  informer : prog world (option (nat * nat));
  watcher : prog world unit;
  threads : list (goroutine * prog world unit);
  crashed : option string;
}.

Definition set_spawned (gs : list goroutine) (w : world) : world :=
  World (RunJobs w) (job_heap w) (Services w) (svc_heap w) (group_heap w) gs (history w).

Section System.
Variable O : oracle.
Variable Cfg : Conf.
Variable url_Parse_error : string -> option error.
Variable json_Marshal : json -> string + error.
Variable json_Unmarshal_detail : string -> CodeCoverageExecRecordDetailResp + error.
Variable RetryOnConflict : retrier.

Definition goroutine_code (g : goroutine) : prog world unit :=
  match g with
  | GoSchedulingJob p => schedulingJob O Cfg url_Parse_error json_Marshal RetryOnConflict p
  | GoDumpLoop p l n => dump_loop O p l n
  | GoMonitorJob p => monitor_job O Cfg url_Parse_error json_Marshal RetryOnConflict p
  | GoCleanJob p => clean_job O p
  | GoReloadJarAddr l => _ ← reloadJarAddr O Cfg l; mret tt
  | GoForgetService l => forget_service O l
  | GoForgetLater l => forget_later l
  end.

(** The goroutine of [WatchJacocoPod]: the loading, and the handler of an event. *)
Definition load_code : prog world (option (nat * nat)) :=
  loaded ← WatchJacocoPod O Cfg RetryOnConflict;
  mret (match loaded with Some n => Some (n, 0) | None => None end).

(** An event of the informer. *)
Inductive informer_event :=
| Added (obj : option deployment)
| Updated (newObj : option deployment)
| Deleted (obj : option deployment).

Definition event_code (c : nat * nat) (e : informer_event) : prog world (option (nat * nat)) :=
  match e with
  | Added obj => n ← AddFunc O Cfg RetryOnConflict c.1 c.2 obj; mret (Some (c.1, n))
  | Updated obj => _ ← UpdateFunc O Cfg RetryOnConflict obj; mret (Some c)
  | Deleted obj => _ ← DeleteFunc obj; mret (Some c)
  end.

Definition watch_code : prog world unit :=
  watch_job O Cfg url_Parse_error json_Unmarshal_detail RetryOnConflict.

Definition initial : system := System empty_world true load_code (mret tt) [] None.

(** The goroutine goes on: it suspends again, or it panics. *)
Inductive step : system -> system -> Prop :=
| step_informer w b i wt ts i' gs w' :
    exec i w = (Done (i', gs), w') -> gs = [] ->
    step (System w b i wt ts None) (System w' b i' wt ts None)
| step_loaded w r wt ts :
    step (System w true (Ret r) wt ts None) (System w false (Ret r) wt ts None)
| step_event w c e wt ts :
    step (System w false (Ret (Some c)) wt ts None) (System w false (event_code c e) wt ts None)
| step_round w i ts :
    step (System w false i (Ret tt) ts None) (System w false i watch_code ts None)
| step_watcher w b i wt ts wt' gs w' :
    exec wt w = (Done (wt', gs), w') -> gs = [] ->
    step (System w b i wt ts None) (System w' b i wt' ts None)
| step_start w b i wt ts g gs1 gs2 :
    spawned w = (gs1 ++ g :: gs2)%list ->
    step (System w b i wt ts None) (System (set_spawned (gs1 ++ gs2) w) b i wt (ts ++ [(g, goroutine_code g)])%list None)
| step_thread w b i wt ts1 g p ts2 p' gs w' :
    exec p w = (Done (p', gs), w') ->
    step (System w b i wt (ts1 ++ (g, p) :: ts2)%list None)
      (System w' b i wt (ts1 ++ (g, p') :: ts2 ++ map (pair g) gs)%list None)
| step_panic_informer w b i wt ts e w' :
    exec i w = (Panic e, w') -> step (System w b i wt ts None) (System w' b i wt ts (Some e))
| step_panic_watcher w b i wt ts e w' :
    exec wt w = (Panic e, w') -> step (System w b i wt ts None) (System w' b i wt ts (Some e))
| step_panic_thread w b i wt ts1 g p ts2 e w' :
    exec p w = (Panic e, w') ->
    step (System w b i wt (ts1 ++ (g, p) :: ts2)%list None) (System w' b i wt (ts1 ++ (g, p) :: ts2)%list (Some e)).

Definition reachable (s : system) : Prop := rtc step initial s.

Context `{!RetryLaw RetryOnConflict}.

(** ** Invariants *)

(** Both registries are in order, and every goroutine keeps them so from where it is: each
    relies on the others for the services; for the jobs, [WatchJob] relies on the others to
    register none. *)
Definition sys_inv (w : world) : Prop := svc_ok w /\ job_inv w.

Definition fair {A} (w : world) (p : prog world A) : Prop :=
  ready svc_R svc_R p w /\ ready job_shrink job_R p w.
Definition fair_watcher (w : world) (p : prog world unit) : Prop :=
  ready svc_R svc_R p w /\ ready job_R job_shrink p w.

Record sys_ok (s : system) : Prop := {
  ok_world : sys_inv (sys_world s);
  ok_informer : crashed s = None -> fair (sys_world s) (informer s);
  ok_watcher : crashed s = None -> fair_watcher (sys_world s) (watcher s);
  ok_threads : crashed s = None -> Forall (fun t => fair (sys_world s) t.2) (threads s);
}.

(** What a step may do: the services evolve, the jobs evolve. *)
Definition sys_later (w w' : world) : Prop := svc_evolves w w' /\ jobs_evolve w w'.
#[global] Instance sys_later_preorder : PreOrder sys_later.
Proof.
  split.
  - intros w. split; [split; [done|]|done]. intros l s Hs; by exists s.
  - intros w1 w2 w3 ([Hs2 Hh2] & Hj2) ([Hs3 Hh3] & Hj3). split; [split; [by etrans|]|by etrans].
    intros l s Hs. destruct (Hh2 l s Hs) as (s' & Hs' & Hl). destruct (Hh3 l s' Hs') as (s'' & Hs'' & Hl').
    exists s''. split; [done|by etrans].
Qed.

(** The code of every goroutine is fair. *)
Lemma fair_keeps {A} (p : prog world A) w :
  svc_keeps svc_ok p -> job_keeps job_inv p -> sys_inv w -> fair w p.
Proof. intros Hs Hj [H1 H2]. split; eapply keeps_ready; eauto; typeclasses eauto. Qed.

Lemma same_jobs_keeps {A} (p : prog world A) : preserves same_jobs p -> job_keeps job_inv p.
Proof. intros H. apply keeps_preserves; [typeclasses eauto..|]. by apply (preserves_sub same_jobs); [apply same_jobs_shrink|]. Qed.

Lemma retry_same_jobs {A} (err : A -> option error) fn :
  preserves same_jobs fn -> preserves same_jobs (RetryOnConflict A err fn).
Proof using RetryLaw0. by apply preserves_retry. Qed.
#[local] Hint Resolve retry_same_jobs : preserves.
Lemma list_pods_jobs l name : preserves same_jobs (list_pods O Cfg l name).
Proof. unfold list_pods. preserve. Qed.
#[local] Hint Resolve list_pods_jobs : preserves.
Lemma getServiceByDeploy_jobs d : preserves same_jobs (getServiceByDeploy O Cfg RetryOnConflict d).
Proof using RetryLaw0. unfold getServiceByDeploy. preserve. Qed.
Lemma reloadJarAddr_jobs svc : preserves same_jobs (reloadJarAddr O Cfg svc).
Proof. unfold reloadJarAddr, unlock_load, getServiceJarPackage, GenSvcJarImageTempDir, store_jars. preserve. Qed.
#[local] Hint Resolve getServiceByDeploy_jobs reloadJarAddr_jobs : preserves.
Lemma saveServices_jobs svc b : preserves same_jobs (saveServices O Cfg svc b).
Proof. unfold saveServices. preserve. Qed.
#[local] Hint Resolve saveServices_jobs : preserves.

Lemma load_fair w : sys_inv w -> fair w load_code.
Proof using RetryLaw0.
  apply fair_keeps; unfold load_code; [keep|]. apply same_jobs_keeps. unfold WatchJacocoPod, setK8sClientSet. preserve.
Qed.
Lemma event_fair w c e : sys_inv w -> fair w (event_code c e).
Proof using RetryLaw0.
  apply fair_keeps; destruct e; cbn [event_code]; [keep|keep|keep| | |]; apply same_jobs_keeps.
  - unfold AddFunc. preserve.
  - unfold UpdateFunc. preserve.
  - unfold DeleteFunc, deleteService. preserve.
Qed.
Lemma watch_fair w : sys_inv w -> fair_watcher w watch_code.
Proof using RetryLaw0.
  intros [Hs Hj]. split; (eapply keeps_ready; [typeclasses eauto| |done]).
  - apply keeps_preserves. by apply watch_job_svc.
  - by apply watch_job_R.
Qed.
Lemma goroutine_fair w g : sys_inv w -> fair w (goroutine_code g).
Proof using RetryLaw0.
  apply fair_keeps; destruct g; cbn [goroutine_code].
  - by apply schedulingJob_svc.
  - by apply dump_loop_svc.
  - by apply monitor_job_svc.
  - apply keeps_preserves, clean_job_svc.
  - keep.
  - keep.
  - keep.
  - by apply schedulingJob_R.
  - apply keeps_preserves, dump_loop_R.
  - by apply monitor_job_R.
  - apply keeps_preserves, clean_job_R.
  - apply same_jobs_keeps. preserve.
  - apply same_jobs_keeps. unfold forget_service. preserve.
  - unfold forget_later. keep.
Qed.

(** A stretch of one goroutine, seen by itself and by the others. *)
Lemma exec_fair {A} (p : prog world A) w o w' :
  sys_inv w -> fair w p -> exec p w = (o, w') ->
  sys_inv w' /\ sys_later w w' /\ svc_R w w' /\ job_shrink w w' /\
  forall p' gs, o = Done (p', gs) -> fair w' p' /\ Forall (fair w') gs.
Proof.
  intros [Hs Hj] [Hps Hpj] H. destruct (exec_ready _ _ _ _ _ _ Hps H) as [HGs Hs'].
  destruct (exec_ready _ _ _ _ _ _ Hpj H) as [HGj Hj'].
  destruct (HGs Hs) as [Hs2 Hev]. destruct (HGj Hj) as (Hj2 & _ & Hje).
  split_and!; [by split|by split|done|done|]. intros p' gs Ho.
  destruct (Hs' p' gs Ho) as [Hp1 Hg1]. destruct (Hj' p' gs Ho) as [Hp2 Hg2].
  split; [by split|]. rewrite Forall_forall in Hg1, Hg2 |- *. intros g Hg. split; auto.
Qed.
Lemma fair_later {A} (p : prog world A) w w' : svc_R w w' -> job_R w w' -> fair w p -> fair w' p.
Proof. intros Hs Hj [H1 H2]. split; (eapply ready_later; [..|done|done]; typeclasses eauto). Qed.
Lemma fair_watcher_later (p : prog world unit) w w' :
  svc_R w w' -> job_shrink w w' -> fair_watcher w p -> fair_watcher w' p.
Proof. intros Hs Hj [H1 H2]. split; (eapply ready_later; [..|done|done]; typeclasses eauto). Qed.

Lemma threads_later w w' (ts : list (goroutine * prog world unit)) :
  svc_R w w' -> job_R w w' -> Forall (fun t => fair w t.2) ts -> Forall (fun t => fair w' t.2) ts.
Proof. intros Hs Hj H. eapply Forall_impl; [exact H|]. intros t. by apply fair_later. Qed.

Lemma exec_watcher_fair (p : prog world unit) w o w' :
  sys_inv w -> fair_watcher w p -> exec p w = (o, w') ->
  sys_inv w' /\ sys_later w w' /\ svc_R w w' /\ job_R w w' /\
  forall p' gs, o = Done (p', gs) -> fair_watcher w' p'.
Proof.
  intros [Hs Hj] [Hps Hpj] H. destruct (exec_ready _ _ _ _ _ _ Hps H) as [HGs Hs'].
  destruct (exec_ready _ _ _ _ _ _ Hpj H) as [HGj Hj'].
  destruct (HGs Hs) as [Hs2 Hev]. destruct (HGj Hj) as (Hj2 & Hje).
  split_and!; [by split|by split|done|done|]. intros p' gs Ho.
  destruct (Hs' p' gs Ho) as [Hp1 _]. destruct (Hj' p' gs Ho) as [Hp2 _]. by split.
Qed.

Lemma set_spawned_R gs w : svc_R w (set_spawned gs w) /\ job_shrink w (set_spawned gs w).
Proof. split; [by apply same_services|by apply same_jobs_shrink]. Qed.

Lemma step_ok s s' : sys_ok s -> step s s' -> sys_ok s' /\ sys_later (sys_world s) (sys_world s').
Proof using RetryLaw0.
  intros [Hw Hi Hwt Hts] Hstep. destruct Hstep as
    [w b i wt ts i' gs w' He Hgs|w r wt ts|w c e wt ts|w i ts|w b i wt ts wt' gs w' He Hgs
    |w b i wt ts g gs1 gs2 Hsp|w b i wt ts1 g p ts2 p' gs w' He
    |w b i wt ts e w' He|w b i wt ts e w' He|w b i wt ts1 g p ts2 e w' He]; cbn in *;
    specialize (Hi eq_refl); specialize (Hwt eq_refl); specialize (Hts eq_refl).
  - destruct (exec_fair i w _ w' Hw Hi He) as (Hw' & Hl & Hs & Hj & Hd). destruct (Hd _ _ eq_refl) as [Hi' _].
    split; [|done]. split; cbn; intros; [done|done|by eapply fair_watcher_later|].
    eapply threads_later; [done|by apply job_shrink_R|done].
  - split; [by split|done].
  - split; [|done]. split; cbn; intros; [done|by apply event_fair|done|done].
  - split; [|done]. split; cbn; intros; [done|done|by apply watch_fair|done].
  - destruct (exec_watcher_fair wt w _ w' Hw Hwt He) as (Hw' & Hl & Hs & Hj & Hd).
    split; [|done]. split; cbn; intros; [done|by eapply fair_later|by eapply Hd|by eapply threads_later].
  - destruct (set_spawned_R (gs1 ++ gs2)%list w) as [Hs Hj].
    assert (Hinv : sys_inv (set_spawned (gs1 ++ gs2)%list w)) by exact Hw.
    split; [|by split; [apply (Hs (proj1 Hw))|apply (Hj (proj2 Hw))]].
    split; cbn; intros; [done| |by eapply fair_watcher_later|].
    + eapply fair_later; [done|by apply job_shrink_R|done].
    + apply Forall_app. split; [eapply threads_later; [done|by apply job_shrink_R|done]|]. constructor; [|done]. by apply goroutine_fair.
  - apply Forall_app in Hts as [Hts1 [Hp Hts2]%Forall_cons].
    destruct (exec_fair p w _ w' Hw Hp He) as (Hw' & Hl & Hs & Hj & Hd). destruct (Hd _ _ eq_refl) as [Hp' Hgs].
    split; [|done]. assert (Hj2 : job_R w w') by (by apply job_shrink_R).
    split; cbn; intros; [done|by eapply fair_later|by eapply fair_watcher_later|].
    apply Forall_app. split; [by eapply threads_later|]. constructor; [done|].
    apply Forall_app. split; [by eapply threads_later|]. by apply Forall_map.
  - destruct (exec_fair i w _ w' Hw Hi He) as (Hw' & Hl & _). split; [|done]. by split.
  - destruct (exec_watcher_fair wt w _ w' Hw Hwt He) as (Hw' & Hl & _). split; [|done]. by split.
  - apply Forall_app in Hts as [_ [Hp _]%Forall_cons].
    destruct (exec_fair p w _ w' Hw Hp He) as (Hw' & Hl & _). split; [|done]. by split.
Qed.

Lemma initial_ok : sys_ok initial.
Proof using RetryLaw0.
  assert (Hinv : sys_inv empty_world).
  { split.
    - intros k l Hk. cbn in Hk. set_solver.
    - split; [intros k l Hk|intros k l ? ? [Hk _]]; cbn in Hk; by apply lookup_empty_Some in Hk. }
  split; cbn; intros; [done|by apply load_fair|by split; intros w' _|constructor].
Qed.

Lemma steps_ok s s' : sys_ok s -> rtc step s s' -> sys_ok s' /\ sys_later (sys_world s) (sys_world s').
Proof using RetryLaw0.
  intros Hok H. induction H as [s|s1 s2 s3 H _ IH]; [done|]. destruct (step_ok _ _ Hok H) as [Hok2 Hl].
  destruct (IH Hok2) as [Hok3 Hl']. split; [done|by etrans].
Qed.
Lemma reachable_ok s : reachable s -> sys_ok s.
Proof using RetryLaw0. intros H. by destruct (steps_ok _ _ initial_ok H). Qed.
Lemma reachable_inv s : reachable s -> sys_inv (sys_world s).
Proof using RetryLaw0. intros H. apply (ok_world _ (reachable_ok s H)). Qed.
Lemma steps_later s s' : reachable s -> rtc step s s' -> sys_later (sys_world s) (sys_world s').
Proof using RetryLaw0. intros Hr H. by destruct (steps_ok _ _ (reachable_ok s Hr) H). Qed.
End System.

(** ** Properties of every run of the agent *)

Section SystemTheorems.
Variable O : oracle.
Variable Cfg : Conf.
Variable url_Parse_error : string -> option error.
Variable json_Marshal : json -> string + error.
Variable json_Unmarshal_detail : string -> CodeCoverageExecRecordDetailResp + error.
Variable RetryOnConflict : retrier.
Context `{!RetryLaw RetryOnConflict}.

Abbreviation step := (step O Cfg url_Parse_error json_Marshal json_Unmarshal_detail RetryOnConflict).
Abbreviation reachable := (reachable O Cfg url_Parse_error json_Marshal json_Unmarshal_detail RetryOnConflict).

(** C1: in every reachable state at most one registered job has a context that still runs,
    and every entry of [RunJobs] is a job of the plan it is registered under. *)
Theorem at_most_one_running_job s :
  reachable s ->
  (forall k l, RunJobs (sys_world s) !! k = Some l ->
     exists p j, k = KeyUint64 p /\ job_heap (sys_world s) !! l = Some j /\ PlanID j = p) /\
  (forall k1 l1 k2 l2, live (sys_world s) k1 l1 -> live (sys_world s) k2 l2 -> k1 = k2 /\ l1 = l2).
Proof using RetryLaw0. intros H%reachable_inv; [|done]. split; apply H. Qed.

(** A registered service, later. *)
Lemma registered_later s s' k l o :
  reachable s -> rtc step s s' ->
  Services (sys_world s) !! k = Some l -> svc_heap (sys_world s) !! l = Some o ->
  exists o', Services (sys_world s') !! k = Some l /\ svc_heap (sys_world s') !! l = Some o' /\ svc_later o o'.
Proof using RetryLaw0.
  intros Hr Hs%steps_later Hk Ho; [|done..]. destruct Hs as [[Hsub Hh] _].
  destruct (Hh l o Ho) as (o' & Ho' & Hl). exists o'. split_and!; [by eapply lookup_weaken|done|done].
Qed.

(** C3: once a registered service is marked deleted it stays registered under its name and
    deleted for ever, however the goroutines interleave and whatever deployments come and go;
    from then on the goroutine of any dump of it, and the visit of any merge, ends at once:
    in one stretch, without a call and without a change. *)
Theorem deleted_service_never_dumped s s' k l o :
  reachable s -> rtc step s s' ->
  Services (sys_world s) !! k = Some l -> svc_heap (sys_world s) !! l = Some o -> IsDelete o = true ->
  let w' := sys_world s' in
  (exists o', Services w' !! k = Some l /\ svc_heap w' !! l = Some o' /\ IsDelete o' = true) /\
  (forall planID, exec (dump_service O planID k) w' = (Done (Ret tt, []), w')) /\
  (forall planID merged, exec (merge_service O planID merged k) w' = (Done (Ret merged, []), w')).
Proof using RetryLaw0.
  intros Hr Hs Hk Ho Hd w'. destruct (registered_later s s' k l o Hr Hs Hk Ho) as (o' & Hk' & Ho' & _ & Hd' & _).
  specialize (Hd' Hd). fold w' in Hk', Ho'. split; [by exists o'|].
  split; intros; unfold exec; cbn [dump_service merge_service GetService]; cbn; by rewrite Hk'; cbn; rewrite Ho'; cbn; rewrite Hd'.
Qed.

(** C22: an error message of a registered service is never cleared: however often its jar
    files are reloaded, its jar list is never again used for the class files of a plan. *)
Theorem service_error_excludes_its_jars s s' k l o :
  reachable s -> rtc step s s' ->
  Services (sys_world s) !! k = Some l -> svc_heap (sys_world s) !! l = Some o -> ErrorMessage o <> "" ->
  forall jars, exec (jars_body jars k) (sys_world s') = (Done (Ret (true, jars), []), sys_world s').
Proof using RetryLaw0.
  intros Hr Hs Hk Ho He jars. destruct (registered_later s s' k l o Hr Hs Hk Ho) as (o' & Hk' & Ho' & _ & _ & _ & He').
  unfold exec. cbn. rewrite Hk'. cbn. rewrite Ho'. cbn. by rewrite bool_decide_true by auto.
Qed.

Lemma job_done_later s s' l j :
  reachable s -> rtc step s s' -> job_heap (sys_world s) !! l = Some j -> ctx_done j = true ->
  exists j', job_heap (sys_world s') !! l = Some j' /\ PlanID j' = PlanID j /\ ctx_done j' = true.
Proof using RetryLaw0.
  intros Hr Hs%steps_later Hj Hd; [|done..]. destruct Hs as [_ Hev].
  destruct (Hev l j Hj) as (j' & Hj' & Hp & Hd'). exists j'. split_and!; [done|done|by apply Hd'].
Qed.

(** C20: a job whose context has ended never runs again, however the goroutines interleave,
    and a dump, a merge or a round of its goroutine that asks ends at once: the loops of
    [dumpExec] and [mergeAllSvcExec] visit no further service. *)
Theorem cancelled_job_stays_cancelled s s' l j :
  reachable s -> rtc step s s' -> job_heap (sys_world s) !! l = Some j -> ctx_done j = true ->
  let w' := sys_world s' in
  (exists j', job_heap w' !! l = Some j' /\ PlanID j' = PlanID j /\ ctx_done j' = true) /\
  (forall planID wait key, exec (dump_body O planID l wait tt key) w' = (Done (Ret (false, tt), []), w')) /\
  (forall planID merged key, exec (merge_body O planID l merged key) w' = (Done (Ret (false, merged), []), w')) /\
  (forall planID n, exec (dump_loop O planID l n) w' = (Done (Ret tt, []), w')).
Proof using RetryLaw0.
  intros Hr Hs Hj Hd w'. destruct (job_done_later s s' l j Hr Hs Hj Hd) as (j' & Hj' & Hp & Hd').
  fold w' in Hj'. split; [by exists j'|]. split_and!; intros; unfold exec; cbn; rewrite Hj'; cbn; by rewrite Hd'.
Qed.

(** [DeleteService] deletes a key of type string from the registry of jobs, whose keys
    are plan numbers: in no reachable state does it change anything, so the goroutine that
    is to forget a deleted service after ten minutes does nothing. *)
Theorem DeleteService_deletes_nothing s :
  reachable s ->
  forall svcName, DeleteService svcName (sys_world s) = (Done tt, sys_world s).
Proof using RetryLaw0.
  intros Hr%reachable_inv svcName; [|done]. destruct Hr as [_ [Hok _]].
  unfold DeleteService. rewrite modify_run. unfold with_RunJobs. rewrite delete_id; [by destruct (sys_world s)|].
  destruct (RunJobs (sys_world s) !! KeyString svcName) as [l|] eqn:E; [|done].
  by destruct (Hok _ _ E) as (p & j & ? & _).
Qed.
End SystemTheorems.

(** ** Schedules

    The choices a scheduler makes, as a program: every one is a step. *)
Inductive choice :=
| RunInformer | Loaded | Handle (e : informer_event) | Round | RunWatcher | Start (n : nat) | RunThread (n : nat).

Section Schedules.
Variable O : oracle.
Variable Cfg : Conf.
Variable url_Parse_error : string -> option error.
Variable json_Marshal : json -> string + error.
Variable json_Unmarshal_detail : string -> CodeCoverageExecRecordDetailResp + error.
Variable RetryOnConflict : retrier.

Definition choose (s : system) (c : choice) : option system :=
  let '(System w b i wt ts cr) := s in
  match cr, c with
  | Some _, _ => None
  | None, RunInformer =>
      match exec i w with
      | (Done (i', []), w') => Some (System w' b i' wt ts None)
      | (Panic e, w') => Some (System w' b i wt ts (Some e))
      | _ => None
      end
  | None, Loaded => match b, i with true, Ret r => Some (System w false (Ret r) wt ts None) | _, _ => None end
  | None, Handle e =>
      match b, i with
      | false, Ret (Some c) => Some (System w false (event_code O Cfg RetryOnConflict c e) wt ts None)
      | _, _ => None
      end
  | None, Round =>
      match b, wt with
      | false, Ret tt =>
          Some (System w false i (watch_code O Cfg url_Parse_error json_Unmarshal_detail RetryOnConflict) ts None)
      | _, _ => None
      end
  | None, RunWatcher =>
      match exec wt w with
      | (Done (wt', []), w') => Some (System w' b i wt' ts None)
      | (Panic e, w') => Some (System w' b i wt ts (Some e))
      | _ => None
      end
  | None, Start n =>
      match spawned w !! n with
      | Some g => Some (System (set_spawned (take n (spawned w) ++ drop (S n) (spawned w)) w) b i wt
          (ts ++ [(g, goroutine_code O Cfg url_Parse_error json_Marshal RetryOnConflict g)])%list None)
      | None => None
      end
  | None, RunThread n =>
      match ts !! n with
      | Some (g, p) =>
          match exec p w with
          | (Done (p', gs), w') =>
              Some (System w' b i wt (take n ts ++ (g, p') :: drop (S n) ts ++ map (pair g) gs)%list None)
          | (Panic e, w') => Some (System w' b i wt ts (Some e))
          | _ => None
          end
      | None => None
      end
  end.

Abbreviation step := (step O Cfg url_Parse_error json_Marshal json_Unmarshal_detail RetryOnConflict).

Lemma choose_step s c s' : choose s c = Some s' -> step s s'.
Proof.
  destruct s as [w b i wt ts [e|]]; [by destruct c|].
  destruct c as [| |e| | |n|n]; cbn [choose].
  - destruct (exec i w) as [[[i' [|g gs]]|e|] w'] eqn:He; intros [= <-];
      [by eapply step_informer|by eapply step_panic_informer].
  - destruct b, i; intros [= <-]. apply step_loaded.
  - destruct b, i as [[c|]| | |]; intros [= <-]. apply step_event.
  - destruct b, wt as [[]| | |]; intros [= <-]. apply step_round.
  - destruct (exec wt w) as [[[i' [|g gs]]|e|] w'] eqn:He; intros [= <-];
      [by eapply step_watcher|by eapply step_panic_watcher].
  - destruct (spawned w !! n) as [g|] eqn:Hg; intros [= <-].
    apply step_start. by rewrite take_drop_middle.
  - destruct (ts !! n) as [[g p]|] eqn:Hp; [|done].
    destruct (exec p w) as [[[p' gs]|e|] w'] eqn:He; intros [= <-].
    + rewrite <- (take_drop_middle ts n (g, p) Hp) at 1. by eapply step_thread.
    + rewrite <- (take_drop_middle ts n (g, p) Hp). by eapply step_panic_thread.
Qed.

Fixpoint play (cs : list choice) (s : system) : option system :=
  match cs with
  | [] => Some s
  | c :: cs' => match choose s c with Some s' => play cs' s' | None => None end
  end.

Lemma play_steps cs s s' : play cs s = Some s' -> rtc step s s'.
Proof.
  revert s. induction cs as [|c cs IH]; intros s; cbn; [by intros [= <-]|].
  destruct (choose s c) as [s1|] eqn:Hc; [|done]. intros H. eapply rtc_l; [by eapply choose_step|by apply IH].
Qed.
(** The system after the choices, or as it was when one of them cannot be made. *)
Definition after (cs : list choice) (s : system) : system := default s (play cs s).

(** The choice [c] until [ended]. *)
Fixpoint until (ended : system -> bool) (c : choice) (fuel : nat) (s : system) : system :=
  match fuel with
  | 0 => s
  | S n => if ended s then s else until ended c n (after [c] s)
  end.

Lemma after_steps cs s : rtc step s (after cs s).
Proof. unfold after. destruct (play cs s) eqn:E; [by eapply play_steps|apply rtc_refl]. Qed.
Lemma until_steps ended c n s : rtc step s (until ended c n s).
Proof.
  revert s. induction n as [|n IH]; intros s; cbn; [apply rtc_refl|].
  destruct (ended s); [apply rtc_refl|]. etrans; [apply (after_steps [c])|apply IH].
Qed.
End Schedules.

Definition informer_waits (s : system) : bool := is_ret (informer s).
Definition watcher_waits (s : system) : bool := is_ret (watcher s).
Definition thread_ended (n : nat) (s : system) : bool :=
  match threads s !! n with Some (_, p) => is_ret p | None => true end.

(** ** A run for the witnesses *)

(** One deployment at the start, with an instrumented container. *)
Definition one_deploy_oracle : oracle := fun A h c =>
  match c in call A return A -> A with
  | ListDeployments _ => fun _ => inl [demo_deploy]
  | _ => fun r => r
  end (good_oracle A h c).

(** The copy of the jar files fails. *)
Definition no_copy_oracle : oracle := fun A h c =>
  match c in call A return A -> A with
  | CopyFromPod _ _ _ _ => fun _ => Some "no such container"
  | _ => fun r => r
  end (one_deploy_oracle A h c).

(** The center reports plan 1 with the status [st]. *)
Definition reports (st : string) : string -> CodeCoverageExecRecordDetailResp + error :=
  fun _ => inl (MkDetailResp true (Some (MkDetail 1 7 st "<settings/>" "" ""))).

Section Runs.
Variable O : oracle.
Variable st : string.

Abbreviation demo_reachable := (reachable O demo_conf any_url plain_marshal (reports st) retry_once).
Definition demo_after := after O demo_conf any_url plain_marshal (reports st) retry_once.
Definition demo_until := until O demo_conf any_url plain_marshal (reports st) retry_once.

(** The start-up is over. *)
Definition loaded : system :=
  demo_after [Loaded] (demo_until informer_waits RunInformer 100 (initial O demo_conf retry_once)).
(** The first round of [WatchJob] is over. *)
Definition registered : system := demo_until watcher_waits RunWatcher 100 (demo_after [Round] loaded).
(** The deployment is deleted. *)
Definition shop_deleted : system :=
  demo_until informer_waits RunInformer 100 (demo_after [Handle (Deleted (Some (Deployment "shop" ∅ [])))] loaded).

Lemma demo_after_reachable cs s : demo_reachable s -> demo_reachable (demo_after cs s).
Proof. unfold reachable. intros H. etrans; [exact H|apply after_steps]. Qed.
Lemma demo_until_reachable e c n s : demo_reachable s -> demo_reachable (demo_until e c n s).
Proof. unfold reachable. intros H. etrans; [exact H|apply until_steps]. Qed.

Lemma loaded_reachable : demo_reachable loaded.
Proof. apply demo_after_reachable, demo_until_reachable, rtc_refl. Qed.
Lemma registered_reachable : demo_reachable registered.
Proof. apply demo_until_reachable, demo_after_reachable, loaded_reachable. Qed.
Lemma shop_deleted_reachable : demo_reachable shop_deleted.
Proof. apply demo_until_reachable, demo_after_reachable, loaded_reachable. Qed.
End Runs.

Abbreviation ran st := (registered one_deploy_oracle st).
Abbreviation deleted := (shop_deleted one_deploy_oracle "running").

Lemma at_most_one_running_job_witness :
  live (sys_world (ran "running")) (KeyUint64 1) 1%positive /\
  (forall k l, live (sys_world (ran "running")) k l -> k = KeyUint64 1 /\ l = 1%positive).
Proof.
  assert (Hlive : live (sys_world (ran "running")) (KeyUint64 1) 1%positive).
  { split; [vm_compute; reflexivity|]. eexists. split; [vm_compute; reflexivity|reflexivity]. }
  split; [exact Hlive|]. intros k l Hkl.
  apply (proj2 (at_most_one_running_job _ _ _ _ _ _ _ (registered_reachable one_deploy_oracle "running")));
    [exact Hkl|exact Hlive].
Defined.

Lemma deleted_service_never_dumped_witness :
  exec (dump_service one_deploy_oracle 1 "shop") (sys_world deleted) = (Done (Ret tt, []), sys_world deleted).
Proof.
  eapply (deleted_service_never_dumped _ _ _ _ _ _ deleted deleted "shop" 1%positive _
    (shop_deleted_reachable one_deploy_oracle "running") (rtc_refl _ _)); [vm_compute; reflexivity..|reflexivity].
Defined.

Lemma service_error_excludes_its_jars_witness :
  let w := sys_world (loaded no_copy_oracle "running") in
  exec (jars_body [] "shop") w = (Done (Ret (true, []), []), w).
Proof.
  eapply (service_error_excludes_its_jars no_copy_oracle demo_conf any_url plain_marshal (reports "running")
    retry_once (loaded no_copy_oracle "running") (loaded no_copy_oracle "running") "shop" 1%positive).
  - apply loaded_reachable.
  - apply rtc_refl.
  - vm_compute. reflexivity.
  - vm_compute. reflexivity.
  - discriminate.
Defined.

Lemma DeleteService_deletes_nothing_witness :
  DeleteService "shop" (sys_world deleted) = (Done tt, sys_world deleted).
Proof. apply (DeleteService_deletes_nothing _ _ _ _ _ _ deleted (shop_deleted_reachable one_deploy_oracle "running")). Defined.
