(* ===== verification/Finished.v ===== *)
(** * What becomes of a finished plan

    When the center reports a plan finished, the goroutine that watches it cancels the job
    and ends; nothing else ever cleans the plan up. *)

From stdpp Require Import base tactics option list gmap strings relations.
From S2P Require Import Prelude GoStrings Goroutines NetHttp Conf AgentWorld Callback Services Jobs JobsEvolve JobsOrder System.

(** The goroutines that can remove or register plan [p]. *)
Definition of_plan (p : N) (g : goroutine) : Prop :=
  match g with
  | GoSchedulingJob q | GoMonitorJob q | GoCleanJob q => q = p
  | _ => False
  end.

(** Plan [p] is registered at [l] and no such goroutine waits. *)
Definition quiet (p : N) (l : loc) (w : world) : Prop :=
  RunJobs w !! KeyUint64 p = Some l /\ (exists j, job_heap w !! l = Some j /\ PlanID j = p) /\
  Forall (fun g => ~ of_plan p g) (spawned w).

Section Quiet.
Variable O : oracle.
Variable Cfg : Conf.
Variable url_Parse_error : string -> option error.
Variable json_Marshal : json -> string + error.
Variable json_Unmarshal_detail : string -> CodeCoverageExecRecordDetailResp + error.
Variable RetryOnConflict : retrier.
Context `{!RetryLaw RetryOnConflict}.
Variable p : N.
Variable l : loc.

Definition quiet_R (w w' : world) : Prop := quiet p l w -> quiet p l w'.
#[global] Instance quiet_R_preorder : PreOrder quiet_R.
Proof. split; unfold quiet_R; [by intros w|]. auto. Qed.
#[local] Instance quiet_stable : Stable quiet_R (quiet p l).
Proof. intros w w' Hq HR. by apply HR. Qed.

Lemma only_history_quiet w w' : only_history w w' -> quiet_R w w'.
Proof. intros (HR & HH & _ & _ & _ & Hs & _). unfold quiet_R, quiet. by rewrite HR, HH, Hs. Qed.
Lemma only_groups_quiet w w' : only_groups w w' -> quiet_R w w'.
Proof. intros [f ->] Hq. exact Hq. Qed.
#[local] Hint Resolve only_history_quiet : preserves.
#[local] Hint Extern 5 (preserves quiet_R _) =>
  apply (preserves_sub only_history quiet_R _ only_history_quiet); solve [auto with preserves] : preserves.
#[local] Hint Extern 5 (preserves quiet_R _) =>
  apply (preserves_sub only_groups quiet_R _ only_groups_quiet); solve [auto with preserves] : preserves.

Ltac untouched := split; [intros w H; exact H|done].
Lemma update_svc_quiet a f : preserves quiet_R (update_svc a f).
Proof. untouched. Qed.
Lemma new_svc_quiet s : preserves quiet_R (new_svc s).
Proof. untouched. Qed.
Lemma SetService_quiet k a : preserves quiet_R (SetService k a).
Proof. untouched. Qed.
Lemma lift_quiet {A} (o : outcome A) : preserves quiet_R (lift o).
Proof. untouched. Qed.
Lemma DeleteService_quiet k : preserves quiet_R (DeleteService k).
Proof. apply preserves_modify. intros w (HR & Hj & Hs). split_and!; [|done|done]. cbn. by rewrite lookup_delete_ne. Qed.

Lemma go_quiet g : ~ of_plan p g -> preserves quiet_R (go g).
Proof.
  intros Hg. apply preserves_modify. intros w (HR & Hj & Hs). split_and!; [done|done|]. cbn.
  apply Forall_app. by split; [|constructor].
Qed.
#[local] Hint Extern 5 (~ of_plan _ _) => (cbn; tauto) : preserves.

Lemma update_job_quiet a f : (forall j, job_later j (f j)) -> preserves quiet_R (update_job a f).
Proof.
  intros Hf. apply preserves_modify. intros w (HR & (j & Hj & Hp) & Hs). split_and!; [done| |done]. cbn.
  destruct (decide (a = l)) as [->|].
  - rewrite lookup_alter_eq, Hj. exists (f j). split; [done|]. destruct (Hf j) as [-> _]. done.
  - exists j. by rewrite lookup_alter_ne.
Qed.
Lemma new_job_quiet j : preserves quiet_R (new_job j).
Proof.
  split; [|done]. intros w (HR & (j' & Hj & Hp) & Hs). split_and!; [done| |done]. exists j'. cbn. split; [|done].
  rewrite lookup_insert_ne; [done|]. intros Heq. pose proof (is_fresh (dom (job_heap w))) as Hf.
  rewrite Heq in Hf. by apply Hf, elem_of_dom.
Qed.
Lemma SetJob_quiet q a : q <> p -> preserves quiet_R (SetJob q a).
Proof.
  intros Hq. apply preserves_modify. intros w (HR & Hj & Hs). split_and!; [|done|done]. cbn.
  rewrite lookup_insert_ne; [done|]. congruence.
Qed.
Lemma DeleteJob_quiet q : q <> p -> preserves quiet_R (DeleteJob q).
Proof.
  intros Hq. apply preserves_modify. intros w (HR & Hj & Hs). split_and!; [|done|done]. cbn.
  rewrite lookup_delete_ne; [done|]. congruence.
Qed.
#[local] Hint Resolve update_svc_quiet new_svc_quiet SetService_quiet lift_quiet DeleteService_quiet go_quiet
  update_job_quiet new_job_quiet SetJob_quiet DeleteJob_quiet : preserves.
#[local] Hint Resolve mergeExec_only_history dump_pods_only_history remove_files_only_history
  buildCallbackErrorMessage_only_history loadClassSources_only_history merge_project_only_history
  report_xml_only_history report_html_only_history retry_only_history query_status_only_history
  ready_only_history : preserves.

(** *** Services *)

Lemma retry_quiet {A} (err : A -> option error) fn :
  preserves quiet_R fn -> preserves quiet_R (RetryOnConflict A err fn).
Proof using RetryLaw0. by apply preserves_retry. Qed.
#[local] Hint Resolve retry_quiet : preserves.
Lemma list_pods_quiet a name : preserves quiet_R (list_pods O Cfg a name).
Proof. unfold list_pods. preserve. Qed.
#[local] Hint Resolve list_pods_quiet : preserves.
Lemma getServiceByDeploy_quiet d : preserves quiet_R (getServiceByDeploy O Cfg RetryOnConflict d).
Proof using RetryLaw0. unfold getServiceByDeploy. preserve. Qed.
Lemma reloadJarAddr_quiet a : preserves quiet_R (reloadJarAddr O Cfg a).
Proof. unfold reloadJarAddr, unlock_load, getServiceJarPackage, GenSvcJarImageTempDir, store_jars. preserve. Qed.
#[local] Hint Resolve getServiceByDeploy_quiet reloadJarAddr_quiet : preserves.
Lemma saveServices_quiet a b : preserves quiet_R (saveServices O Cfg a b).
Proof. unfold saveServices. preserve. Qed.
#[local] Hint Resolve saveServices_quiet : preserves.

(** *** Jobs *)

Lemma record_dump_quiet key name msg errs : preserves quiet_R (record_dump key name msg errs).
Proof. unfold record_dump. preserve. Qed.
#[local] Hint Resolve record_dump_quiet : preserves.
Lemma dump_task_quiet q wait key : preserves quiet_R (dump_task O q wait key).
Proof. unfold dump_task, dump_service. preserve. Qed.
#[local] Hint Resolve dump_task_quiet : preserves.
Lemma record_merge_quiet name err : preserves quiet_R (record_merge name err).
Proof. unfold record_merge. preserve. Qed.
#[local] Hint Resolve record_merge_quiet : preserves.
Lemma dumpExec_quiet q : preserves quiet_R (dumpExec O q).
Proof. unfold dumpExec, dump_body, unlock_dump. preserve. Qed.
Lemma mergeAllSvcExec_quiet q : preserves quiet_R (mergeAllSvcExec O q).
Proof. unfold mergeAllSvcExec, merge_body, merge_service, unlock_dump. preserve. Qed.
#[local] Hint Resolve dumpExec_quiet mergeAllSvcExec_quiet : preserves.
Lemma report_quiet q : preserves quiet_R (report O Cfg url_Parse_error json_Marshal RetryOnConflict q).
Proof using RetryLaw0. unfold report, unlock_dump. preserve. Qed.
#[local] Hint Resolve report_quiet : preserves.
Lemma callbackEndWithMessage_quiet q msg :
  q <> p -> preserves quiet_R (callbackEndWithMessage O Cfg url_Parse_error json_Marshal q msg).
Proof. intros Hq. unfold callbackEndWithMessage. preserve. Qed.
#[local] Hint Resolve callbackEndWithMessage_quiet : preserves.
Lemma prepare_job_quiet q :
  q <> p -> preserves quiet_R (prepare_job O Cfg url_Parse_error json_Marshal RetryOnConflict q).
Proof using RetryLaw0. intros Hq. unfold prepare_job. preserve. Qed.
#[local] Hint Resolve prepare_job_quiet : preserves.
Lemma register_job_quiet d : detail_PlanID d <> p -> preserves quiet_R (register_job O d).
Proof. intros Hd. unfold register_job, cancel_all. preserve. Qed.

(** The plan is registered, so the center's news of it change its status only, in one piece. *)
Lemma saveJob_quiet d : keeps quiet_R quiet_R (quiet p l) (saveJob O d).
Proof.
  unfold saveJob. destruct d as [d|]; [|apply keeps_ret].
  destruct (decide (detail_PlanID d = p)) as [->|Hd].
  - apply keeps_gets; [typeclasses eauto..|]. intros [l'|].
    2:{ apply wp_keeps. intros w [(HR & _) Hn]. congruence. }
    apply keeps_local with (Q := fun j w => l' = l /\ PlanID j = p /\ quiet p l w).
    + intros w _. cbn. destruct (job_heap w !! l'); reflexivity.
    + intros w j [Hq Hl] H. cbn in H |- *. destruct Hq as (HR & (j' & Hj' & Hp) & Hs).
      assert (l' = l) as -> by congruence. rewrite Hj' in H |- *. injection H as <-.
      split_and!; [done|done|]. split_and!; eauto.
    + intros j. apply wp_keeps. intros w (-> & Hp & Hq). rewrite bool_decide_false by (intros Hne; by destruct Hne).
      revert w Hq. apply keeps_wp. apply keeps_bind; [typeclasses eauto..| |].
      { apply update_job_quiet. intros j'. apply job_later_status. }
      intros _. apply keeps_last. intros w (HR & Hj & Hs) _. split_and!; [|done|done]. apply lookup_insert_eq.
  - apply keeps_preserves. pose proof (register_job_quiet d Hd). preserve.
Qed.
#[local] Hint Resolve saveJob_quiet : keeps.
Lemma watch_code_quiet : keeps quiet_R quiet_R (quiet p l)
  (watch_code O Cfg url_Parse_error json_Unmarshal_detail RetryOnConflict).
Proof using RetryLaw0. unfold watch_code, watch_job. keep. Qed.

(** *** Goroutines *)

Lemma goroutine_quiet g : ~ of_plan p g ->
  preserves quiet_R (goroutine_code O Cfg url_Parse_error json_Marshal RetryOnConflict g).
Proof using RetryLaw0.
  destruct g; cbn [goroutine_code of_plan]; intros Hg.
  - unfold schedulingJob. preserve.
  - unfold dump_loop. preserve.
  - unfold monitor_job. preserve.
  - unfold clean_job. preserve.
  - preserve.
  - unfold forget_service. preserve.
  - unfold forget_later. preserve.
Qed.
Lemma load_code_quiet : preserves quiet_R (load_code O Cfg RetryOnConflict).
Proof using RetryLaw0. unfold load_code, WatchJacocoPod, setK8sClientSet. preserve. Qed.
Lemma event_code_quiet c e : preserves quiet_R (event_code O Cfg RetryOnConflict c e).
Proof using RetryLaw0. destruct e; unfold event_code, AddFunc, UpdateFunc, DeleteFunc, deleteService; preserve. Qed.

Definition thread_quiet (t : goroutine * prog world unit) : Prop := ~ of_plan p t.1 -> preserves quiet_R t.2.

(** The informer and the goroutines of the other plans respect the quiet of plan [p]. *)
Definition respects (s : system) : Prop := preserves quiet_R (informer s) /\ Forall thread_quiet (threads s).

Abbreviation step := (step O Cfg url_Parse_error json_Marshal json_Unmarshal_detail RetryOnConflict).

Lemma exec_thread g q w q' gs w' :
  thread_quiet (g, q) -> exec q w = (Done (q', gs), w') ->
  Forall thread_quiet ((g, q') :: map (pair g) gs).
Proof.
  intros Hq He. rewrite Forall_cons, Forall_map. split; [|apply Forall_forall; intros q1 Hq1]; intros Hg;
    destruct (exec_preserves _ _ _ _ _ (Hq Hg) He) as [_ Hd]; destruct (Hd _ _ eq_refl) as [Hp Hgs]; [done|].
  rewrite Forall_forall in Hgs. by apply Hgs.
Qed.

Lemma step_respects s s' : respects s -> step s s' -> respects s'.
Proof using RetryLaw0.
  intros [Hi Ht] Hstep. destruct Hstep as
    [w b i wt ts i' gs w' He _|w r wt ts|w c e wt ts|w i ts|w b i wt ts wt' gs w' He _
    |w b i wt ts g gs1 gs2 Hsp|w b i wt ts1 g q ts2 q' gs w' He
    |w b i wt ts e w' He|w b i wt ts e w' He|w b i wt ts1 g q ts2 e w' He]; split; cbn in *; try done.
  - destruct (exec_preserves _ _ _ _ _ Hi He) as [_ Hd]. by destruct (Hd _ _ eq_refl).
  - apply event_code_quiet.
  - apply Forall_app. split; [done|]. constructor; [|done]. intros Hg. by apply goroutine_quiet.
  - apply Forall_app in Ht as [Ht1 [Hq Ht2]%Forall_cons].
    apply (exec_thread _ _ _ _ _ _ Hq), Forall_cons in He as [Hq' Hgs].
    apply Forall_app. split; [done|]. constructor; [done|]. by apply Forall_app.
Qed.
Lemma reachable_respects s :
  reachable O Cfg url_Parse_error json_Marshal json_Unmarshal_detail RetryOnConflict s -> respects s.
Proof using RetryLaw0.
  intros H. assert (H0 : respects (initial O Cfg RetryOnConflict)) by (split; [apply load_code_quiet|constructor]).
  unfold reachable in H. revert H0. induction H as [|s1 s2 s3 H _ IH]; [done|]. intros Hs. by eapply IH, step_respects.
Qed.

(** No goroutine of plan [p] is left, and [WatchJob] will only change its status. *)
Record calm (s : system) : Prop := {
  calm_world : quiet p l (sys_world s);
  calm_respects : respects s;
  calm_threads : Forall (fun t => of_plan p t.1 -> is_ret t.2 = true) (threads s);
  calm_watcher : ready quiet_R quiet_R (watcher s) (sys_world s);
}.

Lemma exec_ret {W A} (q : prog W A) w q' gs w' :
  is_ret q = true -> exec q w = (Done (q', gs), w') -> q' = q /\ gs = [] /\ w' = w.
Proof. destruct q; [|done..]. by intros _ [= <- <- <-]. Qed.

(** A stretch of a thread: the quiet holds, and the threads it starts are not of the plan. *)
Lemma exec_calm ts1 g q ts2 w q' gs w' :
  thread_quiet (g, q) -> Forall (fun t => of_plan p t.1 -> is_ret t.2 = true) (ts1 ++ (g, q) :: ts2) ->
  exec q w = (Done (q', gs), w') ->
  quiet_R w w' /\ Forall (fun t => of_plan p t.1 -> is_ret t.2 = true) (ts1 ++ (g, q') :: ts2 ++ map (pair g) gs).
Proof.
  intros Hq Hts He. apply Forall_app in Hts as [Hts1 [Hr Hts2]%Forall_cons].
  destruct (is_ret q) eqn:Er.
  - apply exec_ret in He as (-> & -> & ->); [|done]. split; [by intros Hw|]. cbn. rewrite app_nil_r.
    apply Forall_app. split; [done|]. by constructor.
  - assert (Hg : ~ of_plan p g) by (intros Hg; specialize (Hr Hg); cbn in Hr; congruence).
    split; [by destruct (exec_preserves _ _ _ _ _ (Hq Hg) He)|].
    apply Forall_app. split; [done|]. constructor; [by intros Hg'|]. apply Forall_app. split; [done|].
    apply Forall_map, Forall_true. by intros q1 Hg'.
Qed.

Lemma panic_calm ts1 g q ts2 w e w' :
  thread_quiet (g, q) -> Forall (fun t => of_plan p t.1 -> is_ret t.2 = true) (ts1 ++ (g, q) :: ts2) ->
  exec q w = (Panic e, w') -> quiet_R w w'.
Proof.
  intros Hq Hts He. apply Forall_app in Hts as [_ [Hr _]%Forall_cons].
  assert (Hg : ~ of_plan p g) by (intros Hg; specialize (Hr Hg); cbn in Hr; by destruct q).
  by destruct (exec_preserves _ _ _ _ _ (Hq Hg) He).
Qed.

Lemma start_calm w g gs1 gs2 :
  spawned w = (gs1 ++ g :: gs2)%list -> quiet p l w -> quiet p l (set_spawned (gs1 ++ gs2) w) /\ ~ of_plan p g.
Proof.
  intros Hsp (HR & Hj & Hs). rewrite Hsp in Hs. apply Forall_app in Hs as [Hs1 [Hg Hs2]%Forall_cons].
  split; [|done]. split_and!; [done|done|]. by apply Forall_app.
Qed.

Lemma watcher_later (wt : prog world unit) w w' :
  ready quiet_R quiet_R wt w -> quiet_R w w' -> ready quiet_R quiet_R wt w'.
Proof. intros H HR. by eapply (ready_later quiet_R quiet_R); [..|exact HR]. Qed.

Lemma step_calm s s' : calm s -> step s s' -> calm s'.
Proof using RetryLaw0.
  intros [Hw Hr Ht Hwt] Hstep. pose proof (step_respects _ _ Hr Hstep) as Hr'. destruct Hr as [Hi Hq].
  destruct Hstep as
    [w b i wt ts i' gs w' He _|w r wt ts|w c e wt ts|w i ts|w b i wt ts wt' gs w' He _
    |w b i wt ts g gs1 gs2 Hsp|w b i wt ts1 g q ts2 q' gs w' He
    |w b i wt ts e w' He|w b i wt ts e w' He|w b i wt ts1 g q ts2 e w' He]; cbn in *.
  - destruct (exec_preserves _ _ _ _ _ Hi He) as [HR _]. split; cbn; [by apply HR|done|done|exact (watcher_later _ _ _ Hwt HR)].
  - by split.
  - by split.
  - split; cbn; [done..|]. eapply keeps_ready; [typeclasses eauto|apply watch_code_quiet|done].
  - destruct (exec_ready _ _ _ _ _ _ Hwt He) as [HR Hd]. destruct (Hd _ _ eq_refl) as [Hwt' _]. split; cbn; [by apply HR|done..].
  - destruct (start_calm _ _ _ _ Hsp Hw) as [Hw' Hg]. split; cbn; [done|done| |apply (watcher_later _ _ _ Hwt); by intros _].
    apply Forall_app. split; [done|]. by constructor.
  - pose proof (proj1 (Forall_forall _ _) Hq (g, q) ltac:(set_solver)) as Hgq.
    destruct (exec_calm _ _ _ _ _ _ _ _ Hgq Ht He) as [HR Ht'].
    split; cbn; [by apply HR|done|done|exact (watcher_later _ _ _ Hwt HR)].
  - destruct (exec_preserves _ _ _ _ _ Hi He) as [HR _]. split; cbn; [by apply HR|done|done|exact (watcher_later _ _ _ Hwt HR)].
  - destruct (exec_ready _ _ _ _ _ _ Hwt He) as [HR _]. split; cbn; [by apply HR|done|done|exact (watcher_later _ _ _ Hwt HR)].
  - pose proof (proj1 (Forall_forall _ _) Hq (g, q) ltac:(set_solver)) as Hgq.
    pose proof (panic_calm _ _ _ _ _ _ _ Hgq Ht He) as HR.
    split; cbn; [by apply HR|done|done|exact (watcher_later _ _ _ Hwt HR)].
Qed.
Lemma steps_calm s s' : rtc step s s' -> calm s -> calm s'.
Proof using RetryLaw0. induction 1 as [|s1 s2 s3 H _ IH]; [done|]. intros Hc. by eapply IH, step_calm. Qed.
End Quiet.

Section FinishedTheorem.
Variable O : oracle.
Variable Cfg : Conf.
Variable url_Parse_error : string -> option error.
Variable json_Marshal : json -> string + error.
Variable json_Unmarshal_detail : string -> CodeCoverageExecRecordDetailResp + error.
Variable RetryOnConflict : retrier.
Context `{!RetryLaw RetryOnConflict}.

Abbreviation step := (step O Cfg url_Parse_error json_Marshal json_Unmarshal_detail RetryOnConflict).
Abbreviation reachable := (reachable O Cfg url_Parse_error json_Marshal json_Unmarshal_detail RetryOnConflict).
Abbreviation monitor p := (monitor_job O Cfg url_Parse_error json_Marshal RetryOnConflict p).

(** [WatchJob] is between two rounds, or sleeps at the end of one. *)
Definition resting (wt : prog world unit) : Prop := wt = Ret tt \/ exists n, wt = ext O (Sleep n).

Lemma resting_ready p l wt w : resting wt -> ready (quiet_R p l) (quiet_R p l) wt w.
Proof.
  intros H. eapply (keeps_ready _ _ (fun _ => True)); [by intros w1 w2|apply keeps_preserves|done].
  destruct H as [->|[n ->]]; [done|]. apply (preserves_sub only_history); [apply only_history_quiet|auto with preserves].
Qed.

(** C21: when the center reported a plan finished (success, fail or cancel), the next round of
    the goroutine that watches it cancels the job and ends, in one stretch and without a call;
    if the other goroutines of the plan have ended and [WatchJob] is not in the middle of a
    round, the plan stays registered with a cancelled context for ever, whatever the center
    says of it later and however the goroutines interleave: it is never cleaned up. *)
Theorem finished_plan_never_cleaned s p l j ts1 ts2 :
  reachable s -> crashed s = None -> resting (watcher s) ->
  threads s = (ts1 ++ (GoMonitorJob p, monitor p) :: ts2)%list ->
  Forall (fun t => of_plan p t.1 -> is_ret t.2 = true) (ts1 ++ ts2) ->
  Forall (fun g => ~ of_plan p g) (spawned (sys_world s)) ->
  RunJobs (sys_world s) !! KeyUint64 p = Some l -> job_heap (sys_world s) !! l = Some j ->
  ctx_done j = false -> terminal (Status j) = true ->
  exists s1, step s s1 /\ history (sys_world s1) = history (sys_world s) /\
    forall s2, rtc step s1 s2 ->
      RunJobs (sys_world s2) !! KeyUint64 p = Some l /\
      exists j2, job_heap (sys_world s2) !! l = Some j2 /\ ctx_done j2 = true.
Proof using RetryLaw0.
  intros Hr Hcr Hwt Hts Hend Hno HR Hj Hd Ht. destruct s as [w b i wt ts cr]. cbn in *. subst ts cr.
  set (w1 := with_job_heap (alter job_cancelled l) w).
  assert (Hrun : exec (monitor p) w = (Done (Ret tt, []), w1)).
  { unfold exec. cbn. rewrite HR. cbn. rewrite Hj. cbn. rewrite Hd, Ht. done. }
  set (s1 := System w1 b i wt (ts1 ++ (GoMonitorJob p, Ret tt) :: ts2 ++ [])%list None).
  assert (Hstep : step (System w b i wt (ts1 ++ (GoMonitorJob p, monitor p) :: ts2)%list None) s1).
  { apply (step_thread O Cfg url_Parse_error json_Marshal json_Unmarshal_detail RetryOnConflict
      w b i wt ts1 (GoMonitorJob p) (monitor p) ts2 (Ret tt) [] w1 Hrun). }
  assert (Hr1 : reachable s1) by (eapply rtc_r; [exact Hr|exact Hstep]).
  exists s1. split; [exact Hstep|]. split; [done|]. intros s2 Hs2.
  assert (Hj1 : job_heap w1 !! l = Some (job_cancelled j)) by (cbn; by rewrite lookup_alter_eq, Hj).
  assert (Hp : PlanID j = p).
  { apply reachable_inv in Hr as [_ [Hok _]]; [|done]. cbn in Hok.
    destruct (Hok _ _ HR) as (q & j' & Hq & Hj' & Hp). congruence. }
  assert (Hcalm : calm p l s1).
  { split; [|by eapply reachable_respects| |by apply resting_ready].
    - split_and!; [exact HR| |exact Hno]. by exists (job_cancelled j).
    - cbn. rewrite app_nil_r. apply Forall_app in Hend as [H1 H2]. apply Forall_app. by split; [|constructor]. }
  split; [by destruct (steps_calm _ _ _ _ _ _ _ _ _ _ Hs2 Hcalm) as [(H & _) _ _ _]|].
  destruct (job_done_later O Cfg url_Parse_error json_Marshal json_Unmarshal_detail
    RetryOnConflict s1 s2 l (job_cancelled j)) as (j2 & Hj2 & _ & Hd2); try done. by exists j2.
Qed.
End FinishedTheorem.

(** ** Witnesses *)

(** Plan 1 was reported successful; its goroutine was started and started the one that watches it. *)
Definition watched : system :=
  demo_after one_deploy_oracle "success" [Start 1; RunThread 0; Start 1] (ran "success").

Lemma watched_reachable :
  reachable one_deploy_oracle demo_conf any_url plain_marshal (reports "success") retry_once watched.
Proof. apply demo_after_reachable, registered_reachable. Qed.

Lemma finished_plan_never_cleaned_witness :
  exists s1, step one_deploy_oracle demo_conf any_url plain_marshal (reports "success") retry_once watched s1 /\
    RunJobs (sys_world s1) !! KeyUint64 1 = Some 1%positive.
Proof.
  destruct (finished_plan_never_cleaned one_deploy_oracle demo_conf any_url plain_marshal (reports "success")
    retry_once watched 1 1%positive (MkJob 1 "success" "" "<settings/>" "" "" "" false false)
    [(GoSchedulingJob 1, Ret tt)] [] watched_reachable)
    as (s1 & Hs1 & _ & Hforever).
  - vm_compute. reflexivity.
  - left. vm_compute. reflexivity.
  - reflexivity.
  - repeat constructor.
  - change (spawned (sys_world watched)) with [GoForgetService 1]. repeat constructor. intros [].
  - vm_compute. reflexivity.
  - vm_compute. reflexivity.
  - reflexivity.
  - vm_compute. reflexivity.
  - exists s1. split; [exact Hs1|]. apply (Hforever s1), rtc_refl.
Defined.

(** The round of the goroutine that cancels the job. *)
Definition finished : system := demo_after one_deploy_oracle "success" [RunThread 1] watched.

Lemma finished_reachable :
  reachable one_deploy_oracle demo_conf any_url plain_marshal (reports "success") retry_once finished.
Proof. apply demo_after_reachable, watched_reachable. Qed.

Lemma cancelled_job_stays_cancelled_witness :
  exec (dump_body one_deploy_oracle 1 1%positive 1%positive tt "shop") (sys_world finished) =
    (Done (Ret (false, tt), []), sys_world finished).
Proof.
  apply (cancelled_job_stays_cancelled one_deploy_oracle demo_conf any_url plain_marshal (reports "success")
    retry_once finished finished 1%positive (MkJob 1 "success" "" "<settings/>" "" "" "" true false)
    finished_reachable (rtc_refl _ _)); [vm_compute; reflexivity|reflexivity].
Defined.
