(* ===== verification/Dumps.v ===== *)
(** * What dumps, merges and messages do *)

From stdpp Require Import base tactics option list gmap strings pretty.
From S2P Require Import Prelude GoStrings Goroutines NetHttp Conf AgentWorld Callback Services Jobs JobsEvolve.

Local Open Scope string_scope.

#[local] Hint Resolve mergeExec_only_history dump_pods_only_history remove_files_only_history : preserves.

(** ** Calls made so far *)

Lemma happened_ext O {A} (c : call A) w r w' : ext O c w = (Done r, w') -> happened c r w'.
Proof. intros H. apply ext_inv in H as [-> _]. unfold happened. cbn. set_solver. Qed.

Lemma happened_mono {A} (c : call A) r w w' : happened c r w -> history_grows w w' -> happened c r w'.
Proof. unfold happened. intros H [l ->]. set_solver. Qed.

Lemma only_history_grows w w' : only_history w w' -> history_grows w w'.
Proof. by intros (_ & _ & _ & _ & _ & _ & H). Qed.
#[export] Hint Resolve only_history_grows : preserves.
#[export] Hint Extern 5 (preserves history_grows _) =>
  apply (preserves_sub only_history history_grows _ only_history_grows); solve [auto with preserves] : preserves.

Lemma only_history_run {A} (m : prog world A) w o w' : preserves only_history m -> m w = (o, w') -> only_history w w'.
Proof. intros Hm H. exact (preserves_alone _ _ _ _ _ Hm H). Qed.

Lemma grows_run {A} (m : prog world A) w o w' : preserves history_grows m -> m w = (o, w') -> history_grows w w'.
Proof. intros Hm H. exact (preserves_alone _ _ _ _ _ Hm H). Qed.

(** The run [E] only adds calls to the history. *)
Ltac run_grows E G :=
  match type of E with alone ?m ?w = (?o, ?w') =>
    assert (G : history_grows w w') by (apply (grows_run m w o w'); [auto with preserves|exact E]) end.

Ltac history_only := apply preserves_modify; intros w; exists []; cbn; by rewrite app_nil_r.
Lemma update_svc_grows l f : preserves history_grows (update_svc l f).
Proof. history_only. Qed.
Lemma SetService_grows k l : preserves history_grows (SetService k l).
Proof. history_only. Qed.
Lemma update_job_grows l f : preserves history_grows (update_job l f).
Proof. history_only. Qed.
Lemma SetJob_grows p l : preserves history_grows (SetJob p l).
Proof. history_only. Qed.
#[export] Hint Resolve update_svc_grows SetService_grows update_job_grows SetJob_grows : preserves.

(** A command that makes what is not there. *)
Lemma made_run O (there : bool) dir name args w :
  exists made w', only_history w w' /\
    (if there then mret None else simpleRun O dir name args) w = (Done made, w') /\
    forall e, made = Some e -> exists h, O _ h (Run dir name args) = Some e.
Proof.
  destruct there; do 2 eexists; (split; [|split; [reflexivity|]]); [done|done|apply only_history_event|].
  intros e He. by eexists.
Qed.

Section Dumps.
Variable O : oracle.

(** ** The calls of one run *)

(** Call [c] with answer [r] is one of [new]. *)
Definition called {A} (c : call A) (r : A) (new : list event) : Prop := Event c r ∈ new.

Lemma called_mono {A} (c : call A) r new new' : called c r new -> new ⊆ new' -> called c r new'.
Proof. unfold called. set_solver. Qed.
Lemma called_last {A} (c : call A) r new : called c r (new ++ [Event c r]).
Proof. unfold called. set_solver. Qed.

(** A call of a run that has made the calls [past] since [h0]. *)
Lemma ext_past {A} (c : call A) w r w1 h0 past :
  history w = (h0 ++ past)%list -> ext O c w = (Done r, w1) ->
  history w1 = (h0 ++ (past ++ [Event c r]))%list /\ past ⊆ (past ++ [Event c r])%list.
Proof. intros Hh E. apply ext_inv in E as [-> _]. cbn. rewrite Hh, <- (assoc_L (++)%list). split; [done|set_solver]. Qed.

(** ** The pods of a service *)

(** What is called for the pods: every connection and every dump is one of a pod without an
    error. *)
Definition pod_call (pods : list Pod) (e : event) : Prop :=
  match ev_call e with
  | DialTimeout addr => exists pod, pod ∈ pods /\ HasError pod = false /\ addr = Addr pod +:+ ":6300"
  | CreateTemp dir _ => dir = ""
  | Run _ name args => exists pod f, pod ∈ pods /\ HasError pod = false /\ name = "java" /\ args = dump_args (Addr pod) f
  | _ => False
  end.

(** No temporary file could be made, or the dump of a pod failed. *)
Definition pods_failed (pods : list Pod) (new : list event) : Prop :=
  exists e, (exists pat, called (CreateTemp "" pat) (inr e) new) \/
    exists pod f, pod ∈ pods /\ HasError pod = false /\ called (Run "" "java" (dump_args (Addr pod) f)) (Some e) new.

(** A pod was dumped into file [f]. *)
Definition pod_dumped (pods : list Pod) (new : list event) (f : string) : Prop :=
  exists pod, pod ∈ pods /\ HasError pod = false /\ called (Run "" "java" (dump_args (Addr pod) f)) None new.

(** What became of a pod in a loop that reached its end. *)
Definition pod_outcome (files : list string) (errs : gmap string string) (new : list event) (pod : Pod) : Prop :=
  HasError pod = true \/ HasError pod = false /\
  ((exists err, called (DialTimeout (Addr pod +:+ ":6300")) (Some err) new /\ is_Some (errs !! Addr pod)) \/
   (exists f, called (DialTimeout (Addr pod +:+ ":6300")) None new /\
              called (Run "" "java" (dump_args (Addr pod) f)) None new /\ f ∈ files)).

(** Every message is about a failed connection. *)
Definition dial_errors (svc : string) (errs : gmap string string) (new : list event) : Prop :=
  forall addr msg, errs !! addr = Some msg ->
  exists err, msg = dial_error svc addr err /\ called (DialTimeout (addr +:+ ":6300")) (Some err) new.

Lemma dial_errors_mono svc errs new new' : dial_errors svc errs new -> new ⊆ new' -> dial_errors svc errs new'.
Proof. intros H Hn a m Ha. destruct (H a m Ha) as (err & -> & Hd). exists err. split; [done|by eapply called_mono]. Qed.
Lemma pod_dumped_mono pods new new' f : pod_dumped pods new f -> new ⊆ new' -> pod_dumped pods new' f.
Proof. intros (pod & Hp & He & H) Hn. exists pod. split_and!; [done|done|by eapply called_mono]. Qed.

(** What a loop over [pods], which are among [all], has done with the calls [past]. *)
Record pods_so_far (svc : string) (all : list Pod) (execs : list string) (errs : gmap string string) (past : list event) : Prop := {
  so_far_calls : Forall (pod_call all) past;
  so_far_errors : dial_errors svc errs past;
  so_far_files : forall f, f ∈ execs -> pod_dumped all past f;
}.
Definition pods_result svc (all pods : list Pod) (execs : list string) (errs : gmap string string) (new : list event)
  (r : option (list string * gmap string string)) : Prop :=
  match r with
  | None => pods_failed all new
  | Some (execs', errs') =>
      Forall (pod_outcome execs' errs' new) pods /\ pods_so_far svc all execs' errs' new /\
      execs ⊆ execs' /\ (forall a, is_Some (errs !! a) -> is_Some (errs' !! a))
  end.
(** After [pod], of which the loop kept [execs1] and [errs1]. *)
Lemma pods_result_cons svc all pod pods execs errs execs1 errs1 new r :
  pods_result svc all pods execs1 errs1 new r -> execs ⊆ execs1 -> (forall a, is_Some (errs !! a) -> is_Some (errs1 !! a)) ->
  (forall execs' errs', execs1 ⊆ execs' -> (forall a, is_Some (errs1 !! a) -> is_Some (errs' !! a)) ->
     pod_outcome execs' errs' new pod) ->
  pods_result svc all (pod :: pods) execs errs new r.
Proof.
  destruct r as [[execs' errs']|]; [|done]. intros (H1 & H2 & H3 & H4) Hx He Hp. split_and!; [|done|set_solver|auto].
  constructor; [by apply Hp|done].
Qed.

Lemma dump_pods_calls svc all h0 pods : forall i execs errs past w r w',
  pods ⊆ all -> history w = (h0 ++ past)%list -> pods_so_far svc all execs errs past ->
  dump_pods O svc i pods execs errs w = (Done r, w') ->
  exists new, history w' = (h0 ++ new)%list /\ past ⊆ new /\ Forall (pod_call all) new /\
    pods_result svc all pods execs errs new r.
Proof.
  induction pods as [|pod pods IH]; intros i execs errs past w r w' Hall Hh [Hc He Hf] H; cbn [dump_pods] in H.
  { go_inv. exists past. by split_and!. }
  assert (pod ∈ all) as Hpod by set_solver. assert (pods ⊆ all) as Hpods by set_solver.
  destruct (HasError pod) eqn:Hp.
  { eapply IH in H as (new & H1 & H2 & H3 & H4); [|done..]. exists new. split_and!; [done..|].
    eapply pods_result_cons; [exact H4|done|done|]. by left. }
  apply bind_inv_done in H as (d & w1 & E & H). apply (ext_past _ _ _ _ h0 past Hh) in E as [Hh1 Hs1].
  assert (Hc1 : Forall (pod_call all) (past ++ [Event (DialTimeout (Addr pod +:+ ":6300")) d])).
  { apply Forall_app_2; [done|]. constructor; [by exists pod|done]. }
  set (past1 := (past ++ _)%list) in *. assert (Hd : called (DialTimeout (Addr pod +:+ ":6300")) d past1) by apply called_last.
  destruct d as [err|].
  { eapply IH in H as (new & H1 & H2 & H3 & H4); [|done|exact Hh1|].
    - exists new. split_and!; [done|set_solver|done|]. eapply pods_result_cons; [exact H4|done| |].
      + intros a Ha. destruct (decide (a = Addr pod)) as [->|]; [rewrite lookup_insert_eq; by eexists|by rewrite lookup_insert_ne].
      + intros execs' errs' _ Herrs. right. split; [done|]. left. exists err. split; [by eapply called_mono|].
        apply Herrs. rewrite lookup_insert_eq. by eexists.
    - split; [done| |intros f Hfile; eapply pod_dumped_mono; [by apply Hf|done]]. intros a m.
      destruct (decide (a = Addr pod)) as [->|]; [rewrite lookup_insert_eq; intros [= <-]; by exists err|].
      rewrite lookup_insert_ne by done. by apply (dial_errors_mono svc errs past). }
  apply bind_inv_done in H as (f & w2 & E & H). apply (ext_past _ _ _ _ h0 past1 Hh1) in E as [Hh2 Hs2].
  assert (Hc2 : Forall (pod_call all) (past1 ++ [Event (CreateTemp "" ("svc_pod_" +:+ pretty i)) f])) by (by apply Forall_app_2; [|constructor]).
  set (past2 := (past1 ++ _)%list) in *. destruct f as [f|e].
  2: { go_inv. exists past2. split_and!; [done|set_solver|done|]. exists e. left. eexists. apply called_last. }
  apply bind_inv_done in H as (d & w3 & E & H). apply (ext_past _ _ _ _ h0 past2 Hh2) in E as [Hh3 Hs3].
  assert (Hc3 : Forall (pod_call all) (past2 ++ [Event (Run "" "java" (dump_args (Addr pod) f)) d])).
  { apply Forall_app_2; [done|]. constructor; [by exists pod, f|done]. }
  set (past3 := (past2 ++ _)%list) in *.
  assert (Hrun : called (Run "" "java" (dump_args (Addr pod) f)) d past3) by apply called_last.
  destruct d as [e|]; [go_inv; exists past3; split_and!; [done|set_solver|done|exists e; right; by exists pod, f]|].
  eapply IH in H as (new & H1 & H2 & H3 & H4); [|done|exact Hh3|].
  - exists new. split_and!; [done|set_solver|done|]. eapply pods_result_cons; [exact H4|set_solver|done|].
    intros execs' errs' Hfiles _. right. split; [done|]. right. exists f.
    split_and!; [eapply called_mono; [exact Hd|set_solver]|by eapply called_mono|set_solver].
  - split; [done|apply (dial_errors_mono svc errs past); [done|set_solver]|]. intros g [Hg|Hg%list_elem_of_singleton]%elem_of_app.
    + eapply pod_dumped_mono; [by apply Hf|set_solver].
    + subst g. by exists pod.
Qed.

(** A pod that answers but whose dump fails ends the loop without a result. *)
Lemma dump_pods_fails svc pods1 pod pods2 : forall i execs errs w,
  HasError pod = false ->
  (forall h, O _ h (DialTimeout (Addr pod +:+ ":6300")) = None) ->
  (forall h f, exists err, O _ h (Run "" "java" (dump_args (Addr pod) f)) = Some err) ->
  exists w', dump_pods O svc i (pods1 ++ pod :: pods2)%list execs errs w = (Done None, w').
Proof.
  induction pods1 as [|p pods1 IH]; intros i execs errs w Hp Hdial Hrun; cbn [dump_pods app].
  - rewrite Hp, bind_run, ext_run, Hdial. cbn beta iota. rewrite bind_run, ext_run. cbn beta iota.
    destruct (O _ _ (CreateTemp _ _)) as [f|e]; [|by eexists]. unfold simpleRun. rewrite bind_run, ext_run.
    match goal with |- context [O _ ?h (Run _ _ _)] => destruct (Hrun h f) as [err ->] end. by eexists.
  - destruct (HasError p); [by apply IH|]. rewrite bind_run, ext_run. cbn beta iota.
    destruct (O _ _ (DialTimeout _)); [by apply IH|]. rewrite bind_run, ext_run. cbn beta iota.
    destruct (O _ _ (CreateTemp _ _)) as [f|e]; [|by eexists]. unfold simpleRun. rewrite bind_run, ext_run. cbn beta iota.
    destruct (O _ _ (Run _ _ _)); [by eexists|by apply IH].
Qed.

(** What a dump writes of the service it recorded. *)
Definition dumped (err : option error) (errs : gmap string string) (o : Service) : Service :=
  svc_with_pods (map (mark_pod errs) (Pods o)) (svc_add_error (merge_error err) o).

Lemma record_dump_inv key name msg errs w w' l o :
  Services w !! key = Some l -> svc_heap w !! l = Some o -> IsDelete o = false -> name = key ->
  record_dump key name msg errs w = (Done tt, w') ->
  svc_heap w' = <[l := svc_with_pods (map (mark_pod errs) (Pods o)) (svc_add_error msg o)]> (svc_heap w) /\
  Services w' = Services w /\ history w' = history w.
Proof.
  intros Hk Ho Hd -> H. unfold record_dump, GetService in H. rewrite bind_run in H. rewrite gets_run in H.
  rewrite Hk, (bind_done _ _ _ _ _ (load_svc_done _ _ _ Ho)), Hd in H.
  unfold update_svc, SetService in H. rewrite !bind_run, !modify_run in H. cbn in H. injection H as <-. cbn.
  split_and!; [|by apply insert_id|done]. apply map_eq. intros i. destruct (decide (i = l)) as [->|].
  - by rewrite !lookup_alter_eq, lookup_insert_eq, Ho.
  - by rewrite !lookup_alter_ne, lookup_insert_ne.
Qed.

(** What is called before the pods: the directory is made and a file in it. *)
Definition prep_call (dir name : string) (e : event) : Prop :=
  match ev_call e with
  | Stat path => path = dir
  | Run _ cmd args => cmd = "mkdir" /\ args = ["-p"; dir]
  | CreateTemp d pat => d = dir /\ pat = "svc_" +:+ name +:+ "_*.exec"
  | _ => False
  end.

(** The calls of a dump of service [o], whose directory is [dir], failed. *)
Definition dump_failed (dir : string) (o : Service) (prep calls : list event) : Prop :=
  (exists e, called (Run "" "mkdir" ["-p"; dir]) (Some e) prep) \/
  (exists e, called (CreateTemp dir ("svc_" +:+ svc_Name o +:+ "_*.exec")) (inr e) prep) \/
  pods_failed (Pods o) calls.

(** C12: a dump of a service that is registered and not deleted makes its directory and a file,
    then connects to and dumps only pods without an earlier error. Either a call for the
    directory, for a temporary file or for the dump of a pod failed, and nothing is merged and
    nothing recorded; or the dumps are merged, with one call and the last, and the outcome is
    recorded: each pod was skipped for an earlier error, or could not be reached and is marked
    with that error, or was dumped into one of the merged files, which are all such dumps; a
    failed merge is appended to the service's error. *)
Theorem dump_service_spec planID key w w' l o :
  Services w !! key = Some l -> svc_heap w !! l = Some o -> svc_Name o = key -> IsDelete o = false ->
  dump_service O planID key w = (Done tt, w') ->
  let dir := GenSvcDumpExecDir planID key in
  exists prep calls, Forall (prep_call dir key) prep /\ Forall (pod_call (Pods o)) calls /\
  ((dump_failed dir o prep calls /\ history w' = (history w ++ prep ++ calls)%list /\ svc_heap w' = svc_heap w) \/
   exists dest files errs err,
    called (CreateTemp dir ("svc_" +:+ key +:+ "_*.exec")) (inl dest) prep /\
    history w' = (history w ++ prep ++ calls ++
      [Event (Run "" "java" (["-jar"; JacocoCliAddr; "merge"] ++ files ++ ["--destfile"; dest])) err])%list /\
    Forall (pod_outcome files errs calls) (Pods o) /\ (forall f, f ∈ files -> pod_dumped (Pods o) calls f) /\
    dial_errors key errs calls /\ svc_heap w' = <[l := dumped err errs o]> (svc_heap w)).
Proof.
  intros Hk Ho Hname Hd H dir. unfold dump_service, GetService in H. rewrite bind_run in H. rewrite gets_run in H.
  rewrite Hk, (bind_done _ _ _ _ _ (load_svc_done _ _ _ Ho)), Hd, Hname in H. cbv zeta in H. fold dir in H.
  apply bind_inv_done in H as (there & w1 & E1 & H). apply bind_inv_done in H as (made & w2 & E2 & H).
  assert (Hprep : exists prep, history w2 = (history w ++ prep)%list /\ Forall (prep_call dir key) prep /\
    forall e, made = Some e -> called (Run "" "mkdir" ["-p"; dir]) (Some e) prep).
  { unfold Exists in E1. apply bind_inv_done in E1 as (st & w1' & E1 & Er). go_inv. apply ext_inv in E1 as [-> _].
    set (ev := Event (Stat dir) st) in *. destruct (match st with StatOk => true | StatExistErr => true | StatErr => false end).
    - go_inv. exists [ev]. split_and!; [done|by repeat constructor|done].
    - apply ext_inv in E2 as [-> _]. exists [ev; Event (Run "" "mkdir" ["-p"; dir]) made]. split_and!.
      + cbn. by rewrite <- (assoc_L (++)%list).
      + by repeat constructor.
      + intros e ->. right. left. }
  destruct Hprep as (prep & Hh2 & Hprep & Hmade).
  assert (H12 : only_history w w2) by (etrans; (eapply only_history_run; [|eassumption]); preserve).
  destruct H12 as (_ & _ & HS2 & HH2 & _).
  destruct made as [e|].
  { go_inv. exists prep, []. split_and!; [done..|]. left. rewrite !app_nil_r. split_and!; [left; exists e; auto|done|done]. }
  apply bind_inv_done in H as (f & w3 & E3 & H). apply ext_inv in E3 as [-> _].
  set (ev := Event (CreateTemp _ _) f) in *. set (w3 := with_event ev w2) in *.
  assert (Hprep3 : Forall (prep_call dir key) (prep ++ [ev])) by (by apply Forall_app_2; [|repeat constructor]).
  assert (Hh3 : history w3 = (history w ++ prep ++ [ev])%list) by (cbn; by rewrite Hh2, (assoc_L (++)%list)).
  destruct f as [dest|e].
  2: { go_inv. exists (prep ++ [ev])%list, []. split_and!; [done..|]. left. rewrite !app_nil_r.
       split_and!; [right; left; exists e; apply called_last|done|done]. }
  apply bind_inv_done in H as (now & v3 & En & H). apply load_svc_inv in En as [-> Hnow].
  assert (now = o) as -> by (cbn in Hnow; congruence).
  apply bind_inv_done in H as (r & w4 & E4 & H).
  pose proof (only_history_run _ _ _ _ (dump_pods_only_history O _ _ _ _ _) E4) as (_ & _ & HS4 & HH4 & _).
  eapply (dump_pods_calls key (Pods o) (history w3)) in E4 as (calls & Hh4 & _ & Hcalls & Hres);
    [|done|by rewrite app_nil_r|split; [done|intros a m Ha; by apply lookup_empty_Some in Ha|intros f Hf; by apply elem_of_nil in Hf]].
  rewrite Hh3, <- (assoc_L (++)%list) in Hh4.
  exists (prep ++ [ev])%list, calls. split; [done|]. split; [done|]. destruct r as [[files errs]|].
  2: { left. go_inv. split_and!; [by right; right|done|by rewrite HH4]. }
  right. destruct Hres as (Hout & [_ Herrs Hfiles] & _). apply bind_inv_done in H as (err & w5 & E5 & H).
  apply ext_inv in E5 as [-> _].
  eapply record_dump_inv in H as (Hheap & _ & Hhist); [|cbn; rewrite HS4; cbn; by rewrite HS2|cbn; rewrite HH4; cbn; by rewrite HH2|done|done].
  exists dest, files, errs, err. split_and!; [apply called_last| |done..|].
  - rewrite Hhist. cbn. by rewrite Hh4, !(assoc_L (++)%list).
  - rewrite Hheap. cbn. rewrite HH4; cbn; by rewrite HH2.
Qed.

(** The pod answers, but the dump command fails on it. *)
Definition dump_fails (pod : Pod) : Prop :=
  HasError pod = false /\
  (forall h, O _ h (DialTimeout (Addr pod +:+ ":6300")) = None) /\
  (forall h f, exists err, O _ h (Run "" "java" (dump_args (Addr pod) f)) = Some err).

(** When one pod of a service answers but its dump fails, the goroutine returns: the
    files already dumped from the other pods are not merged, and neither the failure nor the
    connection errors of other pods are recorded anywhere. *)
Theorem failed_pod_dump_is_lost planID key w l o pods1 pod pods2 :
  Services w !! key = Some l -> svc_heap w !! l = Some o ->
  Pods o = (pods1 ++ pod :: pods2)%list -> dump_fails pod ->
  exists w', dump_service O planID key w = (Done tt, w') /\ svc_heap w' = svc_heap w /\ Services w' = Services w.
Proof.
  intros Hk Ho Hpods (Hp & Hdial & Hrun).
  unfold dump_service, GetService. rewrite bind_run, gets_run, Hk, (bind_done _ _ _ _ _ (load_svc_done _ _ _ Ho)).
  destruct (IsDelete o); [by exists w|]. cbv zeta. unfold Exists. rewrite !bind_run, ext_run. cbn beta iota. rewrite ret_run.
  set (w1 := with_event _ w). set (there := match _ with StatOk => true | _ => _ end). cbn beta iota.
  destruct (made_run O there "" "mkdir" ["-p"; GenSvcDumpExecDir planID (svc_Name o)] w1) as (made & w2 & H12 & Hmade & _).
  assert (H2 : only_history w w2) by (etrans; [apply only_history_event|exact H12]).
  rewrite bind_run, Hmade. destruct made as [e|].
  { exists w2. destruct H2 as (_ & _ & HS & HH & _). by split_and!. }
  rewrite bind_run, ext_run. cbn beta iota. set (w3 := with_event _ w2).
  assert (H3 : only_history w w3) by (etrans; [exact H2|apply only_history_event]).
  assert (Ho3 : svc_heap w3 !! l = Some o) by (destruct H3 as (_ & _ & _ & -> & _); done).
  destruct (O _ _ (CreateTemp _ _)) as [f|e].
  2: { exists w3. destruct H3 as (_ & _ & HS & HH & _). by split_and!. }
  rewrite bind_run, (load_svc_done _ _ _ Ho3), Hpods. cbn beta iota.
  destruct (dump_pods_fails (svc_Name o) pods1 pod pods2 0 [] ∅ w3 Hp Hdial Hrun) as [w4 Hw4].
  rewrite (bind_done _ _ _ _ _ Hw4). exists w4. split; [reflexivity|].
  pose proof (only_history_run _ _ _ _ (dump_pods_only_history O _ _ _ _ _) Hw4) as H4.
  assert (only_history w w4) as (_ & _ & HS & HH & _) by (etrans; [exact H3|exact H4]). done.
Qed.
End Dumps.
