(* ===== verification/Merges.v ===== *)
(** * Merging dump files, and the error messages *)

From stdpp Require Import base tactics option list gmap strings.
From S2P Require Import Prelude GoStrings Goroutines NetHttp Conf AgentWorld Callback Services Jobs JobsEvolve JobsOrder Dumps.

Local Open Scope string_scope.

#[local] Hint Resolve mergeExec_only_history dump_pods_only_history remove_files_only_history : preserves.

Section Merges.
Variable O : oracle.

(** Every file of the list is removed, or at least tried. *)
Definition removals (files : list string) (rs : list (option error)) : list event :=
  zip_with (fun f r => Event (Remove f) r) files rs.
Lemma remove_files_calls files : forall w o w',
  remove_files O files w = (Done o, w') ->
  exists rs, length rs = length files /\ history w' = (history w ++ removals files rs)%list.
Proof.
  induction files as [|f files IH]; intros w o w' H.
  { exists []. split; [done|]. cbn. unfold remove_files in H. cbn in H. go_inv. by rewrite app_nil_r. }
  unfold remove_files in H. cbn [for_each] in H. apply bind_inv_done in H as (u & w1 & E & H).
  apply bind_inv_done in E as (r & w2 & E & H2). apply ext_inv in E as [-> _]. go_inv.
  apply IH in H as (rs & Hl & Hh). exists (r :: rs). split; [cbn; by rewrite Hl|].
  cbn. rewrite Hh. cbn. by rewrite <- (assoc_L (++)%list).
Qed.

Lemma record_merge_inv name err w b w' l o :
  Services w !! name = Some l -> svc_heap w !! l = Some o -> IsDelete o = false ->
  record_merge name err w = (Done b, w') ->
  b = true /\ history w' = history w /\ Services w' = Services w /\
  svc_heap w' = match err with Some _ => <[l := svc_add_error (merge_error err) o]> (svc_heap w) | None => svc_heap w end.
Proof.
  intros Hk Ho Hd. unfold record_merge. destruct err as [e|]; intros H; [|by go_inv].
  unfold GetService in H. rewrite bind_run in H. rewrite gets_run in H.
  rewrite Hk, (bind_done _ _ _ _ _ (load_svc_done _ _ _ Ho)), Hd in H.
  unfold update_svc, SetService in H. rewrite !bind_run, !modify_run in H. cbn in H. injection H as <- <-. cbn.
  split_and!; [done|done|by apply insert_id|]. apply map_eq. intros i. destruct (decide (i = l)) as [->|].
  - by rewrite lookup_alter_eq, lookup_insert_eq, Ho.
  - by rewrite lookup_alter_ne, lookup_insert_ne.
Qed.

(** C13: merging the dumps of a registered, not deleted service asks for its directory and
    then for a new file in it. If one of the two fails that is all: no entry is made and
    nothing recorded. Otherwise it makes exactly these calls more: one merge of exactly the
    .exec files listed into the new file, and then the removal of each of the merged files;
    and it enters the new file for the service. The removal and the entry happen whether or
    not the merge succeeded, so that after a failed merge, which is appended to the service's
    error, the dumps are gone and the entry names a file the merge did not write. *)
Theorem merge_service_spec planID merged key w m w' l o :
  Services w !! key = Some l -> svc_heap w !! l = Some o -> svc_Name o = key -> IsDelete o = false ->
  merge_service O planID merged key w = (Done m, w') ->
  let dir := GenSvcDumpExecDir planID key in
  let new_file := CreateTemp dir ("svc_" +:+ key +:+ "_*.exec") in
  (m = merged /\ svc_heap w' = svc_heap w /\ exists e,
     history w' = (history w ++ [Event (ReadDir dir) (inr e)])%list \/
     exists names, history w' = (history w ++ [Event (ReadDir dir) (inl names); Event new_file (inr e)])%list) \/
  (exists names dest err rs,
     let files := exec_files dir names in
     length rs = length files /\
     history w' = (history w ++
       [Event (ReadDir dir) (inl names); Event new_file (inl dest);
        Event (Run "" "java" (["-jar"; JacocoCliAddr; "merge"] ++ files ++ ["--destfile"; dest])) err] ++
       removals files rs)%list /\
     m = <[key := dest]> merged /\
     svc_heap w' = match err with
                   | Some _ => <[l := svc_add_error (merge_error err) o]> (svc_heap w)
                   | None => svc_heap w
                   end).
Proof.
  intros Hk Ho Hname Hd H dir new_file. unfold merge_service, GetService in H. rewrite bind_run in H. rewrite gets_run in H.
  rewrite Hk, (bind_done _ _ _ _ _ (load_svc_done _ _ _ Ho)), Hd, Hname in H. cbv zeta in H. fold dir new_file in H.
  apply bind_inv_done in H as (names & w1 & E1 & H). apply ext_inv in E1 as [-> _].
  destruct names as [names|e]; [|left; go_inv; split_and!; [done|done|exists e; by left]].
  apply bind_inv_done in H as (dest & w2 & E2 & H). apply ext_inv in E2 as [-> _].
  destruct dest as [dest|e].
  2: { left. go_inv. split_and!; [done|done|]. exists e. right. exists names. cbn. by rewrite <- (assoc_L (++)%list). }
  apply bind_inv_done in H as (err & w3 & E3 & H). unfold mergeExec, simpleRun in E3. apply ext_inv in E3 as [-> _].
  apply bind_inv_done in H as (b & w4 & E4 & H).
  eapply record_merge_inv in E4 as (-> & Hh4 & HS4 & HH4); [|exact Hk|exact Ho|done].
  apply bind_inv_done in H as (u & w5 & E5 & H).
  pose proof (only_history_run _ _ _ _ (remove_files_only_history O _) E5) as (_ & _ & _ & HH5 & _).
  apply remove_files_calls in E5 as (rs & Hl & Hh5). go_inv. right.
  exists names, dest, err, rs. split_and!; [done| |done|by rewrite HH5, HH4].
  rewrite Hh5, Hh4. cbn. by rewrite <- !(assoc_L (++)%list).
Qed.

(** ** Reading all services *)

(** The services in the order of a visit, as far as their pointers are valid. *)
Definition visited (w : world) (order : list string) : list Service :=
  omap (fun k => Services w !! k ≫= fun l => svc_heap w !! l) order.

Lemma range_loop_reads {S} (body : S -> string -> prog world (bool * S)) (add : S -> Service -> S) w order s :
  (forall k l, k ∈ order -> Services w !! k = Some l -> is_Some (svc_heap w !! l)) ->
  (forall s k, body s k w =
     match Services w !! k with
     | None => (Done (true, s), w)
     | Some l => match svc_heap w !! l with Some v => (Done (true, add s v), w) | None => (Panic nil_deref, w) end
     end) ->
  range_loop order body s w = (Done (fold_left add (visited w order) s), w).
Proof.
  intros Hok Hbody. revert s. induction order as [|k order IH]; intros s; [done|].
  cbn [range_loop]. rewrite bind_run, Hbody. unfold visited. cbn [omap list_omap].
  destruct (Services w !! k) as [l|] eqn:Ek; cbn.
  - destruct (Hok k l ltac:(set_solver) Ek) as [v Hv]. rewrite Hv. cbn. apply IH. set_solver.
  - apply IH. set_solver.
Qed.

Lemma range_services_reads {S} (body : S -> string -> prog world (bool * S)) (add : S -> Service -> S) w s :
  svc_ok w ->
  (forall s k v, Services v = Services w -> svc_heap v = svc_heap w -> body s k v =
     match Services v !! k with
     | None => (Done (true, s), v)
     | Some l => match svc_heap v !! l with Some o => (Done (true, add s o), v) | None => (Panic nil_deref, v) end
     end) ->
  exists order w', order ≡ₚ (map_to_list (Services w)).*1 /\ only_history w w' /\
    range_services O body s w = (Done (fold_left add (visited w order) s), w').
Proof.
  intros Hok Hbody. unfold range_services. rewrite bind_run. rewrite gets_run.
  set (keys := (map_to_list (Services w)).*1). rewrite bind_run. unfold pick_order at 1.
  rewrite bind_run, ext_run, ret_run. cbn beta iota. set (r := O _ _ _). set (w1 := with_event _ w).
  set (order := if decide (r ≡ₚ keys) then r else keys).
  assert (Hperm : order ≡ₚ keys) by (subst order; by case_decide).
  exists order, w1. split_and!; [done|unfold w1, only_history; cbn; split_and!; try done; by eexists|].
  rewrite (range_loop_reads body add w1).
  - reflexivity.
  - intros k l _ Hk. destruct (Hok k l Hk) as (o & Ho & _). by exists o.
  - intros s' k. by apply Hbody.
Qed.

(** C28: the message sent to the center is at most 1500 bytes long; up to that length it is
    the job's own error followed by the errors of every registered service and of its pods,
    in some order of the services. *)
Theorem buildCallbackErrorMessage_spec planID w l j :
  svc_ok w -> RunJobs w !! KeyUint64 planID = Some l -> job_heap w !! l = Some j ->
  exists order msg w', order ≡ₚ (map_to_list (Services w)).*1 /\ only_history w w' /\
    buildCallbackErrorMessage O planID w = (Done msg, w') /\
    String.length msg <= 1500 /\
    let full := job_message j +:+ line (fold_left (fun m s => m +:+ svc_message s) (visited w order) "") in
    (exists rest, full = msg +:+ rest) /\ (String.length full <= 1500 -> msg = full).
Proof.
  intros Hok Hk Hj. unfold buildCallbackErrorMessage, GetJob. rewrite bind_run. rewrite gets_run. rewrite Hk.
  rewrite (bind_done _ _ _ _ _ (load_job_done _ _ _ Hj)).
  destruct (range_services_reads message_body (fun m s => m +:+ svc_message s) w "" Hok) as (order & w' & Hp & Hh & Hrun).
  { intros s k v _ _. unfold message_body, GetService. rewrite bind_run. rewrite gets_run.
    destruct (Services v !! k) as [a|]; [|done]. rewrite bind_run. cbn. by destruct (svc_heap v !! a). }
  rewrite (bind_done _ _ _ _ _ Hrun). set (full := job_message j +:+ _).
  exists order, (truncate_message full), w'. cbv zeta. fold full. unfold truncate_message.
  destruct (Nat.ltb_spec 1500 (String.length full)).
  - split_and!; [done|done|done|by apply take_str_length_le| |intros; exfalso; lia].
    exists (drop_str 1500 full). symmetry. apply take_drop_str.
  - split_and!; [done|done|done|done| |done]. exists "". by rewrite str_app_nil_r.
Qed.

(** ** The jar files of a plan *)

(** The class files of a plan are extracted, with one command, from the jar files of
    exactly the services without error, in some order; without any such file no command is
    run, and the function succeeds exactly when the command does. *)
Theorem loadClassSources_spec Cfg url_Parse_error json_Marshal RetryOnConflict planID w :
  svc_ok w ->
  exists order w1, order ≡ₚ (map_to_list (Services w)).*1 /\ only_history w w1 /\
    let jars := concat (map (fun s => if bool_decide (ErrorMessage s <> "") then [] else JarAddrList s)
                          (visited w order)) in
    let run := loadClassSources O Cfg url_Parse_error json_Marshal RetryOnConflict planID w in
    if bool_decide (jars = []) then run = (Done (Some "all service not find jar path"), w1)
    else forall w', run = (Done None, w') <->
      O _ (history w1) (Run "" "/bin/bash" ["-lc"; extract_command jars]) = None /\
      w' = with_event (Event (Run "" "/bin/bash" ["-lc"; extract_command jars]) None) w1.
Proof.
  intros Hok. unfold loadClassSources.
  set (add := fun jars s => if bool_decide (ErrorMessage s <> "") then jars else (jars ++ JarAddrList s)%list).
  destruct (range_services_reads jars_body add w [] Hok) as (order & w1 & Hp & Hh & Hrun).
  { intros s k v _ _. unfold jars_body, GetService. rewrite bind_run. rewrite gets_run.
    destruct (Services v !! k) as [a|]; [|done]. rewrite bind_run. cbn.
    destruct (svc_heap v !! a); [|done]. unfold add. by case_bool_decide. }
  exists order, w1. split; [done|]. split; [done|]. cbv zeta. rewrite (bind_done _ _ _ _ _ Hrun).
  assert (Hadd : forall l s, fold_left add l s =
    (s ++ concat (map (fun s => if bool_decide (ErrorMessage s <> "") then [] else JarAddrList s) l))%list).
  { induction l as [|o l IH]; intros s; cbn; [by rewrite app_nil_r|]. rewrite IH. unfold add.
    case_bool_decide; cbn; [done|]. by rewrite (assoc_L (++)%list). }
  rewrite Hadd, app_nil_l. set (jars := concat _). case_bool_decide as Hj; [done|].
  intros w'. unfold simpleRun. rewrite bind_run, ext_run. cbn beta iota zeta.
  destruct (O _ _ _) as [err|] eqn:E.
  - split; [|by intros [? _]]. intros H. apply bind_inv_done in H as (c & w2 & _ & H). by destruct c; go_inv.
  - rewrite ret_run. split; [by intros [= <-]|by intros [_ ->]].
Qed.

End Merges.
