(* ===== verification/DumpRuns.v ===== *)
(** * The dump lock, and the goroutines of a dump run alone *)

From stdpp Require Import base tactics option list gmap strings.
From S2P Require Import Prelude GoStrings Goroutines LimitGroup NetHttp Conf AgentWorld Callback Services Jobs JobsEvolve JobsOrder Dumps Merges.

#[local] Hint Resolve mergeExec_only_history dump_pods_only_history remove_files_only_history : preserves.

(** The groups stay. *)
Definition same_groups (w w' : world) : Prop := group_heap w' = group_heap w.
#[global] Instance same_groups_preorder : PreOrder same_groups.
Proof. split; [by intros w|]. intros w1 w2 w3 H1 H2. unfold same_groups in *. congruence. Qed.
Lemma only_history_same_groups w w' : only_history w w' -> same_groups w w'.
Proof. by intros (_ & _ & _ & _ & H & _). Qed.
#[export] Hint Resolve only_history_same_groups : preserves.
#[export] Hint Extern 5 (preserves same_groups _) =>
  apply (preserves_sub only_history same_groups _ only_history_same_groups); solve [auto with preserves] : preserves.
Lemma update_svc_groups l f : preserves same_groups (update_svc l f).
Proof. by apply preserves_modify. Qed.
Lemma SetService_groups k l : preserves same_groups (SetService k l).
Proof. by apply preserves_modify. Qed.
#[export] Hint Resolve update_svc_groups SetService_groups : preserves.

Section DumpRuns.
Variable O : oracle.

(** ** The dump lock *)

Lemma lock_dump_held l j w : job_heap w !! l = Some j -> DumpLock j = true -> lock_dump l w = (Blocked, w).
Proof. intros Hj Hd. cbn. by rewrite Hj, Hd. Qed.

Lemma lock_dump_free l j w : job_heap w !! l = Some j -> DumpLock j = false ->
  lock_dump l w = (Done tt, with_job_heap (alter (job_with_lock true) l) w).
Proof. intros Hj Hd. cbn. by rewrite Hj, Hd. Qed.

(** The pointer of a registered job and its lock, after a run that changed no job. *)
Definition lock_is (l : loc) (b : bool) (w : world) : Prop :=
  exists j, job_heap w !! l = Some j /\ DumpLock j = b.

#[local] Hint Resolve record_merge_jobs dump_task_jobs : preserves.

Lemma get_registered planID l {A} (k : option loc -> prog world A) w :
  RunJobs w !! KeyUint64 planID = Some l -> (GetJob planID ≫= k) w = k (Some l) w.
Proof. intros Hk. unfold GetJob. rewrite bind_run. rewrite gets_run. by rewrite Hk. Qed.

Lemma dump_blocked planID w l :
  RunJobs w !! KeyUint64 planID = Some l -> lock_is l true w ->
  dumpExec O planID w = (Blocked, w) /\ mergeAllSvcExec O planID w = (Blocked, w).
Proof.
  intros Hk (j & Hj & Hd). unfold dumpExec, mergeAllSvcExec. rewrite !(get_registered planID l) by done.
  split; by rewrite bind_run, (lock_dump_held l j).
Qed.

(** What a run that locked and unlocked left of the jobs. *)
Definition unlocked (l : loc) (j : DetectionJob) (w w' : world) : Prop :=
  RunJobs w' = RunJobs w /\ job_heap w' = <[l := job_with_lock false j]> (job_heap w).

Lemma same_jobs_run {A} (m : prog world A) w o w' : preserves same_jobs m -> m w = (o, w') -> same_jobs w w'.
Proof. intros Hm H. exact (preserves_alone _ _ _ _ _ Hm H). Qed.

Lemma locked_run {S} l j w (rest : prog world S) s w' :
  job_heap w !! l = Some j ->
  (forall w1, rest w1 = (Done s, w') -> exists v, same_jobs w1 v /\ unlock_dump l v = (Done tt, w')) ->
  (lock_dump l ≫= fun _ => rest) w = (Done s, w') -> unlocked l j w w'.
Proof.
  intros Hj Hrest H. destruct (DumpLock j) eqn:Hd; [by rewrite bind_run, (lock_dump_held l j) in H|].
  rewrite (bind_done _ _ _ _ _ (lock_dump_free l j w Hj Hd)) in H.
  apply Hrest in H as (v & [HR HH] & H). unfold unlock_dump, update_job in H. rewrite modify_run in H. injection H as <-.
  split; cbn in *; [by rewrite HR|]. rewrite HH. apply map_eq. intros i. destruct (decide (i = l)) as [->|].
  - by rewrite !lookup_alter_eq, lookup_insert_eq, Hj.
  - by rewrite !lookup_alter_ne, lookup_insert_ne.
Qed.

Lemma dumpExec_unlocked planID w l j w' :
  RunJobs w !! KeyUint64 planID = Some l -> job_heap w !! l = Some j ->
  dumpExec O planID w = (Done tt, w') -> unlocked l j w w'.
Proof.
  intros Hk Hj. unfold dumpExec. rewrite (get_registered planID l) by done. apply locked_run; [done|]. intros w1 H.
  apply bind_inv_done in H as (wait & w2 & E2 & H). apply bind_inv_done in H as ([] & w3 & E3 & H).
  apply bind_inv_done in H as ([] & w4 & E4 & H). exists w4. split; [|exact H].
  etrans; [eapply same_jobs_run; [|exact E2]; auto with preserves|].
  etrans; [eapply same_jobs_run; [|exact E3]|eapply same_jobs_run; [|exact E4]; auto with preserves].
  unfold dump_body. preserve.
Qed.

Lemma mergeAllSvcExec_unlocked planID w l j m w' :
  RunJobs w !! KeyUint64 planID = Some l -> job_heap w !! l = Some j ->
  mergeAllSvcExec O planID w = (Done m, w') -> unlocked l j w w'.
Proof.
  intros Hk Hj. unfold mergeAllSvcExec. rewrite (get_registered planID l) by done. apply locked_run; [done|].
  intros w1 H. apply bind_inv_done in H as (m' & w3 & E3 & H). apply bind_inv_done in H as ([] & w4 & E4 & H). go_inv.
  exists w3. split; [|exact E4]. eapply same_jobs_run; [|exact E3].
  unfold merge_body, merge_service. preserve.
Qed.

(** ** A dump that runs alone ends *)

Lemma dump_service_groups planID key : preserves same_groups (dump_service O planID key).
Proof. unfold dump_service, record_dump. preserve. Qed.

#[local] Hint Resolve record_dump_jobs : preserves.
Lemma dump_service_jobs planID key : preserves same_jobs (dump_service O planID key).
Proof. unfold dump_service. preserve. Qed.

(** [p] returns from any state where the registry of services is in order and [P] holds. *)
Definition ends {A} (P : world -> Prop) (p : prog world A) : Prop :=
  forall w, svc_ok w -> P w -> is_done (p w).1 = true.

(** The pointer leads to a service. *)
Definition valid (l : loc) (w : world) : Prop := is_Some (svc_heap w !! l).
#[local] Instance valid_stable l : Stable svc_R (fun w => svc_ok w /\ valid l w).
Proof.
  intros w w' [Hok [s Hs]] HR. destruct (HR Hok) as [Hok' [_ Hh]]. split; [done|].
  destruct (Hh l s Hs) as (s' & Hs' & _). by exists s'.
Qed.
#[local] Instance ok_stable : Stable svc_R (fun w => svc_ok w /\ True).
Proof. intros w w' [Hok _] HR. by split; [apply HR|]. Qed.

Lemma ends_ret {A} P (a : A) : ends P (mret a).
Proof. by intros w _. Qed.
Lemma ends_bind P {A B} (p : prog world A) (k : A -> prog world B) `{!Stable svc_R (fun w => svc_ok w /\ P w)} :
  ends P p -> preserves svc_R p -> (forall a, ends P (k a)) -> ends P (p ≫= k).
Proof.
  intros Hp HR Hk w Hw HP. rewrite bind_run. specialize (Hp w Hw HP). destruct (p w) as [[a| |] w1] eqn:E; [|done..].
  destruct (stable w w1 (conj Hw HP) (preserves_alone _ _ _ _ _ HR E)) as [Hw1 HP1]. by apply Hk.
Qed.
Lemma ends_ext P {A B} (c : call A) (k : A -> prog world B) `{!Stable svc_R (fun w => svc_ok w /\ P w)} :
  (forall a, ends P (k a)) -> ends P (ext O c ≫= k).
Proof. intros Hk. apply ends_bind; [done|by intros w _|auto with preserves|done]. Qed.
Lemma ends_load l {B} (k : Service -> prog world B) : (forall s, ends (valid l) (k s)) -> ends (valid l) (load_svc l ≫= k).
Proof. intros Hk w Hw [s Hs]. rewrite (bind_done _ _ _ _ _ (load_svc_done _ _ _ Hs)). apply Hk; [done|by exists s]. Qed.
Lemma ends_service key {B} (n : prog world B) (f : loc -> prog world B) :
  ends (fun _ => True) n -> (forall l, ends (valid l) (f l)) ->
  ends (fun _ => True) (GetService key ≫= fun o => match o with None => n | Some l => f l end).
Proof.
  intros Hn Hf w Hw _. unfold GetService. rewrite bind_run, gets_run.
  destruct (Services w !! key) as [l|] eqn:El; [|by apply Hn]. apply Hf; [done|].
  destruct (Hw _ _ El) as (s & Hs & _). by exists s.
Qed.
Lemma ends_weaken P {A} (p : prog world A) : ends (fun _ => True) p -> ends P p.
Proof. intros Hp w Hw _. by apply Hp. Qed.

Lemma dump_pods_ends P svc pods `{!Stable svc_R (fun w => svc_ok w /\ P w)} :
  forall i execs errs, ends P (dump_pods O svc i pods execs errs).
Proof.
  induction pods as [|pod pods IH]; intros i execs errs; cbn [dump_pods]; [apply ends_ret|].
  case_match; [apply IH|]. apply ends_ext; [done|]. intros [err|]; [apply IH|].
  apply ends_ext; [done|]. intros [f|err]; [|apply ends_ret]. unfold simpleRun. apply ends_ext; [done|].
  intros [err|]; [apply ends_ret|apply IH].
Qed.
Lemma record_dump_ends key name msg errs : ends (fun _ => True) (record_dump key name msg errs).
Proof.
  unfold record_dump. apply ends_service; [apply ends_ret|]. intros l. apply ends_load. intros n.
  case_match; [apply ends_ret|]. unfold update_svc, SetService. by intros w _.
Qed.
Lemma dump_service_ends planID key : ends (fun _ => True) (dump_service O planID key).
Proof.
  unfold dump_service. apply ends_service; [apply ends_ret|]. intros l. apply ends_load. intros s.
  case_match; [apply ends_ret|]. cbv zeta. unfold Exists, mergeExec, simpleRun.
  apply ends_bind; [typeclasses eauto|by intros w _|preserve|intros there].
  apply ends_bind; [typeclasses eauto|by intros w _; destruct there|preserve|intros [e|]; [apply ends_ret|]].
  apply ends_ext; [typeclasses eauto|]. intros [f|e]; [|apply ends_ret]. apply ends_load. intros now.
  apply ends_bind; [typeclasses eauto|apply dump_pods_ends; typeclasses eauto|auto with preserves|].
  intros [[execs errs]|]; [|apply ends_ret]. apply ends_ext; [typeclasses eauto|]. intros err.
  apply ends_weaken, record_dump_ends.
Qed.

(** *** The tasks of a dump *)

(** The state between two tasks: [wait] counts nothing. *)
Definition between (l wait : loc) (w : world) : Prop :=
  svc_ok w /\ is_Some (job_heap w !! l) /\ group_heap w !! wait = Some (NewSemaphore 5).

Lemma on_group_run f wait g g' w :
  group_heap w !! wait = Some g -> f g = Done g' -> on_group wait f w = (Done tt, with_group_heap (<[wait := g']>) w).
Proof. intros Hg Hf. unfold on_group. by rewrite Hg, Hf. Qed.

Lemma dump_task_run planID l wait key w :
  between l wait w ->
  exists w', (group_Add wait ≫= fun _ => fork (dump_task O planID wait key)) w = (Done tt, w') /\ between l wait w'.
Proof.
  intros (Hok & [j Hj] & Hg). set (g1 := Group 5 1 1).
  set (w1 := with_group_heap (<[wait := g1]>) (with_group_heap (<[wait := wg_Add 1 (NewSemaphore 5)]>) w)).
  assert (Hadd : group_Add wait w = (Done tt, w1)).
  { unfold group_Add. rewrite bind_run, local_run, (on_group_run (fun s => Done (wg_Add 1 s)) _ _ _ _ Hg eq_refl), await_run.
    by erewrite on_group_run by (apply lookup_insert_eq || reflexivity). }
  assert (Hok1 : svc_ok w1) by exact Hok. assert (Hg1 : group_heap w1 !! wait = Some g1) by apply lookup_insert_eq.
  rewrite (bind_done _ _ _ _ _ Hadd). pose proof (dump_service_ends planID key w1 Hok1 I) as Hd.
  pose proof (wp_alone svc_R svc_R (fun _ _ H => H) _ _ _ _ _
    (keeps_wp _ _ _ _ (dump_service_svc O planID key) w1 Hok1) (surjective_pairing _)) as [HR _].
  pose proof (preserves_state same_groups _ w1 (dump_service_groups planID key)) as Hsame.
  pose proof (preserves_state same_jobs _ w1 (dump_service_jobs planID key)) as [_ HH].
  destruct (dump_service O planID key w1) as [[[]| |] w2] eqn:E; [|done..]. cbn [fst snd] in *.
  assert (Hg2 : group_heap w2 !! wait = Some g1) by (by rewrite Hsame).
  set (w3 := with_group_heap (<[wait := NewSemaphore 5]>) (with_group_heap (<[wait := Group 5 0 1]>) w2)).
  exists w3. split.
  - assert (Ht : dump_task O planID wait key w1 = (Done tt, w3)).
    { unfold dump_task. rewrite (bind_done _ _ _ _ _ E). unfold group_Done.
      rewrite bind_run, await_run.
      rewrite (on_group_run (fun s => match receive s with Some s' => Done s' | None => Blocked end) _ _ _ _ Hg2 eq_refl), local_run.
      by erewrite on_group_run by (apply lookup_insert_eq || reflexivity). }
    cbn [fork alone]. by rewrite Ht.
  - split_and!; [apply (HR Hok1)| |apply lookup_insert_eq]. cbn. rewrite HH. by exists j.
Qed.
Lemma dump_loop_run planID l wait order : forall w,
  between l wait w ->
  exists w', range_loop order (dump_body O planID l wait) tt w = (Done tt, w') /\ between l wait w'.
Proof.
  induction order as [|key order IH]; intros w Hw; [by exists w|]. cbn [range_loop]. unfold dump_body.
  destruct Hw as (Hok & [j Hj] & Hg). rewrite bind_run, (bind_done _ _ _ _ _ (load_job_done _ _ _ Hj)).
  destruct (ctx_done j); [exists w; split; [reflexivity|by split_and!; [..|by exists j|]]|].
  destruct (dump_task_run planID l wait key w) as (w1 & H1 & Hw1); [by split_and!; [..|by exists j|]|].
  destruct (IH w1 Hw1) as (w2 & H2 & Hw2). exists w2. split; [|done].
  apply bind_inv_done in H1 as ([] & w0 & Hadd & Hfork).
  rewrite (bind_done _ _ _ _ _ Hadd), (bind_done _ _ _ _ _ Hfork). exact H2.
Qed.

Lemma dumpExec_returns planID w l j :
  svc_ok w -> RunJobs w !! KeyUint64 planID = Some l -> job_heap w !! l = Some j -> DumpLock j = false ->
  exists w', dumpExec O planID w = (Done tt, w').
Proof.
  intros Hok Hk Hj Hd. unfold dumpExec. rewrite (get_registered planID l) by done.
  rewrite (bind_done _ _ _ _ _ (lock_dump_free l j w Hj Hd)). set (w1 := with_job_heap _ w).
  unfold new_group. rewrite bind_run, local_run. cbn beta iota zeta. set (wait := fresh _).
  set (w2 := with_group_heap _ w1).
  assert (Hb : between l wait w2).
  { split_and!; [exact Hok| |apply lookup_insert_eq]. cbn. rewrite lookup_alter_eq, Hj. by eexists. }
  unfold range_services, pick_order. rewrite !bind_run, gets_run. cbn beta iota. rewrite !bind_run, ext_run, ret_run.
  cbn beta iota. set (order := if decide _ then _ else _). set (w3 := with_event _ w2).
  destruct (dump_loop_run planID l wait order w3) as (w4 & H4 & _ & _ & Hg); [exact Hb|].
  rewrite H4. cbn beta iota. unfold group_Wait. rewrite bind_run, await_run.
  rewrite (on_group_run (fun s => if wg_Wait s then Done s else Blocked) _ _ _ _ Hg eq_refl).
  eexists. reflexivity.
Qed.

(** C15: dumping and merging take the dump lock of the job and give it back: while it is held
    elsewhere they block without any effect; a dump that finds it free, in a process whose
    services are in order, and runs alone comes to its end, with all its tasks; and when the
    two return the lock is free and nothing else of any job has changed. *)
Theorem dump_lock_balanced planID w l :
  RunJobs w !! KeyUint64 planID = Some l ->
  (lock_is l true w ->
     dumpExec O planID w = (Blocked, w) /\ mergeAllSvcExec O planID w = (Blocked, w)) /\
  (lock_is l false w -> svc_ok w -> exists w', dumpExec O planID w = (Done tt, w')) /\
  (forall j, job_heap w !! l = Some j ->
     (forall w', dumpExec O planID w = (Done tt, w') -> unlocked l j w w') /\
     (forall m w', mergeAllSvcExec O planID w = (Done m, w') -> unlocked l j w w')).
Proof.
  intros Hk. split; [by apply dump_blocked|]. split.
  - intros (j & Hj & Hd) Hok. by eapply dumpExec_returns.
  - intros j Hj. split; [intros w'; by apply dumpExec_unlocked|intros m w'; by apply mergeAllSvcExec_unlocked].
Qed.
End DumpRuns.
