(* ===== verification/DumpGroup.v ===== *)
(** * The tasks of a dump among all goroutines

    [dumpExec] makes a group for five, adds one task after the other, and waits. Other
    goroutines run in between, other dumps too, each with a group of its own. The roles a
    goroutine can have towards one group are a type system for programs; that all code of the
    agent is well typed bounds, in every reachable state, the tasks of every dump. *)

From stdpp Require Import base tactics option list gmap strings relations.
From Stdlib Require Import Lia.
From S2P Require Import Prelude GoStrings Goroutines LimitGroup NetHttp Conf AgentWorld Callback Services Jobs JobsEvolve JobsOrder System Dumps Merges DumpRuns.

(** ** Roles *)

(** Towards a group a goroutine is nobody, or it adds tasks; it is then between the two
    statements of [Add], or between [Add] and [go]; or it is a task, before [Done] or between
    the two statements of [Done]. *)
Inductive role := Bystander | Adder | Sender | Starter | Task | Releaser.

(** What a statement does to the group and to the role of the goroutine that runs it. *)
Inductive moves : role -> option limitSyncGroup -> option limitSyncGroup -> role -> Prop :=
| moves_not r g : moves r g g r
| moves_new : moves Bystander None (Some (NewSemaphore 5)) Adder
| moves_add g : moves Adder (Some g) (Some (wg_Add 1 g)) Sender
| moves_send g g' : send g = Some g' -> moves Sender (Some g) (Some g') Starter
| moves_receive g g' : receive g = Some g' -> moves Task (Some g) (Some g') Releaser
| moves_done g g' : wg_Done g = Some g' -> moves Releaser (Some g) (Some g') Bystander
| moves_wait g : wg_Wait g = true -> moves Adder (Some g) (Some g) Bystander.

(** Who holds a place in the channel, and who is counted by the wait group. *)
Definition holds (r : role) : nat := match r with Starter | Task => 1 | _ => 0 end.
Definition counted (r : role) : nat := match r with Sender | Starter | Task | Releaser => 1 | _ => 0 end.

(** The group, when [h] goroutines hold a place and [n] are counted. *)
Definition group_is (g : option limitSyncGroup) (h n : nat) : Prop :=
  match g with
  | None => h = 0 /\ n = 0
  | Some s => maxSize s = 5 /\ c s = h /\ wg s = n /\ h <= 5
  end.

Lemma moves_group r g g' r' h n :
  moves r g g' r' -> group_is g (holds r + h) (counted r + n) -> group_is g' (holds r' + h) (counted r' + n).
Proof.
  destruct 1 as [r g| |s|s s' Hs|s s' Hs|s s' Hs|s Hs]; cbn; intros Hg; [exact Hg|lia|lia| | | |exact Hg].
  - unfold send in Hs. destruct (Nat.ltb_spec (c s) (maxSize s)); [|done]. injection Hs as <-. cbn. lia.
  - unfold receive in Hs. destruct (c s) eqn:E; [done|]. injection Hs as <-. cbn. lia.
  - unfold wg_Done in Hs. destruct (wg s) eqn:E; [done|]. injection Hs as <-. cbn. lia.
Qed.

Section Roles.
Variable wait : loc.

Abbreviation group w := (group_heap w !! wait).

(** [plays r p Q]: in role [r], all [p] does to the group is what its roles allow, and it
    returns in a role and with a result that satisfy [Q]. *)
Fixpoint plays {A : Type} (r : role) (p : prog world A) (Q : role -> A -> Prop) : Prop :=
  match p with
  | Ret a => Q r a
  | Local m k | Await m k =>
      forall w b w', m w = (Done b, w') -> exists r', moves r (group w) (group w') r' /\ plays r' (k b) Q
  | Fork g k =>
      match r with
      | Starter => plays Task g (fun r' _ => r' = Bystander) /\ plays Adder k Q
      | _ => plays Bystander g (fun r' _ => r' = Bystander) /\ plays r k Q
      end
  end.

Lemma plays_mono {A} r (p : prog world A) (Q Q' : role -> A -> Prop) :
  (forall r a, Q r a -> Q' r a) -> plays r p Q -> plays r p Q'.
Proof.
  intros HQ. revert r. induction p as [A a|A B m f IH|A B m f IH|A g _ f IH]; intros r; cbn; [apply HQ|..].
  1,2: intros H w b w' Hm; destruct (H w b w' Hm) as (r' & Hr & Hp); exists r'; split; [done|by eapply IH].
  destruct r; intros [Hg Hf]; (split; [done|by eapply IH]).
Qed.

Lemma plays_bind {A B} r (p : prog world A) (k : A -> prog world B) Q :
  plays r p (fun r' a => plays r' (k a) Q) -> plays r (p ≫= k) Q.
Proof.
  unfold mbind, prog_mbind. revert r k.
  induction p as [A a|A C m f IH|A C m f IH|A g _ f IH]; intros r k; cbn; [done|..].
  1,2: intros H w b w' Hm; destruct (H w b w' Hm) as (r' & Hr & Hp); exists r'; split; [done|by apply IH].
  destruct r; intros [Hg Hf]; (split; [done|by apply IH]).
Qed.

(** A statement. *)
Lemma plays_local {A} r (m : M world A) (Q : role -> A -> Prop) :
  (forall w b w', m w = (Done b, w') -> exists r', moves r (group w) (group w') r' /\ Q r' b) ->
  plays r (local m) Q /\ plays r (await m) Q.
Proof. done. Qed.

(** The role stays as it is. *)
Abbreviation stays r := (fun r' _ => r' = r).
Definition same_group (w w' : world) : Prop := group w' = group w.

Lemma plays_same {A} r (p : prog world A) : r <> Starter -> preserves same_group p -> plays r p (stays r).
Proof.
  revert r. induction p as [A a|A B m f IH|A B m f IH|A g IHg f IH]; intros r Hr; cbn; [done|..].
  1,2: intros [Hm Hf] w b w' H; exists r; split; [|by apply IH];
    specialize (Hm w); rewrite H in Hm; cbn in Hm; rewrite Hm; constructor.
  intros [Hg Hf]. destruct r; try (split; [by apply IHg|by apply IH]). done.
Qed.
Lemma groups_group w w' : same_groups w w' -> same_group w w'.
Proof. unfold same_groups, same_group. by intros ->. Qed.

(** A goroutine that leaves the group as it found it. *)
Definition obeys {A} (p : prog world A) : Prop := plays Bystander p (stays Bystander).

Lemma obeys_same {A} (p : prog world A) : preserves same_groups p -> obeys p.
Proof. intros H. apply plays_same; [done|]. by apply (preserves_sub same_groups); [apply groups_group|]. Qed.
Lemma obeys_bind {A B} (p : prog world A) (k : A -> prog world B) :
  obeys p -> (forall a, obeys (k a)) -> obeys (p ≫= k).
Proof. intros Hp Hk. apply plays_bind. eapply plays_mono; [|exact Hp]. intros r a ->. apply Hk. Qed.
Lemma obeys_ret {A} (a : A) : obeys (mret a).
Proof. done. Qed.

(** ** Stretches *)

Definition total (f : role -> nat) (rs : list role) : nat := sum_list (f <$> rs).

Lemma stretch_plays {A} r (p : prog world A) (Q : role -> A -> Prop) w p' gs w' :
  plays r p Q -> stretch p w = (Done (p', gs), w') ->
  exists r' rs, plays r' p' Q /\ Forall2 (fun r q => plays r q (stays Bystander)) rs gs /\
    forall h n, group_is (group w) (holds r + h) (counted r + n) ->
      group_is (group w') (holds r' + total holds rs + h) (counted r' + total counted rs + n).
Proof.
  revert r w. induction p as [A a|A B m f IH|A B m f IH|A g _ f IH]; intros r w; cbn.
  - intros HQ [= <- <- <-]. exists r, []. split_and!; [done|constructor|]. cbn. intros h n. by rewrite !Nat.add_0_r.
  - intros Hp. destruct (m w) as [[b| |] w1] eqn:Em; [|done..]. intros H.
    destruct (Hp w b w1 Em) as (r1 & Hr & Hp1). destruct (IH b _ _ _ _ Hp1 H) as (r' & rs & Hp' & Hrs & Hg).
    exists r', rs. split_and!; [done|done|]. intros h n Hw. apply Hg. by eapply moves_group.
  - intros Hp [= <- <- <-]. exists r, []. split_and!; [done|constructor|]. cbn. intros h n. by rewrite !Nat.add_0_r.
  - intros Hp [= <- <- <-]. destruct r; destruct Hp as [Hpg Hpf];
      (eexists _, [_]; split_and!; [exact Hpf|by repeat constructor|]); cbn; intros h n; exact (fun H => H).
Qed.

Lemma exec_plays {A} r (p : prog world A) (Q : role -> A -> Prop) w p' gs w' :
  plays r p Q -> exec p w = (Done (p', gs), w') ->
  exists r' rs, plays r' p' Q /\ Forall2 (fun r q => plays r q (stays Bystander)) rs gs /\
    forall h n, group_is (group w) (holds r + h) (counted r + n) ->
      group_is (group w') (holds r' + total holds rs + h) (counted r' + total counted rs + n).
Proof. intros Hp. apply stretch_plays. by destruct p. Qed.
End Roles.

(** ** The code of the agent *)

Create HintDb protocol.

Section Typing.
Variable O : oracle.
Variable Cfg : Conf.
Variable url_Parse_error : string -> option error.
Variable json_Marshal : json -> string + error.
Variable json_Unmarshal_detail : string -> CodeCoverageExecRecordDetailResp + error.
Variable RetryOnConflict : retrier.
Context `{!RetryLaw RetryOnConflict}.
Variable wait : loc.

Abbreviation plays := (plays wait).
Abbreviation obeys := (obeys wait).
Abbreviation stays r := (fun r' _ => r' = r).

(** *** The operations of the group *)

Lemma on_group_inv l f w b w' :
  on_group l f w = (Done b, w') ->
  exists s s', group_heap w !! l = Some s /\ f s = Done s' /\ w' = with_group_heap (<[l := s']>) w.
Proof.
  unfold on_group. destruct (group_heap w !! l) as [s|]; [|done]. destruct (f s) as [s'| |] eqn:E; [|done..].
  intros [= _ <-]. by exists s, s'.
Qed.
Lemma on_group_plays r r' f :
  (forall s s', f s = Done s' -> moves r (Some s) (Some s') r') ->
  plays r (local (on_group wait f)) (stays r') /\ plays r (await (on_group wait f)) (stays r').
Proof.
  intros Hf. apply plays_local. intros w b w' (s & s' & Hs & Hd & ->)%on_group_inv. exists r'. split; [|done].
  rewrite Hs. cbn. rewrite lookup_insert_eq. by apply Hf.
Qed.

Lemma group_Add_plays : plays Adder (group_Add wait) (stays Starter).
Proof.
  apply plays_bind. eapply plays_mono; [|apply (on_group_plays Adder Sender)].
  - intros r [] ->. apply on_group_plays. intros s s'. destruct (send s) eqn:E; [|done]. intros [= <-]. by constructor.
  - intros s s' [= <-]. constructor.
Qed.
Lemma group_Done_plays : plays Task (group_Done wait) (stays Bystander).
Proof.
  apply plays_bind. eapply plays_mono; [|apply (on_group_plays Task Releaser)].
  - intros r [] ->. apply on_group_plays. intros s s'. destruct (wg_Done s) eqn:E; [|done]. intros [= <-]. by constructor.
  - intros s s'. destruct (receive s) eqn:E; [|done]. intros [= <-]. by constructor.
Qed.
Lemma group_Wait_plays : plays Adder (group_Wait wait) (stays Bystander).
Proof. apply on_group_plays. intros s s'. destruct (wg_Wait s) eqn:E; [|done]. intros [= <-]. by constructor. Qed.

(** A new group is this one, or another. *)
Lemma new_group_plays : plays Bystander (new_group 5) (fun r l => r = if decide (l = wait) then Adder else Bystander).
Proof.
  apply plays_local. intros w l w' [= <- <-]. cbn. set (l := fresh (dom (group_heap w))).
  assert (Hl : group_heap w !! l = None) by (apply not_elem_of_dom, is_fresh).
  case_decide as Heq.
  - exists Adder. split; [|done]. rewrite <- Heq, Hl, lookup_insert_eq. constructor.
  - exists Bystander. split; [|done]. rewrite lookup_insert_ne by done. constructor.
Qed.

(** Another group's operations. *)
Abbreviation same_group := (same_group wait).
#[local] Instance same_group_refl : Reflexive same_group.
Proof. by intros w. Qed.
Lemma on_group_other l f : l <> wait -> Prelude.preserves same_group (on_group l f).
Proof.
  intros Hl w. unfold on_group. destruct (group_heap w !! l); [|done]. destruct (f _); [|done..].
  unfold DumpGroup.same_group. cbn. by rewrite lookup_insert_ne.
Qed.
Lemma group_Add_other l : l <> wait -> preserves same_group (group_Add l).
Proof. intros Hl. split; [by apply on_group_other|]. intros u. split; [by apply on_group_other|done]. Qed.
Lemma group_Done_other l : l <> wait -> preserves same_group (group_Done l).
Proof. intros Hl. split; [by apply on_group_other|]. intros u. split; [by apply on_group_other|done]. Qed.
Lemma group_Wait_other l : l <> wait -> preserves same_group (group_Wait l).
Proof. intros Hl. split; [by apply on_group_other|done]. Qed.

Lemma same_groups_group w w' : same_groups w w' -> same_group w w'.
Proof. apply groups_group. Qed.
Lemma history_group w w' : only_history w w' -> same_group w w'.
Proof. intros H. by apply groups_group, only_history_same_groups. Qed.
#[local] Hint Resolve history_group group_Add_other group_Done_other group_Wait_other dump_service_groups : preserves.
#[local] Hint Extern 5 (preserves same_group _) =>
  apply (preserves_sub same_groups same_group _ same_groups_group); solve [auto with preserves] : preserves.

(** *** The dump *)

Lemma dump_body_plays planID l key : plays Adder (dump_body O planID l wait tt key) (stays Adder).
Proof.
  unfold dump_body. apply plays_bind. eapply plays_mono; [|apply plays_same; [done|auto with preserves]].
  intros r j ->. case_match; [done|]. apply plays_bind. eapply plays_mono; [|apply group_Add_plays].
  intros r [] ->. split; [|done]. apply plays_bind.
  eapply plays_mono; [|apply plays_same; [done|auto with preserves]]. intros r [] ->. apply group_Done_plays.
Qed.

Lemma range_services_plays r body :
  r <> Starter -> (forall key, plays r (body tt key) (stays r)) -> plays r (range_services O body tt) (stays r).
Proof.
  intros Hr Hb. unfold range_services. apply plays_bind. eapply plays_mono; [|apply plays_same; [done|by apply preserves_gets]].
  intros r1 keys ->. apply plays_bind. eapply plays_mono; [|apply plays_same; [done|auto with preserves]].
  intros r1 order ->. induction order as [|k order IH]; [done|]. cbn [range_loop]. apply plays_bind.
  eapply plays_mono; [|apply Hb]. by intros r1 [[] []] ->.
Qed.

Lemma dumpExec_obeys planID : obeys (dumpExec O planID).
Proof.
  unfold dumpExec. apply obeys_bind; [apply obeys_same; auto with preserves|]. intros [l|]; [|done].
  apply obeys_bind; [by apply obeys_same, lock_dump_preserves, preserves_modify|]. intros _.
  apply plays_bind. eapply plays_mono; [|apply new_group_plays]. intros r l' ->. case_decide as Heq.
  - subst l'. apply plays_bind. eapply plays_mono; [|apply range_services_plays; [done|apply dump_body_plays]].
    intros r [] ->. apply plays_bind. eapply plays_mono; [|apply group_Wait_plays]. intros r [] ->.
    by apply plays_same, preserves_modify.
  - apply plays_same; [done|]. unfold dump_body, dump_task, unlock_dump, update_job. preserve. by apply preserves_modify.
Qed.

(** *** All other code *)

Lemma update_job_groups l f : preserves same_groups (update_job l f).
Proof. by apply preserves_modify. Qed.
Lemma new_job_groups j : preserves same_groups (new_job j).
Proof. by split; [intros w|]. Qed.
Lemma SetJob_groups p l : preserves same_groups (SetJob p l).
Proof. by apply preserves_modify. Qed.
Lemma DeleteJob_groups p : preserves same_groups (DeleteJob p).
Proof. by apply preserves_modify. Qed.
Lemma new_svc_groups s : preserves same_groups (new_svc s).
Proof. by split; [intros w|]. Qed.
Lemma lift_groups {A} (o : outcome A) : preserves same_groups (lift o).
Proof. by split; [intros w|]. Qed.
Lemma DeleteService_groups k : preserves same_groups (DeleteService k).
Proof. by apply preserves_modify. Qed.
Lemma go_groups g : preserves same_groups (go g).
Proof. by apply preserves_modify. Qed.
Lemma retry_groups {A} (err : A -> option error) fn : preserves same_groups fn -> preserves same_groups (RetryOnConflict A err fn).
Proof using RetryLaw0. by apply preserves_retry. Qed.
#[local] Hint Resolve update_job_groups new_job_groups SetJob_groups DeleteJob_groups new_svc_groups lift_groups
  DeleteService_groups go_groups retry_groups : preserves.
#[local] Hint Resolve mergeExec_only_history dump_pods_only_history remove_files_only_history
  buildCallbackErrorMessage_only_history loadClassSources_only_history merge_project_only_history
  report_xml_only_history report_html_only_history query_status_only_history ready_only_history : preserves.

Lemma list_pods_groups l name : preserves same_groups (list_pods O Cfg l name).
Proof. unfold list_pods. preserve. Qed.
#[local] Hint Resolve list_pods_groups : preserves.
Lemma getServiceByDeploy_groups d : preserves same_groups (getServiceByDeploy O Cfg RetryOnConflict d).
Proof using RetryLaw0. unfold getServiceByDeploy. preserve. Qed.
Lemma reloadJarAddr_groups svc : preserves same_groups (reloadJarAddr O Cfg svc).
Proof. unfold reloadJarAddr, unlock_load, getServiceJarPackage, GenSvcJarImageTempDir, store_jars. preserve. Qed.
#[local] Hint Resolve getServiceByDeploy_groups reloadJarAddr_groups : preserves.
Lemma saveServices_groups svc b : preserves same_groups (saveServices O Cfg svc b).
Proof. unfold saveServices. preserve. Qed.
Lemma mergeAllSvcExec_groups p : preserves same_groups (mergeAllSvcExec O p).
Proof. unfold mergeAllSvcExec, merge_body, merge_service, record_merge, unlock_dump. preserve. Qed.
Lemma callbackEndWithMessage_groups p msg :
  preserves same_groups (callbackEndWithMessage O Cfg url_Parse_error json_Marshal p msg).
Proof. unfold callbackEndWithMessage. preserve. Qed.
#[local] Hint Resolve saveServices_groups mergeAllSvcExec_groups callbackEndWithMessage_groups : preserves.

#[local] Hint Resolve dumpExec_obeys : protocol.
Ltac obey := repeat first
  [ solve [auto with protocol nocore] | apply obeys_ret
  | lazymatch goal with |- DumpGroup.obeys _ (_ ≫= _) => apply obeys_bind; [|intros ?] end
  | case_match | apply obeys_same; solve [preserve] ].

Lemma report_obeys p : obeys (report O Cfg url_Parse_error json_Marshal RetryOnConflict p).
Proof using RetryLaw0. unfold report, unlock_dump. obey. Qed.
Lemma prepare_job_obeys p : obeys (prepare_job O Cfg url_Parse_error json_Marshal RetryOnConflict p).
Proof using RetryLaw0. unfold prepare_job. obey. Qed.
#[local] Hint Resolve report_obeys prepare_job_obeys : protocol.

Lemma goroutine_obeys g :
  obeys (goroutine_code O Cfg url_Parse_error json_Marshal RetryOnConflict g).
Proof using RetryLaw0.
  destruct g; cbn [goroutine_code].
  - unfold schedulingJob. obey.
  - unfold dump_loop. obey.
  - unfold monitor_job. obey.
  - unfold clean_job. obey.
  - obey.
  - unfold forget_service. obey.
  - unfold forget_later. obey.
Qed.

Lemma load_code_groups : preserves same_groups (load_code O Cfg RetryOnConflict).
Proof using RetryLaw0. unfold load_code, WatchJacocoPod, setK8sClientSet. preserve. Qed.
Lemma event_code_groups n e : preserves same_groups (event_code O Cfg RetryOnConflict n e).
Proof using RetryLaw0. destruct e; unfold event_code, AddFunc, UpdateFunc, DeleteFunc, deleteService; preserve. Qed.
Lemma watch_code_groups : preserves same_groups (watch_code O Cfg url_Parse_error json_Unmarshal_detail RetryOnConflict).
Proof using RetryLaw0. unfold watch_code, watch_job, saveJob, register_job, cancel_all. preserve. Qed.

(** C16: all code follows the protocol of every group: a goroutine makes a group and adds to
    it, starts a task after every [Add] and only then, and every task gives its place back;
    nobody else touches a group, the goroutines of the informer and of [WatchJob] none. *)
Theorem goroutines_follow_protocol :
  (forall g, obeys (goroutine_code O Cfg url_Parse_error json_Marshal RetryOnConflict g)) /\
  (forall c e, preserves same_groups (event_code O Cfg RetryOnConflict c e)) /\
  preserves same_groups (watch_code O Cfg url_Parse_error json_Unmarshal_detail RetryOnConflict).
Proof using RetryLaw0.
  split_and!; [apply goroutine_obeys|intros; apply event_code_groups|apply watch_code_groups].
Qed.
End Typing.

(** ** Every reachable state *)

Section Reachable.
Variable O : oracle.
Variable Cfg : Conf.
Variable url_Parse_error : string -> option error.
Variable json_Marshal : json -> string + error.
Variable json_Unmarshal_detail : string -> CodeCoverageExecRecordDetailResp + error.
Variable RetryOnConflict : retrier.
Context `{!RetryLaw RetryOnConflict}.
Variable wait : loc.

Abbreviation step := (step O Cfg url_Parse_error json_Marshal json_Unmarshal_detail RetryOnConflict).
Abbreviation reachable := (reachable O Cfg url_Parse_error json_Marshal json_Unmarshal_detail RetryOnConflict).
Abbreviation obeys := (obeys wait).

Definition thread_plays (r : role) (t : goroutine * prog world unit) : Prop :=
  plays wait r t.2 (fun r' _ => r' = Bystander).

(** The informer and [WatchJob] have no group; the other goroutines have roles, and the
    group counts those. *)
Record typed (s : system) : Prop := {
  typed_informer : preserves same_groups (informer s);
  typed_watcher : preserves same_groups (watcher s);
  typed_threads : exists rs, Forall2 thread_plays rs (threads s) /\
    group_is (group_heap (sys_world s) !! wait) (total holds rs) (total counted rs);
}.

Lemma total_app f rs1 rs2 : total f (rs1 ++ rs2) = total f rs1 + total f rs2.
Proof. unfold total. by rewrite fmap_app, sum_list_with_app. Qed.
Lemma total_cons f r rs : total f (r :: rs) = f r + total f rs.
Proof. done. Qed.

Lemma typed_same (s : system) w rs :
  same_groups (sys_world s) w -> Forall2 thread_plays rs (threads s) ->
  group_is (group_heap (sys_world s) !! wait) (total holds rs) (total counted rs) ->
  exists rs, Forall2 thread_plays rs (threads s) /\ group_is (group_heap w !! wait) (total holds rs) (total counted rs).
Proof. intros Hsame Hrs Hg. exists rs. split; [done|]. by rewrite Hsame. Qed.

(** A stretch of one goroutine of many. *)
Lemma thread_typed rs ts1 g p ts2 w p' gs w' :
  Forall2 thread_plays rs (ts1 ++ (g, p) :: ts2) ->
  group_is (group_heap w !! wait) (total holds rs) (total counted rs) ->
  exec p w = (Done (p', gs), w') ->
  exists rs', Forall2 thread_plays rs' (ts1 ++ (g, p') :: ts2 ++ map (pair g) gs) /\
    group_is (group_heap w' !! wait) (total holds rs') (total counted rs').
Proof.
  intros Hrs Hg He. apply Forall2_app_inv_r in Hrs as (rs1 & rs2' & H1 & H2 & ->).
  apply Forall2_cons_inv_r in H2 as (r & rs2 & Hp & H2 & ->).
  destruct (exec_plays wait _ _ _ _ _ _ _ Hp He) as (r' & new & Hp' & Hnew & Hstep).
  exists (rs1 ++ r' :: rs2 ++ new)%list. split.
  - apply Forall2_app; [done|]. constructor; [done|]. apply Forall2_app; [done|]. by apply Forall2_fmap_r.
  - specialize (Hstep (total holds rs1 + total holds rs2) (total counted rs1 + total counted rs2)).
    rewrite !total_app, !total_cons in Hg. rewrite !total_app, !total_cons, !total_app.
    match goal with |- group_is _ ?a ?b => match type of Hstep with _ -> group_is _ ?a' ?b' =>
      replace a with a' by lia; replace b with b' by lia end end.
    apply Hstep. match goal with |- group_is _ ?a ?b => match type of Hg with group_is _ ?a' ?b' =>
      replace a with a' by lia; replace b with b' by lia end end. exact Hg.
Qed.

Lemma step_typed s s' : typed s -> step s s' -> crashed s' = None -> typed s'.
Proof using RetryLaw0.
  intros [Hi Hwt (rs & Hrs & Hg)] Hstep Hcr. destruct Hstep as
    [w b i wt ts i' gs w' He _|w r wt ts|w n e wt ts|w i ts|w b i wt ts wt' gs w' He _
    |w b i wt ts g gs1 gs2 Hsp|w b i wt ts1 g p ts2 p' gs w' He| | |]; cbn in *; try done.
  - destruct (exec_preserves _ _ _ _ _ Hi He) as [HR Hd]. destruct (Hd _ _ eq_refl) as [Hi' _].
    split; cbn; [done|done|]. by eapply (typed_same (System w b i wt ts None)).
  - by split; [..|exists rs].
  - split; [by apply event_code_groups|done|by exists rs].
  - split; [done|by apply watch_code_groups|by exists rs].
  - destruct (exec_preserves _ _ _ _ _ Hwt He) as [HR Hd]. destruct (Hd _ _ eq_refl) as [Hwt' _].
    split; cbn; [done|done|]. by eapply (typed_same (System w b i wt ts None)).
  - split; cbn; [done|done|]. exists (rs ++ [Bystander])%list. split.
    + apply Forall2_app; [done|]. constructor; [|done]. by apply goroutine_obeys.
    + rewrite !total_app. cbn. by rewrite !Nat.add_0_r.
  - split; cbn; [done|done|]. by eapply thread_typed.
Qed.

Lemma crashed_final s s' : step s s' -> crashed s = None.
Proof. by destruct 1. Qed.

Lemma reachable_typed s : reachable s -> crashed s = None -> typed s.
Proof using RetryLaw0.
  intros H. assert (H0 : typed (initial O Cfg RetryOnConflict)).
  { split; [by apply load_code_groups|done|]. exists []. by split; [constructor|]. }
  unfold System.reachable in H. revert H0. induction H as [|s1 s2 s3 H Hs IH]; [done|]. intros Hs1 Hcr.
  apply IH; [|done]. eapply step_typed; [exact Hs1|exact H|]. destruct Hs as [|? ? ? Hs _]; [done|by eapply crashed_final].
Qed.

(** [p] has the [Done] of a task ahead of it. *)
Definition receive_place : M world unit :=
  on_group wait (fun s => match receive s with Some s' => Done s' | None => Blocked end).
Inductive owes_Done : prog world unit -> Prop :=
| owes_here k : owes_Done (Await receive_place k)
| owes_local {B} m k w (b : B) w' : m w = (Done b, w') -> owes_Done (k b) -> owes_Done (Local m k)
| owes_await {B} m k w (b : B) w' : m w = (Done b, w') -> owes_Done (k b) -> owes_Done (Await m k)
| owes_fork g k : owes_Done k -> owes_Done (Fork g k).

Lemma owes_task r p Q : owes_Done p -> plays wait r p Q -> r = Task.
Proof.
  intros Ho. revert r. induction Ho as [k|B m k w b w' Hm _ IH|B m k w b w' Hm _ IH|g k _ IH]; intros r; cbn; intros Hp.
  - set (w := with_group_heap (<[wait := Group 5 1 1]>) empty_world).
    destruct (Hp w tt (with_group_heap (<[wait := Group 5 0 1]>) w)) as (r' & Hr & _).
    { unfold receive_place, on_group. cbn. by rewrite lookup_insert_eq. }
    cbn in Hr. rewrite !lookup_insert_eq in Hr. inversion Hr; simplify_eq; cbn in *; simplify_eq; done.
  - destruct (Hp w b w' Hm) as (r' & Hr & Hk). specialize (IH r' Hk). subst r'. by inversion Hr.
  - destruct (Hp w b w' Hm) as (r' & Hr & Hk). specialize (IH r' Hk). subst r'. by inversion Hr.
  - destruct r; destruct Hp as [_ Hk]; specialize (IH _ Hk); congruence.
Qed.

(** The goroutines of a list that hold a place. *)
Lemma holders_bound rs ts ns :
  Forall2 thread_plays rs ts -> NoDup ns ->
  (forall n, n ∈ ns -> exists g p, ts !! n = Some (g, p) /\ owes_Done p) -> length ns <= total holds rs.
Proof.
  intros Hrs. revert ns. induction Hrs as [|r [g p] rs ts Hp _ IH]; intros ns Hnd Hns.
  - destruct ns as [|n ns]; [cbn; lia|]. destruct (Hns n ltac:(set_solver)) as (? & ? & ? & _). done.
  - rewrite total_cons. set (tail := pred <$> filter (fun n => n <> 0) ns).
    assert (Htail : length tail <= total holds rs).
    { apply IH; unfold tail.
      - apply NoDup_fmap_2_strong; [|by apply NoDup_filter]. intros x y. rewrite !list_elem_of_filter. lia.
      - intros n (m & -> & [Hm Hin]%list_elem_of_filter)%list_elem_of_fmap.
        destruct m as [|m]; [done|]. by apply (Hns (S m)). }
    unfold tail in Htail. rewrite length_fmap in Htail.
    assert (Hlen : length ns <= length (filter (fun n => n <> 0) ns) + (if decide (0 ∈ ns) then 1 else 0)).
    { clear -Hnd. induction Hnd as [|x ns Hx _ IH]; [done|]. cbn [length]. rewrite filter_cons.
      destruct (decide (x <> 0)) as [Hx0|Hx0]; cbn [length].
      - repeat case_decide; try lia. set_solver.
      - assert (x = 0) as -> by lia. rewrite (decide_False (P := 0 ∈ ns)) in IH by done.
        rewrite decide_True by set_solver. lia. }
    case_decide as H0; [|lia]. destruct (Hns 0 H0) as (? & ? & [= <- <-] & Ho).
    rewrite (owes_task r p _ Ho Hp). cbn. lia.
Qed.

(** C2: however the goroutines of the agent interleave, at most five tasks of one dump are
    between their start and their [Done], whatever becomes of the jobs and services
    meanwhile; and [Wait] lets the dump go on only in a state where none is: when the dump
    gives its lock back, no task of it is left. *)
Theorem dump_tasks_limited s :
  reachable s -> crashed s = None ->
  (forall ns, NoDup ns -> (forall n, n ∈ ns -> exists g p, threads s !! n = Some (g, p) /\ owes_Done p) -> length ns <= 5) /\
  (forall w', group_Wait wait (sys_world s) = (Done tt, w') ->
     forall n g p, threads s !! n = Some (g, p) -> ~ owes_Done p).
Proof using RetryLaw0.
  intros Hr Hcr. destruct (reachable_typed s Hr Hcr) as [_ _ (rs & Hrs & Hg)]. split.
  - intros ns Hnd Hns. pose proof (holders_bound rs (threads s) ns Hrs Hnd Hns).
    destruct (group_heap (sys_world s) !! wait); cbn in Hg; lia.
  - intros w' Hw n g p Hn Ho. unfold group_Wait in Hw. rewrite await_run in Hw.
    apply on_group_inv in Hw as (s0 & s' & Hs0 & Hwait & _). rewrite Hs0 in Hg. destruct Hg as (_ & Hc & Hwg & _).
    unfold wg_Wait in Hwait. destruct (Nat.eqb_spec (wg s0) 0) as [Hz|]; [|done].
    assert (Hle : total holds rs <= total counted rs).
    { clear. induction rs as [|r rs IH]; [done|]. rewrite !total_cons. destruct r; cbn; lia. }
    assert (Hlen : length [n] <= total holds rs).
    { eapply holders_bound; [exact Hrs|repeat constructor; set_solver|]. intros m ->%list_elem_of_singleton. eauto. }
    cbn in Hlen. lia.
Qed.
End Reachable.

Lemma dump_task_owes O planID wait key : owes_Done wait (dump_task O planID wait key).
Proof.
  refine (owes_local wait (Prelude.gets (fun w => Services w !! key)) _ empty_world None empty_world eq_refl _).
  apply owes_here.
Qed.

(** ** Witnesses *)

Lemma goroutines_follow_protocol_witness :
  obeys 1%positive (goroutine_code one_deploy_oracle demo_conf any_url plain_marshal retry_once (GoDumpLoop 1 1%positive 1)).
Proof.
  exact (proj1 (goroutines_follow_protocol one_deploy_oracle demo_conf any_url plain_marshal
    (reports "running") retry_once 1%positive) (GoDumpLoop 1 1%positive 1)).
Defined.

(** The first dump of plan 1 has started its task. *)
Definition dumping : system :=
  demo_until one_deploy_oracle "running" (fun s => Nat.leb 2 (length (threads s))) (RunThread 0) 100
    (demo_after one_deploy_oracle "running" [Start 1] (ran "running")).

Lemma dumping_reachable :
  reachable one_deploy_oracle demo_conf any_url plain_marshal (reports "running") retry_once dumping.
Proof. apply demo_until_reachable, demo_after_reachable, registered_reachable. Qed.

Lemma dump_tasks_limited_witness :
  exists g p, threads dumping !! 1 = Some (g, p) /\ owes_Done 1%positive p /\
    group_Wait 1%positive (sys_world dumping) <> (Done tt, sys_world dumping).
Proof.
  assert (Ht : threads dumping !! 1 = Some (GoSchedulingJob 1, dump_task one_deploy_oracle 1 1%positive "shop"))
    by (vm_compute; reflexivity).
  do 2 eexists. split; [exact Ht|]. split; [apply dump_task_owes|]. intros Hw.
  destruct (dump_tasks_limited one_deploy_oracle demo_conf any_url plain_marshal (reports "running") retry_once
    1%positive dumping dumping_reachable) as [_ Hlast]; [vm_compute; reflexivity|].
  exact (Hlast _ Hw 1 _ _ Ht (dump_task_owes _ _ _ _)).
Defined.
