(* ===== verification/Reports.v ===== *)
(** * The report of a plan, and the life of a job *)

From stdpp Require Import base tactics option list gmap strings.
From S2P Require Import Prelude GoStrings Goroutines NetHttp Conf AgentWorld Callback Services Jobs JobsEvolve JobsOrder Dumps Merges DumpRuns.

Local Open Scope string_scope.

#[local] Hint Resolve mergeExec_only_history dump_pods_only_history remove_files_only_history
  buildCallbackErrorMessage_only_history loadClassSources_only_history merge_project_only_history
  report_xml_only_history report_html_only_history retry_only_history : preserves.

Section Reports.
Variable O : oracle.
Variable Cfg : Conf.
Variable url_Parse_error : string -> option error.
Variable json_Marshal : json -> string + error.
Variable RetryOnConflict : retrier.
Context `{!RetryLaw RetryOnConflict}.

#[local] Abbreviation report := (report O Cfg url_Parse_error json_Marshal RetryOnConflict).
#[local] Abbreviation report_xml := (report_xml O Cfg url_Parse_error json_Marshal RetryOnConflict).
#[local] Abbreviation report_html := (report_html O Cfg url_Parse_error json_Marshal).
#[local] Abbreviation center_post := (center_post Cfg json_Marshal).

(** ** Commands that ran *)

Lemma run_happened dir name args w r w' :
  simpleRun O dir name args w = (Done r, w') -> happened (Run dir name args) r w'.
Proof. apply happened_ext. Qed.

Lemma buildCallbackErrorMessage_length planID w msg w' :
  buildCallbackErrorMessage O planID w = (Done msg, w') -> String.length msg <= 1500.
Proof.
  unfold buildCallbackErrorMessage. intros H. apply bind_inv_done in H as (o & w1 & _ & H).
  destruct o as [l|]; [|go_inv; cbn; lia]. apply bind_inv_done in H as (j & w2 & _ & H).
  apply bind_inv_done in H as (m & w3 & _ & H). go_inv.
  unfold truncate_message. destruct (Nat.ltb_spec 1500 (String.length (job_message j +:+ line m)));
    [apply take_str_length_le|done].
Qed.

(** The end callback told the center that [planID] succeeded, with [msg]; the archive was
    the file [addr]. *)
Definition end_reported (planID : N) (msg addr : string) (h : list event) : Prop :=
  exists UUID url code up req e, e ∈ h /\ answered_200 req e /\
    center_post end_path (CallbackEndRequest planID SuccessStatus msg UUID) req /\
    upload_Success up = true /\ upload_Data up = Some (UUID, url) /\
    forall x, x ∈ upload_events Cfg addr planID code up -> x ∈ h.

Definition report_reported (planID : N) (msg addr : string) (h : list event) : Prop :=
  exists UUID url code up req e, e ∈ h /\ answered_200 req e /\
    center_post report_path (callbackReportRequest planID SuccessStatus msg url) req /\
    upload_Success up = true /\ upload_Data up = Some (UUID, url) /\
    forall x, x ∈ upload_events Cfg addr planID code up -> x ∈ h.

Lemma dir_file_ne dir file : dir +:+ "/" +:+ file <> "".
Proof. by destruct dir. Qed.

Lemma report_xml_inv planID exec dir w msg w' :
  report_xml planID exec dir w = (Done (inl msg), w') ->
  history_grows w w' /\ String.length msg <= 1500 /\
  happened (Run "" "java" (report_args exec "--xml" (dir +:+ "/_project_xml"))) None w' /\
  happened (Run "" "sh" ["-c"; tar_command dir "_project_xml.tar.gz" "_project_xml"]) None w' /\
  end_reported planID msg (dir +:+ "/_project_xml.tar.gz") (history w').
Proof using RetryLaw0.
  intros H. split; [eapply grows_run; [|exact H]; auto with preserves|]. unfold Jobs.report_xml in H. cbv zeta in H.
  apply bind_inv_done in H as (r & w1 & _ & H). destruct r; [by go_inv|].
  apply bind_inv_done in H as (r & w2 & E2 & H). destruct r; [by go_inv|]. apply run_happened in E2.
  apply bind_inv_done in H as (r & w3 & E3 & H). destruct r; [by go_inv|].
  run_grows E3 G3. apply run_happened in E3.
  apply bind_inv_done in H as (m & w4 & E4 & H).
  run_grows E4 G4.
  apply buildCallbackErrorMessage_length in E4.
  apply bind_inv_done in H as (r & w5 & E5 & H). destruct r; [by go_inv|].
  go_inv.
  pose proof (only_history_run _ _ _ _ (retry_only_history RetryOnConflict just_error _
    (callbackEnd_only_history O Cfg url_Parse_error json_Marshal planID msg SuccessStatus _)) E5) as G5%only_history_grows.
  split; [done|]. split; [by eapply happened_mono; [exact E2|]; etrans; [exact G3|]; etrans|].
  split; [by eapply happened_mono; [exact E3|]; etrans|].
  destruct (retry_done RetryOnConflict just_error (fun _ => True) _ _ _ _ E5 I (fun _ _ _ _ _ _ _ => I)) as (v & Hv & _).
  apply callbackEnd_inv in Hv as (UUID & h & req & e & Hh & Hans & Hpost & _ & Hup).
  destruct (Hup ltac:(by destruct dir)) as (url & code & up & -> & _ & Hs & Hd).
  exists UUID, url, code, up, req, e. rewrite Hh. split_and!; try done; [set_solver|]. set_solver.
Qed.

Lemma report_html_inv planID exec dir msg w w' :
  report_html planID exec dir msg w = (Done None, w') ->
  history_grows w w' /\
  exists times, happened (Run "" "java" (report_args exec "--html" (dir +:+ "/_project_html"))) None w' /\
    happened (Run "" "sh" ["-c"; tar_command dir (times +:+ ".tar.gz") "_project_html"]) None w' /\
    report_reported planID msg (dir +:+ "/" +:+ times +:+ ".tar.gz") (history w').
Proof.
  intros H. split; [eapply grows_run; [|exact H]; auto with preserves|]. unfold Jobs.report_html in H.
  apply bind_inv_done in H as (r & w1 & E1 & H). destruct r; [by go_inv|]. apply run_happened in E1.
  apply bind_inv_done in H as (times & w2 & E2 & H).
  run_grows E2 G2.
  apply bind_inv_done in H as (r & w3 & E3 & H). destruct r; [by go_inv|].
  run_grows E3 G3. apply run_happened in E3.
  apply bind_inv_done in H as (r & w4 & E4 & H). destruct r; [by go_inv|].
  go_inv.
  pose proof (only_history_run _ _ _ _ (callbackReport_only_history O Cfg url_Parse_error json_Marshal planID _ msg _) E4)
    as G4%only_history_grows.
  exists times. split; [by eapply happened_mono; [exact E1|]; etrans; [exact G2|]; etrans|].
  split; [by eapply happened_mono|].
  apply callbackReport_inv in E4 as (url & h & req & e & Hh & Hans & Hpost & _ & Hup).
  destruct (Hup ltac:(by destruct dir)) as (UUID & code & up & -> & _ & Hs & Hd).
  exists UUID, url, code, up, req, e. rewrite Hh. split_and!; try done; set_solver.
Qed.

Lemma merge_project_inv m w exec w' :
  merge_project O m w = (Done (inl exec), w') ->
  exists files, files ⊆ (map_to_list m).*2 /\
    happened (Run "" "java" (["-jar"; JacocoCliAddr; "merge"] ++ files ++ ["--destfile"; exec])%list) None w'.
Proof.
  unfold merge_project. case_bool_decide; intros H'; [by go_inv|].
  apply bind_inv_done in H' as (r & w1 & _ & H'). destruct r as [f|e]; [|by go_inv].
  apply bind_inv_done in H' as (keys & w2 & _ & H').
  apply bind_inv_done in H' as (r & w3 & E & H'). unfold mergeExec in E. apply run_happened in E.
  destruct r; [by go_inv|]. go_inv.
  eexists. split; [|exact E]. intros x (k & _ & Hx)%list_elem_of_omap.
  apply list_elem_of_fmap. exists (k, x). split; [done|]. by apply elem_of_map_to_list.
Qed.

(** ** The report *)

(** The state in which [report] does its work. *)
Definition ending (planID : N) (l : loc) (w : world) : Prop :=
  RunJobs w !! KeyUint64 planID = Some l /\ exists j, job_heap w !! l = Some j /\ Status j = EndingStatus.

Lemma report_ending planID l w :
  ending planID l w ->
  report planID w =
    (dumpExec O planID ≫= fun _ => mergeAllSvcExec O planID ≫= fun m => lock_dump l ≫= fun _ =>
     merge_project O m ≫= fun merged =>
     match merged with
     | inr err => mret (Some err)
     | inl exec =>
         unlock_dump l ≫= fun _ => ext O (MkdirTemp "" "") ≫= fun dir =>
         match dir with
         | inr err => mret (Some ("failed to create project xml temp file, error " +:+ err))
         | inl dir => report_xml planID exec dir ≫= fun sent =>
             match sent with inr err => mret (Some err) | inl msg => report_html planID exec dir msg end
         end
     end) w.
Proof.
  intros (Hk & j & Hj & Hs). unfold Jobs.report, GetJob. rewrite bind_run. rewrite gets_run. rewrite Hk.
  rewrite (bind_done _ _ _ _ _ (load_job_done _ _ _ Hj)), bool_decide_false by (by intros Hne).
  reflexivity.
Qed.


(** A report that fails before it gives the dump lock back returns with the lock held. *)
Lemma report_fails_locked planID l w w1 m w2 err w3 :
  ending planID l w ->
  dumpExec O planID w = (Done tt, w1) ->
  mergeAllSvcExec O planID w1 = (Done m, w2) ->
  merge_project O m (with_job_heap (alter (job_with_lock true) l) w2) = (Done (inr err), w3) ->
  report planID w = (Done (Some err), w3) /\ lock_is l true w3.
Proof.
  intros Hend H1 H2 H3. pose proof Hend as (Hk & j & Hj & _).
  apply dumpExec_unlocked with (l := l) (j := j) in H1 as HH1; [|done..]. destruct HH1 as [HR1 HH1].
  assert (Hj1 : job_heap w1 !! l = Some (job_with_lock false j)) by (by rewrite HH1, lookup_insert_eq).
  apply mergeAllSvcExec_unlocked with (l := l) (j := job_with_lock false j) in H2 as HH2;
    [|by rewrite HR1|done]. destruct HH2 as [HR2 HH2].
  assert (Hj2 : job_heap w2 !! l = Some (job_with_lock false j)) by (by rewrite HH2, lookup_insert_eq).
  pose proof (only_history_run _ _ _ _ (merge_project_only_history O m) H3) as (HR3 & HH3 & _).
  split.
  - rewrite (report_ending _ _ _ Hend), (bind_done _ _ _ _ _ H1), (bind_done _ _ _ _ _ H2).
    rewrite (bind_done _ _ _ _ _ (lock_dump_free _ _ _ Hj2 eq_refl)), (bind_done _ _ _ _ _ H3). done.
  - exists (job_with_lock true j). rewrite HH3. cbn. by rewrite lookup_alter_eq, Hj2.
Qed.
End Reports.
