(* ===== verification/Scheduling.v ===== *)
(** * The start, the rounds and the failure of a job *)

From stdpp Require Import base tactics option list gmap strings.
From S2P Require Import Prelude GoStrings Goroutines NetHttp Conf AgentWorld Callback Services Jobs JobsEvolve JobsOrder Dumps Merges DumpRuns Reports.

Local Open Scope string_scope.

#[local] Hint Resolve mergeExec_only_history dump_pods_only_history remove_files_only_history
  buildCallbackErrorMessage_only_history loadClassSources_only_history merge_project_only_history
  report_xml_only_history report_html_only_history retry_only_history : preserves.

Section Register.
Variable O : oracle.

(** The part of [saveJob] after the other jobs are cancelled. *)
Definition settings_written (d : CodeCoverageExecRecordDetail) (w : world) : Prop :=
  happened (WriteString settings_file (detail_MavenSetting d)) None w /\
  happened (Setenv "INCLUDES" (detail_Includes d)) tt w /\
  happened (Setenv "EXCLUDES" (detail_Excludes d)) tt w.

(** The world made one of the three steps fail. *)
Definition settings_fail (d : CodeCoverageExecRecordDetail) : Prop :=
  exists h e, O _ h (Run "" "bash" ["-c"; "cd /usr/share/maven/conf && touch settings.xml"]) = Some e \/
    O _ h (OpenFile settings_file) = Some e \/ O _ h (WriteString settings_file (detail_MavenSetting d)) = Some e.

(** Once the other jobs are cancelled, the plan is registered and its goroutine started, or
    nothing but calls happens. *)
Lemma register_job_run d w w2 :
  let p := detail_PlanID d in let l := fresh (dom (job_heap w)) in
  cancel_all (with_job_heap (<[l := new_detection_job d]>) w) = (Done tt, w2) ->
  exists w3 w', register_job O d w = (Done tt, w') /\ only_history w2 w3 /\
    ((w' = with_spawned (GoSchedulingJob p) (with_RunJobs (<[KeyUint64 p := l]>) w3) /\ settings_written d w3) \/
     (w' = w3 /\ settings_fail d)).
Proof.
  intros p l Hrun. unfold register_job. rewrite bind_run. unfold new_job. rewrite local_run. cbn beta iota zeta.
  rewrite (bind_done _ _ _ _ _ Hrun). unfold Exists. rewrite !bind_run, ext_run. cbn beta iota. rewrite ret_run.
  cbn beta iota. set (v1 := with_event _ w2). set (there := match _ with StatOk => true | _ => _ end).
  destruct (made_run O there "" "bash" ["-c"; "cd /usr/share/maven/conf && touch settings.xml"] v1)
    as (made & v2 & H12 & Hmade & Hfail).
  assert (H3 : only_history w2 v2) by (etrans; [apply only_history_event|exact H12]).
  rewrite bind_run, Hmade. destruct made as [e|].
  { exists v2, v2. split_and!; [done|done|right]. split; [done|]. destruct (Hfail e eq_refl) as [h Hh]. exists h, e. by left. }
  rewrite bind_run, ext_run. cbn beta iota. set (v3 := with_event _ v2).
  assert (H4 : only_history w2 v3) by (etrans; [exact H3|apply only_history_event]).
  destruct (O _ _ (OpenFile _)) as [e|] eqn:Eopen.
  { exists v3, v3. split_and!; [done|done|right]. split; [done|]. exists (history v2), e. auto. }
  rewrite bind_run, ext_run. cbn beta iota. destruct (O _ _ (WriteString _ _)) as [e|] eqn:Ewrite.
  { do 2 eexists. split; [reflexivity|]. split; [etrans; [exact H4|]; apply only_history_event|].
    right. split; [reflexivity|]. exists (history v3), e. auto. }
  set (v4 := with_event _ v3). rewrite bind_run, ext_run. cbn beta iota. destruct (O _ _ (Setenv "INCLUDES" _)).
  rewrite bind_run, ext_run. cbn beta iota. destruct (O _ _ (Setenv "EXCLUDES" _)).
  set (v5 := with_event _ (with_event _ v4)). exists v5. eexists. split; [reflexivity|]. split.
  - etrans; [exact H4|]. unfold v5, v4. do 2 (etrans; [|apply only_history_event]). apply only_history_event.
  - left. split; [reflexivity|]. unfold settings_written, happened, v5, v4. cbn. set_solver.
Qed.

(** C14: news of a plan that is not registered first cancels every registered job, then
    writes the Maven settings and the include and exclude patterns; only when all of that
    worked is the plan registered, as a new job that runs, and its goroutine started.
    Otherwise one of these steps failed and the agent is left with no running job and the
    plan unregistered. *)
Theorem saveJob_new_plan d w :
  job_ok w -> RunJobs w !! KeyUint64 (detail_PlanID d) = None ->
  exists l w', saveJob O (Some d) w = (Done tt, w') /\
    job_heap w !! l = None /\ job_heap w' !! l = Some (new_detection_job d) /\
    (forall k l0 j, RunJobs w !! k = Some l0 -> job_heap w !! l0 = Some j ->
       job_heap w' !! l0 = Some (job_cancelled j)) /\
    Services w' = Services w /\ svc_heap w' = svc_heap w /\
    ((RunJobs w' = <[KeyUint64 (detail_PlanID d) := l]> (RunJobs w) /\
      spawned w' = (spawned w ++ [GoSchedulingJob (detail_PlanID d)])%list /\ settings_written d w') \/
     (RunJobs w' = RunJobs w /\ spawned w' = spawned w /\ settings_fail d)).
Proof.
  intros Hok Hnone. set (p := detail_PlanID d) in *.
  set (l := fresh (dom (job_heap w))). set (w1 := with_job_heap (<[l := new_detection_job d]>) w).
  assert (Hfresh : job_heap w !! l = None) by (apply not_elem_of_dom, is_fresh).
  assert (Hno : forall k, RunJobs w1 !! k <> Some l).
  { intros k Hk. destruct (Hok _ _ Hk) as (? & j & _ & Hj & _). congruence. }
  destruct (cancel_all_run w1) as (w2 & Hrun & HR & HS & HH & Hsp & Hh & _ & Hkeep & Hcancel).
  assert (Hstart : saveJob O (Some d) w = register_job O d w).
  { unfold saveJob, GetJob. rewrite bind_run. rewrite gets_run. fold p. by rewrite Hnone. }
  destruct (register_job_run d w w2 Hrun) as (w3 & w' & Hsave & (HR3 & HJ3 & HS3 & HH3 & _ & Hsp3 & _) & Hcase).
  rewrite <- Hstart in Hsave.
  assert (Hw' : job_heap w' = job_heap w2 /\ Services w' = Services w2 /\ svc_heap w' = svc_heap w2).
  { destruct Hcase as [[-> _]|[-> _]]; cbn; by rewrite HJ3, HS3, HH3. }
  destruct Hw' as (HJ' & HS' & HH').
  exists l, w'. split_and!; [done|done| | |by rewrite HS', HS|by rewrite HH', HH|].
  - rewrite HJ', (Hkeep l Hno). apply lookup_insert_eq.
  - intros k l0 j Hk Hj. rewrite HJ', (Hcancel k l0 Hk). cbn. rewrite lookup_insert_ne by congruence. by rewrite Hj.
  - destruct Hcase as [[-> Hset]|[-> Hfail]]; [left|right].
    + cbn. rewrite HR3, HR, Hsp3, Hsp. by split_and!.
    + rewrite HR3, HR, Hsp3, Hsp. by split_and!.
Qed.
End Register.

Section Rounds.
Variable O : oracle.
Variable Cfg : Conf.
Variable url_Parse_error : string -> option error.
Variable json_Marshal : json -> string + error.
Variable RetryOnConflict : retrier.
Context `{!RetryLaw RetryOnConflict}.

#[local] Abbreviation report := (report O Cfg url_Parse_error json_Marshal RetryOnConflict).
#[local] Abbreviation monitor_job := (monitor_job O Cfg url_Parse_error json_Marshal RetryOnConflict).

(** Statuses, contexts and the registry of jobs stay; only the locks may change. *)
Definition only_locks (w w' : world) : Prop :=
  RunJobs w' = RunJobs w /\
  forall l, option_map (job_with_lock false) (job_heap w' !! l) = option_map (job_with_lock false) (job_heap w !! l).
#[global] Instance only_locks_preorder : PreOrder only_locks.
Proof. split; [by intros w|]. intros w1 w2 w3 [H1 K1] [H2 K2]. split; [congruence|]. intros l. by rewrite K2. Qed.

Lemma same_jobs_only_locks w w' : same_jobs w w' -> only_locks w w'.
Proof. intros [HR HH]. split; [done|]. intros l. by rewrite HH. Qed.
Lemma only_history_only_locks w w' : only_history w w' -> only_locks w w'.
Proof. intros H. by apply same_jobs_only_locks, only_history_same_jobs. Qed.
#[local] Hint Resolve only_history_only_locks : preserves.
#[local] Hint Extern 5 (preserves only_locks _) =>
  apply (preserves_sub same_jobs only_locks _ same_jobs_only_locks); solve [auto with preserves] : preserves.

Lemma update_lock_only_locks l b : preserves only_locks (update_job l (job_with_lock b)).
Proof.
  apply preserves_modify. intros w. split; [done|]. intros i. cbn. destruct (decide (i = l)) as [->|].
  - rewrite lookup_alter_eq. by destruct (job_heap w !! l) as [[]|].
  - by rewrite lookup_alter_ne.
Qed.
#[local] Hint Resolve update_lock_only_locks record_merge_jobs dump_task_jobs : preserves.

Lemma dumpExec_only_locks planID : preserves only_locks (dumpExec O planID).
Proof. unfold dumpExec, dump_body, unlock_dump. preserve. Qed.
Lemma mergeAllSvcExec_only_locks planID : preserves only_locks (mergeAllSvcExec O planID).
Proof. unfold mergeAllSvcExec, merge_body, merge_service, unlock_dump. preserve. Qed.
#[local] Hint Resolve dumpExec_only_locks mergeAllSvcExec_only_locks : preserves.
Lemma report_only_locks planID : preserves only_locks (report planID).
Proof using RetryLaw0. unfold Jobs.report, unlock_dump. preserve. Qed.

(** The plan still runs and is ending, and its goroutine waits for the next round. *)
Definition next_round (planID : N) (l : loc) (w : world) : Prop :=
  GoMonitorJob planID ∈ spawned w /\ ending planID l w /\
  exists j, job_heap w !! l = Some j /\ ctx_done j = false.

(** A report that succeeds leaves the plan ending and its goroutine waiting for the next
    round, which reports again: the XML and HTML reports are rebuilt, uploaded and announced
    every 30 seconds until the center itself gives the plan another status. *)
Theorem monitor_reports_again planID l j w w1 :
  RunJobs w !! KeyUint64 planID = Some l -> job_heap w !! l = Some j ->
  Status j = EndingStatus -> ctx_done j = false ->
  report planID w = (Done None, w1) ->
  exists w2, monitor_job planID w = (Done tt, w2) /\ next_round planID l w2.
Proof using RetryLaw0.
  intros Hk Hj Hs Hd Hrep.
  set (w2 := with_spawned (GoMonitorJob planID) (with_event (Event (Sleep 30) (O _ (history w1) (Sleep 30))) w1)).
  exists w2. split.
  { unfold Jobs.monitor_job. rewrite (get_registered planID l) by done.
    rewrite (bind_done _ _ _ _ _ (load_job_done _ _ _ Hj)), Hd, Hs.
    change (terminal EndingStatus) with false. cbn beta iota. rewrite bool_decide_true by done.
    rewrite bind_run, (bind_done _ _ _ _ _ Hrep). reflexivity. }
  pose proof (preserves_state only_locks _ w (report_only_locks planID)) as [HR HH]. rewrite Hrep in HR, HH. cbn in HR, HH.
  specialize (HH l). rewrite Hj in HH. destruct (job_heap w1 !! l) as [j2|] eqn:Hj2; [|done]. cbn in HH.
  assert (Hfields : Status j2 = Status j /\ ctx_done j2 = ctx_done j).
  { destruct j, j2. cbn in HH. by simplify_eq. }
  destruct Hfields as [Hs2 Hd2]. rewrite Hs in Hs2. rewrite Hd in Hd2.
  assert (HRw2 : RunJobs w2 !! KeyUint64 planID = Some l) by (cbn; by rewrite HR).
  split; [cbn; set_solver|]. split; [split; [done|by exists j2]|].
  by exists j2.
Qed.

Lemma callbackEndWithMessage_returns planID message :
  returns (callbackEndWithMessage O Cfg url_Parse_error json_Marshal planID message).
Proof.
  intros w. unfold callbackEndWithMessage, GetJob. rewrite bind_run, gets_run. destruct (RunJobs w !! _); [|done].
  unfold update_job, SetJob. rewrite !bind_run, !modify_run. cbn beta iota. rewrite bind_run, modify_run. cbn beta iota.
  apply (returns_bind (callbackEnd O Cfg url_Parse_error json_Marshal planID message FailStatus "")); [|done].
  unfold callbackEnd. rewrite bool_decide_false by (by intros Hne). apply post_json_returns.
Qed.

(** Job [j'] is the failed and cancelled [j]. *)
Record failed_from (j j' : DetectionJob) : Prop := {
  failed_Status : Status j' = "fail";
  failed_JobStatus : JobStatus j' = "fail";
  failed_ctx : ctx_done j' = true;
  failed_rest : (PlanID j', MavenSettings j', Includes j', Excludes j', ErrorMsg j', DumpLock j') =
                (PlanID j, MavenSettings j, Includes j, Excludes j, ErrorMsg j, DumpLock j);
}.
(** In [w1] the job at [l] is failed and cancelled, and all else is as in [w]. *)
Definition failed_at (l : loc) (w w1 : world) : Prop :=
  (forall j, job_heap w !! l = Some j -> exists j', job_heap w1 !! l = Some j' /\ failed_from j j') /\
  (forall l', l' <> l -> job_heap w1 !! l' = job_heap w !! l') /\
  RunJobs w1 = RunJobs w /\ Services w1 = Services w /\ svc_heap w1 = svc_heap w /\
  group_heap w1 = group_heap w /\ spawned w1 = spawned w.

(** C29: reporting a failure always returns. An unregistered plan is not reported at all. For a
    registered one, the job's context is ended and both its statuses are "fail", for good and
    with all else as it was, before the center is told; then one end callback is posted, with
    the plan, the status "fail", the message and no file, unless the request cannot be built;
    its own error is dropped. *)
Theorem callbackEndWithMessage_spec planID message w :
  let report_failure := callbackEndWithMessage O Cfg url_Parse_error json_Marshal planID message in
  let body := CallbackEndRequest planID "fail" message "" in
  match RunJobs w !! KeyUint64 planID with
  | None => report_failure w = (Done tt, w)
  | Some l =>
      exists w1 w', failed_at l w w1 /\ history w1 = history w /\
        report_failure w = (callbackEnd O Cfg url_Parse_error json_Marshal planID message "fail" "" ≫= fun _ => mret tt) w1 /\
        report_failure w = (Done tt, w') /\ failed_at l w w' /\
        ((history w' = history w /\
          ((exists e, json_Marshal body = inr e) \/ is_Some (url_Parse_error (CenterHost Cfg +:+ end_path)))) \/
         exists req a, center_post Cfg json_Marshal end_path body req /\
           history w' = (history w ++ [Event (HttpDo req) a])%list)
  end.
Proof.
  cbv zeta. unfold callbackEndWithMessage. destruct (RunJobs w !! KeyUint64 planID) as [l|] eqn:Hk.
  2: { unfold GetJob. rewrite bind_run. rewrite gets_run. by rewrite Hk. }
  rewrite (get_registered planID l) by done. unfold update_job. rewrite bind_run, modify_run. cbn beta iota.
  set (w1 := with_job_heap (alter job_failed l) w). unfold SetJob. rewrite bind_run, modify_run. cbn beta iota.
  assert (Hsame : with_RunJobs <[KeyUint64 planID:=l]> w1 = w1).
  { unfold with_RunJobs. cbn. rewrite insert_id by done. by destruct w. }
  rewrite Hsame. assert (Hf : failed_at l w w1).
  { split; [|split; [|done]].
    - intros j Hj. exists (job_failed j). cbn. rewrite lookup_alter_eq, Hj. split; [done|]. by destruct j.
    - intros l' Hl. cbn. by rewrite lookup_alter_ne. }
  unfold callbackEnd. rewrite bool_decide_false by (by intros Hne).
  destruct (post_json_run O Cfg url_Parse_error json_Marshal end_path (CallbackEndRequest planID "fail" message "") w1)
    as (r & w' & Hrun & Hcase).
  exists w1, w'. split; [done|]. split; [done|]. split; [done|]. split.
  { rewrite bind_run. change FailStatus with "fail". by rewrite Hrun. }
  destruct Hcase as [(-> & _ & Herr)|(req & a & Hreq & -> & _)]; [by split; [|left]|].
  split; [done|]. right. by exists req, a.
Qed.
End Rounds.
