(* ===== verification/Executions.v ===== *)
(** * Sequential runs are executions of the agent

    The theorems on single functions speak of runs without interruption. Each of them is an
    execution of the interleaved system, in which the scheduler lets nobody else run: so what
    they say does happen, and what can happen when a goroutine is left alone can happen in
    the agent. *)

From stdpp Require Import base tactics option list gmap strings relations.
From S2P Require Import Prelude GoStrings Goroutines NetHttp Conf AgentWorld Callback Services Jobs JobsEvolve JobsOrder System Dumps Merges DumpRuns Reports Scheduling.

(** Nothing is forked, so that a run of [p] is a run of one goroutine. *)
Fixpoint forkless {W A : Type} (p : prog W A) : Prop :=
  match p with
  | Ret _ => True
  | Local _ k | Await _ k => forall b, forkless (k b)
  | Fork _ _ => False
  end.

Lemma forkless_bind {W A B} (p : prog W A) (k : A -> prog W B) :
  forkless p -> (forall a, forkless (k a)) -> forkless (p ≫= k).
Proof. unfold mbind, prog_mbind. revert k. induction p; cbn; naive_solver. Qed.
Lemma forkless_for_each {W A} (l : list A) (body : A -> prog W unit) :
  (forall x, forkless (body x)) -> forkless (for_each l body).
Proof. intros Hb. induction l as [|x l IH]; cbn; [done|]. apply forkless_bind; [done|]. by intros _. Qed.
Lemma forkless_ext O {A} (c : call A) : forkless (ext O c).
Proof. done. Qed.
Create HintDb forkless.
#[export] Hint Resolve forkless_ext : forkless.

(** Down to the primitives. *)
Ltac unforked :=
  repeat first
    [ solve [auto with forkless]
    | exact I
    | lazymatch goal with |- forkless (gets _) => intros ?; exact I end
    | lazymatch goal with |- forkless (modify _) => intros ?; exact I end
    | lazymatch goal with |- forkless (panic _) => intros ?; exact I end
    | lazymatch goal with |- forkless (load_job _) => intros ?; exact I end
    | apply forkless_bind; [ | intros ?]
    | apply forkless_for_each; intros ?
    | case_match ].

Lemma forkless_retry RetryOnConflict `{!RetryLaw RetryOnConflict} {A} (err : A -> option error) fn :
  forkless fn -> forkless (RetryOnConflict A err fn).
Proof.
  intros Hfn. induction (retry_runs A err fn) as [|stop p Hp IH]; [done|]. apply forkless_bind; [done|].
  intros a. destruct (err a); [|done]. by destruct (stop _).
Qed.

(** A run alone, stretch by stretch. *)
Definition one_stretch {W A} (x y : prog W A * W) : Prop := exec x.1 x.2 = (Done (y.1, []), y.2).

Lemma stretch_alone {W A} (p : prog W A) (w : W) a w' :
  forkless p -> alone p w = (Done a, w') ->
  exists p1 w1, stretch p w = (Done (p1, []), w1) /\ rtc one_stretch (p1, w1) (Ret a, w').
Proof.
  revert w. induction p as [A a0|A B m f IH|A B m f IH|A g _ f IH]; intros w; cbn; [| | |done].
  - intros _ [= <- <-]. do 2 eexists. split; [done|apply rtc_refl].
  - intros Hf. destruct (m w) as [[b| |] w1] eqn:Em; [|done..]. intros H. by apply IH.
  - intros Hf. destruct (m w) as [[b| |] w1] eqn:Em; [|done..]. intros H.
    destruct (IH b _ w1 (Hf b) H) as (p1 & w2 & Hs & Hr). do 2 eexists. split; [done|].
    eapply rtc_l; [|exact Hr]. unfold one_stretch, exec. cbn. by rewrite Em.
Qed.
Lemma alone_stretches {W A} (p : prog W A) (w : W) a w' :
  forkless p -> alone p w = (Done a, w') -> rtc one_stretch (p, w) (Ret a, w').
Proof.
  intros Hf H. destruct (stretch_alone p w a w' Hf H) as (p1 & w1 & Hs & Hr).
  destruct p as [a0|B m f|B m f|g f]; cbn in Hs.
  - cbn in H. injection H as <- <-. apply rtc_refl.
  - eapply rtc_l; [|exact Hr]. exact Hs.
  - injection Hs as <- <-. exact Hr.
  - done.
Qed.

Section Executions.
Variable O : oracle.
Variable Cfg : Conf.
Variable url_Parse_error : string -> option error.
Variable json_Marshal : json -> string + error.
Variable json_Unmarshal_detail : string -> CodeCoverageExecRecordDetailResp + error.
Variable RetryOnConflict : retrier.
Context `{!RetryLaw RetryOnConflict}.

Abbreviation step := (step O Cfg url_Parse_error json_Marshal json_Unmarshal_detail RetryOnConflict).
Abbreviation reachable := (reachable O Cfg url_Parse_error json_Marshal json_Unmarshal_detail RetryOnConflict).
Abbreviation goroutine_code := (goroutine_code O Cfg url_Parse_error json_Marshal RetryOnConflict).
Abbreviation watch_code := (watch_code O Cfg url_Parse_error json_Unmarshal_detail RetryOnConflict).

(** A pool of goroutines is the end of the list of threads. *)
Lemma pool_threads b i wt ts0 g w ps w' ps' :
  rtc pool_step (w, ps) (w', ps') ->
  rtc step (System w b i wt (ts0 ++ map (pair g) ps) None) (System w' b i wt (ts0 ++ map (pair g) ps') None).
Proof.
  remember (w, ps) as x eqn:Ex. remember (w', ps') as y eqn:Ey. intros H. revert w ps Ex.
  induction H as [x|x z y Hxz _ IH]; intros w ps ->; [simplify_eq; apply rtc_refl|].
  inversion Hxz as [v ts1 p ts2 p' gs v' Hf He]; subst. eapply rtc_l; [|by apply IH].
  rewrite !map_app. cbn [map]. rewrite map_app, !(assoc_L (++)%list ts0). by apply step_thread.
Qed.

(** Every sequential run of a goroutine is an execution of the agent: whatever the other
    goroutines are doing, a waiting goroutine whose code, run without interruption from the
    state of now, returns in some state, can be started and bring the process to that very
    state, while the informer, [WatchJob] and the other goroutines stay where they are. The
    goroutines it starts by itself have ended too. *)
Theorem sequential_run_is_execution s g gs1 gs2 w' :
  crashed s = None -> spawned (sys_world s) = (gs1 ++ g :: gs2)%list ->
  goroutine_code g (set_spawned (gs1 ++ gs2) (sys_world s)) = (Done tt, w') ->
  exists s' ended, rtc step s s' /\ sys_world s' = w' /\ crashed s' = None /\
    informer s' = informer s /\ watcher s' = watcher s /\
    threads s' = (threads s ++ (g, Ret tt) :: ended)%list /\ Forall (fun t => t.2 = Ret tt) ended.
Proof.
  destruct s as [w b i wt ts cr]. cbn. intros -> Hsp Hrun.
  destruct (alone_is_a_schedule _ _ _ Hrun) as (ps & Hended & Hps).
  exists (System w' b i wt (ts ++ map (pair g) (Ret tt :: ps)) None), (map (pair g) ps).
  split_and!; try done; [|by apply Forall_fmap]. eapply rtc_l; [by apply step_start|].
  exact (pool_threads b i wt ts g _ [goroutine_code g] _ _ Hps).
Qed.

(** The same for a round of [WatchJob]. *)
Lemma watcher_stretches w b i wt ts w' wt' :
  rtc one_stretch (wt, w) (wt', w') -> rtc step (System w b i wt ts None) (System w' b i wt' ts None).
Proof.
  remember (wt, w) as x eqn:Ex. remember (wt', w') as y eqn:Ey. intros H. revert w wt Ex.
  induction H as [x|x [p v] y Hxz _ IH]; intros w wt ->; [simplify_eq; apply rtc_refl|].
  eapply rtc_l; [|by apply IH]. eapply step_watcher; [exact Hxz|done].
Qed.

Lemma do_request_forkless r : forkless (do_request O r).
Proof. unfold do_request. unforked. Qed.
#[local] Hint Resolve do_request_forkless : forkless.
Lemma query_forkless : forkless (query_status O Cfg url_Parse_error json_Unmarshal_detail).
Proof. unfold query_status, status. unforked. Qed.
#[local] Hint Resolve query_forkless : forkless.
Lemma watch_forkless : forkless watch_code.
Proof using RetryLaw0.
  unfold watch_code, watch_job. apply forkless_bind; [apply forkless_retry; auto with forkless|].
  intros [err d]. unfold saveJob, register_job, cancel_all, GetJob, SetJob, new_job, update_job, Exists, simpleRun, go.
  unforked. all: try (intros ?; exact I).
Qed.

Lemma watch_run_is_execution w i ts w' :
  watch_code w = (Done tt, w') ->
  rtc step (System w false i (Ret tt) ts None) (System w' false i (Ret tt) ts None).
Proof using RetryLaw0.
  intros H. eapply rtc_l; [apply step_round|]. apply watcher_stretches, alone_stretches; [apply watch_forkless|done].
Qed.

(** The center wants plan [d], whenever it is asked. *)
Definition center_wants (d : CodeCoverageExecRecordDetail) : Prop :=
  forall w, exists w', query_status O Cfg url_Parse_error json_Unmarshal_detail w = (Done (None, Some d), w').

Lemma center_asked d w w1 :
  query_status O Cfg url_Parse_error json_Unmarshal_detail w = (Done (None, Some d), w1) ->
  (0 < detail_PlanID d)%N ->
  forall w2, saveJob O (Some d) w1 = (Done tt, w2) -> exists w3, watch_code w = (Done tt, w3) /\ only_history w2 w3.
Proof using RetryLaw0.
  intros Hq Hpos w2 Hsave. unfold watch_code, watch_job.
  rewrite (bind_done _ _ _ _ _ (retry_first RetryOnConflict fst _ _ _ _ Hq eq_refl)).
  destruct (N.leb_spec (detail_PlanID d) 0); [lia|]. rewrite (bind_done _ _ _ _ _ Hsave), ext_run.
  destruct (O _ _ (Sleep 60)). eexists. split; [reflexivity|apply only_history_event].
Qed.

(** Whenever [WatchJob] is between two rounds, whatever the other goroutines are doing
    and whatever jobs there are, a plan that the center wants and that is not registered can
    get registered, unless the settings cannot be written: some execution from here, in which
    the others need not move, reaches a state where the plan is registered as a new job,
    its goroutine is started, and no other job runs. *)
Theorem new_plan_gets_registered s d :
  reachable s -> crashed s = None -> WhenStartLoadAllDeploymentLock s = false -> watcher s = Ret tt ->
  center_wants d -> (0 < detail_PlanID d)%N -> RunJobs (sys_world s) !! KeyUint64 (detail_PlanID d) = None ->
  ~ settings_fail O d ->
  exists s' l, rtc step s s' /\ crashed s' = None /\ watcher s' = Ret tt /\ threads s' = threads s /\
    RunJobs (sys_world s') !! KeyUint64 (detail_PlanID d) = Some l /\
    job_heap (sys_world s') !! l = Some (new_detection_job d) /\
    GoSchedulingJob (detail_PlanID d) ∈ spawned (sys_world s') /\
    forall k l', live (sys_world s') k l' -> k = KeyUint64 (detail_PlanID d) /\ l' = l.
Proof using RetryLaw0.
  intros Hr Hcr Hlk Hwt Hwants Hpos Hnone Hset. destruct s as [w b i wt ts cr]. cbn in *. subst cr b wt.
  destruct (Hwants w) as [w1 Hq].
  pose proof (only_history_run _ _ _ _ (query_status_only_history O Cfg url_Parse_error json_Unmarshal_detail) Hq)
    as (HR1 & HH1 & _).
  pose proof (reachable_inv _ _ _ _ _ _ _ Hr) as [_ [Hok _]].
  assert (Hok1 : job_ok w1) by (intros k l; rewrite HR1, HH1; apply Hok).
  destruct (saveJob_new_plan O d w1 Hok1 ltac:(by rewrite HR1)) as (l & w2 & Hsave & _ & Hj & _ & _ & _ & Hcase).
  destruct Hcase as [(HR2 & Hsp2 & _)|(_ & _ & Hf)]; [|done].
  destruct (center_asked d w w1 Hq Hpos w2 Hsave) as (w3 & Hrun & HR3 & HH3 & _ & _ & _ & Hsp3 & _).
  pose proof (watch_run_is_execution w i ts w3 Hrun) as Hsteps.
  assert (Hr' : reachable (System w3 false i (Ret tt) ts None)) by (unfold System.reachable; etrans; [exact Hr|exact Hsteps]).
  assert (Hreg : RunJobs w3 !! KeyUint64 (detail_PlanID d) = Some l) by (by rewrite HR3, HR2, lookup_insert_eq).
  assert (Hj3 : job_heap w3 !! l = Some (new_detection_job d)) by (by rewrite HH3).
  exists (System w3 false i (Ret tt) ts None), l. split_and!; try done.
  - cbn. rewrite Hsp3, Hsp2. set_solver.
  - intros k l' Hl. destruct (reachable_inv _ _ _ _ _ _ _ Hr') as [_ [_ Hone]]. apply (Hone k l' _ l Hl).
    split; [done|]. by eexists.
Qed.
End Executions.

(** ** Witnesses *)

(** The center first reports plan 1; a goroutine of plan 1 waits, and runs to its end. *)
Lemma sequential_run_is_execution_witness :
  exists s' ended, rtc (step one_deploy_oracle demo_conf any_url plain_marshal (reports "success") retry_once) (ran "success") s' /\
    threads s' = (GoSchedulingJob 1, Ret tt) :: ended.
Proof.
  destruct (sequential_run_is_execution one_deploy_oracle demo_conf any_url plain_marshal (reports "success") retry_once
    (ran "success") (GoSchedulingJob 1) [GoForgetService 1] []
    (goroutine_code one_deploy_oracle demo_conf any_url plain_marshal retry_once (GoSchedulingJob 1)
       (set_spawned [GoForgetService 1] (sys_world (ran "success")))).2) as (s' & ended & Hs & _ & _ & _ & _ & Ht & _).
  - vm_compute. reflexivity.
  - vm_compute. reflexivity.
  - apply run_of_outcome. vm_compute. reflexivity.
  - exists s', ended. split; [exact Hs|]. rewrite Ht. vm_compute. reflexivity.
Defined.

Lemma new_plan_gets_registered_witness :
  exists s' l, rtc (step one_deploy_oracle demo_conf any_url plain_marshal (reports "running") retry_once)
      (loaded one_deploy_oracle "running") s' /\
    RunJobs (sys_world s') !! KeyUint64 1 = Some l.
Proof.
  destruct (new_plan_gets_registered one_deploy_oracle demo_conf any_url plain_marshal (reports "running") retry_once
    (loaded one_deploy_oracle "running") (MkDetail 1 7 "running" "<settings/>" "" "")) as (s' & l & Hs & _ & _ & _ & Hl & _).
  - apply loaded_reachable.
  - vm_compute. reflexivity.
  - vm_compute. reflexivity.
  - vm_compute. reflexivity.
  - intros w. eexists. reflexivity.
  - reflexivity.
  - vm_compute. reflexivity.
  - intros (h & e & [H|[H|H]]); discriminate H.
  - exists s', l. split; [exact Hs|exact Hl].
Defined.
