(* ===== verification/Progress.v ===== *)
(** * What the center wants happens

    In every execution of the agent in which [WatchJob] goes on, a plan that the center wants
    gets registered, however the other goroutines interleave with it. *)

From stdpp Require Import base tactics option list gmap strings relations.
From S2P Require Import Prelude GoStrings Goroutines NetHttp Conf AgentWorld Callback Services Jobs JobsEvolve JobsOrder System Dumps Merges DumpRuns Reports Scheduling Executions.

Section Progress.
Variable O : oracle.
Variable Cfg : Conf.
Variable url_Parse_error : string -> option error.
Variable json_Marshal : json -> string + error.
Variable json_Unmarshal_detail : string -> CodeCoverageExecRecordDetailResp + error.
Variable RetryOnConflict : retrier.
Context `{!RetryLaw RetryOnConflict}.

Abbreviation step := (step O Cfg url_Parse_error json_Marshal json_Unmarshal_detail RetryOnConflict).
Abbreviation watch_code := (watch_code O Cfg url_Parse_error json_Unmarshal_detail RetryOnConflict).
Abbreviation wp_any := (wp any_step any_step).

(** Plan [p] is registered. *)
Definition plan_registered (p : N) (w : world) : Prop := is_Some (RunJobs w !! KeyUint64 p).

(** ** One round *)

Lemma any_ext {A B} (c : call A) (k : A -> prog world B) Q w :
  (forall h w', wp_any (k (O A h c)) Q w') -> wp_any (ext O c ≫= k) Q w.
Proof. intros Hk. apply wp_bind. intros w1 _. split; [done|]. intros b [= <-]. apply Hk. Qed.
Lemma any_local {A B} (m : M world A) (k : A -> prog world B) Q w :
  (forall b, (m w).1 = Done b -> wp_any (k b) Q (m w).2) -> wp_any (local m ≫= k) Q w.
Proof. intros Hk. apply wp_bind. split; [done|]. exact Hk. Qed.
Lemma wp_trivially {A} (p : prog world A) w : wp_any p (fun _ _ => True) w.
Proof. revert w. induction p; intros w; cbn; auto. Qed.
Lemma any_skip {A B} (p : prog world A) (k : A -> prog world B) Q w :
  (forall a w', wp_any (k a) Q w') -> wp_any (p ≫= k) Q w.
Proof. intros Hk. apply wp_bind. eapply wp_mono; [|apply wp_trivially]. intros a w' _. apply Hk. Qed.

Section Wanted.
Variable d : CodeCoverageExecRecordDetail.
Hypothesis positive : (0 < detail_PlanID d)%N.
Hypothesis wants : center_wants O Cfg url_Parse_error json_Unmarshal_detail d.
Hypothesis settings_work : ~ settings_fail O d.

Abbreviation wanted_plan := (plan_registered (detail_PlanID d)).

(** The center gives its answer at every time. *)
Lemma query_answers w : wp_any (query_status O Cfg url_Parse_error json_Unmarshal_detail) (fun r _ => r = (None, Some d)) w.
Proof using wants.
  pose proof wants as Hw. unfold center_wants, query_status, status in *.
  destruct (new_center_request _ _ _ _) as [request|e].
  2: { destruct (Hw w) as [w' Hr]. discriminate Hr. }
  unfold do_request in *. apply wp_bind, wp_bind, wp_bind. intros w1 _. split; [done|]. intros r [= Hr].
  destruct (Hw w1) as [w' Hrun]. rewrite !bind_run, ext_run, Hr in Hrun. cbn beta iota in Hrun.
  clear Hw. destruct r as [resp|e]; [|discriminate Hrun].
  destruct (ReadAll (resp_Body resp)) as [str|e] eqn:E1; [|discriminate Hrun].
  case_bool_decide as E2; [|discriminate Hrun]. rewrite ret_run in Hrun.
  destruct (json_Unmarshal_detail str) as [detail|e] eqn:E3; [|discriminate Hrun].
  destruct (negb (resp_Success detail)) eqn:E4; [discriminate Hrun|]. rewrite ret_run in Hrun. cbn in Hrun. injection Hrun as Hd _.
  cbn. rewrite E1, bool_decide_true by done. cbn. rewrite E3, E4. cbn. by rewrite Hd.
Qed.

Lemma settings_answer h :
  O _ h (Run "" "bash" ["-c"; "cd /usr/share/maven/conf && touch settings.xml"]) = None /\
  O _ h (OpenFile settings_file) = None /\ O _ h (WriteString settings_file (detail_MavenSetting d)) = None.
Proof using settings_work.
  split_and!; match goal with |- ?x = None => destruct x as [e|] eqn:E; [destruct settings_work; exists h, e; auto|done] end.
Qed.

(** The registration at the end of [saveJob]. *)
Lemma set_registers l (k : prog world unit) w :
  (forall w', wanted_plan w' -> wp_any k (fun _ => wanted_plan) w') -> wp_any (_ ← SetJob (detail_PlanID d) l; k) (fun _ => wanted_plan) w.
Proof using Type. intros Hk. apply any_local. intros [] _. apply Hk. unfold plan_registered. cbn. rewrite lookup_insert_eq. by eexists. Qed.

Lemma register_registers w : wp_any (register_job O d) (fun _ => wanted_plan) w.
Proof using settings_work.
  unfold register_job. apply any_skip. intros l w1. apply any_skip. intros _ w2. apply any_skip. intros there w3.
  apply wp_bind. eapply wp_mono with (Q := fun made _ => made = None).
  2: { destruct there; [done|]. intros w4 _. split; [done|]. intros b [= <-]. apply settings_answer. }
  intros made w4 ->. apply any_ext. intros h w5. rewrite (proj1 (proj2 (settings_answer h))).
  apply any_ext. intros h' w6. rewrite (proj2 (proj2 (settings_answer h'))).
  apply any_skip. intros _ w7. apply any_skip. intros _ w8. apply set_registers. intros w9 Hw.
  split; [done|]. by intros [] _.
Qed.

Lemma saveJob_registers w : wp_any (saveJob O (Some d)) (fun _ => wanted_plan) w.
Proof using settings_work.
  unfold saveJob. apply any_skip. intros [l|] w1; [|apply register_registers]. apply any_skip. intros j w2.
  case_bool_decide; [apply register_registers|]. apply any_skip. intros _ w3.
  split; [done|]. intros [] _. unfold plan_registered. cbn. rewrite lookup_insert_eq. by eexists.
Qed.

Lemma retry_answers w :
  wp_any (RetryOnConflict _ fst (query_status O Cfg url_Parse_error json_Unmarshal_detail)) (fun r _ => r = (None, Some d)) w.
Proof using wants RetryLaw0.
  induction (retry_runs _ fst (query_status O Cfg url_Parse_error json_Unmarshal_detail)) as [|stop p _ _]; [apply query_answers|].
  apply wp_bind. eapply wp_mono; [|apply query_answers]. by intros ? w' ->.
Qed.

(** Every round of [WatchJob] ends with the plan registered. *)
Lemma round_registers w : leads wanted_plan watch_code w.
Proof using RetryLaw0 positive settings_work wants.
  unfold System.watch_code, watch_job. apply leads_bind. eapply wp_mono; [|apply retry_answers]. intros ? w1 ->.
  destruct (N.leb_spec (detail_PlanID d) 0); [lia|]. apply leads_bind. eapply wp_mono; [|apply saveJob_registers].
  intros ? w2 Hw. by left.
Qed.
End Wanted.

(** ** Executions without end

    A sequence of choices of the scheduler; the choices name the steps ([step_choose]). *)

Abbreviation choose := (choose O Cfg url_Parse_error json_Marshal json_Unmarshal_detail RetryOnConflict).

Lemma step_choose s s' : step s s' -> exists c, choose s c = Some s'.
Proof using Type.
  destruct 1 as [w b i wt ts i' gs w' He ->|w r wt ts|w c e wt ts|w i ts|w b i wt ts wt' gs w' He ->
    |w b i wt ts g gs1 gs2 Hsp|w b i wt ts1 g p ts2 p' gs w' He
    |w b i wt ts e w' He|w b i wt ts e w' He|w b i wt ts1 g p ts2 e w' He].
  - exists RunInformer. cbn. by rewrite He.
  - by exists Loaded.
  - by exists (Handle e).
  - by exists Round.
  - exists RunWatcher. cbn. by rewrite He.
  - exists (Start (length gs1)). cbn. rewrite Hsp, list_lookup_middle, take_app_length by done.
    by rewrite drop_app_ge, Nat.sub_succ_l, Nat.sub_diag by lia.
  - exists (RunThread (length ts1)). cbn. rewrite list_lookup_middle, He, take_app_length by done.
    by rewrite drop_app_ge, Nat.sub_succ_l, Nat.sub_diag by lia.
  - exists RunInformer. cbn. by rewrite He.
  - exists RunWatcher. cbn. by rewrite He.
  - exists (RunThread (length ts1)). cbn. by rewrite list_lookup_middle, He by done.
Qed.

(** [WatchJob] begins a round, or goes on with one. *)
Definition watcher_moves (s : system) (c : choice) : bool :=
  match c with Round => true | RunWatcher => negb (is_ret (watcher s)) | _ => false end.

Lemma watcher_stays s c s' : choose s c = Some s' -> watcher_moves s c = false -> watcher s' = watcher s.
Proof using Type.
  destruct s as [w b i wt ts [e|]]; [by destruct c|].
  destruct c; cbn; intros H Hm; try done.
  4: { destruct wt; try done. by injection H as <-. }
  all: repeat case_match; simplify_eq; done.
Qed.

(** A step of [WatchJob] that does not end the process. *)
Lemma watcher_goes_on s c s' :
  choose s c = Some s' -> crashed s' = None -> watcher_moves s c = true ->
  (watcher s = Ret tt /\ watcher s' = watch_code) \/
  (is_ret (watcher s) = false /\ exec (watcher s) (sys_world s) = (Done (watcher s', []), sys_world s')).
Proof using Type.
  destruct s as [w b i wt ts [e|]]; [by destruct c|].
  destruct c; cbn; intros H Hc Hm; try done; repeat case_match; simplify_eq; auto.
  right. split; [by destruct wt|done].
Qed.

Section Forever.
Variable st : nat -> system.
Variable lab : nat -> choice.

Definition goes_on : Prop := forall i, choose (st i) (lab i) = Some (st (S i)).
(** [WatchJob] is not left waiting for ever. *)
Definition watched : Prop := forall i, exists j, i <= j /\ watcher_moves (st j) (lab j) = true.

Hypothesis Hon : goes_on.
Hypothesis Hwatched : watched.

Lemma never_crashes i : crashed (st i) = None.
Proof using Hon. pose proof (Hon i) as H. destruct (st i) as [? ? ? ? ? [e|]]; [|done]. by destruct (lab i). Qed.

Lemma next_move i : exists j, i <= j /\ watcher (st j) = watcher (st i) /\
  ((watcher (st j) = Ret tt /\ watcher (st (S j)) = watch_code) \/
   (is_ret (watcher (st j)) = false /\
    exec (watcher (st j)) (sys_world (st j)) = (Done (watcher (st (S j)), []), sys_world (st (S j))))).
Proof using Hon Hwatched.
  destruct (Hwatched i) as (j0 & Hj0 & Hm0).
  destruct (least_from (fun k => watcher_moves (st k) (lab k)) i j0 Hj0 Hm0) as (j & Hj & Hm & Hleast).
  exists j. split_and!; [done| |by apply (watcher_goes_on _ _ _ (Hon j)); [apply never_crashes|]].
  clear Hm. induction Hj as [|j Hj IH]; [done|]. rewrite <- IH by (intros; apply Hleast; lia).
  apply (watcher_stays _ _ _ (Hon j)), Hleast. lia.
Qed.

(** A round of [WatchJob] comes to its end. *)
Lemma round_ends p : forall i, watcher (st i) = p -> exists j, i <= j /\ watcher (st j) = watch_code.
Proof using Hon Hwatched.
  induction p as [p IH] using exec_induction. intros i Hp.
  destruct (next_move i) as (j & Hj & Hwt & [[_ Hgo]|[Hret He]]); [by exists (S j); split; [lia|]|].
  rewrite Hwt, Hp in Hret, He. destruct (IH _ _ _ _ Hret He (S j) eq_refl) as (k & Hk & Hc).
  exists k. split; [lia|done].
Qed.

Lemma pending_comes X p : forall i, watcher (st i) = p -> pends X p -> exists j, i <= j /\ X (sys_world (st j)).
Proof using Hon Hwatched.
  induction p as [p IH] using exec_induction. intros i Hp Hx.
  destruct (next_move i) as (j & Hj & Hwt & [[Hr _]|[Hret He]]).
  - rewrite Hwt, Hp in Hr. subst p. rewrite Hr in Hx. exists i. split; [done|]. by destruct (Hx (sys_world (st i))).
  - rewrite Hwt, Hp in Hret, He. destruct (exec_leads X p _ _ _ _ Hx He) as [Hs|[Hs|Hx']].
    + by exists j.
    + by exists (S j); split; [lia|].
    + destruct (IH _ _ _ _ Hret He (S j) eq_refl Hx') as (k & Hk & Hs). exists k. split; [lia|done].
Qed.
End Forever.

(** *** Such executions there are

    From between two rounds, the scheduler can let [WatchJob] alone move for ever. *)

Lemma saveJob_done d w : job_ok w -> exists w', saveJob O (Some d) w = (Done tt, w').
Proof using Type.
  intros Hok. assert (Hreg : exists w', register_job O d w = (Done tt, w')).
  { edestruct cancel_all_run as (w2 & Hrun & _). destruct (register_job_run O d w w2 Hrun) as (w3 & w' & H & _). by exists w'. }
  unfold saveJob, GetJob. rewrite bind_run, gets_run. destruct (RunJobs w !! _) as [l|] eqn:El; [|done].
  destruct (Hok _ _ El) as (p & j & _ & Hj & _). unfold load_job. rewrite bind_run, local_run, Hj. cbn beta iota.
  case_bool_decide; [done|]. eexists. reflexivity.
Qed.

Section WatcherAlone.
Variable d : CodeCoverageExecRecordDetail.
Hypothesis positive : (0 < detail_PlanID d)%N.
Hypothesis wants : center_wants O Cfg url_Parse_error json_Unmarshal_detail d.

Lemma round_done w : job_ok w -> exists w', watch_code w = (Done tt, w').
Proof using RetryLaw0 positive wants.
  intros Hok. destruct (wants w) as [w1 Hq].
  pose proof (only_history_run _ _ _ _ (query_status_only_history O Cfg url_Parse_error json_Unmarshal_detail) Hq) as (HR & HH & _).
  assert (Hok1 : job_ok w1) by (intros k l; rewrite HR, HH; apply Hok).
  destruct (saveJob_done d w1 Hok1) as [w2 Hs]. by destruct (center_asked O Cfg _ _ RetryOnConflict d w w1 Hq positive w2 Hs) as (w3 & H & _); exists w3.
Qed.

(** [WatchJob] moves when it can. *)
Definition watcher_turn (s : system) : choice := if is_ret (watcher s) then Round else RunWatcher.
Definition watcher_next (s : system) : system := default s (choose s (watcher_turn s)).

(** The round in course comes to its end if nobody else moves. *)
Definition in_round (s : system) : Prop :=
  reachable O Cfg url_Parse_error json_Marshal json_Unmarshal_detail RetryOnConflict s /\ crashed s = None /\
  WhenStartLoadAllDeploymentLock s = false /\
  exists w', rtc one_stretch (watcher s, sys_world s) (Ret tt, w').

Lemma in_round_next s : in_round s ->
  choose s (watcher_turn s) = Some (watcher_next s) /\ watcher_moves s (watcher_turn s) = true /\ in_round (watcher_next s).
Proof using RetryLaw0 positive wants.
  intros (Hr & Hc & Hb & w' & Hend). destruct s as [w b i wt ts cr]. cbn in Hc, Hb, Hend. subst cr b.
  assert (Hgo : exists s', choose (System w false i wt ts None) (watcher_turn (System w false i wt ts None)) = Some s' /\
    crashed s' = None /\ WhenStartLoadAllDeploymentLock s' = false /\
    exists w', rtc one_stretch (watcher s', sys_world s') (Ret tt, w')).
  { unfold watcher_turn. destruct (is_ret wt) eqn:Hret.
    - destruct wt as [[]| | |]; try done. cbn.
      pose proof (reachable_inv _ _ _ _ _ _ _ Hr) as [_ [Hok _]]. destruct (round_done w Hok) as [w2 Hw2].
      eexists. split_and!; [done..|]. exists w2. apply alone_stretches; [by apply watch_forkless|done].
    - cbn. rewrite Hret. inversion Hend as [|x [p w1] y Hstep Hrest]; subst; [done|]. unfold one_stretch in Hstep. cbn in Hstep.
      rewrite Hstep. eexists. split_and!; [done..|]. by exists w'. }
  destruct Hgo as (s' & Hs' & Hrest). unfold watcher_next at 1. rewrite Hs'. cbn [default]. split; [done|]. split.
  - unfold watcher_turn. cbn. by destruct (is_ret wt) eqn:E; cbn; rewrite ?E.
  - unfold watcher_next. rewrite Hs'. cbn [default]. split; [|done].
    eapply rtc_r; [exact Hr|by eapply choose_step].
Qed.

Lemma watcher_can_go_on s : in_round s ->
  exists st lab, st 0 = s /\ goes_on st lab /\ watched st lab.
Proof using RetryLaw0 positive wants.
  intros Hs. set (st := fun n => Nat.iter n watcher_next s).
  assert (Hst : forall n, in_round (st n)) by (induction n as [|n IH]; [done|]; by apply in_round_next).
  exists st, (fun n => watcher_turn (st n)). split; [done|]. split.
  - intros n. by apply in_round_next.
  - intros n. exists n. split; [done|]. by apply in_round_next.
Qed.
End WatcherAlone.

(** C11: in every execution of the agent that does not crash and in which [WatchJob] is not
    left waiting for ever, a plan that the center wants is registered again and again: from
    whatever state, however the informer and the goroutines of the plans and services
    interleave with [WatchJob], there comes a time at which the plan is in the registry, unless
    the Maven settings cannot be written. *)
Theorem wanted_plan_registered st lab d :
  goes_on st lab -> watched st lab -> (0 < detail_PlanID d)%N ->
  center_wants O Cfg url_Parse_error json_Unmarshal_detail d -> ~ settings_fail O d ->
  forall i, exists j, i <= j /\ plan_registered (detail_PlanID d) (sys_world (st j)).
Proof using RetryLaw0.
  intros Hon Hw Hpos Hwants Hset i. destruct (round_ends st lab Hon Hw _ i eq_refl) as (j & Hj & Hc).
  destruct (pending_comes st lab Hon Hw (plan_registered (detail_PlanID d)) _ j Hc) as (k & Hk & Hs).
  - apply leads_pends. intros w. by apply round_registers.
  - exists k. split; [lia|done].
Qed.
End Progress.

(** ** Witness *)

Lemma wanted_plan_registered_witness :
  exists st lab,
    st 0 = loaded one_deploy_oracle "running" /\
    goes_on one_deploy_oracle demo_conf any_url plain_marshal (reports "running") retry_once st lab /\
    forall i, exists j, i <= j /\ plan_registered 1 (sys_world (st j)).
Proof.
  pose (d := MkDetail 1 7 "running" "<settings/>" "" "").
  assert (Hw : center_wants one_deploy_oracle demo_conf any_url (reports "running") d) by (intros w; eexists; reflexivity).
  destruct (watcher_can_go_on one_deploy_oracle demo_conf any_url plain_marshal (reports "running") retry_once d
    eq_refl Hw (loaded one_deploy_oracle "running")) as (st & lab & Hst & Hon & Hwatched).
  - split; [apply loaded_reachable|]. split; [vm_compute; reflexivity|]. split; [vm_compute; reflexivity|].
    assert (Hret : watcher (loaded one_deploy_oracle "running") = Ret tt) by (vm_compute; reflexivity).
    rewrite Hret. eexists. reflexivity.
  - exists st, lab. split; [done|]. split; [done|].
    apply (wanted_plan_registered one_deploy_oracle demo_conf any_url plain_marshal (reports "running") retry_once
      st lab d Hon Hwatched eq_refl Hw).
    intros (h & e & [H|[H|H]]); discriminate H.
Defined.
