(* ===== verification/LockLeak.v ===== *)
(** * A dump lock that is never given back

    Who holds the dump lock of a job is a matter of the goroutines: taking the lock makes a
    goroutine its holder, and only the holder gives it back. That all code of the agent keeps
    to this is shown by a type system, as for the groups of [DumpGroup]. It follows that a lock
    whose holder has ended is held for ever, which is what a failing [report] brings about. *)

From stdpp Require Import base tactics option list gmap strings relations.
From Stdlib Require Import Lia.
From S2P Require Import Prelude GoStrings Goroutines NetHttp Conf AgentWorld Callback Services Jobs JobsEvolve JobsOrder System Dumps Merges DumpRuns DumpGroup Reports Scheduling Executions.

Local Open Scope string_scope.

(** ** Holding a lock *)

Section Holding.
Variable l : loc.

(** The dump lock of the job at [l]. *)
Definition lock_of (w : world) : bool := from_option DumpLock false (job_heap w !! l).
Definition same_lock (w w' : world) : Prop := lock_of w' = lock_of w.

(** A statement takes the lock from [x] to [x'], run by a goroutine that holds it if [h] and
    holds it afterwards if [h']: a lock that is held elsewhere stays so. *)
Definition takes (h x x' h' : bool) : Prop :=
  if x && negb h then h' = false /\ x' = true else h' = x'.

(** [owns h p Q]: from a state where it is the holder if [h], [p] only gives back what it holds,
    and returns as a holder or not, with a result, as in [Q]. *)
Fixpoint owns {A : Type} (h : bool) (p : prog world A) (Q : bool -> A -> Prop) : Prop :=
  match p with
  | Ret a => Q h a
  | Local m k | Await m k =>
      forall w b w', m w = (Done b, w') -> (h = true -> lock_of w = true) ->
      exists h', takes h (lock_of w) (lock_of w') h' /\ owns h' (k b) Q
  | Fork g k => owns false g (fun _ _ => True) /\ owns h k Q
  end.

Abbreviation anyhow := (fun _ _ => True).
Abbreviation stays h := (fun h' _ => h' = h).

Lemma owns_mono {A} h (p : prog world A) (Q Q' : bool -> A -> Prop) :
  (forall h a, Q h a -> Q' h a) -> owns h p Q -> owns h p Q'.
Proof.
  intros HQ. revert h. induction p as [A a|A B m f IH|A B m f IH|A g _ f IH]; intros h; cbn; [apply HQ|..].
  1,2: intros H w b w' Hm Hh; destruct (H w b w' Hm Hh) as (h' & Ht & Hp); exists h'; split; [done|by eapply IH].
  intros [Hg Hf]. split; [done|by eapply IH].
Qed.
Lemma owns_bind {A B} h (p : prog world A) (k : A -> prog world B) Q :
  owns h p (fun h' a => owns h' (k a) Q) -> owns h (p ≫= k) Q.
Proof.
  unfold mbind, prog_mbind. revert h k.
  induction p as [A a|A C m f IH|A C m f IH|A g _ f IH]; intros h k; cbn; [done|..].
  1,2: intros H w b w' Hm Hh; destruct (H w b w' Hm Hh) as (h' & Ht & Hp); exists h'; split; [done|by apply IH].
  intros [Hg Hf]. split; [done|by apply IH].
Qed.

Lemma takes_same h x : (h = true -> x = true) -> takes h x x h.
Proof. unfold takes. intros H. destruct h, x; cbn; auto. discriminate (H eq_refl). Qed.
Lemma takes_trans h x h1 x1 h2 x2 : takes h x x1 h1 -> takes h1 x1 x2 h2 -> takes h x x2 h2.
Proof. unfold takes. destruct h, x, h1, x1; cbn; naive_solver. Qed.
Lemma takes_holder h x x' h' : takes h x x' h' -> h' = true -> x' = true.
Proof. unfold takes. destruct (x && negb h); [by intros [-> ->]|by intros ->]. Qed.

(** What does not touch the lock. *)
Lemma owns_same {A} h (p : prog world A) : preserves same_lock p -> owns h p (stays h).
Proof.
  revert h. induction p as [A a|A B m f IH|A B m f IH|A g IHg f IH]; intros h; cbn; [done|..].
  1,2: intros [Hm Hf] w b w' H Hh; exists h; specialize (Hm w); rewrite H in Hm; cbn in Hm; rewrite Hm;
    split; [by apply takes_same|by apply IH].
  intros [Hg Hf]. split; [|by apply IH]. eapply owns_mono; [|by apply IHg]. done.
Qed.
Lemma owns_same_bind {A B} h (p : prog world A) (k : A -> prog world B) Q :
  preserves same_lock p -> (forall a, owns h (k a) Q) -> owns h (p ≫= k) Q.
Proof. intros Hp Hk. apply owns_bind. eapply owns_mono; [|by apply owns_same]. by intros h' a ->. Qed.

(** A stretch of a goroutine. *)
Lemma stretch_owns {A} h (p : prog world A) Q w p' gs w' :
  owns h p Q -> (h = true -> lock_of w = true) -> stretch p w = (Done (p', gs), w') ->
  exists h', takes h (lock_of w) (lock_of w') h' /\ owns h' p' Q /\ Forall (fun g => owns false g anyhow) gs.
Proof.
  revert h w. induction p as [A a|A B m f IH|A B m f IH|A g _ f IH]; intros h w; cbn; intros Hp Hh.
  - intros [= <- <- <-]. exists h. split_and!; [by apply takes_same|done..].
  - destruct (m w) as [[b| |] w1] eqn:Em; [|done..]. intros H. destruct (Hp w b w1 Em Hh) as (h1 & Ht & Hp1).
    destruct (IH b Q p' h1 w1 Hp1 (takes_holder _ _ _ _ Ht) H) as (h' & Ht' & Hrest). exists h'.
    split; [by eapply takes_trans|done].
  - intros [= <- <- <-]. exists h. split_and!; [by apply takes_same|done..].
  - intros [= <- <- <-]. exists h. destruct Hp as [Hg Hf]. split_and!; [by apply takes_same|done|by constructor].
Qed.
Lemma exec_owns {A} h (p : prog world A) Q w p' gs w' :
  owns h p Q -> (h = true -> lock_of w = true) -> exec p w = (Done (p', gs), w') ->
  exists h', takes h (lock_of w) (lock_of w') h' /\ owns h' p' Q /\ Forall (fun g => owns false g anyhow) gs.
Proof. intros Hp. apply stretch_owns. by destruct p. Qed.

(** *** The operations of the lock *)

Lemma lock_of_alter f w k :
  lock_of (with_job_heap (alter f k) w) =
    if decide (k = l) then from_option (fun j => DumpLock (f j)) false (job_heap w !! l) else lock_of w.
Proof.
  unfold lock_of. cbn. case_decide as Hk; [subst k; rewrite lookup_alter_eq; by destruct (job_heap w !! l)|by rewrite lookup_alter_ne].
Qed.

Lemma lock_dump_owns k h : owns h (lock_dump k) (fun h' _ => h' = if decide (k = l) then true else h).
Proof.
  intros w b w' Hm Hh. destruct (job_heap w !! k) as [j|] eqn:Ej; [|done]. destruct (DumpLock j) eqn:Ed; [done|].
  injection Hm as <- <-. eexists. split; [|reflexivity]. rewrite lock_of_alter. unfold lock_of in *. case_decide as Hk.
  - subst k. rewrite Ej in *. cbn in *. rewrite Ed in *. destruct h; [by specialize (Hh eq_refl)|done].
  - by apply takes_same.
Qed.
Lemma unlock_dump_owns k h : (k = l -> h = true) -> owns h (unlock_dump k) (fun h' _ => h' = if decide (k = l) then false else h).
Proof.
  intros Hkl w b w' Hm Hh. injection Hm as <- <-. eexists. split; [|reflexivity]. rewrite lock_of_alter.
  case_decide as Hk; [|by apply takes_same]. rewrite (Hkl Hk) in *. unfold takes, lock_of. rewrite andb_false_r.
  by destruct (job_heap w !! l).
Qed.

(** Updates of a job that leave its lock. *)
Lemma update_job_lock k f : (forall j, DumpLock (f j) = DumpLock j) -> preserves same_lock (update_job k f).
Proof.
  intros Hf. apply preserves_modify. intros w. unfold same_lock. rewrite lock_of_alter. case_decide; [|done].
  unfold lock_of. destruct (job_heap w !! l); cbn; auto.
Qed.
Lemma new_job_lock j : DumpLock j = false -> preserves same_lock (new_job j).
Proof.
  intros Hj. split; [|done]. intros w. unfold same_lock, lock_of. cbn. set (k := fresh _).
  destruct (decide (k = l)) as [<-|]; [|by rewrite lookup_insert_ne]. rewrite lookup_insert_eq. cbn. rewrite Hj.
  assert (Hk : job_heap w !! k = None) by (apply not_elem_of_dom, is_fresh). by rewrite Hk.
Qed.
Lemma SetJob_lock p k : preserves same_lock (SetJob p k).
Proof. by apply preserves_modify. Qed.
Lemma DeleteJob_lock p : preserves same_lock (DeleteJob p).
Proof. by apply preserves_modify. Qed.
Lemma DeleteService_lock p : preserves same_lock (DeleteService p).
Proof. by apply preserves_modify. Qed.
Lemma same_jobs_lock w w' : same_jobs w w' -> same_lock w w'.
Proof. intros [_ HH]. unfold same_lock, lock_of. by rewrite HH. Qed.
Lemma only_history_lock w w' : only_history w w' -> same_lock w w'.
Proof. intros H. by apply same_jobs_lock, only_history_same_jobs. Qed.
#[global] Instance same_lock_preorder : PreOrder same_lock.
Proof. split; [by intros w|]. intros w1 w2 w3 H1 H2. unfold same_lock in *. congruence. Qed.
End Holding.

#[export] Hint Resolve SetJob_lock DeleteJob_lock DeleteService_lock only_history_lock : preserves.
#[export] Hint Extern 4 (preserves (same_lock _) (update_job _ _)) => apply update_job_lock; by intros [] : preserves.
#[export] Hint Extern 4 (preserves (same_lock _) (new_job _)) => by apply new_job_lock : preserves.
#[export] Hint Extern 6 (preserves (same_lock _) _) =>
  apply (preserves_sub same_jobs (same_lock _) _ (same_jobs_lock _)); solve [auto with preserves] : preserves.

(** ** The code of the agent *)

Section Typing.
Variable O : oracle.
Variable Cfg : Conf.
Variable url_Parse_error : string -> option error.
Variable json_Marshal : json -> string + error.
Variable json_Unmarshal_detail : string -> CodeCoverageExecRecordDetailResp + error.
Variable RetryOnConflict : retrier.
Context `{!RetryLaw RetryOnConflict}.
Variable l : loc.

Abbreviation owns := (owns l).
Abbreviation same_lock := (same_lock l).
Abbreviation anyhow := (fun _ _ => True).

Lemma retry_lock {A} (err : A -> option error) fn : preserves same_lock fn -> preserves same_lock (RetryOnConflict A err fn).
Proof using RetryLaw0. by apply preserves_retry. Qed.
#[local] Hint Resolve retry_lock record_merge_jobs dump_task_jobs list_pods_jobs getServiceByDeploy_jobs saveServices_jobs reloadJarAddr_jobs : preserves.
#[local] Hint Resolve mergeExec_only_history dump_pods_only_history remove_files_only_history
  buildCallbackErrorMessage_only_history loadClassSources_only_history merge_project_only_history
  report_xml_only_history report_html_only_history query_status_only_history ready_only_history : preserves.

(** A dump or merge takes the lock and gives it back. *)
Lemma locked_owns {A} k (body : prog world A) :
  preserves same_lock body -> owns false (_ ← lock_dump k; a ← body; _ ← unlock_dump k; mret a) (fun h _ => h = false).
Proof.
  intros Hb. apply owns_bind. eapply owns_mono; [|apply lock_dump_owns]. intros h [] Hh. apply owns_same_bind; [done|].
  intros a. apply owns_bind. eapply owns_mono; [|apply unlock_dump_owns].
  - intros h' [] ->. subst h. cbn. by case_decide.
  - intros ->. rewrite Hh. by rewrite decide_True.
Qed.

Lemma dumpExec_owns planID : owns false (dumpExec O planID) (fun h _ => h = false).
Proof.
  unfold dumpExec. apply owns_same_bind; [auto with preserves|]. intros [k|]; [|done].
  apply owns_bind. eapply owns_mono; [|apply lock_dump_owns]. intros h [] Hh.
  apply owns_same_bind; [auto with preserves|]. intros wait.
  apply owns_same_bind; [unfold dump_body; preserve|]. intros []. apply owns_same_bind; [auto with preserves|].
  intros []. eapply owns_mono; [|apply unlock_dump_owns].
  - intros h' [] ->. subst h. by case_decide.
  - intros ->. rewrite Hh. by rewrite decide_True.
Qed.
Lemma mergeAllSvcExec_owns planID : owns false (mergeAllSvcExec O planID) (fun h _ => h = false).
Proof.
  unfold mergeAllSvcExec. apply owns_same_bind; [auto with preserves|]. intros [k|]; [|done].
  apply locked_owns. unfold merge_body, merge_service. preserve.
Qed.

(** [report] may end as the holder. *)
Lemma callbackEndWithMessage_lock p msg :
  preserves same_lock (callbackEndWithMessage O Cfg url_Parse_error json_Marshal p msg).
Proof. unfold callbackEndWithMessage. preserve. Qed.
#[local] Hint Resolve callbackEndWithMessage_lock : preserves.
Lemma report_owns planID : owns false (report O Cfg url_Parse_error json_Marshal RetryOnConflict planID) anyhow.
Proof using RetryLaw0.
  unfold report. apply owns_same_bind; [auto with preserves|]. intros [k|]; [|done].
  apply owns_same_bind; [auto with preserves|]. intros j. case_match; [done|].
  apply owns_bind. eapply owns_mono; [|apply dumpExec_owns]. intros h [] ->.
  apply owns_bind. eapply owns_mono; [|apply mergeAllSvcExec_owns]. intros h m ->.
  apply owns_bind. eapply owns_mono; [|apply lock_dump_owns]. intros h [] Hh.
  apply owns_same_bind; [auto with preserves|]. intros [e|err]; [|done].
  apply owns_bind. eapply owns_mono; [|apply unlock_dump_owns; intros ->; rewrite Hh; by rewrite decide_True].
  intros h' [] _. eapply owns_mono; [|apply owns_same; preserve]. done.
Qed.

Lemma goroutine_owns g : owns false (goroutine_code O Cfg url_Parse_error json_Marshal RetryOnConflict g) anyhow.
Proof using RetryLaw0.
  assert (Hany : forall h (p : prog world unit), preserves same_lock p -> owns h p anyhow).
  { intros h p Hp. eapply owns_mono; [|by apply owns_same]. done. }
  destruct g; cbn [goroutine_code].
  - unfold schedulingJob. do 2 (apply owns_same_bind; [auto with preserves|intros ?]). case_match; [|done].
    apply owns_same_bind; [auto with preserves|]. intros j. case_match; [done|]. apply owns_same_bind; [auto with preserves|].
    intros there. apply owns_same_bind; [destruct there; preserve|]. intros [e|]; [done|].
    unfold prepare_job. apply owns_same_bind; [auto with preserves|]. intros [e|]; [apply Hany; auto with preserves|].
    apply owns_bind. eapply owns_mono; [|apply dumpExec_owns]. intros h [] ->. apply Hany. preserve.
  - unfold dump_loop. apply owns_same_bind; [auto with preserves|]. intros j. case_match; [done|].
    apply owns_bind. eapply owns_mono; [|apply dumpExec_owns]. intros h [] ->. case_match; [|apply Hany; auto with preserves].
    apply owns_bind. eapply owns_mono; [|apply mergeAllSvcExec_owns]. intros h m ->. apply Hany. auto with preserves.
  - unfold monitor_job. apply owns_same_bind; [auto with preserves|]. intros [k|]; [|done].
    apply owns_same_bind; [auto with preserves|]. intros j. case_match; [apply Hany; preserve|].
    case_match; [apply Hany; auto with preserves|]. apply owns_bind. eapply owns_mono with (Q := anyhow).
    + intros h [] _. apply Hany. preserve.
    + case_match; [|done]. apply owns_bind. eapply owns_mono; [|apply report_owns]. intros h err _. apply Hany. preserve.
  - apply Hany. unfold clean_job. preserve.
  - apply Hany. preserve.
  - apply Hany. unfold forget_service. preserve.
  - apply Hany. unfold forget_later. preserve.
Qed.

Lemma load_code_lock : preserves same_lock (load_code O Cfg RetryOnConflict).
Proof using RetryLaw0. unfold load_code, WatchJacocoPod, setK8sClientSet. preserve. Qed.
Lemma event_code_lock n e : preserves same_lock (event_code O Cfg RetryOnConflict n e).
Proof using RetryLaw0. destruct e; unfold event_code, AddFunc, UpdateFunc, DeleteFunc, deleteService; preserve. Qed.
Lemma watch_code_lock : preserves same_lock (watch_code O Cfg url_Parse_error json_Unmarshal_detail RetryOnConflict).
Proof using RetryLaw0. unfold watch_code, watch_job, saveJob, register_job, cancel_all. preserve. Qed.
End Typing.

(** ** Every reachable state *)

Section Reachable.
Variable O : oracle.
Variable Cfg : Conf.
Variable url_Parse_error : string -> option error.
Variable json_Marshal : json -> string + error.
Variable json_Unmarshal_detail : string -> CodeCoverageExecRecordDetailResp + error.
Variable RetryOnConflict : retrier.
Context `{!RetryLaw RetryOnConflict}.
Variable l : loc.

Abbreviation step := (step O Cfg url_Parse_error json_Marshal json_Unmarshal_detail RetryOnConflict).
Abbreviation reachable := (reachable O Cfg url_Parse_error json_Marshal json_Unmarshal_detail RetryOnConflict).
Abbreviation report := (report O Cfg url_Parse_error json_Marshal RetryOnConflict).
Abbreviation monitor_job := (monitor_job O Cfg url_Parse_error json_Marshal RetryOnConflict).

Definition thread_owns (h : bool) (t : goroutine * prog world unit) : Prop := owns l h t.2 (fun _ _ => True).
Definition count (hs : list bool) : nat := sum_list (Nat.b2n <$> hs).
Lemma count_app hs1 hs2 : count (hs1 ++ hs2) = count hs1 + count hs2.
Proof. unfold count. by rewrite fmap_app, sum_list_with_app. Qed.

Lemma count_none n : count (replicate n false) = 0.
Proof. by induction n. Qed.

(** The informer and [WatchJob] leave the lock alone, and [n] goroutines are its holders. *)
Record holders (n : nat) (s : system) : Prop := {
  holders_informer : preserves (same_lock l) (informer s);
  holders_watcher : preserves (same_lock l) (watcher s);
  holders_threads : exists hs, Forall2 thread_owns hs (threads s) /\ count hs = n;
}.
(** A free lock has no holder, and no lock has two. *)
Definition lock_ok (s : system) : Prop := exists n, n <= Nat.b2n (lock_of l (sys_world s)) /\ holders n s.
(** The lock is taken but no goroutine is its holder. *)
Definition leaked (s : system) : Prop := lock_of l (sys_world s) = true /\ holders 0 s.

(** A stretch of one goroutine of many. *)
Lemma thread_holders hs ts1 g p ts2 w p' gs w' :
  Forall2 thread_owns hs (ts1 ++ (g, p) :: ts2) -> count hs <= Nat.b2n (lock_of l w) -> exec p w = (Done (p', gs), w') ->
  exists hs', Forall2 thread_owns hs' (ts1 ++ (g, p') :: ts2 ++ map (pair g) gs) /\
    count hs' <= Nat.b2n (lock_of l w') /\ (count hs < Nat.b2n (lock_of l w) -> count hs' < Nat.b2n (lock_of l w')).
Proof.
  intros Hhs Hn He. apply Forall2_app_inv_r in Hhs as (hs1 & hs2' & H1 & H2 & ->).
  apply Forall2_cons_inv_r in H2 as (h & hs2 & Hp & H2 & ->). rewrite count_app in *. change (count (h :: hs2)) with (Nat.b2n h + count hs2) in *.
  assert (h = true -> lock_of l w = true) as Hh by (intros ->; destruct (lock_of l w); cbn in *; [done|lia]).
  destruct (exec_owns l h p _ w p' gs w' Hp Hh He) as (h' & Ht & Hp' & Hgs).
  exists (hs1 ++ h' :: hs2 ++ replicate (length gs) false)%list.
  assert (Hc : count (hs1 ++ h' :: hs2 ++ replicate (length gs) false) = count hs1 + (Nat.b2n h' + count hs2)).
  { rewrite count_app. change (count (h' :: hs2 ++ replicate (length gs) false)) with
      (Nat.b2n h' + count (hs2 ++ replicate (length gs) false)). rewrite count_app.
    rewrite count_none. lia. }
  rewrite Hc. split.
  - apply Forall2_app; [done|]. constructor; [done|]. apply Forall2_app; [done|].
    clear -Hgs. induction Hgs; constructor; done.
  - unfold takes in Ht. destruct (lock_of l w), h; cbn in *; [| |lia|]; [subst h'|destruct Ht as [-> ->]|subst h']; cbn; lia.
Qed.

Lemma step_holders s s' n :
  step s s' -> crashed s' = None -> n <= Nat.b2n (lock_of l (sys_world s)) -> holders n s ->
  exists n', n' <= Nat.b2n (lock_of l (sys_world s')) /\ holders n' s' /\
    (n < Nat.b2n (lock_of l (sys_world s)) -> n' < Nat.b2n (lock_of l (sys_world s'))).
Proof using RetryLaw0.
  intros Hstep Hcr Hn [Hi Hwt (hs & Hhs & <-)]. destruct Hstep as
    [w b i wt ts i' gs w' He _|w r wt ts|w c e wt ts|w i ts|w b i wt ts wt' gs w' He _
    |w b i wt ts g gs1 gs2 Hsp|w b i wt ts1 g p ts2 p' gs w' He| | |]; cbn in *; try done.
  - destruct (exec_preserves _ _ _ _ _ Hi He) as [HR Hd]. destruct (Hd _ _ eq_refl) as [Hi' _]. rewrite HR.
    exists (count hs). split_and!; [done|by split; [..|exists hs]|done].
  - exists (count hs). split_and!; [done|by split; [..|exists hs]|done].
  - exists (count hs). split_and!; [done|split; [by apply event_code_lock|done|by exists hs]|done].
  - exists (count hs). split_and!; [done|split; [done|by apply watch_code_lock|by exists hs]|done].
  - destruct (exec_preserves _ _ _ _ _ Hwt He) as [HR Hd]. destruct (Hd _ _ eq_refl) as [Hwt' _]. rewrite HR.
    exists (count hs). split_and!; [done|by split; [..|exists hs]|done].
  - exists (count hs). split_and!; [done| |done]. split; cbn; [done..|]. exists (hs ++ [false])%list. split.
    + apply Forall2_app; [done|]. constructor; [|done]. by apply goroutine_owns.
    + rewrite count_app. cbn. lia.
  - destruct (thread_holders hs ts1 g p ts2 w p' gs w' Hhs Hn He) as (hs' & Hhs' & Hn' & Hlt).
    exists (count hs'). split_and!; [done| |done]. split; [done..|]. by exists hs'.
Qed.

Lemma reachable_lock s : reachable s -> crashed s = None -> lock_ok s.
Proof using RetryLaw0.
  intros H. assert (H0 : lock_ok (initial O Cfg RetryOnConflict)).
  { exists 0. split; [cbn; lia|]. split; [by apply load_code_lock|done|]. exists []. by split; [constructor|]. }
  unfold System.reachable in H. revert H0. induction H as [|s1 s2 s3 H Hs IH]; [done|]. intros (n & Hn & Hh) Hcr.
  apply IH; [|done]. destruct (step_holders s1 s2 n H) as (n' & Hn' & Hh' & _); [|done..|by exists n'].
  destruct Hs as [|? ? ? Hs _]; [done|by eapply crashed_final].
Qed.

(** Such a lock is never given back. *)
Lemma leaked_for_ever s s' : leaked s -> rtc step s s' -> crashed s' = None -> leaked s'.
Proof using RetryLaw0.
  intros Hl Hs. revert Hl. induction Hs as [|s1 s2 s3 H Hs IH]; [done|]. intros [Hx Hh] Hcr.
  apply IH; [|done]. destruct (step_holders s1 s2 0 H) as (n' & Hn' & Hh' & Hlt); [|rewrite Hx; cbn; lia|done|].
  - destruct Hs as [|? ? ? Hs _]; [done|by eapply crashed_final].
  - rewrite Hx in Hlt. cbn in Hlt. specialize (Hlt ltac:(lia)). split; [by destruct (lock_of l (sys_world s2)); [|cbn in *; lia]|].
    destruct (lock_of l (sys_world s2)); cbn in *; [|lia]. by assert (n' = 0) as -> by lia.
Qed.
Lemma leaked_blocks s {A} (k : unit -> prog world A) :
  leaked s -> exec (lock_dump l ≫= k) (sys_world s) = (Blocked, sys_world s).
Proof.
  intros [Hx _]. unfold lock_of in Hx. cbn. destruct (job_heap (sys_world s) !! l) as [j|]; [|done]. cbn in Hx. by rewrite Hx.
Qed.

(** A round of [monitor_job] whose report fails. *)
Lemma monitor_fails planID w j err w3 :
  RunJobs w !! KeyUint64 planID = Some l -> job_heap w !! l = Some j -> Status j = EndingStatus -> ctx_done j = false ->
  report planID w = (Done (Some err), w3) ->
  exists w', monitor_job planID w = (Done tt, w') /\ same_lock l w3 w'.
Proof.
  intros Hk Hj Hst Hctx Hrep. unfold Jobs.monitor_job. rewrite (get_registered planID l) by done.
  rewrite (bind_done _ _ _ _ _ (load_job_done _ _ _ Hj)), Hctx, Hst.
  change (terminal EndingStatus) with false. cbn beta iota. rewrite bool_decide_true by done.
  rewrite bind_run, (bind_done _ _ _ _ _ Hrep). cbn beta iota.
  pose proof (callbackEndWithMessage_returns O Cfg url_Parse_error json_Marshal planID ("report xml and html error " +:+ err) w3) as Hret.
  pose proof (preserves_state (same_lock l) _ w3 (callbackEndWithMessage_lock O Cfg url_Parse_error json_Marshal l planID
    ("report xml and html error " +:+ err))) as Hsame.
  destruct (callbackEndWithMessage _ _ _ _ _ _ w3) as [[[]| |] w4]; [|done..]. cbn in Hsame.
  eexists. split; [reflexivity|]. exact Hsame.
Qed.

(** C23: a report that fails before it gives the dump lock back (no dump file, no temporary
    file, a failed merge of the project) leaves the lock of the job held for ever. Take any
    state that the agent can reach in which the goroutine of an ending plan is about to
    look at it, and would find dump and merge of the services possible and then one of these
    errors. Then there is an execution in which the goroutine does so, returns from this round
    having told the center, and holds nothing any more; and in whatever state the agent is
    later, the lock is held and no dump, merge or report that waits for it ever goes on: not
    the dump loop of the plan that was waiting already, and none that starts while the plan
    is still registered. *)
Theorem report_error_leaks_lock s planID gs1 gs2 j w1 m w2 err w3 :
  reachable s -> crashed s = None -> spawned (sys_world s) = (gs1 ++ GoMonitorJob planID :: gs2)%list ->
  let w := set_spawned (gs1 ++ gs2) (sys_world s) in
  RunJobs w !! KeyUint64 planID = Some l -> job_heap w !! l = Some j -> Status j = EndingStatus -> ctx_done j = false ->
  dumpExec O planID w = (Done tt, w1) -> mergeAllSvcExec O planID w1 = (Done m, w2) ->
  merge_project O m (with_job_heap (alter (job_with_lock true) l) w2) = (Done (inr err), w3) ->
  report planID w = (Done (Some err), w3) /\
  exists s', rtc step s s' /\ crashed s' = None /\ (GoMonitorJob planID, Ret tt) ∈ threads s' /\
    forall s'', rtc step s' s'' -> crashed s'' = None ->
      lock_of l (sys_world s'') = true /\
      (forall A (k : unit -> prog world A), exec (lock_dump l ≫= k) (sys_world s'') = (Blocked, sys_world s'')) /\
      (RunJobs (sys_world s'') !! KeyUint64 planID = Some l ->
        (dumpExec O planID (sys_world s'')).1 = Blocked /\ (mergeAllSvcExec O planID (sys_world s'')).1 = Blocked).
Proof using RetryLaw0.
  intros Hr Hcr Hsp w Hk Hj Hst Hctx Hd Hm Hp.
  destruct (report_fails_locked O Cfg url_Parse_error json_Marshal RetryOnConflict planID l w w1 m w2 err w3) as (Hrep & Hl3);
    [by split; [|exists j]|done..|].
  split; [done|]. destruct (monitor_fails planID w j err w3 Hk Hj Hst Hctx Hrep) as (w' & Hrun & Hsame).
  destruct (sequential_run_is_execution O Cfg url_Parse_error json_Marshal json_Unmarshal_detail RetryOnConflict s
    (GoMonitorJob planID) gs1 gs2 w' Hcr Hsp Hrun) as (s' & ended & Hs & Hw' & Hcr' & Hi & Hwt & Hts & Hended).
  exists s'. split; [done|]. split; [done|]. split; [rewrite Hts; set_solver|].
  assert (Hfree : lock_of l (sys_world s) = false).
  { change (lock_of l (sys_world s)) with (lock_of l w). unfold lock_of. rewrite Hj. cbn.
    destruct (DumpLock j) eqn:Ed; [|done]. destruct (dump_blocked O planID w l Hk) as [Hb _]; [by exists j|].
    rewrite Hb in Hd. discriminate Hd. }
  assert (Hleak : leaked s').
  { split.
    - rewrite Hw'. destruct Hl3 as (j3 & Hj3 & Hd3). unfold same_lock in Hsame. rewrite Hsame. unfold lock_of. by rewrite Hj3.
    - destruct (reachable_lock s Hr Hcr) as (n & Hn & [H1 H2 (hs & Hhs & Hc)]). rewrite Hfree in Hn. cbn in Hn.
      split; [by rewrite Hi|by rewrite Hwt|]. rewrite Hts. exists (hs ++ false :: replicate (length ended) false)%list. split.
      + apply Forall2_app; [done|]. constructor; [done|]. clear -Hended. induction Hended as [|[g p] ts Hp _ IH]; [constructor|].
        constructor; [|done]. cbn in Hp. by subst p.
      + rewrite count_app, Hc. change (n + count (replicate (S (length ended)) false) = 0). rewrite count_none. lia. }
  intros s'' Hs'' Hcr''. pose proof (leaked_for_ever s' s'' Hleak Hs'' Hcr'') as Hl. split; [apply Hl|].
  split; [intros; by apply leaked_blocks|]. intros Hk''. destruct Hl as [Hl _]. unfold lock_of in Hl.
  destruct (job_heap (sys_world s'') !! l) as [j''|] eqn:Ej''; [|done].
  destruct (dump_blocked O planID (sys_world s'') l Hk'') as [-> ->]; [by exists j''|done].
Qed.
End Reachable.

(** ** Witness *)

(** The center reports plan 1 as ending, there are no services, and the plan's goroutine is
    about to look at it. *)
Definition about_to_report : system := demo_after good_oracle "ending" [Start 0; RunThread 0] (registered good_oracle "ending").

Definition reporting_world : world := set_spawned [] (sys_world about_to_report).
Definition dumped_world : world := (dumpExec good_oracle 1 reporting_world).2.
Definition merged_world : world := (mergeAllSvcExec good_oracle 1 dumped_world).2.
Lemma reporting_dump : dumpExec good_oracle 1 reporting_world = (Done tt, dumped_world).
Proof. apply (run_of_outcome (dumpExec good_oracle 1) reporting_world (Done tt)). vm_compute. reflexivity. Qed.
Lemma reporting_merge : mergeAllSvcExec good_oracle 1 dumped_world = (Done ∅, merged_world).
Proof. apply (run_of_outcome (mergeAllSvcExec good_oracle 1) dumped_world (Done ∅)). vm_compute. reflexivity. Qed.

Lemma report_error_leaks_lock_witness :
  exists s', rtc (step good_oracle demo_conf any_url plain_marshal (reports "ending") retry_once) about_to_report s' /\
    forall s'', rtc (step good_oracle demo_conf any_url plain_marshal (reports "ending") retry_once) s' s'' ->
      crashed s'' = None -> lock_of 1%positive (sys_world s'') = true.
Proof.
  destruct (report_error_leaks_lock good_oracle demo_conf any_url plain_marshal (reports "ending") retry_once 1%positive
    about_to_report 1 [] [] (MkJob 1 "ending" "" "<settings/>" "" "" "" false false) dumped_world ∅ merged_world
    "not find svc exec dump file" (with_job_heap (alter (job_with_lock true) 1%positive) merged_world))
    as (_ & s' & Hs & _ & _ & Hever).
  - apply demo_after_reachable, registered_reachable.
  - vm_compute. reflexivity.
  - vm_compute. reflexivity.
  - vm_compute. reflexivity.
  - vm_compute. reflexivity.
  - reflexivity.
  - reflexivity.
  - exact reporting_dump.
  - exact reporting_merge.
  - reflexivity.
  - exists s'. split; [exact Hs|]. intros s'' Hs'' Hcr. apply (Hever s'' Hs'' Hcr).
Defined.
