(* ===== verification/Rbac.v ===== *)
(** * The operator and the agent together: the agent may do what it does

    The operator gives an agent a service account, a role and a binding; the agent lists,
    watches and copies with them. Every Kubernetes call of every run of the agent is one the
    role allows, provided that the agent is configured for the namespace it runs in. *)

From stdpp Require Import base tactics option list gmap strings relations.
From S2P Require Import Prelude GoStrings Goroutines AgentTypes Converter Reconciler NetHttp Conf AgentWorld Callback Services Jobs JobsEvolve System.

Local Open Scope string_scope.

(** ** Authorization *)

(** What a request to the API server wants. *)
Record access := Access { ac_Namespace : string; ac_Group : string; ac_Resource : string; ac_Verb : string }.

(** The Kubernetes requests behind the calls of the agent; an exec is a POST. *)
Definition call_access {A} (c : call A) : option access :=
  match c with
  | ListDeployments ns => Some (Access ns "apps" "deployments" "list")
  | ListPods ns _ => Some (Access ns "" "pods" "list")
  | CopyFromPod ns _ _ _ => Some (Access ns "" "pods/exec" "create")
  | _ => None
  end.
(** Those of the informer, which the agent starts for its namespace. *)
Definition informer_access (Cfg : Conf) : list access :=
  [Access (ProjectNs Cfg) "apps" "deployments" "list"; Access (ProjectNs Cfg) "apps" "deployments" "watch"].

Definition rule_allows (ac : access) (r : PolicyRule) : bool :=
  bool_decide (ac_Group ac ∈ APIGroups r) && bool_decide (ac_Resource ac ∈ rule_Resources r) &&
  bool_decide (ac_Verb ac ∈ Verbs r).
Definition rules_allow (rs : list PolicyRule) (ac : access) : bool := existsb (rule_allows ac) rs.

Section Objects.
Context `{K8sTypes}.

(** A role binding gives the accounts it names, in its own namespace, the rules of the role
    it refers to, for that namespace. *)
Definition authorized (res : AgentResources) (ac : access) : Prop :=
  let role := res_Role res in let rb := res_RoleBinding res in let sts := res_StatefulSet res in
  let ns := Namespace (rb_meta rb) in
  ac_Namespace ac = ns /\ rules_allow (Rules role) ac = true /\
  Namespace (role_meta role) = ns /\ ref_Kind (rb_RoleRef rb) = "Role" /\
  ref_Name (rb_RoleRef rb) = Name (role_meta role) /\
  Namespace (sts_meta sts) = ns /\
  MkSubject "ServiceAccount" (ServiceAccountName (template_Spec (Template (sts_Spec sts)))) ∈ Subjects rb.

Lemma authorized_resources ownerRefs a rs ac :
  rules_allow agent_rules ac = true ->
  authorized (agent_resources ownerRefs a rs) ac <-> ac_Namespace ac = Namespace (agent_meta a).
Proof.
  intros Hr. unfold authorized. cbn. unfold getNamespace. cbn. split; [by intros [? _]|].
  intros Hns. split_and!; try done. by constructor.
Qed.
End Objects.

(** ** The calls of the agent *)

Section Calls.
Variable O : oracle.
Variable Cfg : Conf.
Variable url_Parse_error : string -> option error.
Variable json_Marshal : json -> string + error.
Variable json_Unmarshal_detail : string -> CodeCoverageExecRecordDetailResp + error.
Variable RetryOnConflict : retrier.
Context `{!RetryLaw RetryOnConflict}.

(** A call in the configured namespace that the rules allow, or none to Kubernetes. *)
Definition in_role {A} (c : call A) : Prop :=
  match call_access c with
  | Some ac => ac_Namespace ac = ProjectNs Cfg /\ rules_allow agent_rules ac = true
  | None => True
  end.

Definition calls_R (w w' : world) : Prop :=
  exists l, history w' = (history w ++ l)%list /\ Forall (fun e => in_role (ev_call e)) l.
#[global] Instance calls_R_preorder : PreOrder calls_R.
Proof.
  split; [intros w; exists []; by rewrite app_nil_r|].
  intros w1 w2 w3 (l1 & H1 & Hl1) (l2 & H2 & Hl2). exists (l1 ++ l2)%list.
  rewrite H2, H1, (assoc_L (++)%list). split; [done|]. by apply Forall_app.
Qed.

Lemma same_history w w' : history w' = history w -> calls_R w w'.
Proof. intros He. exists []. by rewrite app_nil_r. Qed.
Lemma ext_calls {A} (c : call A) : in_role c -> preserves calls_R (ext O c).
Proof. intros Hc. split; [|done]. intros w. exists [Event c (O A (history w) c)]. split; [done|]. by constructor. Qed.
Lemma modify_calls f : (forall w, history (f w) = history w) -> preserves calls_R (modify f).
Proof. intros Hf. apply preserves_modify. intros w. by apply same_history. Qed.
Lemma local_calls {A} (m : M world A) : (forall w, history (m w).2 = history w) -> preserves calls_R (local m).
Proof. intros Hm. split; [|done]. intros w. by apply same_history. Qed.
Lemma await_calls {A} (m : M world A) : (forall w, history (m w).2 = history w) -> preserves calls_R (await m).
Proof. intros Hm. split; [|done]. intros w. by apply same_history. Qed.
Lemma on_group_history l f w : history (on_group l f w).2 = history w.
Proof. unfold on_group. destruct (group_heap w !! l) as [s|]; [|done]. by destruct (f s). Qed.
Lemma retry_calls {A} (err : A -> option error) fn :
  preserves calls_R fn -> preserves calls_R (RetryOnConflict A err fn).
Proof using RetryLaw0. by apply preserves_retry. Qed.
Lemma range_services_calls {S} (body : S -> string -> prog world (bool * S)) s :
  (forall s k, preserves calls_R (body s k)) -> preserves calls_R (range_services O body s).
Proof.
  intros Hb. unfold range_services. apply preserves_bind; [apply preserves_gets; typeclasses eauto|]. intros keys.
  apply preserves_bind; [|intros order; by apply range_loop_preserves].
  unfold pick_order. apply preserves_bind; [apply ext_calls; exact I|]. by intros order.
Qed.
#[local] Hint Extern 1 (preserves calls_R (ext O _)) => apply ext_calls; first [exact I | by split] : preserves.
#[local] Hint Extern 1 (preserves calls_R (modify _)) => apply modify_calls; reflexivity : preserves.

(** [calls] goes through a program, function by function, down to its statements on memory
    and its calls. *)
Ltac history_same :=
  let w := fresh in intros w; cbn; first [apply on_group_history | repeat case_match; reflexivity].
Ltac head_of t := lazymatch t with ?f _ => head_of f | _ => t end.
Ltac calls :=
  repeat first
    [ lazymatch goal with
      | |- preserves _ (_ ≫= _) => apply preserves_bind; [ | intros ?]
      | |- preserves _ (range_services _ _ _) => apply range_services_calls; intros ? ?
      | |- preserves _ (RetryOnConflict _ _ _) => apply retry_calls
      | |- preserves _ (local _) => apply local_calls; history_same
      | |- preserves _ (await _) => apply await_calls; history_same
      | |- preserves _ (mret _) => apply preserves_ret
      | |- preserves _ (gets _) => apply preserves_gets; typeclasses eauto
      | |- preserves _ (panic _) => apply preserves_panic; typeclasses eauto
      | |- preserves _ (fork _) => apply preserves_fork
      | |- preserves _ (for_each _ _) => apply preserves_for_each; intros ?
      end
    | solve [auto with preserves nocore]
    | case_match
    | lazymatch goal with |- preserves _ ?p => let h := head_of p in unfold h end ].

Lemma dump_pods_allowed svc i pods execs errs : preserves calls_R (dump_pods O svc i pods execs errs).
Proof. revert i execs errs. induction pods as [|pod pods IH]; intros i execs errs; cbn [dump_pods]; calls. Qed.
#[local] Hint Resolve dump_pods_allowed : preserves.
Lemma dumpExec_calls p : preserves calls_R (dumpExec O p).
Proof. calls. Qed.
Lemma mergeAllSvcExec_calls p : preserves calls_R (mergeAllSvcExec O p).
Proof. calls. Qed.
Lemma buildCallbackErrorMessage_calls p : preserves calls_R (buildCallbackErrorMessage O p).
Proof. calls. Qed.
Lemma callbackEndWithMessage_calls p msg :
  preserves calls_R (callbackEndWithMessage O Cfg url_Parse_error json_Marshal p msg).
Proof. calls. Qed.
#[local] Hint Resolve dumpExec_calls mergeAllSvcExec_calls buildCallbackErrorMessage_calls callbackEndWithMessage_calls : preserves.
Lemma loadClassSources_calls p :
  preserves calls_R (loadClassSources O Cfg url_Parse_error json_Marshal RetryOnConflict p).
Proof using RetryLaw0. calls. Qed.
#[local] Hint Resolve loadClassSources_calls : preserves.
Lemma report_calls p : preserves calls_R (report O Cfg url_Parse_error json_Marshal RetryOnConflict p).
Proof using RetryLaw0. calls. Qed.
#[local] Hint Resolve report_calls : preserves.
Lemma getServiceByDeploy_calls d : preserves calls_R (getServiceByDeploy O Cfg RetryOnConflict d).
Proof using RetryLaw0. calls. Qed.
Lemma reloadJarAddr_calls l : preserves calls_R (reloadJarAddr O Cfg l).
Proof. calls. Qed.
#[local] Hint Resolve getServiceByDeploy_calls reloadJarAddr_calls : preserves.
Lemma saveServices_calls l b : preserves calls_R (saveServices O Cfg l b).
Proof. calls. Qed.
#[local] Hint Resolve saveServices_calls : preserves.

Lemma goroutine_calls g : preserves calls_R (goroutine_code O Cfg url_Parse_error json_Marshal RetryOnConflict g).
Proof using RetryLaw0. destruct g; cbn [goroutine_code]; calls. Qed.
Lemma load_code_calls : preserves calls_R (load_code O Cfg RetryOnConflict).
Proof using RetryLaw0. calls. Qed.
Lemma event_code_calls c e : preserves calls_R (event_code O Cfg RetryOnConflict c e).
Proof using RetryLaw0. destruct e; cbn [event_code]; calls. Qed.
Lemma watch_code_calls : preserves calls_R (watch_code O Cfg url_Parse_error json_Unmarshal_detail RetryOnConflict).
Proof using RetryLaw0. calls. Qed.
End Calls.

(** ** Every reachable state *)

(** What all code does to the world holds of every history of the process. *)
Section AllCode.
Variable O : oracle.
Variable Cfg : Conf.
Variable url_Parse_error : string -> option error.
Variable json_Marshal : json -> string + error.
Variable json_Unmarshal_detail : string -> CodeCoverageExecRecordDetailResp + error.
Variable RetryOnConflict : retrier.

Abbreviation step := (step O Cfg url_Parse_error json_Marshal json_Unmarshal_detail RetryOnConflict).
Abbreviation reachable := (reachable O Cfg url_Parse_error json_Marshal json_Unmarshal_detail RetryOnConflict).

Variable R : world -> world -> Prop.
Context `{!PreOrder R}.
Hypothesis goroutine_R : forall g, preserves R (goroutine_code O Cfg url_Parse_error json_Marshal RetryOnConflict g).
Hypothesis load_R : preserves R (load_code O Cfg RetryOnConflict).
Hypothesis event_R : forall c e, preserves R (event_code O Cfg RetryOnConflict c e).
Hypothesis watch_R : preserves R (watch_code O Cfg url_Parse_error json_Unmarshal_detail RetryOnConflict).
Hypothesis spawned_R : forall gs w, R w (set_spawned gs w).

Record lawful (s : system) : Prop := {
  lawful_world : R empty_world (sys_world s);
  lawful_informer : preserves R (informer s);
  lawful_watcher : preserves R (watcher s);
  lawful_threads : Forall (fun t => preserves R t.2) (threads s);
}.

Lemma step_lawful s s' : lawful s -> step s s' -> lawful s'.
Proof using All.
  intros [Hw Hi Hwt Hts] Hstep. destruct Hstep as
    [w b i wt ts i' gs w' He _|w r wt ts|w c e wt ts|w i ts|w b i wt ts wt' gs w' He _
    |w b i wt ts g gs1 gs2 Hsp|w b i wt ts1 g p ts2 p' gs w' He
    |w b i wt ts e w' He|w b i wt ts e w' He|w b i wt ts1 g p ts2 e w' He]; cbn in *.
  - destruct (exec_preserves R _ _ _ _ Hi He) as [HR Hd]. destruct (Hd _ _ eq_refl) as [Hi' _].
    split; cbn; [by etrans|done..].
  - by split.
  - split; cbn; [done|apply event_R|done|done].
  - by split.
  - destruct (exec_preserves R _ _ _ _ Hwt He) as [HR Hd]. destruct (Hd _ _ eq_refl) as [Hwt' _].
    split; cbn; [by etrans|done..].
  - split; cbn; [etrans; [exact Hw|apply spawned_R]|done|done|]. apply Forall_app. split; [done|].
    constructor; [apply goroutine_R|done].
  - apply Forall_app in Hts as [Ht1 [Hp Ht2]%Forall_cons]. cbn in Hp.
    destruct (exec_preserves R _ _ _ _ Hp He) as [HR Hd]. destruct (Hd _ _ eq_refl) as [Hp' Hgs].
    split; cbn; [by etrans|done|done|]. apply Forall_app. split; [done|]. constructor; [done|].
    apply Forall_app. split; [done|]. by apply Forall_map.
  - destruct (exec_preserves R _ _ _ _ Hi He) as [HR _]. by split; [etrans| | |].
  - destruct (exec_preserves R _ _ _ _ Hwt He) as [HR _]. by split; [etrans| | |].
  - pose proof Hts as Hts'. apply Forall_app in Hts as [Ht1 [Hp Ht2]%Forall_cons]. cbn in Hp.
    destruct (exec_preserves R _ _ _ _ Hp He) as [HR _]. by split; [etrans| | |].
Qed.

Lemma reachable_lawful s : reachable s -> R empty_world (sys_world s).
Proof using All.
  intros H. assert (H0 : lawful (initial O Cfg RetryOnConflict)) by (split; [done|done|done|constructor]).
  enough (Hl : lawful s) by apply Hl.
  unfold System.reachable in H. revert H0. induction H as [|s1 s2 s3 Hs _ IH]; [done|]. intros Hs1. by eapply IH, step_lawful.
Qed.
End AllCode.

Section Authorized.
Context `{K8sTypes}.
Variable SetControllerReference : Agent -> ObjectMeta -> list OwnerReference.
Variable O : oracle.
Variable Cfg : Conf.
Variable url_Parse_error : string -> option error.
Variable json_Marshal : json -> string + error.
Variable json_Unmarshal_detail : string -> CodeCoverageExecRecordDetailResp + error.
Variable RetryOnConflict : retrier.
Context `{!RetryLaw RetryOnConflict}.

(** C8: the role that the operator generates for an agent suffices for it: in every history
    of the agent process, each call to Kubernetes is made in the configured namespace and is
    authorized by the generated role, binding and account exactly if that is the namespace
    of the agent object; the same holds of the list and the watch of the informer. *)
Theorem agent_calls_authorized (a : Agent) rs s :
  System.reachable O Cfg url_Parse_error json_Marshal json_Unmarshal_detail RetryOnConflict s ->
  let res := agent_resources SetControllerReference a rs in
  Forall (fun ac => authorized res ac <-> ProjectNs Cfg = Namespace (agent_meta a))
    (omap (fun e => call_access (ev_call e)) (history (sys_world s)) ++ informer_access Cfg).
Proof using RetryLaw0.
  intros Hr res.
  assert (Hl : calls_R Cfg empty_world (sys_world s)).
  { apply (reachable_lawful O Cfg url_Parse_error json_Marshal json_Unmarshal_detail RetryOnConflict
      (calls_R Cfg)); intros; [by apply goroutine_calls|by apply load_code_calls
      |by apply event_code_calls|by apply watch_code_calls|by apply same_history|done]. }
  destruct Hl as (l & -> & Hl). cbn [history empty_world app]. apply Forall_app. split.
  - clear Hr. induction Hl as [|e l He _ IH]; [constructor|]. cbn. unfold in_role in He.
    destruct (call_access (ev_call e)) as [ac|]; [|done]. destruct He as [Hns Hal]. constructor; [|done].
    unfold res. by rewrite authorized_resources, Hns.
  - unfold informer_access, res. rewrite !Forall_cons, Forall_nil.
    split_and!; try done; by apply authorized_resources.
Qed.
End Authorized.

(** ** Witnesses *)

#[local] Existing Instance text_k8s.

(** The start-up of an agent that is configured for namespace [ns] lists the pods of a
    service there, which the role of an agent object in [ns] allows. *)
Definition agent_in_ns : Agent :=
  MkAgent (MkMeta "agent-sample" "ns" None None None [] 7%N) (agent_Spec sample) (agent_Status sample).

Lemma agent_calls_authorized_witness :
  authorized (agent_resources no_refs agent_in_ns default_resources) (Access "ns" "" "pods" "list").
Proof.
  pose proof (agent_calls_authorized no_refs one_deploy_oracle demo_conf any_url plain_marshal (reports "running")
    retry_once agent_in_ns default_resources _ (loaded_reachable one_deploy_oracle "running")) as Hall.
  rewrite Forall_forall in Hall. apply Hall; [|reflexivity].
  apply elem_of_app. left.
  assert (He : (fun e => call_access (ev_call e)) <$> history (sys_world (loaded one_deploy_oracle "running")) !! 3 =
    Some (Some (Access "ns" "" "pods" "list"))) by (vm_compute; reflexivity).
  destruct (history (sys_world (loaded one_deploy_oracle "running")) !! 3) as [e|] eqn:Hh; [|discriminate He].
  injection He as He. apply list_elem_of_omap. exists e. split; [by eapply list_elem_of_lookup_2|exact He].
Defined.
