(* ===== verification/OperatorRbac.v ===== *)
(** * The operator may do what it does, and may grant what it grants

    The markers above [Reconcile] become the cluster role of the operator. A server that keeps
    a log stands for the API server's authorization: every write of every run must be covered
    by that role, and so must be every rule of a role the operator writes, since Kubernetes
    lets nobody grant what he does not have. *)

From stdpp Require Import base tactics option list gmap strings.
From S2P Require Import Prelude GoStrings AgentTypes Converter Goroutines Reconciler ReconcilerSpec ReconcilerRuns Operator ControlLoopExample Rbac.

Local Open Scope string_scope.

(** ** The role *)

(** The markers of agent_controller.go, one rule each. *)
Definition all_verbs : list string := ["get"; "list"; "watch"; "create"; "update"; "patch"; "delete"].
Definition rbac_markers : list PolicyRule :=
  [ MkPolicyRule ["sourcecov.erda.cloud"] ["agents"] all_verbs;
    MkPolicyRule ["sourcecov.erda.cloud"] ["agents/status"] ["get"; "update"; "patch"];
    MkPolicyRule ["sourcecov.erda.cloud"] ["agents/finalizers"] ["update"];
    MkPolicyRule ["apps"] ["deployments"] all_verbs;
    MkPolicyRule ["apps"] ["deployments/status"] ["get"; "update"; "patch"];
    MkPolicyRule ["apps"] ["statefulsets"] all_verbs;
    MkPolicyRule ["apps"] ["statefulsets/status"] ["get"; "update"; "patch"];
    MkPolicyRule ["rbac.authorization.k8s.io"] ["roles"] all_verbs;
    MkPolicyRule ["rbac.authorization.k8s.io"] ["rolebindings"] all_verbs;
    MkPolicyRule ["core"] ["serviceaccounts"] all_verbs;
    MkPolicyRule ["core"] ["pods"] ["get"; "list"; "watch"];
    MkPolicyRule ["core"] ["pods/exec"] ["create"] ].
(** The generator writes the group [core] as the empty one. *)
Definition generated (r : PolicyRule) : PolicyRule :=
  MkPolicyRule (map (fun g => if bool_decide (g = "core") then "" else g) (APIGroups r)) (rule_Resources r) (Verbs r).

(** The rules of [manager-role] in config/rbac/role.yaml. *)
Definition role_verbs : list string := ["create"; "delete"; "get"; "list"; "patch"; "update"; "watch"].
Definition manager_role : list PolicyRule :=
  [ MkPolicyRule ["apps"] ["deployments"] role_verbs;
    MkPolicyRule ["apps"] ["deployments/status"] ["get"; "patch"; "update"];
    MkPolicyRule ["apps"] ["statefulsets"] role_verbs;
    MkPolicyRule ["apps"] ["statefulsets/status"] ["get"; "patch"; "update"];
    MkPolicyRule [""] ["pods"] ["get"; "list"; "watch"];
    MkPolicyRule [""] ["pods/exec"] ["create"];
    MkPolicyRule [""] ["serviceaccounts"] role_verbs;
    MkPolicyRule ["rbac.authorization.k8s.io"] ["rolebindings"] role_verbs;
    MkPolicyRule ["rbac.authorization.k8s.io"] ["roles"] role_verbs;
    MkPolicyRule ["sourcecov.erda.cloud"] ["agents"] role_verbs;
    MkPolicyRule ["sourcecov.erda.cloud"] ["agents/finalizers"] ["update"];
    MkPolicyRule ["sourcecov.erda.cloud"] ["agents/status"] ["get"; "patch"; "update"] ].

(** [rs] allows all that [rs'] allows. *)
Definition grants (rs rs' : list PolicyRule) : Prop := forall ac, rules_allow rs' ac = true -> rules_allow rs ac = true.

(** A rule allows what it lists. *)
Lemma rule_allows_spec ac r :
  rule_allows ac r = true <-> ac_Group ac ∈ APIGroups r /\ ac_Resource ac ∈ rule_Resources r /\ ac_Verb ac ∈ Verbs r.
Proof. unfold rule_allows. rewrite !andb_true_iff, !bool_decide_eq_true. tauto. Qed.

(** Rules that are finite lists are compared by their entries. *)
Definition rule_entries (r : PolicyRule) : list (string * string * string) :=
  g ← APIGroups r; s ← rule_Resources r; v ← Verbs r; [(g, s, v)].
Definition entry_of (ac : access) : string * string * string := (ac_Group ac, ac_Resource ac, ac_Verb ac).

Lemma rules_allow_entries rs ac : rules_allow rs ac = true <-> entry_of ac ∈ rs ≫= rule_entries.
Proof.
  unfold rules_allow. rewrite existsb_exists, list_elem_of_bind. split.
  - intros (r & Hr & Ha). apply rule_allows_spec in Ha as (Hg & Hs & Hv). exists r.
    split; [|by apply list_elem_of_In]. unfold rule_entries, entry_of.
    apply list_elem_of_bind. exists (ac_Group ac). split; [|done]. apply list_elem_of_bind. exists (ac_Resource ac).
    split; [|done]. apply list_elem_of_bind. exists (ac_Verb ac). split; [|done]. by apply list_elem_of_singleton.
  - intros (r & Hin & Hr). exists r. split; [by apply list_elem_of_In|]. apply rule_allows_spec.
    unfold rule_entries, entry_of in Hin. apply list_elem_of_bind in Hin as (g & Hin & Hg).
    apply list_elem_of_bind in Hin as (s & Hin & Hs). apply list_elem_of_bind in Hin as (v & Hin & Hv).
    apply list_elem_of_singleton in Hin. by simplify_eq.
Qed.

(** The check of [grants] on the entries. *)
Definition covers (rs rs' : list PolicyRule) : bool :=
  forallb (fun e => existsb (fun e' => bool_decide (e = e')) (rs ≫= rule_entries)) (rs' ≫= rule_entries).
Lemma covers_grants rs rs' : covers rs rs' = true -> grants rs rs'.
Proof.
  unfold covers. rewrite forallb_forall. intros Hc ac. rewrite !rules_allow_entries. intros Hin%list_elem_of_In%Hc.
  apply existsb_exists in Hin as (e & He & Heq). apply bool_decide_eq_true in Heq as ->. by apply list_elem_of_In.
Qed.

(** ** The writes of a run *)

Section Writes.
Context `{K8sTypes} {W : Type} `{!ApiServer W}.
Variable SetControllerReference : Agent -> ObjectMeta -> list OwnerReference.
Variable json_Marshal : AgentSpec -> string + error.
Variable json_Unmarshal : string -> AgentSpec + error.
Variable StatefulSetList_Size : list StatefulSet -> Z.

(** Group and resource of an object. *)
Definition resource_of (o : client_object) : string * string :=
  match o with
  | ObjServiceAccount _ => ("", "serviceaccounts")
  | ObjRole _ => ("rbac.authorization.k8s.io", "roles")
  | ObjRoleBinding _ => ("rbac.authorization.k8s.io", "rolebindings")
  | ObjStatefulSet _ => ("apps", "statefulsets")
  | ObjAgent _ => (GroupVersion_Group, "agents")
  end.
Definition write_access (verb : string) (o : client_object) : access :=
  Access (Namespace (object_meta o)) (resource_of o).1 (resource_of o).2 verb.
Definition status_access (a : Agent) : access :=
  Access (Namespace (agent_meta a)) GroupVersion_Group "agents/status" "update".
(** A controller reference keeps its owner from being deleted first, which only he may ask for
    who may change the finalizers of the owner. *)
Definition finalizer_access (o : client_object) : access :=
  Access (Namespace (object_meta o)) GroupVersion_Group "agents/finalizers" "update".
(** What the cache behind the reads of [Reconcile] needs, and the watches of the controller. *)
Definition cache_access (ns : string) : list access :=
  [Access ns GroupVersion_Group "agents" "list"; Access ns GroupVersion_Group "agents" "watch";
   Access ns "apps" "statefulsets" "list"; Access ns "apps" "statefulsets" "watch"].

(** A write as the server sees it: what it needs, and the object. *)
Record logged := Logged { log_access : access; log_object : client_object }.

(** The server [W] with a log. *)
#[local] Instance logging : ApiServer (W * list logged) := {|
  api_GetAgent nn w := api_GetAgent nn w.1;
  api_GetStatefulSet nn w := api_GetStatefulSet nn w.1;
  api_ListStatefulSets ns labels w := api_ListStatefulSets ns labels w.1;
  api_Create o w := let (e, w') := api_Create o w.1 in (e, (w', w.2 ++ [Logged (write_access "create" o) o])%list);
  api_Update o w := let (e, w') := api_Update o w.1 in (e, (w', w.2 ++ [Logged (write_access "update" o) o])%list);
  api_UpdateStatus a w := let (e, w') := api_UpdateStatus a w.1 in (e, (w', w.2 ++ [Logged (status_access a) (ObjAgent a)])%list);
|}.

(** A write that the operator may do; the rules of a role must be its own. *)
Definition allowed (l : logged) : Prop :=
  rules_allow manager_role (log_access l) = true /\
  (OwnerReferences (object_meta (log_object l)) <> [] -> rules_allow manager_role (finalizer_access (log_object l)) = true) /\
  (forall r, log_object l = ObjRole r -> grants manager_role (Rules r)).
Definition log_R (w w' : W * list logged) : Prop := exists ls, w'.2 = (w.2 ++ ls)%list /\ Forall allowed ls.

#[local] Instance log_R_preorder : PreOrder log_R.
Proof.
  split.
  - intros w. exists []. by rewrite app_nil_r.
  - intros w1 w2 w3 (l1 & E1 & F1) (l2 & E2 & F2). exists (l1 ++ l2)%list. rewrite E2, E1, (assoc_L (++)%list).
    split; [done|]. by apply Forall_app.
Qed.

Lemma log_one e w w' ls l : allowed l -> log_R (w, ls) (snd (e : option api_error, (w', ls ++ [l])%list)).
Proof. intros Hl. exists [l]. by split; [|constructor]. Qed.

Lemma finalizers_allowed o : rules_allow manager_role (finalizer_access o) = true.
Proof. reflexivity. Qed.

Lemma write_allowed verb o :
  verb = "create" \/ verb = "update" -> (forall r, o = ObjRole r -> Rules r = agent_rules) ->
  allowed (Logged (write_access verb o) o).
Proof.
  intros Hv Hr. split_and!; [|intros _; apply finalizers_allowed|].
  - by destruct Hv as [-> | ->], o.
  - intros r Ho. rewrite (Hr r Ho). apply covers_grants. reflexivity.
Qed.

(** A role is one with the rules of the agent. *)
Definition agent_rules_only (o : client_object) : Prop := forall r, o = ObjRole r -> Rules r = agent_rules.

Lemma Create_logs o : agent_rules_only o -> preserves log_R (client_Create o).
Proof.
  intros Hr. apply preserves_await. intros [w ls]. cbn. destruct (api_Create o w) as [e w'].
  apply (log_one e w w' ls), write_allowed; [by left|done].
Qed.
Lemma Update_logs o : agent_rules_only o -> preserves log_R (client_Update o).
Proof.
  intros Hr. apply preserves_await. intros [w ls]. cbn. destruct (api_Update o w) as [e w'].
  apply (log_one e w w' ls), write_allowed; [by right|done].
Qed.
Lemma UpdateStatus_logs a : preserves log_R (client_UpdateStatus a).
Proof.
  apply preserves_await. intros [w ls]. cbn. destruct (api_UpdateStatus a w) as [e w'].
  apply (log_one e w w' ls). by split_and!.
Qed.
Lemma upsert_logs o : agent_rules_only o -> preserves log_R (upsertResource o).
Proof.
  intros Hr. apply preserves_bind; [by apply Create_logs|].
  intros [e|]; [|done]. destruct (IsAlreadyExists e); [by apply Update_logs|done].
Qed.

(** The writes of a plan, the role of which has the rules of the agent. *)
Ltac plan_logs :=
  repeat (apply return_if_err_preserves;
    [apply preserves_bind; [first [apply upsert_logs | apply Create_logs | apply Update_logs]; by intros ? [= <-]|done]|]);
  apply preserves_bind; [by apply Update_logs|done].

Lemma create_objects_logs a rs app :
  preserves log_R (create_objects json_Marshal (agent_resources SetControllerReference a rs) app).
Proof. unfold create_objects. plan_logs. Qed.
Lemma update_objects_logs a rs old app :
  preserves log_R (update_objects json_Marshal old (agent_resources SetControllerReference a rs) app).
Proof. unfold update_objects. plan_logs. Qed.

(** Others may write in between. *)
Abbreviation anything := (fun _ _ : W * list logged => True).
Abbreviation wp_log p := (wp log_R anything p (fun _ _ => True)).

Lemma logs_wp {A} (p : prog (W * list logged) A) w : preserves log_R p -> wp_log p w.
Proof. intros Hp. eapply wp_mono; [|by apply (wp_preserves log_R anything p (fun _ => True))]. done. Qed.

Lemma converted_logs a (k : AgentResources * Agent -> prog (W * list logged) (option error)) w :
  (forall rs app, preserves log_R (k (agent_resources SetControllerReference (FillDefaultValue a) rs, app))) ->
  wp_log (requeue (on_agent (ConvertAgent SetControllerReference) (FillDefaultValue a) ≫= k)) w.
Proof.
  intros Hk. destruct (fill_resources a) as [rs Hrs]. apply wp_bind, wp_bind. unfold on_agent.
  apply wp_local; rewrite ConvertAgent_run, Hrs; cbn; [reflexivity|]. intros ? [= <-].
  eapply wp_mono; [|by apply logs_wp]. by intros [e|] w' _.
Qed.

Lemma read_logs {A B} (f : W * list logged -> A) (k : A -> prog (W * list logged) B) w :
  (forall a w', wp_log (k a) w') -> wp_log (client_read f ≫= k) w.
Proof. intros Hk. apply wp_bind. intros w' _. split; [reflexivity|]. intros b [= <-]. apply Hk. Qed.

Lemma Reconcile_logs nn w :
  wp_log (Reconcile SetControllerReference json_Marshal json_Unmarshal StatefulSetList_Size nn) w.
Proof.
  unfold Reconcile. apply read_logs. intros [a|e] w1; [|by case_match]. case_bool_decide; [done|].
  apply read_logs. intros [old|e] w2.
  2: { destruct (IsNotFound e); [|done]. apply converted_logs. intros rs app. apply create_objects_logs. }
  destruct (json_Unmarshal _) as [s|e]; [|done]. case_bool_decide; cbn [negb].
  2: { apply converted_logs. intros rs app. apply update_objects_logs. }
  apply read_logs. intros [items|e] w3; [|done]. case_bool_decide; [done|]. destruct items; [by split|].
  case_bool_decide; [done|]. apply logs_wp, preserves_bind; [apply UpdateStatus_logs|done].
Qed.

(** C19: everything the operator writes in any run, whatever the API server answers, is allowed
    by the cluster role of config/rbac/role.yaml: the writes themselves, the controller
    references in them, and the rules of the role given to the agent, of which the operator
    has every one itself; so are the reads of its cache in every namespace. The role in the
    file allows exactly what the markers above [Reconcile] say. *)
Theorem operator_writes_authorized nn w o w' ls :
  Reconcile SetControllerReference json_Marshal json_Unmarshal StatefulSetList_Size nn (w, []) = (o, (w', ls)) ->
  Forall allowed ls /\ (forall ns, Forall (fun ac => rules_allow manager_role ac = true) (cache_access ns)) /\
  grants manager_role agent_rules /\
  (forall ac, rules_allow manager_role ac = rules_allow (map generated rbac_markers) ac).
Proof.
  intros Hr. destruct (wp_alone log_R anything (fun _ _ _ => I) _ _ _ _ _ (Reconcile_logs nn (w, [])) Hr) as [(ls' & Hls & Hall) _].
  cbn in Hls. subst ls'. split_and!; [done| |by apply covers_grants|].
  - intros ns. by repeat constructor.
  - intros ac. apply eq_bool_prop_intro. split; intros Ha%Is_true_true; apply Is_true_true;
      eapply covers_grants; [|exact Ha|..| |exact Ha]; reflexivity.
Qed.
End Writes.

(** ** A run that creates everything *)

#[local] Existing Instances text_k8s logging.

Definition logged_run : outcome (reconcile_result * option error) * (memory_server * list logged) :=
  Reconcile name_refs image_json image_spec encoded_size demo (before_run, []).

Lemma operator_writes_authorized_witness :
  Forall allowed logged_run.2.2 /\
  map (fun l => (ac_Resource (log_access l), ac_Verb (log_access l))) logged_run.2.2 =
    [("serviceaccounts", "create"); ("roles", "create"); ("rolebindings", "create"); ("statefulsets", "create");
     ("agents", "update")].
Proof.
  split; [|vm_compute; reflexivity].
  destruct (operator_writes_authorized name_refs image_json image_spec encoded_size demo before_run logged_run.1
    logged_run.2.1 logged_run.2.2) as [Hall _]; [|exact Hall].
  unfold logged_run. by destruct (Reconcile _ _ _ _ _ _) as [o [w ls]].
Defined.
