(* ===== verification/JobExamples.v ===== *)
(** * Concrete runs: the theorems on dumps, merges, reports and scheduling applied *)

From stdpp Require Import base tactics option list gmap strings.
From S2P Require Import Prelude GoStrings Goroutines NetHttp Conf AgentWorld Callback Services Jobs JobsEvolve JobsOrder Dumps Merges DumpRuns Reports Scheduling.

Local Open Scope string_scope.

(** Plan 1 with the given status, one service with one pod. *)
Definition plan1 (st : string) (lock : bool) : DetectionJob := MkJob 1 st "running" "" "" "" "" false lock.
Definition plan_world (st : string) (lock : bool) : world :=
  World {[KeyUint64 1 := 1%positive]} {[1%positive := plan1 st lock]}
    {["shop" := 1%positive]} {[1%positive := shop "shop:1" false]} ∅ [] [].

Lemma plan_world_ok st lock : svc_ok (plan_world st lock).
Proof.
  intros k l Hk. cbn in Hk. apply lookup_singleton_Some in Hk as [<- <-].
  exists (shop "shop:1" false). split; [apply lookup_singleton_eq|reflexivity].
Qed.

(** No pod can be reached. *)
Definition unreachable_oracle : oracle := fun A h c =>
  match c in call A return A -> A with
  | DialTimeout _ => fun _ => Some "refused"
  | _ => fun r => r
  end (good_oracle A h c).

(** The tool of the second argument of [java -jar] fails. *)
Definition tool_fails (tool : string) : oracle := fun A h c =>
  match c in call A return A -> A with
  | Run _ _ args => fun r => if bool_decide (args !! 2 = Some tool) then Some "exit status 1" else r
  | _ => fun r => r
  end (good_oracle A h c).

Lemma dump_service_spec_witness :
  let w' := (dump_service unreachable_oracle 1 "shop" (plan_world "running" false)).2 in
  exists calls files errs, dial_errors "shop" errs calls /\
    Forall (pod_outcome files errs calls) (Pods (shop "shop:1" false)) /\
    svc_heap w' <> svc_heap (plan_world "running" false).
Proof.
  cbv zeta. assert (Hne : svc_heap (dump_service unreachable_oracle 1 "shop" (plan_world "running" false)).2 <>
    svc_heap (plan_world "running" false)).
  { intros H. apply (f_equal (fun m => map HasError (from_option Pods [] (m !! 1%positive)))) in H. vm_compute in H. discriminate H. }
  destruct (dump_service_spec unreachable_oracle 1 "shop" (plan_world "running" false)
    (dump_service unreachable_oracle 1 "shop" (plan_world "running" false)).2 1%positive (shop "shop:1" false))
    as (prep & calls & _ & _ & [(_ & _ & H)|(dest & files & errs & err & _ & _ & Hpods & _ & Hdial & _)]).
  - reflexivity.
  - reflexivity.
  - reflexivity.
  - reflexivity.
  - apply run_of_outcome. vm_compute. reflexivity.
  - by destruct Hne.
  - exists calls, files, errs. split; [exact Hdial|]. split; [exact Hpods|exact Hne].
Defined.

Lemma failed_pod_dump_is_lost_witness :
  exists w', dump_service (tool_fails "dump") 1 "shop" (plan_world "running" false) = (Done tt, w') /\
    svc_heap w' = svc_heap (plan_world "running" false).
Proof.
  destruct (failed_pod_dump_is_lost (tool_fails "dump") 1 "shop" (plan_world "running" false) 1%positive
    (shop "shop:1" false) [] (MkPod "10.0.0.1" "pod-1" "app" "" false) []) as (w' & H1 & H2 & _).
  - reflexivity.
  - reflexivity.
  - reflexivity.
  - split; [reflexivity|]. split; [intros h; reflexivity|]. intros h f. eexists. reflexivity.
  - exists w'. split; [exact H1|exact H2].
Defined.

(** After the failed merge the dump is removed. *)
Lemma merge_service_spec_witness :
  let w' := (merge_service (tool_fails "merge") 1 ∅ "shop" (plan_world "running" false)).2 in
  exists names first rs, length rs = length (exec_files "/jacoco/work/1/shop" names) /\
    history w' = (first ++ removals (exec_files "/jacoco/work/1/shop" names) rs)%list.
Proof.
  cbv zeta.
  destruct (merge_service_spec (tool_fails "merge") 1 ∅ "shop" (plan_world "running" false)
    {["shop" := "/jacoco/work/1/shop/file.exec"]}
    (merge_service (tool_fails "merge") 1 ∅ "shop" (plan_world "running" false)).2 1%positive (shop "shop:1" false))
    as [(H & _)|(names & dest & err & rs & Hl & Hh & _)].
  - reflexivity.
  - reflexivity.
  - reflexivity.
  - reflexivity.
  - apply run_of_outcome. vm_compute. reflexivity.
  - apply (f_equal (fun m => m !! "shop")) in H. vm_compute in H. discriminate H.
  - exists names. eexists. exists rs. split; [exact Hl|]. rewrite Hh. rewrite !(assoc_L (++)%list). reflexivity.
Defined.

Lemma buildCallbackErrorMessage_spec_witness :
  exists msg w', buildCallbackErrorMessage good_oracle 1 (plan_world "ending" false) = (Done msg, w') /\
    String.length msg <= 1500.
Proof.
  destruct (buildCallbackErrorMessage_spec good_oracle 1 (plan_world "ending" false) 1%positive (plan1 "ending" false)
    (plan_world_ok _ _) eq_refl eq_refl) as (order & msg & w' & _ & _ & H & Hl & _).
  exists msg, w'. split; [exact H|exact Hl].
Defined.

Lemma loadClassSources_spec_witness :
  exists order, order ≡ₚ ["shop"] /\
    (loadClassSources good_oracle demo_conf any_url plain_marshal retry_once 1 (plan_world "running" false)).1
      = Done None.
Proof.
  destruct (loadClassSources_spec good_oracle demo_conf any_url plain_marshal retry_once 1
    (plan_world "running" false) (plan_world_ok _ _)) as (order & w1 & Hp & _).
  exists order. split; [exact Hp|vm_compute; reflexivity].
Defined.

Lemma dump_lock_balanced_witness :
  (dumpExec good_oracle 1 (plan_world "running" true)) = (Blocked, plan_world "running" true).
Proof.
  apply (dump_lock_balanced good_oracle 1 (plan_world "running" true) 1%positive eq_refl).
  exists (plan1 "running" true). split; reflexivity.
Defined.

Lemma ending_world : ending 1 1%positive (plan_world "ending" false).
Proof. split; [reflexivity|]. exists (plan1 "ending" false). split; reflexivity. Qed.


Lemma saveJob_new_plan_witness :
  exists l w', saveJob good_oracle (Some (MkDetail 2 7 "running" "" "" "")) (plan_world "running" false) = (Done tt, w') /\
    job_heap w' !! l = Some (new_detection_job (MkDetail 2 7 "running" "" "" "")) /\
    job_heap w' !! 1%positive = Some (job_cancelled (plan1 "running" false)).
Proof.
  destruct (saveJob_new_plan good_oracle (MkDetail 2 7 "running" "" "" "") (plan_world "running" false))
    as (l & w' & H & _ & Hl & Hc & _).
  - intros k l Hk. cbn in Hk. apply lookup_singleton_Some in Hk as [<- <-].
    exists 1%N, (plan1 "running" false). split; [reflexivity|]. split; reflexivity.
  - reflexivity.
  - exists l, w'. split; [exact H|]. split; [exact Hl|].
    apply (Hc (KeyUint64 1) 1%positive (plan1 "running" false)); reflexivity.
Defined.

Lemma monitor_reports_again_witness :
  exists w2, monitor_job good_oracle demo_conf any_url plain_marshal retry_once 1 (plan_world "ending" false) = (Done tt, w2) /\
    next_round 1 1%positive w2.
Proof.
  destruct (monitor_reports_again good_oracle demo_conf any_url plain_marshal retry_once 1 1%positive
    (plan1 "ending" false) (plan_world "ending" false)
    (report good_oracle demo_conf any_url plain_marshal retry_once 1 (plan_world "ending" false)).2)
    as (w2 & H & Hr); [reflexivity..| |].
  - apply run_of_outcome. vm_compute. reflexivity.
  - exists w2. split; [exact H|exact Hr].
Defined.

Lemma callbackEndWithMessage_spec_witness :
  exists w', callbackEndWithMessage good_oracle demo_conf any_url plain_marshal 1 "m" (plan_world "running" false)
      = (Done tt, w') /\ failed_at 1%positive (plan_world "running" false) w' /\ length (history w') = 1.
Proof.
  pose proof (callbackEndWithMessage_spec good_oracle demo_conf any_url plain_marshal 1 "m" (plan_world "running" false))
    as H. cbv zeta in H.
  change (RunJobs (plan_world "running" false) !! KeyUint64 1) with (Some 1%positive) in H. cbv beta match in H.
  destruct H as (w1 & w' & _ & _ & _ & H & Hf & Hh). exists w'. split; [exact H|]. split; [exact Hf|].
  destruct Hh as [(_ & [[e [=]]|[e [=]]])|(req & a & _ & ->)]. reflexivity.
Defined.
